(* ===== verification/_CoqProject ===== *)
-Q . S2P
Prelude.v
Job.v
Lease.v
Retry.v
Dlq.v
Heap.v
Store.v
MemoryStore.v
Metrics.v
Queue.v
GoStrings.v
Utf8.v
Json.v
JsonText.v
GoTime.v
Codec.v
Storage.v
Crypto.v
Auth.v
BoltStore.v
Broker.v
Config.v
Events.v
Consensus.v
Cron.v
Manager.v
Machine.v
Scheduler.v
Runner.v
Rpc.v
Engine.v
Handlers.v
Server.v
Executor.v
Worker.v
WorkerMain.v
Invariant.v
HandlerProofs.v
System.v
Wakeup.v
SchedulerSpec.v
EngineSpec.v
ServerSpec.v
Cluster.v
Link.v
Boot.v
Float64.v
Benchmark.v
FileLock.v
RequestContext.v
Telemetry.v
Process.v
Lifecycle.v
EndToEnd.v
Js.v
Dashboard.v
DashboardSpec.v
