(* ===== verification/Prelude.v ===== *)
(** * Quorum: a verification development of the job orchestration platform

    Quorum is a Go server that accepts jobs over HTTP, stores them, hands them
    to local or remote workers in priority order, retries failures with
    exponential back-off, recovers the jobs of dead workers and its own queues
    after a crash, and replicates job commands with Raft.  The sources are under
    [src/]; the paths below are relative to [src/internal/].

    ** The program and its model

    - Data.  [Job] ([job/job.go], [job/result.go]): jobs, statuses, the
      transition table, results, error values.  [Lease] ([job/lease.go]),
      [Retry] ([retry/policy.go]), [Dlq] ([dlq/dlq.go]), [Metrics]
      ([metrics/metrics.go]), [Config] ([config/config.go]).
    - The standard library, as far as the program calls it.  [GoStrings]
      ([strings], [strconv]), [Utf8], [Json] and [JsonText] (values, printing,
      parsing, indentation, torn texts), [GoTime] (RFC 3339), [Codec] ([Marshal]
      and [Unmarshal] of structs: the class [Struct] of types with JSON fields
      and their laws), [Crypto] (base64, SHA-256, HMAC).
    - Storage.  [Store] ([store/store.go]) has the Go interface as the class
      [StoreOps], an abstract store [Abs] with one operation per method, and the
      class [StoreLaws] of what a backend promises: a simulation to the abstract
      store.  [ReliableStore] adds that no call fails below the store and
      [StrictStore] that an id in use is refused.  [MemoryStore]
      ([store/memory_store.go]) is the in-memory backend and discharges all three;
      [BoltStore] ([store/bolt_store.go]) keeps JSON texts in
      the buckets of the bbolt library, itself the class [Bbolt] of transactions
      with their documented laws, and discharges the first.  [Storage]
      ([storage/wal.go], [snapshot.go]) has the write-ahead log and the snapshot
      file as bytes.
    - Queues.  [Heap] has the sift loops of Go's [container/heap] over
      [queue/heap.go], by well-founded recursion; [Queue] ([queue/queue.go],
      [priority.go], [delay.go]) adds comparators that read the store at each
      call, the notification channel and the depth gauge; a push, the count and
      the notification are three steps of a goroutine ([Machine.Enqueue]).
    - Workers.  [Broker] ([broker/broker.go]) routes by topic; [Manager]
      ([workermanager/manager.go]) keeps registrations, idle workers, heartbeats
      and the monitor; [Executor] ([executor/]) has the token bucket and the
      circuit breaker; [Runner] ([runner/runner.go]) executes a job; [Worker]
      ([worker/worker.go]) is the pool of local workers as a step relation;
      [Rpc] ([rpc/]) has both sides of the worker protocol, [Link]
      ([rpc/client/client.go], [rpc/proxy/]) the client's registration and
      heartbeat loop and the proxy of a remote worker, and [WorkerMain]
      ([cmd/worker/main.go]) the worker process's settings and executor.
    - Control.  [Cron] ([cron/cron.go]), [Events] ([events/broadcaster.go]),
      [Consensus] ([consensus/fsm.go], [raft.go]), [Scheduler]
      ([scheduler/scheduler.go]) and [Engine] ([engine/engine.go]).  [Boot] opens
      and stops a node on either backend, with its Raft node; [Lifecycle] has the
      goroutines of [Start], [watchLeadership] and [Stop] with their contexts, the
      places of their loops at which they look at them, and the wait group; [Cluster] is a step relation of several nodes over one
      replicated log; [Process] has the two [main] functions step by step.
    - The HTTP interface.  [Auth] ([auth/jwt.go], [middleware/auth.go]): tokens,
      roles and the authorizer.  [RequestContext] ([middleware/auth.go],
      [requestid.go]): the values the middleware passes down.  [Handlers] ([handlers/], [httpapi/]): one
      program per handler, from the bytes of the request to those of the
      response.  [Server] ([cmd/server/server.go], [middleware/], the event
      stream of [events/broadcaster.go]): the route table, the role guards, the
      middleware chain and the order of start-up.
    - Observation and tools.  [Telemetry] ([tracing/tracing.go], the spans of the
      runner, the workers and the middleware, the metrics registry) has a span
      as the list of calls made on it.  [FileLock] ([oteltest/oteltest.go]) is
      the lock file the tracing tests share.  [Benchmark]
      ([benchmark/benchmark.go]) has the load generator's arithmetic and
      experiments over [Float64], binary floating point on Stdlib's [SpecFloat].
    - The dashboard.  [Js] has the values, coercions and methods of JavaScript
      the page's script uses; [Dashboard] ([cmd/server/web/app.js], on the
      elements of [index.html]) has its functions as programs over the page that
      may throw, with the markup they write.

    Every component is a Module with its state as a Record and one definition
    per operation.  Components whose methods run under one mutex are pure
    functions of their state.  [Machine] puts them together: the record [State]
    of everything the goroutines of the process share, the type [act] of atomic
    calls (one critical section, channel operation or atomic counter each), and
    [prog], programs over such calls.  A handler of [Scheduler], [Engine],
    [Runner], [Rpc], [Handlers] or [Server] is a [prog] that follows the
    source call by call; [run] executes it alone.  Channels are bounded buffers;
    a full or empty channel takes the [default] branch of a [select], or blocks.
    A nil dereference or a negative shift count is [Panic].

    ** What the theorems show

    - The running node.  [Invariant] defines the invariant [core] of the shared
      state, with ghost "hands" for what goroutines in flight hold, and a
      thread-modular logic [wp] with one rule per atomic call; [HandlerProofs]
      proves each handler in it; [System] interleaves all goroutines of a
      standalone node call by call, both loops of the scheduler among them, with
      crashes and restarts at any point.  In every reachable configuration no
      pending job is lost, no scheduled one but those the delay loop took in
      place of another (a run in which it does is [System.delay_race_drops_job]),
      no goroutine has panicked but those serving the event stream, the next
      dequeued job has the highest priority, an idempotency key names one job,
      and a restart queues exactly the pending and scheduled jobs, each twice.
      [Wakeup] adds that a waiting loop never misses a queued job.
    - Handlers alone.  [SchedulerSpec] and [EngineSpec] give what each handler
      does on each branch: success, retry, exhaustion, dispatch, recovery of a
      dead worker, promotion of delayed jobs, idempotent submission, remote
      execution; and the behaviours listed as findings, among them that local
      failures are not retried and that a Raft leader does not queue what it
      acknowledges.
    - Jobs from beginning to end.  [EndToEnd] chains the handlers of the control
      node and of a worker process for a job that is alone on its node: one that
      always fails is sent out once more than its retries, with the pauses of the
      policy, and ends as a dead letter; one submitted over HTTP that succeeds
      reads back as completed.
    - Nodes over time.  [Cluster]: nodes whose stores only the log has written
      agree at the same point of it, whatever joins, departures, snapshots, reused
      ids and local writes there were, and one that has applied the log takes over
      by queueing exactly its pending and scheduled jobs; outcomes of jobs are not
      in the log, so a job can run again after a failover.  [Boot]: a process on a
      database comes back with its jobs, queues (twice filled without Raft) and id
      counter; a Raft snapshot on disk can take jobs back.  [Lifecycle]: with
      alternating leadership notices at most one dispatcher is active, and [Stop]
      waits for the goroutines [Start] has started and can always return; a missed
      notice leaves two dispatchers, and the scheduler's loops are not waited for.
      [Link]: a worker with timely heartbeats stays alive, a silent one is found
      within a period of the monitor's ticker and the latency of its ticks.
      [Process]: what precedes serving, and that the deferred [Stop] never runs.
    - Requests.  [Server] shows that nothing changes without the token of a
      submitter or an admin.  [ServerSpec] shows that the server enforces the
      documented role table, that every response is well typed, what submissions
      (new, repeated, scheduled, invalid) and cancellations answer and do, that
      a submitted job reads back, and that the cluster's counters are exact.
      [Auth] shows that tokens round-trip and that only signed, unexpired ones
      are accepted; [RequestContext] that the role check through the request's
      context is that decision.  Requests are among the goroutines of [System];
      one that panicked, as those for the event stream do, is ended there as
      net/http ends it.
    - The page.  [DashboardSpec] feeds the script with the server's answers: a
      poll of a node without authorization ends without an exception and shows
      the counters, workers, schedules and selected jobs of the node whatever the
      page showed before; with authorization no poll gets past the job counters.
      One tab is open at a time, an event becomes a line of the log, and the
      simulator and the drawing show what the server never said.
    - Components.  [MemoryStore] answers any sequence of reads and writes as the
      abstract store does and keeps its status index exact; [BoltStore] refines it up to
      calls that fail without effect, and survives a restart; the log replays,
      also after a crash in the middle of an append ([Storage]); on every lawful
      store a terminal status is final and statuses follow the table ([Store]);
      a queue sorts ([Queue]); selection and routing ([Broker]); failure detection and
      the worker gauge ([Manager]); acceptance of jobs by local workers and the
      window in which one is lost ([Worker]); topics of the environment
      ([WorkerMain]); lease release ([Lease]); back-off bounds and
      overflow ([Retry]); cron ticks and next-run times ([Cron]); breaker and
      rate limit ([Executor]); slow subscribers ([Events]); agreement of
      replicas and snapshots ([Consensus]); spans that tell the outcome and
      statuses that were sent ([Telemetry]); exclusion by the lock file and the
      races on a stale one ([FileLock]); percentiles, failure rates, the
      jobs submitted and counted and the recovery experiment ([Benchmark]).

    ** Bounds, fuel and assumptions

    Go's [int] and [int64] are [Z] with the wrap-around of [wrap64] where the
    code computes with them; [int32] appears on the wire ([wrap32]).  Times are
    nanoseconds since Go's zero time; the zone of the wall clock is a parameter
    where a component reads calendar fields.  The order in which Go ranges over
    a map is the parameter [GoRange], any permutation.  The sift loops and
    [Cron.nextRun] are total functions.  [Scheduler.ProcessDelayedJobs] takes a
    number of turns; one more than the queue's length is enough
    ([SchedulerSpec.delayed_jobs_promoted]).  The loops of [Link], [Lifecycle],
    [FileLock] and [Benchmark] run over an arbitrary finite sequence of events,
    ticks or polls.  Percentiles are compared with their definition for up to two
    thousand values, which is above what the program measures in a run.

    The Raft library, worker connections, the executed jobs and contexts are
    the fields of [Machine.Env], chosen anew at every call of a run.  [System]
    covers a standalone node and assumes that the scheduler's context is not
    cancelled and that job ids stay below the largest [int].  [Engine.DeleteJob]
    has no caller in the server and is not among the steps.  [System] and
    [Cluster] are over reliable stores, [Cluster] over strict ones as well.

    Numbers beyond JavaScript's safe integers, the case of letters and the times
    of the user's locale are the class [Js.Engine]; a poll's requests are
    answered in one state of the node.

    Requests have an ASCII path without escapes.  The dashboard's files, the
    Prometheus page and the status of the multiplexer's own redirects are
    parameters of [Server]; the offset of the zone a time is printed in is the
    parameter [located].  The event stream is run for a chosen number of events.
    Writes to a file may be short or fail; reads of the log succeed.

    ** Not modelled

    Generated protobuf code, the connections of gRPC, elections, transport and
    log storage of the Raft library, the histogram and the text format of the
    Prometheus library, the style sheet and the static text of the web page, log
    lines other than those of requests, the spans of the scheduler, the engine
    and the Raft node, and the printing of the benchmark command: calls of
    libraries, or output without effect on the state above. *)

From stdpp Require Export base tactics option list gmap strings pretty.
From Stdlib Require Export ZArith Lia.

Create HintDb quorum discriminated.
Create Rewrite HintDb quorum.

(** ** Fixed-width integers

    Go's [int] and [int64] are 64-bit two's complement on the platforms the
    server is built for; [int32] appears on the wire only. *)
Section Width.
Local Open Scope Z_scope.

Definition wrap (w : Z) (z : Z) : Z := (z + 2 ^ (w - 1)) mod 2 ^ w - 2 ^ (w - 1).
Definition wrap64 (z : Z) : Z := wrap 64 z.
Definition wrap32 (z : Z) : Z := wrap 32 z.

Definition maxInt64 : Z := 2 ^ 63 - 1.
Definition minInt64 : Z := - 2 ^ 63.
Definition in_int64 (z : Z) : Prop := minInt64 ≤ z ≤ maxInt64.
#[global] Instance in_int64_dec z : Decision (in_int64 z).
Proof. unfold in_int64. apply _. Defined.

Lemma wrap64_id z : in_int64 z → wrap64 z = z.
Proof.
  unfold in_int64, minInt64, maxInt64, wrap64, wrap. intros.
  rewrite Z.mod_small; lia.
Qed.

Lemma wrap64_range z : in_int64 (wrap64 z).
Proof.
  unfold in_int64, minInt64, maxInt64, wrap64, wrap.
  pose proof (Z.mod_pos_bound (z + 2 ^ (64 - 1)) (2 ^ 64)). lia.
Qed.

Definition in_int32 (z : Z) : Prop := - 2 ^ 31 ≤ z ≤ 2 ^ 31 - 1.

Lemma wrap32_id z : in_int32 z → wrap32 z = z.
Proof. unfold in_int32, wrap32, wrap. intros. rewrite Z.mod_small; lia. Qed.

(** [1 << n] at type [int64]: a negative count panics ([None]); a count of 64
    or more shifts every bit out. *)
Definition shl1_64 (n : Z) : option Z :=
  if n <? 0 then None else if 64 <=? n then Some 0 else Some (wrap64 (2 ^ n)).
End Width.

(** ** Time

    A [time.Time] is the number of nanoseconds since the zero time, so that
    [IsZero], [Before], [After] and [Add] are the operations of [Z]. *)
Abbreviation Time := Z (only parsing).
Abbreviation Duration := Z (only parsing).
Definition time_zero : Time := 0%Z.
Definition Second : Duration := 1000000000%Z.
Definition Millisecond : Duration := 1000000%Z.
Definition Minute : Duration := (60 * Second)%Z.

(** ** Buffered channels

    A channel is its buffer, oldest first, and its capacity.  [try_send] and
    [try_recv] are the [select] statements with a [default] branch. *)
Record chan (A : Type) := Chan { buf : list A; cap : nat }.
Arguments Chan {A} _ _.
Arguments buf {A} _.
Arguments cap {A} _.

Definition try_send {A} (c : chan A) (x : A) : chan A * bool :=
  if decide (length (buf c) < cap c)
  then (Chan (buf c ++ [x]) (cap c), true)
  else (c, false).

Definition try_recv {A} (c : chan A) : option (A * chan A) :=
  match buf c with
  | [] => None
  | x :: rest => Some (x, Chan rest (cap c))
  end.

Definition chan_ok {A} (c : chan A) : Prop := length (buf c) ≤ cap c.

Lemma try_send_room {A} (c : chan A) x :
  length (buf c) < cap c → try_send c x = (Chan (buf c ++ [x]) (cap c), true).
Proof. intros. unfold try_send. by rewrite decide_True. Qed.

Lemma try_send_ok {A} (c : chan A) x : chan_ok c → chan_ok (try_send c x).1.
Proof.
  unfold chan_ok, try_send. intros. case_decide; simpl; [|done].
  rewrite length_app. simpl. lia.
Qed.

(** ** Ranging over a map

    Go leaves the iteration order of a map unspecified.  Every definition that
    ranges over a map takes the order from this class, and every theorem about
    it holds for all instances. *)
Class GoRange := {
  go_range : ∀ {K A : Type} `{Countable K}, gmap K A → list (K * A);
  go_range_perm : ∀ {K A : Type} `{Countable K} (m : gmap K A),
    go_range m ≡ₚ map_to_list m
}.

(** One admissible order, used where a concrete run is evaluated. *)
Definition canonical_range : GoRange.
Proof. refine {| go_range := λ _ _ _ _ m, map_to_list m |}. done. Defined.

Section GoRange.
Context `{GoRange} {K A : Type} `{Countable K}.
Implicit Types m : gmap K A.

Lemma elem_of_go_range m k x : (k, x) ∈ go_range m ↔ m !! k = Some x.
Proof. by rewrite go_range_perm, elem_of_map_to_list. Qed.

Lemma NoDup_go_range m : NoDup (go_range m).
Proof. rewrite go_range_perm. apply NoDup_map_to_list. Qed.

Lemma NoDup_go_range_keys m : NoDup (go_range m).*1.
Proof. rewrite go_range_perm. apply NoDup_fst_map_to_list. Qed.

Lemma length_go_range m : length (go_range m) = size m.
Proof. rewrite go_range_perm. apply length_map_to_list. Qed.

Lemma elem_of_go_range_values m x : x ∈ (go_range m).*2 ↔ ∃ k, m !! k = Some x.
Proof.
  rewrite list_elem_of_fmap. split.
  - intros ([k y] & -> & Hy%elem_of_go_range). eauto.
  - intros [k Hk%elem_of_go_range]. by exists (k, x).
Qed.
End GoRange.

#[export] Hint Rewrite @elem_of_go_range @elem_of_go_range_values @length_go_range : quorum.

(** Writing a list of entries with distinct keys into a map, one by one. *)
Lemma foldl_insert_lookup `{Countable K} {V} (l : list (K * V)) (m : gmap K V) k :
  NoDup l.*1 →
  (∀ v, (k, v) ∈ l → foldl (λ m e, <[e.1 := e.2]> m) m l !! k = Some v) ∧
  (k ∉ l.*1 → foldl (λ m e, <[e.1 := e.2]> m) m l !! k = m !! k).
Proof.
  revert m. induction l as [|[k' v'] l IH]; intros m Hnd; cbn [foldl fmap list_fmap fst snd] in *.
  { split; [by intros v ?%elem_of_nil|done]. }
  apply NoDup_cons in Hnd as [Hni Hnd]. destruct (IH (<[k' := v']> m) Hnd) as [H1 H2]. split.
  - intros v [[= -> ->]|Hin]%elem_of_cons; [|by apply H1].
    rewrite H2 by done. by rewrite lookup_insert_eq.
  - intros [Hne Hn]%not_elem_of_cons. rewrite H2 by done. by rewrite lookup_insert_ne.
Qed.
