(* ===== verification/Job.v ===== *)
(** * The job data model: [internal/job/job.go], [internal/job/result.go]

    The persistent status of a job, the job record, the transition table every
    store checks, the result of one execution attempt, and the Go [error]
    values the components pass around. *)

From S2P Require Import Prelude.

(** A [Status] is a string type in the source, with five named values; a job
    built by a struct literal has the empty status. *)
Definition Status := string.
#[export] Instance Status_eq_dec : EqDecision Status := _.

Definition Pending : Status := "PENDING".
Definition Scheduled : Status := "SCHEDULED".
Definition Completed : Status := "COMPLETED".
Definition Failed : Status := "FAILED".
Definition Cancelled : Status := "CANCELLED".

Record Job := mkJob {
  ID : Z;
  JType : string;
  Priority : Z;
  JStatus : Status;
  RetryCount : Z;
  MaxRetries : Z;
  NextRunAt : Time;
  LastError : string;
  IdempotencyKey : string
}.

#[export] Instance Job_eq_dec : EqDecision Job.
Proof. solve_decision. Defined.

(** [job.Job{}], which a failed lookup returns next to [false]. *)
Definition zeroJob : Job := mkJob 0 "" 0 "" 0 0 time_zero "" "".

(** Field assignments of the source, on the value copies Go passes around. *)
Definition with_status (j : Job) (st : Status) : Job :=
  mkJob (ID j) (JType j) (Priority j) st (RetryCount j) (MaxRetries j)
    (NextRunAt j) (LastError j) (IdempotencyKey j).
Definition with_retry (j : Job) (n : Z) : Job :=
  mkJob (ID j) (JType j) (Priority j) (JStatus j) n (MaxRetries j)
    (NextRunAt j) (LastError j) (IdempotencyKey j).
Definition with_nextRunAt (j : Job) (t : Time) : Job :=
  mkJob (ID j) (JType j) (Priority j) (JStatus j) (RetryCount j) (MaxRetries j)
    t (LastError j) (IdempotencyKey j).
Definition with_lastError (j : Job) (e : string) : Job :=
  mkJob (ID j) (JType j) (Priority j) (JStatus j) (RetryCount j) (MaxRetries j)
    (NextRunAt j) e (IdempotencyKey j).
Definition with_key (j : Job) (k : string) : Job :=
  mkJob (ID j) (JType j) (Priority j) (JStatus j) (RetryCount j) (MaxRetries j)
    (NextRunAt j) (LastError j) k.

Definition NewJob (id : Z) (jobType : string) (priority : Z) : Job :=
  mkJob id jobType priority Pending 0 3 time_zero "" "".

(** [IsValidTransition]: the legality table. *)
Definition IsValidTransition (current next : Status) : bool :=
  if decide (current = next) then true
  else if decide (current = Pending) then
    bool_decide (next = Scheduled) || bool_decide (next = Completed) ||
    bool_decide (next = Failed) || bool_decide (next = Cancelled)
  else if decide (current = Scheduled) then
    bool_decide (next = Pending) || bool_decide (next = Cancelled)
  else false.

(** The three terminal statuses, as [Cancel] and the dispatch loop test them. *)
Definition is_terminal (st : Status) : bool :=
  bool_decide (st = Completed) || bool_decide (st = Failed) || bool_decide (st = Cancelled).

Definition known_status (st : Status) : bool :=
  bool_decide (st = Pending) || bool_decide (st = Scheduled) || is_terminal st.

(** ** Errors

    One constructor per error the modelled code builds; the texts do not
    matter to any caller.  [ErrStorage] is a failure of the storage engine
    below a store (bbolt or the JSON codec), [ErrRemote] an error of a call to
    another process. *)
Inductive error :=
  | ErrJobExists (id : Z)
  | ErrNotFoundForUpdate (id : Z)
  | ErrInvalidTransition (current next : Status) (id : Z)
  | ErrJobNotFound
  | ErrTerminal (st : Status)
  | ErrStorage (msg : string)
  | ErrNotLeader
  | ErrMarshal
  | ErrRaftApply (msg : string)
  | ErrUnmarshal
  | ErrContextCanceled
  | ErrWorkerBusy
  | ErrRemote (msg : string)
  | ErrCron (msg : string).

#[export] Instance error_eq_dec : EqDecision error.
Proof. solve_decision. Defined.

(** A Go [error] result: [None] is [nil]. *)
Abbreviation err := (option error).

(** The errors of an executor, whose texts end up in [LastError]. *)
Inductive exec_error :=
  | ExecCanceled
  | ExecCircuitOpen
  | ExecFailed (msg : string).

#[export] Instance exec_error_eq_dec : EqDecision exec_error.
Proof. solve_decision. Defined.

(** [err.Error()]. *)
Definition exec_text (e : exec_error) : string :=
  match e with
  | ExecCanceled => "context canceled"
  | ExecCircuitOpen => "circuit breaker is open"
  | ExecFailed msg => msg
  end.

(** ** Results of an execution attempt: [internal/job/result.go] *)
Record Result := mkResult {
  RJobID : Z;
  RSuccess : bool;
  RError : option string;   (** the text of [Error], [None] for [nil] *)
  RAttempt : Z
}.

(** ** Facts about the transition table *)

Lemma is_terminal_spec st :
  is_terminal st = true ↔ st = Completed ∨ st = Failed ∨ st = Cancelled.
Proof. unfold is_terminal.
  rewrite !orb_true_iff, !bool_decide_eq_true. tauto. Qed.

(** The table as a relation. *)
Lemma IsValidTransition_spec st next :
  IsValidTransition st next = true ↔
    next = st
    ∨ st = Pending ∧ (next = Scheduled ∨ next = Completed ∨ next = Failed ∨ next = Cancelled)
    ∨ st = Scheduled ∧ (next = Pending ∨ next = Cancelled).
Proof.
  unfold IsValidTransition.
  destruct (decide (st = next)) as [->|]; [naive_solver|].
  destruct (decide (st = Pending)) as [->|].
  { rewrite !orb_true_iff, !bool_decide_eq_true. naive_solver. }
  destruct (decide (st = Scheduled)) as [->|]; [|naive_solver].
  rewrite !orb_true_iff, !bool_decide_eq_true. naive_solver.
Qed.

Lemma terminal_absorbing st next :
  is_terminal st = true → IsValidTransition st next = true → next = st.
Proof. rewrite is_terminal_spec, IsValidTransition_spec. naive_solver. Qed.

Lemma valid_transition_refl st : IsValidTransition st st = true.
Proof. rewrite IsValidTransition_spec. auto. Qed.

Lemma known_status_spec st :
  known_status st = true ↔ st = Pending ∨ st = Scheduled ∨ is_terminal st = true.
Proof.
  unfold known_status. rewrite !orb_true_iff, !bool_decide_eq_true. naive_solver.
Qed.

(** A legal transition never leaves the five named statuses. *)
Lemma valid_transition_known st next :
  known_status st = true → IsValidTransition st next = true → known_status next = true.
Proof.
  rewrite !known_status_spec, !is_terminal_spec, IsValidTransition_spec. naive_solver.
Qed.

#[export] Hint Resolve terminal_absorbing valid_transition_refl : quorum.
