(* ===== verification/Lease.v ===== *)
(** * Execution leases: [internal/job/lease.go]

    The leader-local table of execution claims.  A [*Lease] is never mutated
    after [Acquire] builds it, so the table holds values. *)

From S2P Require Import Prelude Job.

Module Lease.

Record Lease := mkLease {
  JobID : Z;
  WorkerID : Z;
  Term : Z;
  Attempt : Z;
  StartedAt : Time
}.

#[export] Instance Lease_eq_dec : EqDecision Lease.
Proof. solve_decision. Defined.

Record LeaseManager := mkLeases { leases : gmap Z Lease }.

Definition NewLeaseManager : LeaseManager := mkLeases ∅.

(** [Acquire]: [now] is the clock reading of the call. *)
Definition Acquire (lm : LeaseManager) (jobID workerID term attempt : Z) (now : Time)
  : LeaseManager :=
  mkLeases (<[jobID := mkLease jobID workerID term attempt now]> (leases lm)).

Definition Get (lm : LeaseManager) (jobID : Z) : option Lease := leases lm !! jobID.

Definition Release (lm : LeaseManager) (jobID : Z) : LeaseManager :=
  mkLeases (delete jobID (leases lm)).

Definition Clear (lm : LeaseManager) : LeaseManager := mkLeases ∅.

Section Range.
Context `{GoRange}.

(** The loop of [ReleaseByWorker] over the entries [range] visits. *)
Fixpoint releaseLoop (workerID : Z) (es : list (Z * Lease)) (m : gmap Z Lease)
    (released : list Z) : gmap Z Lease * list Z :=
  match es with
  | [] => (m, released)
  | (jobID, lease) :: es =>
      if decide (WorkerID lease = workerID)
      then releaseLoop workerID es (delete jobID m) (released ++ [jobID])
      else releaseLoop workerID es m released
  end.

Definition ReleaseByWorker (lm : LeaseManager) (workerID : Z) : LeaseManager * list Z :=
  let '(m, released) := releaseLoop workerID (go_range (leases lm)) (leases lm) [] in
  (mkLeases m, released).

(** ** Facts *)

Lemma releaseLoop_spec w es m rel :
  releaseLoop w es m rel =
    (foldl (λ m k, delete k m) m (filter (λ e, WorkerID e.2 = w) es).*1,
     rel ++ (filter (λ e, WorkerID e.2 = w) es).*1).
Proof.
  revert m rel. induction es as [|[k l] es IH]; intros m rel; simpl.
  { by rewrite app_nil_r. }
  rewrite filter_cons. simpl. case_decide; rewrite IH; simpl; [|done].
  by rewrite <-app_assoc.
Qed.

Lemma foldl_delete_lookup (ks : list Z) (m : gmap Z Lease) k :
  foldl (λ m k, delete k m) m ks !! k = if decide (k ∈ ks) then None else m !! k.
Proof.
  revert m. induction ks as [|k' ks IH]; intros m; cbn [foldl].
  { by rewrite decide_False by set_solver. }
  rewrite IH. destruct (decide (k ∈ ks)) as [|Hk].
  { by rewrite decide_True by set_solver. }
  destruct (decide (k = k')) as [->|Hne].
  - rewrite lookup_delete_eq. by rewrite decide_True by set_solver.
  - rewrite lookup_delete_ne by done. by rewrite decide_False by set_solver.
Qed.

Lemma released_keys lm w k :
  k ∈ (filter (λ e : Z * Lease, WorkerID e.2 = w) (go_range (leases lm))).*1 ↔
    ∃ l, leases lm !! k = Some l ∧ WorkerID l = w.
Proof.
  rewrite list_elem_of_fmap. split.
  - intros ([k' l] & -> & [Hw Hin]%list_elem_of_filter). simpl in *.
    apply elem_of_go_range in Hin. eauto.
  - intros (l & Hl & Hw). exists (k, l). split; [done|].
    apply list_elem_of_filter. split; [done|]. by apply elem_of_go_range.
Qed.

(** The ids [ReleaseByWorker] reports are those whose lease the worker held,
    each exactly once. *)
Lemma ReleaseByWorker_ids lm w lm' ids :
  ReleaseByWorker lm w = (lm', ids) →
  NoDup ids ∧ ∀ k, k ∈ ids ↔ ∃ l, leases lm !! k = Some l ∧ WorkerID l = w.
Proof.
  unfold ReleaseByWorker. rewrite releaseLoop_spec. intros [= _ <-]. simpl. split.
  - eapply sublist_NoDup; [apply (NoDup_go_range_keys (leases lm))|].
    apply fmap_sublist, sublist_filter.
  - apply released_keys.
Qed.

(** What remains is exactly the leases of the other workers. *)
Lemma ReleaseByWorker_leases lm w lm' ids k :
  ReleaseByWorker lm w = (lm', ids) →
  leases lm' !! k =
    match leases lm !! k with
    | Some l => if decide (WorkerID l = w) then None else Some l
    | None => None
    end.
Proof.
  unfold ReleaseByWorker. rewrite releaseLoop_spec. intros [= <- _]. simpl.
  rewrite foldl_delete_lookup. destruct (leases lm !! k) as [l|] eqn:Hl.
  - destruct (decide (WorkerID l = w)).
    + rewrite decide_True; [done|]. apply released_keys; eauto.
    + rewrite decide_False; [done|]. rewrite released_keys. naive_solver.
  - by case_decide.
Qed.

(** Failover releases exactly the dead worker's leases: [ReleaseByWorker]
    reports each of them once, removes them, and keeps every other lease. *)
Theorem ReleaseByWorker_exact lm w :
  let '(lm', ids) := ReleaseByWorker lm w in
  NoDup ids ∧
  (∀ k, k ∈ ids ↔ ∃ l, Get lm k = Some l ∧ WorkerID l = w) ∧
  (∀ k, Get lm' k = if decide (k ∈ ids) then None else Get lm k).
Proof.
  destruct (ReleaseByWorker lm w) as [lm' ids] eqn:E.
  destruct (ReleaseByWorker_ids _ _ _ _ E) as [Hn Hids]. split_and!; [done|done|].
  intros k. unfold Get. rewrite (ReleaseByWorker_leases _ _ _ _ k E).
  destruct (leases lm !! k) as [l|] eqn:Hl; case_decide as Hd; try case_decide as Hw; try done.
  - exfalso. apply Hw, Hids. eauto.
  - apply Hids in Hw as (l' & Hl' & Hw'). congruence.
Qed.
End Range.

End Lease.
