(* ===== verification/Retry.v ===== *)
(** * Retry policy: [internal/retry/policy.go]

    Exponential back-off on 64-bit durations, with the wrap-around of the
    multiplication written out. *)

From S2P Require Import Prelude Job.
Local Open Scope Z_scope.

Module Retry.

Definition ShouldRetry (j : Job) : bool := RetryCount j <? MaxRetries j.

(** [None] is the run-time panic of a negative shift count. *)
Definition Backoff (j : Job) (maxBackoff : Duration) : option Duration :=
  match shl1_64 (RetryCount j) with
  | None => None
  | Some p =>
      let delay := wrap64 (Second * p) in
      Some (if maxBackoff <? delay then maxBackoff else delay)
  end.

Definition NextRetryTime (j : Job) (maxBackoff : Duration) (now : Time) : option Time :=
  match Backoff j maxBackoff with
  | None => None
  | Some d => Some (now + d)
  end.

Lemma NextRetryTime_defined j maxB now :
  0 ≤ RetryCount j → is_Some (NextRetryTime j maxB now).
Proof.
  intros Hr. unfold NextRetryTime, Backoff, shl1_64.
  destruct (Z.ltb_spec (RetryCount j) 0); [lia|].
  destruct (_ <=? _); eauto.
Qed.

(** Up to 33 retries the product stays below [2^63]. *)
Lemma Backoff_exact j maxB :
  0 ≤ RetryCount j ≤ 33 → Backoff j maxB = Some (Z.min maxB (2 ^ RetryCount j * Second)).
Proof.
  intros Hr. unfold Backoff, shl1_64.
  assert (Hp : 0 < 2 ^ RetryCount j ≤ 2 ^ 33).
  { split; [apply Z.pow_pos_nonneg; lia|apply Z.pow_le_mono_r; lia]. }
  change (2 ^ 33) with 8589934592 in Hp.
  destruct (Z.ltb_spec (RetryCount j) 0); [lia|].
  destruct (Z.leb_spec 64 (RetryCount j)); [lia|].
  rewrite (wrap64_id (2 ^ _)) by (unfold in_int64, minInt64, maxInt64; lia).
  rewrite wrap64_id by (unfold in_int64, minInt64, maxInt64, Second; lia).
  f_equal. destruct (Z.ltb_spec maxB (Second * 2 ^ RetryCount j)); lia.
Qed.

(** Exponential backoff: up to 33 retries the delay is two to the retry
    count in seconds, capped; so the retry never runs early. *)
Theorem backoff_exponential j maxB now :
  0 ≤ RetryCount j ≤ 33 →
  NextRetryTime j maxB now = Some (now + Z.min maxB (2 ^ RetryCount j * Second)).
Proof. intros Hr. unfold NextRetryTime. by rewrite Backoff_exact. Qed.

Lemma backoff_exponential_witness :
  NextRetryTime (with_retry (NewJob 1 "email" 5) 3) Minute 100 = Some (100 + 8 * Second).
Proof. apply (backoff_exponential (with_retry (NewJob 1 "email" 5) 3) Minute 100). simpl. lia. Defined.

(** The cap does not hold beyond that: at 34 retries the product overflows
    and the next run lies in the past. *)
Theorem backoff_overflows j now :
  RetryCount j = 34 → ∃ t, NextRetryTime j Minute now = Some t ∧ t < now.
Proof.
  intros Hr. unfold NextRetryTime, Backoff. rewrite Hr.
  exists (now - 1266874889709551616). split; [|lia].
  replace (now - 1266874889709551616) with (now + -1266874889709551616) by lia. reflexivity.
Qed.

Lemma backoff_overflows_witness :
  ∃ t, NextRetryTime (with_retry (NewJob 1 "email" 5) 34) Minute 0 = Some t ∧ t < 0.
Proof. apply (backoff_overflows (with_retry (NewJob 1 "email" 5) 34) 0). reflexivity. Defined.

End Retry.
