(* ===== verification/Dlq.v ===== *)
(** * Dead-letter queue: [internal/dlq/dlq.go] *)

From S2P Require Import Prelude Job.

Module Dlq.

Record DeadLetterQueue := mkDLQ { jobs : gmap Z Job }.

Definition New : DeadLetterQueue := mkDLQ ∅.

Definition Add (d : DeadLetterQueue) (j : Job) : DeadLetterQueue :=
  mkDLQ (<[ID j := j]> (jobs d)).

Definition Get (d : DeadLetterQueue) (id : Z) : option Job := jobs d !! id.

Definition List `{GoRange} (d : DeadLetterQueue) : list Job := (go_range (jobs d)).*2.

Definition Delete (d : DeadLetterQueue) (id : Z) : DeadLetterQueue :=
  mkDLQ (delete id (jobs d)).

End Dlq.
