(* ===== verification/Heap.v ===== *)
(** * Binary heaps: Go's [container/heap] over [internal/queue/heap.go]

    [Heap] holds job ids in an array and compares them through a comparator
    that reads the job store.  The comparator is the parameter [less] here; the
    sift loops of [container/heap] are defined by well-founded recursion, so
    they are total and evaluate. *)

From S2P Require Import Prelude.
From Equations Require Import Equations.

Module Heap.

Definition parent (j : nat) : nat := (j - 1) / 2.
Arguments parent : simpl never.

Lemma parent_lt j : parent j ≠ j → parent j < j.
Proof.
  unfold parent. intros. destruct j as [|j]; [done|].
  apply Nat.Div0.div_lt_upper_bound. lia.
Qed.

Lemma parent_pos j : 0 < j → parent j < j.
Proof. intros. unfold parent. apply Nat.Div0.div_lt_upper_bound. lia. Qed.

Lemma parent_child k i : 0 < k → parent k = i ↔ k = 2 * i + 1 ∨ k = 2 * i + 2.
Proof.
  intros Hk. unfold parent. pose proof (Nat.div_mod_eq (k - 1) 2).
  pose proof (Nat.mod_upper_bound (k - 1) 2). lia.
Qed.

Section Ops.
Context (less : Z → Z → bool).

(** [Heap.Less], [Heap.Swap]; an index out of range would panic in Go, and
    the heap operations never pass one. *)
Definition Less (l : list Z) (i j : nat) : bool :=
  match l !! i, l !! j with
  | Some a, Some b => less a b
  | _, _ => false
  end.

Definition Swap (l : list Z) (i j : nat) : list Z :=
  match l !! i, l !! j with
  | Some a, Some b => <[i := b]> (<[j := a]> l)
  | _, _ => l
  end.

(** [heap.up]. *)
Equations? up (l : list Z) (j : nat) : list Z by wf j lt :=
  up l j with decide (parent j = j) => {
    | left _ => l;
    | right _ with Less l j (parent j) => {
        | true => up (Swap l (parent j) j) (parent j);
        | false => l } }.
Proof. by apply parent_lt. Qed.

(** The child [heap.down] compares with: the right one when it is in range
    and smaller than the left one. *)
Definition child (l : list Z) (i n : nat) : nat :=
  let j1 := 2 * i + 1 in
  let j2 := j1 + 1 in
  if decide (j2 < n) then (if Less l j2 j1 then j2 else j1) else j1.
Arguments child : simpl never.

Lemma child_gt l i n : i < child l i n.
Proof. unfold child. repeat case_match; lia. Qed.

Lemma child_lt l i n : 2 * i + 1 < n → child l i n < n.
Proof. unfold child. repeat case_match; lia. Qed.

(** [heap.down] on the first [n] elements. *)
Equations? down (l : list Z) (i n : nat) : list Z by wf (n - i) lt :=
  down l i n with decide (2 * i + 1 < n) => {
    | right _ => l;
    | left _ with Less l (child l i n) i => {
        | true => down (Swap l i (child l i n)) (child l i n) n;
        | false => l } }.
Proof. pose proof (child_gt l i n). pose proof (child_lt l i n). lia. Qed.

(** [heap.Init]: sift down every inner node, last one first. *)
Fixpoint initLoop (l : list Z) (k : nat) : list Z :=
  match k with
  | 0 => l
  | S i => initLoop (down l i (length l)) i
  end.

Definition Init (l : list Z) : list Z := initLoop l (length l / 2).

(** [heap.Push] and [heap.Pop] with the [Push]/[Pop] methods of [Heap]. *)
Definition Push (l : list Z) (x : Z) : list Z := up (l ++ [x]) (length l).

Definition Pop (l : list Z) : option (Z * list Z) :=
  let n := length l - 1 in
  let l' := down (Swap l 0 n) 0 n in
  match l' !! n with
  | Some item => Some (item, take n l')
  | None => None
  end.

(** ** The element set and the length *)

Lemma length_Swap l i j : length (Swap l i j) = length l.
Proof. unfold Swap. repeat case_match; by rewrite ?length_insert. Qed.

Lemma Swap_lookup l i j k :
  i < length l → j < length l →
  Swap l i j !!! k = if decide (k = i) then l !!! j
                     else if decide (k = j) then l !!! i else l !!! k.
Proof.
  intros Hi Hj. unfold Swap.
  rewrite (list_lookup_lookup_total_lt l i Hi), (list_lookup_lookup_total_lt l j Hj).
  destruct (decide (k = i)) as [->|].
  { rewrite list_lookup_total_insert_eq; [done|]. by rewrite length_insert. }
  rewrite list_lookup_total_insert_ne by done.
  destruct (decide (k = j)) as [->|].
  - by rewrite list_lookup_total_insert_eq.
  - by rewrite list_lookup_total_insert_ne.
Qed.

Lemma Swap_perm l i j : Swap l i j ≡ₚ l.
Proof.
  unfold Swap. destruct (l !! i) as [a|] eqn:Hi; [|done].
  destruct (l !! j) as [b|] eqn:Hj; [|done].
  apply Permutation_inj. split; [by rewrite !length_insert|].
  exists (λ k, if decide (k = i) then j else if decide (k = j) then i else k). split.
  { intros k1 k2. repeat case_decide; congruence. }
  intros k. apply lookup_lt_Some in Hi as Hi'. apply lookup_lt_Some in Hj as Hj'.
  destruct (decide (k = i)) as [->|].
  { by rewrite list_lookup_insert_eq by (by rewrite length_insert). }
  rewrite list_lookup_insert_ne by done.
  destruct (decide (k = j)) as [->|].
  - by rewrite list_lookup_insert_eq.
  - by rewrite list_lookup_insert_ne.
Qed.

Lemma up_perm l j : up l j ≡ₚ l.
Proof.
  funelim (up l j); try done.
  etrans; [eassumption|apply Swap_perm].
Qed.

Lemma down_perm l i n : down l i n ≡ₚ l.
Proof.
  funelim (down l i n); try done.
  etrans; [eassumption|apply Swap_perm].
Qed.

Lemma length_down l i n : length (down l i n) = length l.
Proof. by rewrite down_perm. Qed.

(** [down] leaves the elements from [n] on alone. *)
Lemma down_lookup_ge l i n k :
  n ≤ k → n ≤ length l → down l i n !!! k = l !!! k.
Proof.
  intros Hk. funelim (down l i n); try done. intros Hn.
  pose proof (child_gt l i n). pose proof (child_lt l i n ltac:(done)).
  rewrite H by (rewrite ?length_Swap; done).
  rewrite Swap_lookup by lia. by rewrite !decide_False by lia.
Qed.

Lemma Push_perm l x : Push l x ≡ₚ x :: l.
Proof. unfold Push. rewrite up_perm. by rewrite Permutation_app_comm. Qed.

(** Whatever the comparator, [Pop] takes out the first element and keeps the
    others. *)
Lemma Pop_head x l :
  ∃ l', Pop (x :: l) = Some (x, l') ∧ l' ≡ₚ l ∧
        l' = take (length l) (down (Swap (x :: l) 0 (length l)) 0 (length l)).
Proof.
  unfold Pop. replace (length (x :: l) - 1) with (length l) by (simpl; lia).
  set (d := down _ _ _).
  assert (Hlen : length d = S (length l)) by (unfold d; by rewrite length_down, length_Swap).
  assert (Hx : d !!! length l = x).
  { unfold d. rewrite down_lookup_ge by (rewrite ?length_Swap; simpl; lia).
    rewrite Swap_lookup by (simpl; lia). case_decide as Heq; [|by rewrite decide_True].
    by destruct l. }
  assert (Hd : d !! length l = Some x).
  { rewrite (list_lookup_lookup_total_lt d (length l)), Hx by lia. done. }
  rewrite Hd. eexists. split; [done|]. split; [|done].
  apply (Permutation_cons_inv (a := x)). rewrite Permutation_cons_append.
  rewrite <-(take_S_r _ _ _ Hd), take_ge by lia.
  unfold d. by rewrite down_perm, Swap_perm.
Qed.
End Ops.

(** ** Heap order

    The comparators of the program are strict weak orders: they compare a key
    of the two jobs. *)
Class WeakOrder (less : Z → Z → bool) : Prop := {
  less_asym a b : less a b = true → less b a = false;
  less_neg_trans a b c : less a b = false → less b c = false → less a c = false
}.

Section Order.
Context (less : Z → Z → bool) `{!WeakOrder less}.

(** [le a b]: [b] does not come before [a]. *)
Definition le (a b : Z) : Prop := less b a = false.

#[local] Instance le_preorder : PreOrder le.
Proof.
  split; [intros a|intros a b c Hab Hbc; by apply less_neg_trans with b].
  unfold le. destruct (less a a) eqn:E; [|done].
  apply less_asym in E as E'. congruence.
Qed.

Lemma less_le a b : less a b = true → le a b.
Proof. apply less_asym. Qed.

(** Order among the first [n] elements, for the nodes below [r]. *)
Definition hord (r n : nat) (l : list Z) : Prop :=
  ∀ k, 0 < k < n → r ≤ parent k → le (l !!! parent k) (l !!! k).

Definition heap_ordered (l : list Z) : Prop := hord 0 (length l) l.

Lemma Less_total l i j :
  i < length l → j < length l → Less less l i j = less (l !!! i) (l !!! j).
Proof.
  intros Hi Hj. unfold Less.
  by rewrite (list_lookup_lookup_total_lt l i Hi), (list_lookup_lookup_total_lt l j Hj).
Qed.

(** The root comes before every element. *)
Lemma root_minimal l k : heap_ordered l → k < length l → le (l !!! 0) (l !!! k).
Proof.
  intros Ho. induction k as [k IH] using lt_wf_ind. intros Hk.
  destruct (decide (k = 0)) as [->|]; [done|].
  pose proof (parent_pos k ltac:(lia)).
  transitivity (l !!! parent k); [apply IH; lia|apply Ho; lia].
Qed.

(** *** Sifting up *)

(** Order everywhere but between [j] and its parent, where the children of
    [j] still respect the parent of [j]. *)
Definition whole_but (l : list Z) (j : nat) : Prop :=
  (∀ k, 0 < k < length l → k ≠ j → le (l !!! parent k) (l !!! k)) ∧
  (∀ k, 0 < k < length l → parent k = j → 0 < j → le (l !!! parent j) (l !!! k)).

Lemma whole_but_swap l j :
  0 < j < length l → less (l !!! j) (l !!! parent j) = true →
  whole_but l j → whole_but (Swap l (parent j) j) (parent j).
Proof.
  intros Hj Hlt%less_le [H1 H2]. pose proof (parent_pos j ltac:(lia)).
  split; intros k; rewrite length_Swap; intros Hk;
    pose proof (parent_pos k ltac:(lia)); rewrite !Swap_lookup by lia.
  - intros Hne. rewrite (decide_False (P := k = _)) by done.
    destruct (decide (k = j)) as [->|].
    { by rewrite decide_True by done. }
    destruct (decide (parent k = parent j)) as [Heq|].
    { etrans; [done|]. rewrite <-Heq. by apply H1. }
    destruct (decide (parent k = j)); [by apply H2; auto; lia|by apply H1].
  - intros Hpk Hp. pose proof (parent_pos (parent j) ltac:(lia)).
    rewrite !(decide_False (P := parent (parent j) = _)) by lia.
    rewrite (decide_False (P := k = parent j)) by lia.
    assert (le (l !!! parent (parent j)) (l !!! parent j)) by (apply H1; lia).
    case_decide; [done|]. etrans; [done|]. rewrite <-Hpk at 1. by apply H1.
Qed.

Lemma up_ordered l j : j < length l → whole_but l j → heap_ordered (up less l j).
Proof.
  funelim (up less l j); intros Hj Hw; clear Heqcall.
  - destruct Hw as [H1 _]. intros k Hk _. apply H1; [done|].
    intros ->. pose proof (parent_pos j ltac:(lia)). lia.
  - pose proof (parent_lt j ltac:(done)). rewrite Less_total in Heq by lia.
    apply H; [rewrite length_Swap; lia|]. apply whole_but_swap; [lia|done|done].
  - pose proof (parent_lt j ltac:(done)). rewrite Less_total in Heq by lia.
    intros k Hk _. destruct (decide (k = j)) as [->|]; [done|by apply Hw].
Qed.

Lemma Push_ordered l x : heap_ordered l → heap_ordered (Push less l x).
Proof.
  intros Ho. apply up_ordered; rewrite ?length_app; simpl; [lia|].
  split; intros k; rewrite length_app; simpl; intros Hk Hne;
    pose proof (parent_pos k ltac:(lia)).
  - rewrite !lookup_total_app_l by lia. apply Ho; lia.
  - lia.
Qed.

(** *** Sifting down *)

(** Order below [r] everywhere but between [i] and its children, which still
    respect the parent of [i]. *)
Definition below_but (r n : nat) (l : list Z) (i : nat) : Prop :=
  (∀ k, 0 < k < n → r ≤ parent k → parent k ≠ i → le (l !!! parent k) (l !!! k)) ∧
  (∀ k, 0 < k < n → parent k = i → 0 < i → r ≤ parent i → le (l !!! parent i) (l !!! k)).

Lemma child_parent l i n : parent (child less l i n) = i.
Proof.
  pose proof (child_gt less l i n). apply parent_child; [lia|].
  unfold child. repeat case_match; lia.
Qed.

(** The chosen child comes before both children. *)
Lemma child_min l i n k :
  2 * i + 1 < n ≤ length l → 0 < k < n → parent k = i →
  le (l !!! child less l i n) (l !!! k).
Proof.
  intros Hn Hk Hp%parent_child; [|lia]. unfold child.
  case_decide as Hd.
  - rewrite Less_total by lia.
    destruct (less (l !!! (2 * i + 1 + 1)) (l !!! (2 * i + 1))) eqn:E.
    + destruct Hp as [-> | ->]; [by apply less_le|].
      by replace (2 * i + 2) with (2 * i + 1 + 1) by lia.
    + destruct Hp as [-> | ->]; [done|].
      by replace (2 * i + 2) with (2 * i + 1 + 1) by lia.
  - by destruct Hp as [->|]; [|lia].
Qed.

Lemma below_but_swap r n l i :
  2 * i + 1 < n ≤ length l → r ≤ i →
  less (l !!! child less l i n) (l !!! i) = true →
  below_but r n l i → below_but r n (Swap l i (child less l i n)) (child less l i n).
Proof.
  intros Hn Hr Hlt%less_le [H1 H2]. set (j := child less l i n) in *.
  assert (Hj : i < j) by apply child_gt.
  assert (Hjn : j < n) by (apply child_lt; lia).
  assert (Hpj : parent j = i) by apply child_parent.
  split; intros k Hk; pose proof (parent_pos k ltac:(lia)); rewrite !Swap_lookup by lia.
  - intros Hrk Hne. destruct (decide (parent k = i)) as [Hpi|Hpi].
    + rewrite (decide_False (P := k = i)) by lia.
      destruct (decide (k = j)); [done|]. by apply child_min.
    + rewrite (decide_False (P := parent k = j)) by done.
      destruct (decide (k = i)) as [->|]; [by apply H2; [lia|done|lia|lia]|].
      rewrite decide_False by (intros ->; lia). by apply H1.
  - intros Hpk _ _. rewrite Hpj. rewrite (decide_True (P := i = i)) by done.
    rewrite !decide_False by lia. rewrite <-Hpk at 1. apply H1; lia.
Qed.

Lemma down_ordered r l i n :
  n ≤ length l → r ≤ i → below_but r n l i → hord r n (down less l i n).
Proof.
  funelim (down less l i n); intros Hn Hr Hb; clear Heqcall.
  - intros k Hk Hrk. apply Hb; [done|done|].
    intros Hp%parent_child; lia.
  - rewrite Less_total in Heq; [| |lia].
    2: { pose proof (child_lt less l i n ltac:(done)). lia. }
    pose proof (child_gt less l i n).
    apply H; [by rewrite length_Swap|lia|]. by apply below_but_swap.
  - pose proof (child_lt less l i n ltac:(done)).
    rewrite Less_total in Heq by lia. intros k Hk Hrk.
    destruct (decide (parent k = i)) as [Hp|]; [|by apply Hb].
    rewrite Hp. etrans; [exact Heq|]. by apply child_min.
Qed.

Lemma hord_take n l : n ≤ length l → hord 0 n l → heap_ordered (take n l).
Proof.
  intros Hn Ho k. rewrite length_take. intros Hk _.
  pose proof (parent_pos k ltac:(lia)).
  rewrite !list_lookup_total_alt, !lookup_take by lia.
  rewrite !decide_True by lia. rewrite <-!list_lookup_total_alt. apply Ho; lia.
Qed.

Lemma Pop_ordered x l l' :
  heap_ordered (x :: l) → Pop less (x :: l) = Some (x, l') → heap_ordered l'.
Proof.
  intros Ho Hp. destruct (Pop_head less x l) as (l2 & Hp2 & _ & ->).
  rewrite Hp in Hp2. injection Hp2 as ->. apply hord_take.
  { rewrite length_down, length_Swap. simpl. lia. }
  apply down_ordered; [rewrite length_Swap; simpl; lia|done|].
  split; [|lia]. intros k Hk _ Hne.
  rewrite !Swap_lookup by (simpl; lia). pose proof (parent_pos k ltac:(lia)).
  rewrite !decide_False by lia. apply Ho; simpl; lia.
Qed.

(** What [Pop] returns comes before everything it leaves. *)
Lemma Pop_minimal x l l' y :
  heap_ordered (x :: l) → Pop less (x :: l) = Some (x, l') → y ∈ l' → le x y.
Proof.
  intros Ho Hp Hy. destruct (Pop_head less x l) as (l2 & Hp2 & Hperm & _).
  rewrite Hp in Hp2. injection Hp2 as <-. rewrite Hperm in Hy.
  apply list_elem_of_lookup in Hy as [k Hk].
  replace y with ((x :: l) !!! S k) by (by apply list_lookup_total_correct).
  apply (root_minimal (x :: l)); [done|]. apply lookup_lt_Some in Hk. simpl. lia.
Qed.

Lemma initLoop_ordered l k : hord k (length l) l → heap_ordered (initLoop less l k).
Proof.
  revert l. induction k as [|k IH]; intros l Ho; [done|]. simpl. apply IH.
  rewrite length_down. apply down_ordered; [done|done|].
  split; [intros m Hm Hk Hne; apply Ho; lia|].
  intros m Hm Hp Hk Hpk. pose proof (parent_pos k ltac:(lia)). lia.
Qed.

(** [Init] builds a heap from any array. *)
Lemma Init_ordered l : heap_ordered (Init less l).
Proof.
  apply initLoop_ordered. intros k Hk Hp.
  pose proof (Nat.div_mod_eq (length l) 2). pose proof (Nat.mod_upper_bound (length l) 2).
  pose proof (proj1 (parent_child k (parent k) ltac:(lia)) eq_refl). lia.
Qed.
End Order.

End Heap.
