(* ===== verification/Store.v ===== *)
(** * The store interface: [internal/store/store.go]

    The Go interface [Store] as a class of operations, an abstract store as its
    specification, and the laws a backend promises to its clients (the queues,
    the scheduler, the engine and the Raft state machine): every operation
    refines the operation of the abstract store, up to a failure of the storage
    engine below it, which leaves the contents unchanged. *)

From S2P Require Import Prelude Job.

(** [cron.CronJob] of [internal/cron/cron.go], which the stores persist. *)
Record CronJob := mkCron {
  CronID : string;
  Schedule : string;
  CronType : string;
  CronPriority : Z;
  NextRun : Time
}.

#[export] Instance CronJob_eq_dec : EqDecision CronJob.
Proof. solve_decision. Defined.

Module Store.

(** ** Operations *)
Class StoreOps (S : Type) := {
  Add : S → Job → S * err;
  Get : S → Z → option Job;
  List : S → list Job;
  ListByStatus : S → Status → list Job * err;
  Update : S → Job → S * err;
  Delete : S → Z → S * (bool * err);
  Cancel : S → Z → S * err;
  AddCron : S → CronJob → S * err;
  DeleteCron : S → string → S * (bool * err);
  ListCrons : S → list CronJob * err;
  AddDLQ : S → Job → S * err;
  ListDLQ : S → list Job * err;
  FindByIdempotencyKey : S → string → option Job
}.

(** ** The abstract store *)
Record Abs := mkAbs {
  jobs : gmap Z Job;
  crons : gmap string CronJob;
  dlq : gmap Z Job;
  idem : gmap string Z
}.

Definition empty : Abs := mkAbs ∅ ∅ ∅ ∅.

(** Jobs and dead letters are filed under their own id. *)
Definition abs_wf (a : Abs) : Prop :=
  (∀ id j, jobs a !! id = Some j → ID j = id) ∧
  (∀ id j, dlq a !! id = Some j → ID j = id).

Definition set_jobs (a : Abs) (m : gmap Z Job) : Abs := mkAbs m (crons a) (dlq a) (idem a).
Definition set_crons (a : Abs) (m : gmap string CronJob) : Abs := mkAbs (jobs a) m (dlq a) (idem a).
Definition set_dlq (a : Abs) (m : gmap Z Job) : Abs := mkAbs (jobs a) (crons a) m (idem a).
Definition set_idem (a : Abs) (m : gmap string Z) : Abs := mkAbs (jobs a) (crons a) (dlq a) m.

Section Abs.
(** What a backend makes of a string it stores and reads back: the identity in
    memory, the replacement of invalid UTF-8 through JSON. *)
Context (norm : string → string).

Definition norm_job (j : Job) : Job :=
  mkJob (ID j) (norm (JType j)) (Priority j) (norm (JStatus j)) (RetryCount j)
    (MaxRetries j) (NextRunAt j) (norm (LastError j)) (norm (IdempotencyKey j)).

Definition norm_cron (c : CronJob) : CronJob :=
  mkCron (norm (CronID c)) (norm (Schedule c)) (norm (CronType c)) (CronPriority c) (NextRun c).

Definition abs_put (a : Abs) (j : Job) : Abs :=
  set_jobs a (<[ID j := norm_job j]> (jobs a)).

Definition abs_add (a : Abs) (j : Job) : Abs * err :=
  match jobs a !! ID j with
  | Some _ => (a, Some (ErrJobExists (ID j)))
  | None =>
      let a := abs_put a j in
      (if decide (IdempotencyKey j = "") then a
       else set_idem a (<[IdempotencyKey j := ID j]> (idem a)), None)
  end.

Definition abs_update (a : Abs) (j : Job) : Abs * err :=
  match jobs a !! ID j with
  | None => (a, Some (ErrNotFoundForUpdate (ID j)))
  | Some old =>
      if IsValidTransition (JStatus old) (JStatus j) then (abs_put a j, None)
      else (a, Some (ErrInvalidTransition (JStatus old) (JStatus j) (ID j)))
  end.

Definition abs_delete (a : Abs) (id : Z) : Abs * (bool * err) :=
  match jobs a !! id with
  | None => (a, (false, None))
  | Some j =>
      let a := set_jobs a (delete id (jobs a)) in
      (if decide (IdempotencyKey j = "") then a
       else set_idem a (delete (IdempotencyKey j) (idem a)), (true, None))
  end.

Definition abs_cancel (a : Abs) (id : Z) : Abs * err :=
  match jobs a !! id with
  | None => (a, Some ErrJobNotFound)
  | Some j =>
      if is_terminal (JStatus j) then (a, Some (ErrTerminal (JStatus j)))
      else (set_jobs a (<[id := with_status j Cancelled]> (jobs a)), None)
  end.

Definition abs_addCron (a : Abs) (c : CronJob) : Abs * err :=
  (set_crons a (<[CronID c := norm_cron c]> (crons a)), None).

Definition abs_deleteCron (a : Abs) (id : string) : Abs * (bool * err) :=
  match crons a !! id with
  | None => (a, (false, None))
  | Some _ => (set_crons a (delete id (crons a)), (true, None))
  end.

Definition abs_addDLQ (a : Abs) (j : Job) : Abs * err :=
  (set_dlq a (<[ID j := norm_job j]> (dlq a)), None).

Definition abs_find (a : Abs) (key : string) : option Job :=
  if decide (key = "") then None else idem a !! key ≫= λ id, jobs a !! id.

Definition abs_byStatus (a : Abs) (st : Status) : list Job :=
  (filter (λ e, JStatus e.2 = st) (map_to_list (jobs a))).*2.
End Abs.

(** ** Laws *)

Definition storage_err (e : err) : Prop := ∃ m, e = Some (ErrStorage m).

Class StoreLaws (S : Type) `{StoreOps S} := {
  norm : string → string;
  (** The values the backend can represent: all of them in memory, those with
      64-bit integers through JSON. *)
  storable : Job → Prop;
  storable_cron : CronJob → Prop;
  (** [rel s a]: the backend state [s] holds exactly the contents [a]. *)
  rel : S → Abs → Prop;

  norm_idemp x : norm (norm x) = norm x;
  norm_status st : known_status st = true → norm st = st;
  rel_wf s a : rel s a → abs_wf a;

  Get_spec s a id : rel s a → Get s id = jobs a !! id;
  List_spec s a : rel s a → List s ≡ₚ (map_to_list (jobs a)).*2;
  ListByStatus_spec s a st l : rel s a → known_status st = true →
    ListByStatus s st = (l, None) → l ≡ₚ abs_byStatus a st;
  Find_spec s a key : rel s a → FindByIdempotencyKey s key = abs_find a key;
  ListDLQ_spec s a l : rel s a → ListDLQ s = (l, None) → l ≡ₚ (map_to_list (dlq a)).*2;
  ListCrons_spec s a l : rel s a → ListCrons s = (l, None) → l ≡ₚ (map_to_list (crons a)).*2;

  Add_spec s a j : rel s a → storable j → jobs a !! ID j = None →
    (Add s j).2 = None ∧ rel (Add s j).1 (abs_add norm a j).1 ∨
    storage_err (Add s j).2 ∧ rel (Add s j).1 a;
  Update_spec s a j : rel s a → storable j →
    (Update s j).2 = (abs_update norm a j).2 ∧ rel (Update s j).1 (abs_update norm a j).1 ∨
    storage_err (Update s j).2 ∧ rel (Update s j).1 a;
  Delete_spec s a id : rel s a →
    (Delete s id).2 = (abs_delete a id).2 ∧ rel (Delete s id).1 (abs_delete a id).1 ∨
    storage_err (Delete s id).2.2 ∧ rel (Delete s id).1 a;
  Cancel_spec s a id : rel s a →
    (Cancel s id).2 = (abs_cancel a id).2 ∧ rel (Cancel s id).1 (abs_cancel a id).1 ∨
    storage_err (Cancel s id).2 ∧ rel (Cancel s id).1 a;
  AddDLQ_spec s a j : rel s a → storable j →
    (AddDLQ s j).2 = None ∧ rel (AddDLQ s j).1 (abs_addDLQ norm a j).1 ∨
    storage_err (AddDLQ s j).2 ∧ rel (AddDLQ s j).1 a;
  AddCron_spec s a c : rel s a → storable_cron c →
    (AddCron s c).2 = None ∧ rel (AddCron s c).1 (abs_addCron norm a c).1 ∨
    storage_err (AddCron s c).2 ∧ rel (AddCron s c).1 a;
  DeleteCron_spec s a id : rel s a →
    (DeleteCron s id).2 = (abs_deleteCron a id).2 ∧ rel (DeleteCron s id).1 (abs_deleteCron a id).1 ∨
    storage_err (DeleteCron s id).2.2 ∧ rel (DeleteCron s id).1 a
}.

(** A backend whose operations never fail below the store, and which keeps
    every value as it is. *)
Class ReliableStore (S : Type) `{StoreLaws S} : Prop := {
  norm_id x : norm x = x;
  storable_all j : storable j;
  storable_cron_all c : storable_cron c;
  Add_total s a j : rel s a → ¬ storage_err (Add s j).2;
  Update_total s a j : rel s a → ¬ storage_err (Update s j).2;
  Cancel_total s a id : rel s a → ¬ storage_err (Cancel s id).2;
  Delete_total s a id : rel s a → ¬ storage_err (Delete s id).2.2;
  AddCron_total s a c : rel s a → ¬ storage_err (AddCron s c).2;
  DeleteCron_total s a id : rel s a → ¬ storage_err (DeleteCron s id).2.2;
  AddDLQ_total s a j : rel s a → ¬ storage_err (AddDLQ s j).2;
  ListByStatus_total s a st : rel s a → (ListByStatus s st).2 = None
}.

(** A backend that refuses to add a job under an id in use, as the in-memory one
    does and the bbolt one does not. *)
Class StrictStore (S : Type) `{StoreLaws S} : Prop :=
  Add_taken s a j old : rel s a → jobs a !! ID j = Some old →
    (Add s j).2 = Some (ErrJobExists (ID j)) ∧ rel (Add s j).1 a.

(** ** Facts about the abstract store *)

Lemma ID_norm_job norm j : ID (norm_job norm j) = ID j.
Proof. done. Qed.

Lemma abs_update_status norm a j id old new :
  jobs a !! id = Some old → jobs (abs_update norm a j).1 !! id = Some new →
  (∀ st, known_status st = true → norm st = st) →
  known_status (JStatus old) = true →
  IsValidTransition (JStatus old) (JStatus new) = true.
Proof.
  intros Ho Hn Hnorm Hk. unfold abs_update in Hn.
  destruct (decide (ID j = id)) as [<-|Hne].
  - rewrite Ho in Hn. destruct (IsValidTransition _ _) eqn:Hv; simpl in Hn.
    + unfold abs_put in Hn. simpl in Hn. rewrite lookup_insert_eq in Hn.
      injection Hn as <-. simpl. rewrite Hnorm; [done|].
      by eapply valid_transition_known.
    + rewrite Ho in Hn. injection Hn as ->. apply valid_transition_refl.
  - assert (jobs a !! id = Some new) as Hn'.
    { repeat case_match; simpl in Hn; [|done..].
      unfold abs_put in Hn. simpl in Hn. by rewrite lookup_insert_ne in Hn. }
    simplify_eq. apply valid_transition_refl.
Qed.

Lemma abs_cancel_status a id' id old new :
  jobs a !! id = Some old → jobs (abs_cancel a id').1 !! id = Some new →
  JStatus new = JStatus old ∨ is_terminal (JStatus old) = false ∧ JStatus new = Cancelled.
Proof.
  intros Ho Hn. unfold abs_cancel in Hn.
  destruct (jobs a !! id') as [j|] eqn:Hj; simpl in Hn; [|naive_solver].
  destruct (is_terminal (JStatus j)) eqn:Ht; simpl in Hn; [naive_solver|].
  destruct (decide (id = id')) as [->|].
  - rewrite lookup_insert_eq in Hn. naive_solver.
  - rewrite lookup_insert_ne in Hn by done. naive_solver.
Qed.

Lemma abs_wf_add norm a j : abs_wf a → abs_wf (abs_add norm a j).1.
Proof.
  intros (H1 & H2). unfold abs_add. case_match; simpl; [done|].
  assert (∀ id k, jobs (abs_put norm a j) !! id = Some k → ID k = id).
  { intros id k. simpl. rewrite lookup_insert_Some. naive_solver. }
  case_decide; done.
Qed.

Lemma abs_wf_update norm a j : abs_wf a → abs_wf (abs_update norm a j).1.
Proof.
  intros (H1 & H2). unfold abs_update. repeat case_match; simpl; try done.
  split; [|done]. intros id k. simpl. rewrite lookup_insert_Some. naive_solver.
Qed.

Lemma abs_wf_cancel a id : abs_wf a → abs_wf (abs_cancel a id).1.
Proof.
  intros (H1 & H2). unfold abs_cancel. repeat case_match; simpl; try done.
  split; [|done]. intros id' k. simpl. rewrite lookup_insert_Some. naive_solver.
Qed.

Lemma abs_wf_delete a id : abs_wf a → abs_wf (abs_delete a id).1.
Proof.
  intros (H1 & H2). unfold abs_delete. case_match; simpl; [|done].
  assert (∀ id' k, delete id (jobs a) !! id' = Some k → ID k = id').
  { intros id' k. rewrite lookup_delete_Some. naive_solver. }
  case_decide; done.
Qed.

Lemma abs_wf_addDLQ norm a j : abs_wf a → abs_wf (abs_addDLQ norm a j).1.
Proof.
  intros (H1 & H2). split; [done|].
  intros id k. simpl. rewrite lookup_insert_Some. naive_solver.
Qed.

Lemma elem_of_abs_byStatus a st j :
  j ∈ abs_byStatus a st ↔ ∃ id, jobs a !! id = Some j ∧ JStatus j = st.
Proof.
  unfold abs_byStatus. rewrite list_elem_of_fmap. split.
  - intros ([id k] & -> & [Hs Hk]%list_elem_of_filter).
    apply elem_of_map_to_list in Hk. eauto.
  - intros (id & Hj & Hs). exists (id, j). split; [done|].
    apply list_elem_of_filter. by rewrite elem_of_map_to_list.
Qed.

(** ** A reliable backend is the abstract store *)
Section Reliable.
Context {S : Type} `{ReliableStore S}.
Implicit Types s : S.

Lemma norm_job_id j : norm_job norm j = j.
Proof. destruct j. unfold norm_job. simpl. by rewrite !norm_id. Qed.

Lemma norm_cron_verbatim c : norm_cron norm c = c.
Proof. destruct c. unfold norm_cron. simpl. by rewrite !norm_id. Qed.

Lemma reliable_Add s a j :
  rel s a → jobs a !! ID j = None →
  (Add s j).2 = None ∧ rel (Add s j).1 (abs_add norm a j).1.
Proof.
  intros Hr Hj. destruct (Add_spec s a j Hr (storable_all j) Hj) as [?|[He _]]; [done|].
  by destruct (Add_total s a j Hr).
Qed.

Lemma reliable_Update s a j :
  rel s a →
  (Update s j).2 = (abs_update norm a j).2 ∧ rel (Update s j).1 (abs_update norm a j).1.
Proof.
  intros Hr. destruct (Update_spec s a j Hr (storable_all j)) as [?|[He _]]; [done|].
  by destruct (Update_total s a j Hr).
Qed.

Lemma reliable_Cancel s a id :
  rel s a →
  (Cancel s id).2 = (abs_cancel a id).2 ∧ rel (Cancel s id).1 (abs_cancel a id).1.
Proof.
  intros Hr. destruct (Cancel_spec s a id Hr) as [?|[He _]]; [done|].
  by destruct (Cancel_total s a id Hr).
Qed.
End Reliable.

(** ** Histories of store calls

    Each method runs under the store's mutex, or in one bbolt transaction, so
    any interleaving of the goroutines of the server is a sequence of calls. *)
Inductive op :=
  | OAdd (j : Job)
  | OUpdate (j : Job)
  | ODelete (id : Z)
  | OCancel (id : Z)
  | OAddCron (c : CronJob)
  | ODeleteCron (id : string)
  | OAddDLQ (j : Job).

(** The response of a call: the [bool] result of the two deletions, [true] for
    the calls that only return an error. *)
Definition exec {S} `{StoreOps S} (s : S) (o : op) : S * (bool * err) :=
  match o with
  | OAdd j => let '(s, e) := Add s j in (s, (true, e))
  | OUpdate j => let '(s, e) := Update s j in (s, (true, e))
  | ODelete id => Delete s id
  | OCancel id => let '(s, e) := Cancel s id in (s, (true, e))
  | OAddCron c => let '(s, e) := AddCron s c in (s, (true, e))
  | ODeleteCron id => DeleteCron s id
  | OAddDLQ j => let '(s, e) := AddDLQ s j in (s, (true, e))
  end.

Definition abs_exec (norm : string → string) (a : Abs) (o : op) : Abs * (bool * err) :=
  match o with
  | OAdd j => let '(a, e) := abs_add norm a j in (a, (true, e))
  | OUpdate j => let '(a, e) := abs_update norm a j in (a, (true, e))
  | ODelete id => abs_delete a id
  | OCancel id => let '(a, e) := abs_cancel a id in (a, (true, e))
  | OAddCron c => let '(a, e) := abs_addCron norm a c in (a, (true, e))
  | ODeleteCron id => abs_deleteCron a id
  | OAddDLQ j => let '(a, e) := abs_addDLQ norm a j in (a, (true, e))
  end.

(** The responses of a sequence of calls, and the state after it. *)
Fixpoint exec_all {S} `{StoreOps S} (s : S) (os : list op) : S * list (bool * err) :=
  match os with
  | [] => (s, [])
  | o :: os => let '(s, r) := exec s o in let '(s, rs) := exec_all s os in (s, r :: rs)
  end.

Fixpoint abs_exec_all (norm : string → string) (a : Abs) (os : list op)
  : Abs * list (bool * err) :=
  match os with
  | [] => (a, [])
  | o :: os =>
      let '(a, r) := abs_exec norm a o in
      let '(a, rs) := abs_exec_all norm a os in (a, r :: rs)
  end.

(** *** All calls of the interface, with what they answer *)

Inductive call :=
  | Write (o : op)
  | CGet (id : Z)
  | CList
  | CListByStatus (st : Status)
  | CFind (key : string)
  | CListCrons
  | CListDLQ.

Inductive answer :=
  | Done (r : bool * err)
  | OneJob (j : option Job)
  | Jobs (js : list Job) (e : err)
  | Crons (cs : list CronJob) (e : err).

Definition serve {S} `{StoreOps S} (s : S) (c : call) : S * answer :=
  match c with
  | Write o => let '(s, r) := exec s o in (s, Done r)
  | CGet id => (s, OneJob (Get s id))
  | CList => (s, Jobs (List s) None)
  | CListByStatus st => let '(js, e) := ListByStatus s st in (s, Jobs js e)
  | CFind key => (s, OneJob (FindByIdempotencyKey s key))
  | CListCrons => let '(cs, e) := ListCrons s in (s, Crons cs e)
  | CListDLQ => let '(js, e) := ListDLQ s in (s, Jobs js e)
  end.

(** The abstract store keeps no index: the jobs of a status are those that have
    it. *)
Definition abs_serve (norm : string → string) (a : Abs) (c : call) : Abs * answer :=
  match c with
  | Write o => let '(a, r) := abs_exec norm a o in (a, Done r)
  | CGet id => (a, OneJob (jobs a !! id))
  | CList => (a, Jobs (map_to_list (jobs a)).*2 None)
  | CListByStatus st => (a, Jobs (abs_byStatus a st) None)
  | CFind key => (a, OneJob (abs_find a key))
  | CListCrons => (a, Crons (map_to_list (crons a)).*2 None)
  | CListDLQ => (a, Jobs (map_to_list (dlq a)).*2 None)
  end.

(** Listings agree up to their order, which is that of a Go map. *)
Definition same_answer (x y : answer) : Prop :=
  match x, y with
  | Done r, Done r' => r = r'
  | OneJob j, OneJob j' => j = j'
  | Jobs js e, Jobs js' e' => js ≡ₚ js' ∧ e = e'
  | Crons cs e, Crons cs' e' => cs ≡ₚ cs' ∧ e = e'
  | _, _ => False
  end.

Fixpoint serve_all {S} `{StoreOps S} (s : S) (cs : list call) : list answer :=
  match cs with
  | [] => []
  | c :: cs => let '(s, x) := serve s c in x :: serve_all s cs
  end.

Fixpoint abs_serve_all (norm : string → string) (a : Abs) (cs : list call) : list answer :=
  match cs with
  | [] => []
  | c :: cs => let '(a, x) := abs_serve norm a c in x :: abs_serve_all norm a cs
  end.

Section History.
Context {S : Type} `{StoreLaws S}.
Implicit Types s : S.

(** New jobs get an id no stored job has, and the backend can represent the
    values it is given. *)
Definition admissible s (o : op) : Prop :=
  match o with
  | OAdd j => Get s (ID j) = None ∧ storable j
  | OUpdate j | OAddDLQ j => storable j
  | OAddCron c => storable_cron c
  | _ => True
  end.

(** The states some history of calls satisfying [P] leads to. *)
Inductive reach (P : op → Prop) s : S → Prop :=
  | reach_refl : reach P s s
  | reach_step s1 o : reach P s s1 → P o → admissible s1 o → reach P s (exec s1 o).1.

(** One call refines the abstract call, or fails in storage and changes
    nothing. *)
Lemma exec_refines s a o :
  rel s a → admissible s o →
  (exec s o).2 = (abs_exec norm a o).2 ∧ rel (exec s o).1 (abs_exec norm a o).1 ∨
  storage_err (exec s o).2.2 ∧ rel (exec s o).1 a.
Proof.
  intros Hr Hf. destruct o as [j|j|id|id|c|id|j]; simpl in *.
  - destruct Hf as [Hf Hs]. rewrite (Get_spec s a) in Hf by done.
    pose proof (Add_spec s a j Hr Hs Hf) as Ha. unfold abs_add in *. rewrite Hf in *.
    destruct (Add s j). simpl in *. destruct Ha as [[-> ?]|?]; auto.
  - pose proof (Update_spec s a j Hr Hf) as Hu.
    destruct (Update s j), (abs_update _ a j). simpl in *. destruct Hu as [[-> ?]|?]; auto.
  - apply (Delete_spec s a id Hr).
  - pose proof (Cancel_spec s a id Hr) as Hc.
    destruct (Cancel s id), (abs_cancel a id). simpl in *. destruct Hc as [[-> ?]|?]; auto.
  - pose proof (AddCron_spec s a c Hr Hf) as Hc.
    destruct (AddCron s c). simpl in *. destruct Hc as [[-> ?]|?]; auto.
  - apply (DeleteCron_spec s a id Hr).
  - pose proof (AddDLQ_spec s a j Hr Hf) as Hd.
    destruct (AddDLQ s j). simpl in *. destruct Hd as [[-> ?]|?]; auto.
Qed.

(** A sequence of admissible calls. *)
Fixpoint admissible_all s (os : list op) : Prop :=
  match os with
  | [] => True
  | o :: os => admissible s o ∧ admissible_all (exec s o).1 os
  end.

(** The abstract store answering a sequence of calls, some of which fail in
    storage and have no effect. *)
Inductive abs_run : Abs → list op → list (bool * err) → Abs → Prop :=
  | run_nil a : abs_run a [] [] a
  | run_call a o os r rs a1 a2 :
      abs_exec norm a o = (a1, r) → abs_run a1 os rs a2 → abs_run a (o :: os) (r :: rs) a2
  | run_failed a o os r rs a2 :
      storage_err r.2 → abs_run a os rs a2 → abs_run a (o :: os) (r :: rs) a2.

Lemma exec_all_run s a os :
  rel s a → admissible_all s os →
  ∃ a', abs_run a os (exec_all s os).2 a' ∧ rel (exec_all s os).1 a'.
Proof.
  revert s a. induction os as [|o os IH]; intros s a Hr Hs; [by eauto using abs_run|].
  destruct Hs as [Ho Hs]. pose proof (exec_refines s a o Hr Ho) as He.
  cbn [exec_all]. destruct (exec s o) as [s1 r] eqn:E. cbn [fst snd] in *.
  destruct He as [[Hr1 Hr2]|[Hr1 Hr2]]; destruct (IH _ _ Hr2 Hs) as (a' & Ha' & Hf');
    destruct (exec_all s1 os) as [s2 rs]; exists a'; (split; [|done]).
  - eapply run_call; [|done]. rewrite Hr1. by destruct (abs_exec norm a o).
  - by apply run_failed.
Qed.

(** What one abstract call does to the status of a job that stays. *)
Lemma abs_exec_status a o id j :
  abs_wf a → jobs a !! id = Some j → known_status (JStatus j) = true →
  o ≠ ODelete id →
  ∃ j', jobs (abs_exec norm a o).1 !! id = Some j' ∧
        IsValidTransition (JStatus j) (JStatus j') = true.
Proof.
  intros Hwf Hj Hk Hne. destruct o as [k|k|id'|id'|c|cid|k]; simpl.
  - unfold abs_add. destruct (jobs a !! ID k) eqn:Hk'; simpl.
    { eauto with quorum. }
    exists j. split; [|apply valid_transition_refl].
    case_decide; simpl; rewrite lookup_insert_ne; congruence.
  - destruct (jobs (abs_update norm a k).1 !! id) as [j'|] eqn:Hj'.
    + pose proof (abs_update_status norm a k id j j' Hj Hj' norm_status Hk).
      destruct (abs_update norm a k). eauto.
    + exfalso. unfold abs_update in Hj'. repeat case_match; simpl in *; try congruence.
      rewrite lookup_insert_None in Hj'. naive_solver.
  - unfold abs_delete. destruct (jobs a !! id') eqn:Hd; simpl; [|eauto with quorum].
    exists j. split; [|apply valid_transition_refl].
    case_decide; simpl; rewrite lookup_delete_ne; congruence.
  - destruct (jobs (abs_cancel a id').1 !! id) as [j'|] eqn:Hj'.
    + destruct (abs_cancel_status a id' id j j' Hj Hj') as [Heq|[Ht Hc]];
        destruct (abs_cancel a id'); exists j'; (split; [done|]).
      * rewrite Heq. apply valid_transition_refl.
      * rewrite IsValidTransition_spec, Hc. apply known_status_spec in Hk.
        destruct Hk as [?|[?|?]]; [tauto..|congruence].
    + exfalso. unfold abs_cancel in Hj'. repeat case_match; simpl in *; try congruence.
      rewrite lookup_insert_None in Hj'. naive_solver.
  - eauto with quorum.
  - unfold abs_deleteCron. case_match; simpl; eauto with quorum.
  - eauto with quorum.
Qed.

Lemma exec_status s a o id j :
  rel s a → admissible s o → jobs a !! id = Some j → known_status (JStatus j) = true →
  o ≠ ODelete id →
  ∃ a' j', rel (exec s o).1 a' ∧ jobs a' !! id = Some j' ∧
           IsValidTransition (JStatus j) (JStatus j') = true.
Proof.
  intros Hr Hf Hj Hk Hne. pose proof (rel_wf _ _ Hr) as Hwf.
  destruct (exec_refines s a o Hr Hf) as [[_ Hr']|[_ Hr']].
  - destruct (abs_exec_status a o id j Hwf Hj Hk Hne) as (j' & ? & ?). eauto.
  - exists a, j. auto with quorum.
Qed.

Definition valid_path : relation Status := rtc (λ st st', IsValidTransition st st' = true).

Lemma valid_path_known st st' :
  valid_path st st' → known_status st = true → known_status st' = true.
Proof. induction 1; eauto using valid_transition_known. Qed.

Lemma valid_path_terminal st st' :
  valid_path st st' → is_terminal st = true → st' = st.
Proof.
  induction 1 as [|st st1 st' Hv _ IH]; [done|]. intros Ht.
  pose proof (terminal_absorbing _ _ Ht Hv) as ->. auto.
Qed.

(** Along any history without a deletion of [id], the job stays and its
    status follows legal transitions. *)
Lemma reach_path s s' a id j :
  reach (λ o, o ≠ ODelete id) s s' → rel s a →
  jobs a !! id = Some j → known_status (JStatus j) = true →
  ∃ a' j', rel s' a' ∧ jobs a' !! id = Some j' ∧ valid_path (JStatus j) (JStatus j').
Proof.
  intros Hreach Hr Hj Hk. induction Hreach as [|s1 o _ IH HP Hf].
  { exists a, j. split; [done|]. split; [done|]. apply rtc_refl. }
  destruct IH as (a1 & j1 & Hr1 & Hj1 & Hp1).
  destruct (exec_status s1 a1 o id j1) as (a2 & j2 & Hr2 & Hj2 & Hv); try done.
  { by eapply valid_path_known. }
  exists a2, j2. split; [done|]. split; [done|].
  etrans; [exact Hp1|]. by apply rtc_once.
Qed.

(** On a reliable backend every call of the history language is the abstract
    call. *)
Lemma exec_reliable `{!ReliableStore S} s a o :
  rel s a → admissible s o →
  (exec s o).2 = (abs_exec id a o).2 ∧ rel (exec s o).1 (abs_exec id a o).1.
Proof.
  intros Hr Hf. assert (Hid : abs_exec norm a o = abs_exec id a o).
  { destruct o as [j|j|k|k|c|k|j]; simpl; try done;
      unfold abs_add, abs_update, abs_addCron, abs_addDLQ, abs_put;
      rewrite ?norm_job_id, ?norm_cron_verbatim; by destruct j || destruct c. }
  rewrite <-Hid. destruct (exec_refines s a o Hr Hf) as [?|[He _]]; [done|exfalso].
  destruct o as [j|j|k|k|c|k|j]; simpl in He.
  - destruct (Add s j) eqn:E. eapply Add_total; [exact Hr|]. by rewrite E.
  - destruct (Update s j) eqn:E. eapply Update_total; [exact Hr|]. by rewrite E.
  - by eapply Delete_total.
  - destruct (Cancel s k) eqn:E. eapply Cancel_total; [exact Hr|]. by rewrite E.
  - destruct (AddCron s c) eqn:E. eapply AddCron_total; [exact Hr|]. by rewrite E.
  - by eapply DeleteCron_total.
  - destruct (AddDLQ s j) eqn:E. eapply AddDLQ_total; [exact Hr|]. by rewrite E.
Qed.

(** On one that is strict as well, no call needs a fresh id. *)
Lemma exec_strict `{!ReliableStore S, !StrictStore S} s a o :
  rel s a → (exec s o).2 = (abs_exec id a o).2 ∧ rel (exec s o).1 (abs_exec id a o).1.
Proof.
  intros Hr. assert (Hor : admissible s o ∨ ∃ j old, o = OAdd j ∧ jobs a !! ID j = Some old).
  { destruct o as [j|j|k|k|c|k|j]; simpl; auto using storable_all, storable_cron_all.
    destruct (jobs a !! ID j) as [old|] eqn:Hj; [right; eauto|left].
    rewrite (Get_spec s a) by done. auto using storable_all. }
  destruct Hor as [Ho|(j & old & -> & Hj)]; [by apply exec_reliable|].
  destruct (Add_taken s a j old Hr Hj) as [He Hr']. simpl. unfold abs_add. rewrite Hj.
  destruct (Add s j). simpl in *. by subst.
Qed.

(** C35. Terminal statuses are final for every lawful store: whatever calls
    follow, as long as jobs are added under unused ids only and the job is not
    deleted, a completed, failed or cancelled job keeps its status. *)
Theorem terminal_sticky s s' a id j :
  rel s a → Get s id = Some j → is_terminal (JStatus j) = true →
  reach (λ o, o ≠ ODelete id) s s' →
  ∃ j', Get s' id = Some j' ∧ JStatus j' = JStatus j.
Proof.
  intros Hr Hj Ht Hreach. rewrite (Get_spec s a) in Hj by done.
  destruct (reach_path s s' a id j Hreach Hr Hj) as (a' & j' & Hr' & Hj' & Hp).
  { apply known_status_spec. auto. }
  exists j'. rewrite (Get_spec s' a') by done. split; [done|]. by eapply valid_path_terminal.
Qed.

(** The status of a job only moves along the transition table: between
    any two points of any history of a lawful store there is a path of legal
    transitions, so it stays one of the five statuses. *)
Theorem status_follows_table s s' a id j :
  rel s a → Get s id = Some j → known_status (JStatus j) = true →
  reach (λ o, o ≠ ODelete id) s s' →
  ∃ j', Get s' id = Some j' ∧ rtc (λ x y, IsValidTransition x y = true) (JStatus j) (JStatus j') ∧
        known_status (JStatus j') = true.
Proof.
  intros Hr Hj Hk Hreach. rewrite (Get_spec s a) in Hj by done.
  destruct (reach_path s s' a id j Hreach Hr Hj Hk) as (a' & j' & Hr' & Hj' & Hp).
  exists j'. rewrite (Get_spec s' a') by done. split; [done|]. split; [done|].
  by eapply valid_path_known.
Qed.
End History.

End Store.

#[export] Hint Resolve Store.abs_wf_add Store.abs_wf_update Store.abs_wf_cancel
  Store.abs_wf_delete Store.abs_wf_addDLQ : quorum.
