(* ===== verification/MemoryStore.v ===== *)
(** * The in-memory store: [internal/store/memory_store.go]

    Five maps: the jobs, the secondary index by status, the cron jobs, the dead
    letters and the idempotency keys.  The status index is a map of id sets,
    [map[Status]map[int]struct{}] in the source. *)

From S2P Require Import Prelude Job Store.

Module MemoryStore.

Record MemoryStore := mkMem {
  jobs : gmap Z Job;
  statusIndex : gmap string (gmap Z unit);
  crons : gmap string CronJob;
  dlq : gmap Z Job;
  idempotencyIndex : gmap string Z
}.

Definition NewMemoryStore : MemoryStore := mkMem ∅ ∅ ∅ ∅ ∅.

Definition addToStatusIndex (ix : gmap string (gmap Z unit)) (st : Status) (id : Z)
  : gmap string (gmap Z unit) :=
  let ix := match ix !! st with None => <[st := ∅]> ix | Some _ => ix end in
  match ix !! st with
  | Some set => <[st := <[id := tt]> set]> ix
  | None => ix
  end.

Definition removeFromStatusIndex (ix : gmap string (gmap Z unit)) (st : Status) (id : Z)
  : gmap string (gmap Z unit) :=
  match ix !! st with
  | Some set => <[st := delete id set]> ix
  | None => ix
  end.

Definition Add (s : MemoryStore) (j : Job) : MemoryStore * err :=
  match jobs s !! ID j with
  | Some _ => (s, Some (ErrJobExists (ID j)))
  | None =>
      (mkMem (<[ID j := j]> (jobs s))
         (addToStatusIndex (statusIndex s) (JStatus j) (ID j))
         (crons s) (dlq s)
         (if decide (IdempotencyKey j = "") then idempotencyIndex s
          else <[IdempotencyKey j := ID j]> (idempotencyIndex s)), None)
  end.

Definition Get (s : MemoryStore) (id : Z) : option Job := jobs s !! id.

Definition Update (s : MemoryStore) (j : Job) : MemoryStore * err :=
  match jobs s !! ID j with
  | None => (s, Some (ErrNotFoundForUpdate (ID j)))
  | Some existing =>
      if negb (IsValidTransition (JStatus existing) (JStatus j)) then
        (s, Some (ErrInvalidTransition (JStatus existing) (JStatus j) (ID j)))
      else
        let ix := removeFromStatusIndex (statusIndex s) (JStatus existing) (ID j) in
        (mkMem (<[ID j := j]> (jobs s)) (addToStatusIndex ix (JStatus j) (ID j))
           (crons s) (dlq s) (idempotencyIndex s), None)
  end.

Definition Delete (s : MemoryStore) (id : Z) : MemoryStore * (bool * err) :=
  match jobs s !! id with
  | None => (s, (false, None))
  | Some j =>
      (mkMem (delete id (jobs s)) (removeFromStatusIndex (statusIndex s) (JStatus j) id)
         (crons s) (dlq s)
         (if decide (IdempotencyKey j = "") then idempotencyIndex s
          else delete (IdempotencyKey j) (idempotencyIndex s)), (true, None))
  end.

Definition Cancel (s : MemoryStore) (id : Z) : MemoryStore * err :=
  match jobs s !! id with
  | None => (s, Some ErrJobNotFound)
  | Some j =>
      if is_terminal (JStatus j) then (s, Some (ErrTerminal (JStatus j)))
      else
        let ix := removeFromStatusIndex (statusIndex s) (JStatus j) id in
        (mkMem (<[id := with_status j Cancelled]> (jobs s)) (addToStatusIndex ix Cancelled id)
           (crons s) (dlq s) (idempotencyIndex s), None)
  end.

Definition AddCron (s : MemoryStore) (c : CronJob) : MemoryStore * err :=
  (mkMem (jobs s) (statusIndex s) (<[CronID c := c]> (crons s)) (dlq s) (idempotencyIndex s), None).

Definition DeleteCron (s : MemoryStore) (id : string) : MemoryStore * (bool * err) :=
  match crons s !! id with
  | None => (s, (false, None))
  | Some _ =>
      (mkMem (jobs s) (statusIndex s) (delete id (crons s)) (dlq s) (idempotencyIndex s),
       (true, None))
  end.

Definition AddDLQ (s : MemoryStore) (j : Job) : MemoryStore * err :=
  (mkMem (jobs s) (statusIndex s) (crons s) (<[ID j := j]> (dlq s)) (idempotencyIndex s), None).

Definition FindByIdempotencyKey (s : MemoryStore) (key : string) : option Job :=
  if decide (key = "") then None
  else match idempotencyIndex s !! key with
       | None => None
       | Some id => jobs s !! id
       end.

Section Range.
Context `{GoRange}.

Definition List (s : MemoryStore) : list Job := (go_range (jobs s)).*2.

(** The loop over the id set, skipping ids without a job. *)
Definition ListByStatus (s : MemoryStore) (st : Status) : list Job * err :=
  match statusIndex s !! st with
  | None => ([], None)
  | Some set => (omap (λ e, jobs s !! e.1) (go_range set), None)
  end.

Definition ListCrons (s : MemoryStore) : list CronJob * err := ((go_range (crons s)).*2, None).
Definition ListDLQ (s : MemoryStore) : list Job * err := ((go_range (dlq s)).*2, None).

#[global] Instance MemoryStore_ops : Store.StoreOps MemoryStore := {|
  Store.Add := Add; Store.Get := Get; Store.List := List;
  Store.ListByStatus := ListByStatus; Store.Update := Update; Store.Delete := Delete;
  Store.Cancel := Cancel; Store.AddCron := AddCron; Store.DeleteCron := DeleteCron;
  Store.ListCrons := ListCrons; Store.AddDLQ := AddDLQ; Store.ListDLQ := ListDLQ;
  Store.FindByIdempotencyKey := FindByIdempotencyKey
|}.
End Range.

(** ** The index invariant *)

(** The ids filed under [st]. *)
Definition indexed (ix : gmap string (gmap Z unit)) (st : Status) (id : Z) : Prop :=
  ∃ set, ix !! st = Some set ∧ is_Some (set !! id).

Definition index_exact (m : gmap Z Job) (ix : gmap string (gmap Z unit)) : Prop :=
  ∀ st id, indexed ix st id ↔ ∃ j, m !! id = Some j ∧ JStatus j = st.

Definition inv (s : MemoryStore) : Prop :=
  (∀ id j, jobs s !! id = Some j → ID j = id) ∧
  (∀ id j, dlq s !! id = Some j → ID j = id) ∧
  index_exact (jobs s) (statusIndex s).

Lemma indexed_add ix st id st' id' :
  indexed (addToStatusIndex ix st id) st' id' ↔ (st' = st ∧ id' = id) ∨ indexed ix st' id'.
Proof.
  unfold indexed, addToStatusIndex.
  destruct (ix !! st) as [set|] eqn:E; rewrite ?E, ?lookup_insert_eq.
  - setoid_rewrite lookup_insert_Some. split.
    + intros (t & [[<- <-]|[? ?]] & Hid); [|eauto].
      destruct (decide (id' = id)) as [->|]; [eauto|].
      rewrite lookup_insert_ne in Hid by done. eauto.
    + intros [[-> ->]|(t & Ht & Hid)].
      * eexists. split; [left; eauto|]. by rewrite lookup_insert_eq.
      * destruct (decide (st = st')) as [<-|]; [|eauto]. simplify_eq.
        eexists. split; [left; eauto|]. rewrite lookup_insert. case_decide; eauto.
  - rewrite insert_insert_eq. setoid_rewrite lookup_insert_Some. split.
    + intros (t & [[<- <-]|[? ?]] & Hid); [|eauto].
      destruct (decide (id' = id)) as [->|]; [eauto|].
      rewrite lookup_insert_ne, lookup_empty in Hid by done. by destruct Hid.
    + intros [[-> ->]|(t & Ht & Hid)].
      * eexists. split; [left; eauto|]. by rewrite lookup_insert_eq.
      * destruct (decide (st = st')) as [<-|]; [congruence|eauto].
Qed.

Lemma indexed_remove ix st id st' id' :
  indexed (removeFromStatusIndex ix st id) st' id' ↔
    ¬ (st' = st ∧ id' = id) ∧ indexed ix st' id'.
Proof.
  unfold indexed, removeFromStatusIndex. destruct (ix !! st) as [set|] eqn:E.
  - setoid_rewrite lookup_insert_Some. split.
    + intros (t & [[<- <-]|[? ?]] & Hid).
      * rewrite lookup_delete in Hid. case_decide; [by destruct Hid|]. naive_solver.
      * naive_solver.
    + intros (Hne & t & Ht & Hid). destruct (decide (st = st')) as [<-|]; [|eauto].
      simplify_eq. eexists. split; [left; eauto|].
      rewrite lookup_delete_ne; [done|naive_solver].
  - split; [|naive_solver]. intros (t & Ht & Hid). split; [|eauto]. naive_solver.
Qed.

(** Storing [j] in place of whatever was filed under its id. *)
Lemma index_exact_put m ix id j :
  index_exact m ix → m !! id = None →
  index_exact (<[id := j]> m) (addToStatusIndex ix (JStatus j) id).
Proof.
  intros Hix Hm st k. rewrite indexed_add, (Hix st k).
  setoid_rewrite lookup_insert_Some. naive_solver.
Qed.

Lemma index_exact_replace m ix id old j :
  index_exact m ix → m !! id = Some old →
  index_exact (<[id := j]> m)
    (addToStatusIndex (removeFromStatusIndex ix (JStatus old) id) (JStatus j) id).
Proof.
  intros Hix Hm st k. rewrite indexed_add, indexed_remove, (Hix st k).
  setoid_rewrite lookup_insert_Some.
  destruct (decide (k = id)) as [->|]; naive_solver.
Qed.

Lemma index_exact_delete m ix id old :
  index_exact m ix → m !! id = Some old →
  index_exact (delete id m) (removeFromStatusIndex ix (JStatus old) id).
Proof.
  intros Hix Hm st k. rewrite indexed_remove, (Hix st k).
  setoid_rewrite lookup_delete_Some.
  destruct (decide (k = id)) as [->|]; naive_solver.
Qed.

#[export] Hint Resolve index_exact_put index_exact_replace index_exact_delete : quorum.

(** ** Refinement of the abstract store *)

Definition abs (s : MemoryStore) : Store.Abs :=
  Store.mkAbs (jobs s) (crons s) (dlq s) (idempotencyIndex s).

Lemma mem_norm_job j : Store.norm_job id j = j.
Proof. by destruct j. Qed.

Lemma norm_cron_id c : Store.norm_cron id c = c.
Proof. by destruct c. Qed.

(** Every call does to the contents what the abstract call does, with the same
    response, and keeps the index exact. *)
Section Refinement.
Context `{GoRange}.
Implicit Types s : MemoryStore.

Lemma Add_refines s j :
  inv s → abs (Add s j).1 = (Store.abs_add id (abs s) j).1 ∧
          (Add s j).2 = (Store.abs_add id (abs s) j).2 ∧ inv (Add s j).1.
Proof.
  intros (H1 & H2 & H3). unfold Add, Store.abs_add. simpl.
  destruct (jobs s !! ID j) eqn:E; simpl; [done|]. split; [|split; [done|]].
  - unfold Store.abs_put, Store.set_idem, Store.set_jobs, abs. rewrite mem_norm_job.
    by case_decide.
  - split; [|split; [done|by apply index_exact_put]].
    intros id k. simpl. rewrite lookup_insert_Some. naive_solver.
Qed.

Lemma Update_refines s j :
  inv s → abs (Update s j).1 = (Store.abs_update id (abs s) j).1 ∧
          (Update s j).2 = (Store.abs_update id (abs s) j).2 ∧ inv (Update s j).1.
Proof.
  intros (H1 & H2 & H3). unfold Update, Store.abs_update. simpl.
  destruct (jobs s !! ID j) as [old|] eqn:E; simpl; [|done].
  destruct (IsValidTransition _ _); simpl; [|done]. split; [|split; [done|]].
  - unfold Store.abs_put, Store.set_jobs, abs. by rewrite mem_norm_job.
  - split; [|split; [done|by apply index_exact_replace]].
    intros id k. simpl. rewrite lookup_insert_Some. naive_solver.
Qed.

Lemma Delete_refines s id :
  inv s → abs (Delete s id).1 = (Store.abs_delete (abs s) id).1 ∧
          (Delete s id).2 = (Store.abs_delete (abs s) id).2 ∧ inv (Delete s id).1.
Proof.
  intros (H1 & H2 & H3). unfold Delete, Store.abs_delete. simpl.
  destruct (jobs s !! id) as [old|] eqn:E; simpl; [|done]. split; [|split; [done|]].
  - by case_decide.
  - split; [|split; [done|by apply index_exact_delete]].
    intros k j. simpl. rewrite lookup_delete_Some. naive_solver.
Qed.

Lemma Cancel_refines s id :
  inv s → abs (Cancel s id).1 = (Store.abs_cancel (abs s) id).1 ∧
          (Cancel s id).2 = (Store.abs_cancel (abs s) id).2 ∧ inv (Cancel s id).1.
Proof.
  intros (H1 & H2 & H3). unfold Cancel, Store.abs_cancel. simpl.
  destruct (jobs s !! id) as [old|] eqn:E; simpl; [|done].
  destruct (is_terminal _); simpl; [done|]. split; [done|split; [done|]].
  split; [|split; [done|]].
  - intros k j. simpl. rewrite lookup_insert_Some. naive_solver.
  - by apply (index_exact_replace _ _ _ _ (with_status old Cancelled)).
Qed.

Lemma AddDLQ_refines s j :
  inv s → abs (AddDLQ s j).1 = (Store.abs_addDLQ id (abs s) j).1 ∧ inv (AddDLQ s j).1.
Proof.
  intros (H1 & H2 & H3). split.
  - unfold Store.abs_addDLQ. by rewrite mem_norm_job.
  - split; [done|]. split; [|done]. intros k i. simpl. rewrite lookup_insert_Some. naive_solver.
Qed.

Lemma ListByStatus_perm s st :
  inv s → (ListByStatus s st).1 ≡ₚ Store.abs_byStatus (abs s) st.
Proof.
  intros (H1 & H2 & H3). unfold ListByStatus, Store.abs_byStatus. simpl.
  assert (Hnd : NoDup (filter (λ e : Z * Job, JStatus e.2 = st) (map_to_list (jobs s))).*2).
  { apply NoDup_fmap_2_strong; [|apply NoDup_filter, NoDup_map_to_list].
    intros [k1 j1] [k2 j2] [_ Hm1%elem_of_map_to_list]%list_elem_of_filter
      [_ Hm2%elem_of_map_to_list]%list_elem_of_filter ?.
    simpl in *. f_equal; [|done]. apply H1 in Hm1, Hm2. congruence. }
  apply NoDup_Permutation; [|done|].
  - destruct (statusIndex s !! st) as [set|]; simpl; [|constructor].
    pose proof (NoDup_go_range_keys set) as Hk.
    induction (go_range set) as [|[k u] l IH]; simpl; [constructor|].
    inversion Hk as [|? ? Hnin Hk']; subst. destruct (jobs s !! k) as [j|] eqn:Ej; [|auto].
    constructor; [|auto]. rewrite list_elem_of_omap.
    intros ([k' u'] & Hin & Hj'). simpl in Hj'. apply H1 in Ej. apply H1 in Hj'.
    apply Hnin. rewrite list_elem_of_fmap. exists (k', u'). simpl. split; congruence.
  - intros j. pose proof (Store.elem_of_abs_byStatus (abs s) st j) as Habs.
    unfold Store.abs_byStatus in Habs. rewrite Habs. simpl. clear Habs Hnd.
    destruct (statusIndex s !! st) as [set|] eqn:Eset; simpl.
    + rewrite list_elem_of_omap. split.
      * intros ([k u] & Hin%elem_of_go_range & Hj). simpl in *.
        destruct (proj1 (H3 st k)) as (j' & Hj' & Hst); [exists set; eauto|].
        exists k. simplify_eq. done.
      * intros (k & Hj & Hst). destruct (proj2 (H3 st k)) as (set' & Hs' & [u Hu]); [eauto|].
        simplify_eq. exists (k, u). rewrite elem_of_go_range. done.
    + split; [by intros ?%elem_of_nil|]. intros (k & Hj & Hst).
      destruct (proj2 (H3 st k)) as (set' & Hs' & _); [eauto|]. congruence.
Qed.

#[global] Instance MemoryStore_laws : Store.StoreLaws MemoryStore.
Proof.
  refine {| Store.norm := id; Store.storable _ := True; Store.storable_cron _ := True;
            Store.rel s a := inv s ∧ a = abs s |}; try done.
  - intros s a [(? & ? & _) ->]. done.
  - intros s a k [_ ->]. done.
  - intros s a [_ ->]. simpl. unfold List. by rewrite go_range_perm.
  - intros s a st l [Hi ->] _ Hl. rewrite <-ListByStatus_perm by done.
    simpl in Hl. by rewrite Hl.
  - intros s a key [_ ->]. simpl. unfold FindByIdempotencyKey, Store.abs_find.
    case_decide; [done|]. simpl. by destruct (idempotencyIndex s !! key).
  - intros s a l [_ ->] [= <-]. by rewrite go_range_perm.
  - intros s a l [_ ->] [= <-]. by rewrite go_range_perm.
  - intros s a j [Hi ->] _ Hf. left. destruct (Add_refines s j Hi) as (Ha & He & Hi').
    split; [|by split]. simpl. rewrite He. unfold Store.abs_add. by rewrite Hf.
  - intros s a j [Hi ->] _. left. destruct (Update_refines s j Hi) as (Ha & He & Hi').
    split; [done|by split].
  - intros s a k [Hi ->]. left. destruct (Delete_refines s k Hi) as (Ha & He & Hi').
    split; [done|by split].
  - intros s a k [Hi ->]. left. destruct (Cancel_refines s k Hi) as (Ha & He & Hi').
    split; [done|by split].
  - intros s a j [Hi ->] _. left. destruct (AddDLQ_refines s j Hi) as (Ha & Hi').
    split; [done|by split].
  - intros s a c [Hi ->] _. left. split; [done|]. split; [done|].
    simpl. unfold Store.abs_addCron. by rewrite norm_cron_id.
  - intros s a c [Hi ->]. left. simpl. unfold DeleteCron, Store.abs_deleteCron. simpl.
    by destruct (crons s !! c).
Defined.

#[global] Instance MemoryStore_reliable : Store.ReliableStore MemoryStore.
Proof.
  split; simpl.
  - done.
  - done.
  - done.
  - intros s a j _ [m Hm]. unfold Add in Hm. by case_match.
  - intros s a j _ [m Hm]. unfold Update in Hm. by repeat case_match.
  - intros s a k _ [m Hm]. unfold Cancel in Hm. by repeat case_match.
  - intros s a k _ [m Hm]. unfold Delete in Hm. by repeat case_match.
  - intros s a c _ [m Hm]. done.
  - intros s a k _ [m Hm]. unfold DeleteCron in Hm. by case_match.
  - intros s a j _ [m Hm]. done.
  - intros s a st _. unfold ListByStatus. by case_match.
Qed.

#[global] Instance MemoryStore_strict : Store.StrictStore MemoryStore.
Proof. intros s a j old [Hi ->] Hj. simpl in *. unfold Add. by rewrite Hj. Qed.

(** One call of the history language. *)
Lemma mem_exec_refines s o :
  inv s → abs (Store.exec s o).1 = (Store.abs_exec id (abs s) o).1 ∧
          (Store.exec s o).2 = (Store.abs_exec id (abs s) o).2 ∧ inv (Store.exec s o).1.
Proof.
  intros Hi. destruct o as [j|j|k|k|c|k|j]; simpl.
  - pose proof (Add_refines s j Hi) as Hr.
    destruct (Add s j), (Store.abs_add id (abs s) j). simpl in *. naive_solver.
  - pose proof (Update_refines s j Hi) as Hr.
    destruct (Update s j), (Store.abs_update id (abs s) j). simpl in *. naive_solver.
  - by apply Delete_refines.
  - pose proof (Cancel_refines s k Hi) as Hr.
    destruct (Cancel s k), (Store.abs_cancel (abs s) k). simpl in *. naive_solver.
  - unfold Store.abs_addCron. by rewrite norm_cron_id.
  - unfold DeleteCron, Store.abs_deleteCron. simpl. by destruct (crons s !! k).
  - pose proof (AddDLQ_refines s j Hi) as Hr. simpl in *. naive_solver.
Qed.

Lemma inv_new : inv NewMemoryStore.
Proof.
  split; [done|]. split; [done|]. intros st k. split.
  - intros (t & Ht & _). done.
  - intros (j & Hj & _). done.
Qed.

Lemma exec_all_refines s os :
  inv s → abs (Store.exec_all s os).1 = (Store.abs_exec_all id (abs s) os).1 ∧
          (Store.exec_all s os).2 = (Store.abs_exec_all id (abs s) os).2 ∧
          inv (Store.exec_all s os).1.
Proof.
  revert s. induction os as [|o os IH]; intros s Hi; [done|]. simpl.
  destruct (mem_exec_refines s o Hi) as (Ha & Hr & Hi').
  destruct (Store.exec s o) as [s1 r1], (Store.abs_exec id (abs s) o) as [a1 r1'].
  simpl in *. subst. destruct (IH s1 Hi') as (Ha' & Hr' & Hi'').
  destruct (Store.exec_all s1 os), (Store.abs_exec_all id (abs s1) os). simpl in *.
  by subst.
Qed.

(** One call of the interface. *)
Lemma serve_refines s c :
  inv s → abs (Store.serve s c).1 = (Store.abs_serve id (abs s) c).1 ∧
          Store.same_answer (Store.serve s c).2 (Store.abs_serve id (abs s) c).2 ∧
          inv (Store.serve s c).1.
Proof.
  intros Hi. destruct c as [o|k| |st|key| |]; cbn [Store.serve Store.abs_serve].
  - destruct (mem_exec_refines s o Hi) as (Ha & Hr & Hi').
    destruct (Store.exec s o), (Store.abs_exec id (abs s) o). by simpl in *.
  - done.
  - split; [done|]. split; [|done]. simpl. unfold List. by rewrite go_range_perm.
  - pose proof (ListByStatus_perm s st Hi) as Hp. cbn [Store.ListByStatus MemoryStore_ops].
    assert (He : (ListByStatus s st).2 = None) by (unfold ListByStatus; by case_match).
    destruct (ListByStatus s st) as [js e]. simpl in *. by subst e.
  - split; [done|]. split; [|done]. simpl. unfold FindByIdempotencyKey, Store.abs_find.
    case_decide; [done|]. simpl. by destruct (idempotencyIndex s !! key).
  - split; [done|]. split; [|done]. simpl. by rewrite go_range_perm.
  - split; [done|]. split; [|done]. simpl. by rewrite go_range_perm.
Qed.

Lemma serve_all_refines s cs :
  inv s → Forall2 Store.same_answer (Store.serve_all s cs) (Store.abs_serve_all id (abs s) cs).
Proof.
  revert s. induction cs as [|c cs IH]; intros s Hi; [constructor|]. cbn [Store.serve_all Store.abs_serve_all].
  destruct (serve_refines s c Hi) as (Ha & Hx & Hi').
  destruct (Store.serve s c) as [s1 x], (Store.abs_serve id (abs s) c) as [a1 y]. simpl in *. subst a1.
  constructor; [done|by apply IH].
Qed.

(** C7. The in-memory store implements the abstract store, which has no status
    index: from a new store, any sequence of the thirteen calls of the interface,
    reads and writes mixed, is answered as the abstract store answers it,
    listings up to their order. *)
Theorem memory_store_refines cs :
  Forall2 Store.same_answer
    (Store.serve_all NewMemoryStore cs) (Store.abs_serve_all id Store.empty cs).
Proof. exact (serve_all_refines NewMemoryStore cs inv_new). Qed.

(** The status index never goes stale: after any sequence of calls,
    [ListByStatus] returns each job with that status once and nothing else. *)
Theorem status_index_exact os st :
  let s := (Store.exec_all NewMemoryStore os).1 in
  (ListByStatus s st).2 = None ∧ NoDup (ListByStatus s st).1 ∧
  ∀ j, j ∈ (ListByStatus s st).1 ↔ Get s (ID j) = Some j ∧ JStatus j = st.
Proof.
  intros s. destruct (exec_all_refines NewMemoryStore os inv_new) as (_ & _ & Hi). fold s in Hi.
  pose proof (ListByStatus_perm s st Hi) as Hp.
  destruct Hi as (Hwf & _). split; [unfold ListByStatus; by case_match|]. split.
  - rewrite Hp. unfold Store.abs_byStatus. apply NoDup_fmap_2_strong.
    + intros [k1 j1] [k2 j2] H1%list_elem_of_filter H2%list_elem_of_filter Heq. simpl in Heq.
      destruct H1 as [_ H1%elem_of_map_to_list], H2 as [_ H2%elem_of_map_to_list].
      apply Hwf in H1, H2. congruence.
    + apply NoDup_filter, NoDup_map_to_list.
  - intros j. rewrite Hp, Store.elem_of_abs_byStatus. unfold Get. simpl. split; [|eauto].
    intros (k & Hj & Hs). by rewrite (Hwf _ _ Hj).
Qed.
End Refinement.

(** ** Witnesses of the laws, on the in-memory store *)
Section Witnesses.
#[local] Existing Instance canonical_range.

(** A store with one completed job, and the same store after an attempt to
    fail and to cancel it. *)
Definition one_done : MemoryStore :=
  (Store.exec_all NewMemoryStore
     [Store.OAdd (NewJob 1 "email" 5); Store.OUpdate (with_status (NewJob 1 "email" 5) Completed)]).1.

Lemma one_done_inv : inv one_done.
Proof. apply exec_all_refines, inv_new. Qed.

Lemma one_done_reach :
  Store.reach (λ o, o ≠ Store.ODelete 1) one_done
    (Store.exec (Store.exec one_done (Store.OUpdate (with_status (NewJob 1 "email" 5) Failed))).1
       (Store.OCancel 1)).1.
Proof. repeat (apply Store.reach_step || apply Store.reach_refl); done. Qed.

Lemma terminal_sticky_witness :
  ∃ j', Get (Store.exec (Store.exec one_done
               (Store.OUpdate (with_status (NewJob 1 "email" 5) Failed))).1 (Store.OCancel 1)).1 1
        = Some j' ∧ JStatus j' = Completed.
Proof.
  refine (Store.terminal_sticky one_done _ (abs one_done) 1
    (with_status (NewJob 1 "email" 5) Completed) _ _ _ one_done_reach).
  - split; [apply one_done_inv|reflexivity].
  - vm_compute. reflexivity.
  - vm_compute. reflexivity.
Defined.

Lemma status_follows_table_witness :
  ∃ j', Get (Store.exec (Store.exec one_done
               (Store.OUpdate (with_status (NewJob 1 "email" 5) Failed))).1 (Store.OCancel 1)).1 1
        = Some j' ∧ rtc (λ x y, IsValidTransition x y = true) Completed (JStatus j') ∧
        known_status (JStatus j') = true.
Proof.
  refine (Store.status_follows_table one_done _ (abs one_done) 1
    (with_status (NewJob 1 "email" 5) Completed) _ _ _ one_done_reach).
  - split; [apply one_done_inv|reflexivity].
  - vm_compute. reflexivity.
  - vm_compute. reflexivity.
Defined.
End Witnesses.

End MemoryStore.
