(* ===== verification/Metrics.v ===== *)
(** * Counters and gauges: [internal/metrics/metrics.go]

    The process-wide Prometheus counters and gauges the components move.  The
    execution-duration histogram is written only. *)

From S2P Require Import Prelude.

Module Metrics.

Record Metrics := mkMetrics {
  JobsSubmitted : Z;
  JobsCompleted : Z;
  JobsFailed : Z;
  JobsCancelled : Z;
  QueueDepth : Z;
  ActiveWorkers : Z
}.

Definition init : Metrics := mkMetrics 0 0 0 0 0 0.

Definition submitted (m : Metrics) : Metrics :=
  mkMetrics (JobsSubmitted m + 1) (JobsCompleted m) (JobsFailed m) (JobsCancelled m)
    (QueueDepth m) (ActiveWorkers m).
Definition completed (m : Metrics) : Metrics :=
  mkMetrics (JobsSubmitted m) (JobsCompleted m + 1) (JobsFailed m) (JobsCancelled m)
    (QueueDepth m) (ActiveWorkers m).
Definition failed (m : Metrics) : Metrics :=
  mkMetrics (JobsSubmitted m) (JobsCompleted m) (JobsFailed m + 1) (JobsCancelled m)
    (QueueDepth m) (ActiveWorkers m).
Definition cancelled (m : Metrics) : Metrics :=
  mkMetrics (JobsSubmitted m) (JobsCompleted m) (JobsFailed m) (JobsCancelled m + 1)
    (QueueDepth m) (ActiveWorkers m).
Definition depth_add (d : Z) (m : Metrics) : Metrics :=
  mkMetrics (JobsSubmitted m) (JobsCompleted m) (JobsFailed m) (JobsCancelled m)
    (QueueDepth m + d) (ActiveWorkers m).
Definition workers_add (d : Z) (m : Metrics) : Metrics :=
  mkMetrics (JobsSubmitted m) (JobsCompleted m) (JobsFailed m) (JobsCancelled m)
    (QueueDepth m) (ActiveWorkers m + d).

(** The counters handlers increment one by one. *)
Inductive counter := Submitted | Completed | Failed | Cancelled.

Definition inc (c : counter) : Metrics → Metrics :=
  match c with
  | Submitted => submitted
  | Completed => completed
  | Failed => failed
  | Cancelled => cancelled
  end.

End Metrics.
