(* ===== verification/Queue.v ===== *)
(** * Job queues: [internal/queue/queue.go], [priority.go], [delay.go]

    A queue is a heap of job ids with a one-slot notification channel.  The
    comparator looks the two ids up in the store at the time of the call, so
    every operation takes the store; an id the store does not know compares as
    the zero job. *)

From Stdlib Require Import Sorting.Sorted.
From S2P Require Import Prelude Job Store Heap Metrics.

Module Queue.

Section Comparators.
Context {S : Type} `{Store.StoreOps S}.

(** [j, _ := store.Get(id)]. *)
Definition lookup_job (s : S) (id : Z) : Job := default zeroJob (Store.Get s id).

Definition PriorityComparator (s : S) (aID bID : Z) : bool :=
  (Priority (lookup_job s bID) <? Priority (lookup_job s aID))%Z.

Definition DelayComparator (s : S) (aID bID : Z) : bool :=
  (NextRunAt (lookup_job s aID) <? NextRunAt (lookup_job s bID))%Z.
End Comparators.

(** The heap array and whether the notification slot is full. *)
Record JobQueue := mkQueue { items : list Z; notify : bool }.

Section Ops.
Context (cmp : Z → Z → bool).

Definition NewJobQueue : JobQueue := mkQueue (Heap.Init cmp []) false.

(** The critical section of [Enqueue]. *)
Definition Push (q : JobQueue) (id : Z) : JobQueue :=
  mkQueue (Heap.Push cmp (items q) id) (notify q).

(** The non-blocking send on [notify], after the mutex was released. *)
Definition Notify (q : JobQueue) : JobQueue := mkQueue (items q) true.

(** [Enqueue] of a goroutine nobody interrupts: push, count, send.
    [Machine.Enqueue] makes the three steps one by one. *)
Definition Enqueue (q : JobQueue) (m : Metrics.Metrics) (id : Z) : JobQueue * Metrics.Metrics :=
  (Notify (Push q id), Metrics.depth_add 1 m).

Definition Dequeue (q : JobQueue) (m : Metrics.Metrics)
  : option Z * (JobQueue * Metrics.Metrics) :=
  match Heap.Pop cmp (items q) with
  | None => (None, (q, m))
  | Some (id, rest) => (Some id, (mkQueue rest (notify q), Metrics.depth_add (-1) m))
  end.

Definition Peek (q : JobQueue) : option Z := head (items q).

(** Receiving from [Wait()]: [None] when the slot is empty. *)
Definition Wait (q : JobQueue) : option JobQueue :=
  if notify q then Some (mkQueue (items q) false) else None.
End Ops.

(** ** Facts *)

Lemma Pop_nil cmp : Heap.Pop cmp [] = None.
Proof. done. Qed.

Lemma Dequeue_empty cmp q m : items q = [] → Dequeue cmp q m = (None, (q, m)).
Proof. intros E. unfold Dequeue. by rewrite E. Qed.

Lemma Dequeue_cons cmp q m id rest :
  items q = id :: rest →
  ∃ rest', Dequeue cmp q m = (Some id, (mkQueue rest' (notify q), Metrics.depth_add (-1) m)) ∧
           rest' ≡ₚ rest ∧ Heap.Pop cmp (id :: rest) = Some (id, rest').
Proof.
  intros E. unfold Dequeue. rewrite E.
  destruct (Heap.Pop_head cmp id rest) as (l' & Hp & Hperm & _).
  rewrite Hp. eauto.
Qed.

(** [Peek] and [Dequeue] agree on the next id. *)
Lemma Dequeue_Peek cmp q m : (Dequeue cmp q m).1 = Peek q.
Proof.
  unfold Peek. destruct (items q) as [|id rest] eqn:E.
  - by rewrite Dequeue_empty.
  - destruct (Dequeue_cons cmp q m id rest E) as (r & -> & _). done.
Qed.

Lemma Push_items cmp q id : items (Push cmp q id) ≡ₚ id :: items q.
Proof. apply Heap.Push_perm. Qed.

Lemma Enqueue_items cmp q m id : items (Enqueue cmp q m id).1 ≡ₚ id :: items q.
Proof. apply Heap.Push_perm. Qed.

(** *** The comparators are strict weak orders *)
Section Orders.
Context {S : Type} `{Store.StoreOps S}.

#[global] Instance priority_order (s : S) : Heap.WeakOrder (PriorityComparator s).
Proof. split; unfold PriorityComparator; intros *; rewrite ?Z.ltb_lt, ?Z.ltb_ge; lia. Qed.

#[global] Instance delay_order (s : S) : Heap.WeakOrder (DelayComparator s).
Proof. split; unfold DelayComparator; intros *; rewrite ?Z.ltb_lt, ?Z.ltb_ge; lia. Qed.
End Orders.

(** Heap order only depends on the comparisons of the queued ids. *)
Lemma heap_ordered_ext (less less' : Z → Z → bool) l :
  (∀ a b, a ∈ l → b ∈ l → less a b = less' a b) →
  Heap.heap_ordered less l → Heap.heap_ordered less' l.
Proof.
  intros Heq Ho k Hk Hp. pose proof (Heap.parent_pos k ltac:(lia)).
  unfold Heap.le. rewrite <-Heq; [by apply Ho| |]; apply list_elem_of_lookup_total_2; lia.
Qed.

(** A queue is in order for a comparator when its array is a heap. *)
Definition in_order (cmp : Z → Z → bool) (q : JobQueue) : Prop :=
  Heap.heap_ordered cmp (items q).

Lemma in_order_Push cmp `{!Heap.WeakOrder cmp} q id :
  in_order cmp q → in_order cmp (Push cmp q id).
Proof. intros. by apply Heap.Push_ordered. Qed.

Lemma in_order_Enqueue cmp `{!Heap.WeakOrder cmp} q m id :
  in_order cmp q → in_order cmp (Enqueue cmp q m id).1.
Proof. intros. by apply Heap.Push_ordered. Qed.

Lemma in_order_Dequeue cmp `{!Heap.WeakOrder cmp} q m :
  in_order cmp q → in_order cmp (Dequeue cmp q m).2.1.
Proof.
  intros Ho. destruct (items q) as [|id rest] eqn:E.
  - by rewrite Dequeue_empty.
  - destruct (Dequeue_cons cmp q m id rest E) as (r & -> & _ & Hp). simpl.
    unfold in_order in Ho. rewrite E in Ho. by eapply Heap.Pop_ordered.
Qed.

(** What [Dequeue] answers compares before nothing it leaves behind. *)
Lemma Dequeue_minimal {S} `{Store.StoreOps S} (s : S) q m id q' m' :
  in_order (PriorityComparator s) q →
  Dequeue (PriorityComparator s) q m = (Some id, (q', m')) →
  ∀ id', id' ∈ items q' →
    (Priority (lookup_job s id') ≤ Priority (lookup_job s id))%Z.
Proof.
  intros Ho Hd id' Hin. destruct (items q) as [|x rest] eqn:E.
  { by rewrite Dequeue_empty in Hd. }
  destruct (Dequeue_cons (PriorityComparator s) q m x rest E) as (r & Hr & _ & Hp).
  rewrite Hr in Hd. injection Hd as <- <- <-. simpl in Hin.
  unfold in_order in Ho. rewrite E in Ho.
  pose proof (Heap.Pop_minimal _ _ _ _ _ Ho Hp Hin) as Hle.
  unfold Heap.le, PriorityComparator in Hle. by apply Z.ltb_ge in Hle.
Qed.

(** ** Filling and draining a queue *)
Section Drain.
Context (cmp : Z → Z → bool).

Definition fill (ids : list Z) : JobQueue :=
  foldl (λ q id, (Enqueue cmp q Metrics.init id).1) (NewJobQueue cmp) ids.

Fixpoint drain (fuel : nat) (q : JobQueue) : list Z :=
  match fuel with
  | 0 => []
  | S n =>
      match Dequeue cmp q Metrics.init with
      | (None, _) => []
      | (Some id, (q, _)) => id :: drain n q
      end
  end.

Lemma fill_perm ids q :
  items (foldl (λ q id, (Enqueue cmp q Metrics.init id).1) q ids) ≡ₚ ids ++ items q.
Proof.
  revert q. induction ids as [|id ids IH]; intros q; [done|].
  cbn [foldl]. rewrite IH, Enqueue_items. by rewrite <-Permutation_middle.
Qed.

Lemma fill_ordered `{!Heap.WeakOrder cmp} ids q :
  in_order cmp q → in_order cmp (foldl (λ q id, (Enqueue cmp q Metrics.init id).1) q ids).
Proof.
  revert q. induction ids as [|id ids IH]; intros q Ho; [done|].
  cbn [foldl]. by apply IH, in_order_Enqueue.
Qed.

Lemma drain_spec `{!Heap.WeakOrder cmp} n q :
  in_order cmp q → length (items q) = n →
  drain n q ≡ₚ items q ∧ StronglySorted (λ a b, cmp b a = false) (drain n q).
Proof.
  revert q. induction n as [|n IH]; intros q Ho Hn.
  { apply nil_length_inv in Hn. rewrite Hn. simpl. split; [done|constructor]. }
  destruct (items q) as [|x rest] eqn:E; [done|]. injection Hn as Hn.
  destruct (Dequeue_cons cmp q Metrics.init x rest E) as (r & Hd & Hp & Hpop).
  pose proof (in_order_Dequeue cmp q Metrics.init Ho) as Ho'. rewrite Hd in Ho'.
  cbn [drain]. rewrite Hd. cbn [fst snd] in Ho'.
  destruct (IH (mkQueue r (notify q)) Ho') as [Hperm Hsort].
  { simpl. by rewrite Hp. }
  split; [by rewrite Hperm; simpl; rewrite Hp|]. constructor; [done|].
  apply Forall_forall. intros y Hy. rewrite Hperm in Hy. simpl in Hy.
  unfold in_order in Ho. rewrite E in Ho. by apply (Heap.Pop_minimal cmp x rest r y Ho Hpop).
Qed.
End Drain.

(** A queue sorts: enqueueing any ids and dequeueing until empty returns a
    permutation of them, in order of decreasing priority of the stored jobs. *)
Theorem priority_queue_sorts {S} `{Store.StoreOps S} (s : S) ids :
  let out := drain (PriorityComparator s) (length ids) (fill (PriorityComparator s) ids) in
  out ≡ₚ ids ∧
  StronglySorted (λ a b, Priority (lookup_job s b) ≤ Priority (lookup_job s a))%Z out.
Proof.
  pose proof (fill_perm (PriorityComparator s) ids (NewJobQueue (PriorityComparator s))) as Hp.
  simpl in Hp. rewrite app_nil_r in Hp.
  destruct (drain_spec (PriorityComparator s) (length ids) (fill (PriorityComparator s) ids))
    as [Hd Hs].
  - apply fill_ordered; [apply _|]. apply Heap.Init_ordered, _.
  - unfold fill. by rewrite Hp.
  - split; [by rewrite Hd|]. cbv zeta. clear Hd. induction Hs as [|a l Hs IH Hall]; constructor; [done|].
    eapply Forall_impl; [exact Hall|]. intros b. unfold PriorityComparator. by rewrite Z.ltb_ge.
Qed.

End Queue.
