(* ===== verification/GoStrings.v ===== *)
(** * The part of Go's [strings] and [strconv] packages the server uses

    A Go string is a byte sequence: a [string] of the development is that
    sequence, one [ascii] per byte. *)

From S2P Require Import Prelude.
From Stdlib Require Import Ascii.

Module GoStrings.

Abbreviation bytes := (list ascii).
Abbreviation to_bytes := String.list_ascii_of_string.
Abbreviation of_bytes := String.string_of_list_ascii.

Definition byte (n : nat) : ascii := ascii_of_nat n.

(** The UTF-8 encodings of the code points [unicode.IsSpace] accepts. *)
Definition spaces : list bytes :=
  [[byte 9]; [byte 10]; [byte 11]; [byte 12]; [byte 13]; [byte 32];
   [byte 194; byte 133]; [byte 194; byte 160]; [byte 225; byte 154; byte 128]] ++
  ((λ n, [byte 226; byte 128; byte n]) <$> seq 128 11) ++
  [[byte 226; byte 128; byte 168]; [byte 226; byte 128; byte 169];
   [byte 226; byte 128; byte 175]; [byte 226; byte 129; byte 159];
   [byte 227; byte 128; byte 128]].

Definition has_prefix (p l : bytes) : bool := bool_decide (take (length p) l = p).

(** Drop the separators of [seps] at the front, at most [fuel] of them. *)
Fixpoint strip (seps : list bytes) (fuel : nat) (l : bytes) : bytes :=
  match fuel with
  | 0 => l
  | S fuel =>
      match list_find (λ p, has_prefix p l = true) seps with
      | Some (_, p) => strip seps fuel (drop (length p) l)
      | None => l
      end
  end.

Definition trim_left (l : bytes) : bytes := strip spaces (length l) l.
Definition trim_right (l : bytes) : bytes :=
  reverse (strip (reverse <$> spaces) (length l) (reverse l)).

(** [strings.TrimSpace]. *)
Definition TrimSpace (s : string) : string := of_bytes (trim_right (trim_left (to_bytes s))).

Example trim_ascii : TrimSpace "  a b	" = "a b".
Proof. reflexivity. Qed.

Example trim_blank : TrimSpace "   " = "".
Proof. reflexivity. Qed.

(** [strings.Fields]: the maximal runs without a separator.  [cur] is the run
    being read, reversed. *)
Definition flush (cur : bytes) : list bytes := match cur with [] => [] | _ => [reverse cur] end.

Fixpoint fields (fuel : nat) (cur l : bytes) : list bytes :=
  match fuel, l with
  | 0, _ | _, [] => flush cur
  | S fuel, c :: l' =>
      match list_find (λ p, has_prefix p l = true) spaces with
      | Some (_, p) => flush cur ++ fields fuel [] (drop (length p) l)
      | None => fields fuel (c :: cur) l'
      end
  end.

Definition Fields (s : string) : list string :=
  of_bytes <$> fields (S (length (to_bytes s))) [] (to_bytes s).

Example fields_cron : Fields "*/5 *  * * *" = ["*/5"; "*"; "*"; "*"; "*"].
Proof. reflexivity. Qed.

(** [strings.HasPrefix] and [strings.TrimPrefix]. *)
Definition HasPrefix (s p : string) : bool := has_prefix (to_bytes p) (to_bytes s).
Definition TrimPrefix (s p : string) : string :=
  if HasPrefix s p then of_bytes (drop (length (to_bytes p)) (to_bytes s)) else s.

(** [strings.Split] at a one-byte separator, and [strings.SplitN] with two
    parts. *)
Fixpoint split_on (c : ascii) (l : bytes) : list bytes :=
  match l with
  | [] => [[]]
  | x :: l =>
      if decide (x = c) then [] :: split_on c l
      else match split_on c l with
           | h :: t => (x :: h) :: t
           | [] => [[x]]
           end
  end.

Definition Split (s : string) (c : ascii) : list string := of_bytes <$> split_on c (to_bytes s).

Fixpoint cut (c : ascii) (l : bytes) : option (bytes * bytes) :=
  match l with
  | [] => None
  | x :: l => if decide (x = c) then Some ([], l) else '(a, b) ← cut c l; Some (x :: a, b)
  end.

Definition SplitN2 (s : string) (c : ascii) : list string :=
  match cut c (to_bytes s) with
  | Some (a, b) => [of_bytes a; of_bytes b]
  | None => [s]
  end.

Example split_example : Split "a..b" "." = ["a"; ""; "b"].
Proof. reflexivity. Qed.

(** [strconv.Atoi]: an optional sign, then one or more decimal digits, in the
    range of [int]; [None] is an error. *)
Definition digit (c : ascii) : option Z :=
  let n := Z.of_nat (nat_of_ascii c) in
  if ((48 <=? n) && (n <=? 57))%Z then Some (n - 48)%Z else None.

Fixpoint digits (acc : Z) (l : bytes) : option Z :=
  match l with
  | [] => Some acc
  | c :: l => match digit c with Some d => digits (10 * acc + d)%Z l | None => None end
  end.

Definition Atoi (s : string) : option Z :=
  let range z := if decide (in_int64 z) then Some z else None in
  match to_bytes s with
  | [] => None
  | c :: l =>
      if decide (c = "-"%char) then
        (if decide (l = []) then None else d ← digits 0 l; range (- d)%Z)
      else if decide (c = "+"%char) then
        (if decide (l = []) then None else d ← digits 0 l; range d)
      else d ← digits 0 (c :: l); range d
  end.

Example atoi_neg : Atoi "-42" = Some (-42)%Z.
Proof. reflexivity. Qed.

Example atoi_bad : Atoi "4x" = None.
Proof. reflexivity. Qed.

Example atoi_range : Atoi "9223372036854775808" = None.
Proof. reflexivity. Qed.

(** The fuel is enough: what is left does not start with a separator. *)
Lemma strip_done seps fuel l :
  Forall (λ p, p ≠ []) seps → length l ≤ fuel →
  Forall (λ p, has_prefix p (strip seps fuel l) = false) seps.
Proof.
  intros Hne. revert l. induction fuel as [|fuel IH]; intros l Hl; simpl.
  - destruct l; [|simpl in Hl; lia]. eapply Forall_impl; [exact Hne|].
    intros p Hp. unfold has_prefix. apply bool_decide_eq_false.
    intros Heq. apply Hp. by destruct p.
  - destruct (list_find _ seps) as [[i p]|] eqn:E.
    + apply list_find_Some in E as (Hp & Hpre & _). apply IH.
      pose proof (Forall_lookup_1 _ _ _ _ Hne Hp) as Hpn. simpl in Hpn.
      apply bool_decide_eq_true in Hpre. rewrite length_drop.
      destruct p; [done|]. simpl. destruct l; [done|]. simpl in *. lia.
    + apply list_find_None in E. eapply Forall_impl; [exact E|].
      intros p Hp. by apply not_true_is_false.
Qed.

(** Trimming is idempotent: what it leaves has a separator at neither end. *)
Lemma strip_nothing seps fuel l :
  Forall (λ p, has_prefix p l = false) seps → strip seps fuel l = l.
Proof.
  intros Hs. destruct fuel; [done|]. simpl.
  destruct (list_find _ seps) as [[i p]|] eqn:E; [|done].
  apply list_find_Some in E as (Hp & Hpre & _). pose proof (Forall_lookup_1 _ _ _ _ Hs Hp). congruence.
Qed.

Lemma strip_suffix seps fuel l : ∃ k, l = k ++ strip seps fuel l.
Proof.
  revert l. induction fuel as [|fuel IH]; intros l; [by exists []|]. simpl.
  destruct (list_find _ seps) as [[i p]|]; [|by exists []].
  destruct (IH (drop (length p) l)) as [k Hk]. exists (take (length p) l ++ k).
  by rewrite <-app_assoc, <-Hk, take_drop.
Qed.

Lemma has_prefix_app p l x : has_prefix p l = true → has_prefix p (l ++ x) = true.
Proof.
  unfold has_prefix. rewrite !bool_decide_eq_true. intros Hp.
  assert (length p ≤ length l) by (rewrite <-Hp at 1; rewrite length_take; lia).
  by rewrite take_app_le.
Qed.

Lemma spaces_nonempty : Forall (λ p, p ≠ []) spaces ∧ Forall (λ p, p ≠ []) (reverse <$> spaces).
Proof. split; apply (bool_decide_unpack _); by vm_compute. Qed.

Lemma TrimSpace_idem s : TrimSpace (TrimSpace s) = TrimSpace s.
Proof.
  unfold TrimSpace. rewrite String.list_ascii_of_string_of_list_ascii.
  set (l := to_bytes s). set (t := trim_left l). set (u := trim_right t).
  assert (Hu : ∃ k, t = u ++ k).
  { destruct (strip_suffix (reverse <$> spaces) (length t) (reverse t)) as [k Hk].
    exists (reverse k). unfold u, trim_right. rewrite <-reverse_app, <-Hk. by rewrite reverse_involutive. }
  destruct Hu as [k Hk].
  assert (Hleft : trim_left u = u).
  { apply strip_nothing. pose proof (strip_done spaces (length l) l (proj1 spaces_nonempty) ltac:(lia)) as Hd.
    eapply Forall_impl; [exact Hd|]. intros p Hp. apply not_true_is_false. intros Hpu.
    apply (has_prefix_app p u k) in Hpu. rewrite <-Hk in Hpu. unfold t, trim_left in Hpu. congruence. }
  rewrite Hleft. unfold trim_right. rewrite strip_nothing; [by rewrite reverse_involutive|].
  unfold u, trim_right. rewrite reverse_involutive.
  apply strip_done; [apply spaces_nonempty|]. by rewrite length_reverse.
Qed.

(** [strconv.Itoa]. *)
Definition Itoa (z : Z) : string := pretty z.

(** The digits of a decimal numeral: no leading zero, and [digits] reads their
    value. *)
Record numeral (n : Z) (ds : bytes) : Prop := {
  num_digits : Forall (λ c, is_Some (digit c)) ds;
  num_ne : ds ≠ [];
  num_zero : ds = ["0"%char] ∨ head ds ≠ Some "0"%char;
  num_value : ∀ acc l, digits acc (ds ++ l) = digits (acc * 10 ^ Z.of_nat (length ds) + n)%Z l
}.

Lemma digit_char (d : N) : (d < 10)%N → digit (pretty_N_char d) = Some (Z.of_N d).
Proof.
  intros Hd. assert (d = 0 ∨ d = 1 ∨ d = 2 ∨ d = 3 ∨ d = 4 ∨ d = 5 ∨ d = 6 ∨ d = 7 ∨ d = 8 ∨ d = 9)%N
    as Hc by lia. by repeat destruct Hc as [-> | Hc]; [..|subst].
Qed.

Lemma to_bytes_append a b : to_bytes (a +:+ b) = to_bytes a ++ to_bytes b.
Proof. induction a as [|c a IH]; [done|]. simpl. by rewrite IH. Qed.

Lemma pretty_go_numeral x s : (0 < x)%N →
  ∃ ds, to_bytes (pretty_N_go x s) = ds ++ to_bytes s ∧ numeral (Z.of_N x) ds ∧
    head ds ≠ Some "0"%char.
Proof.
  revert s. induction (N.lt_wf_0 x) as [x _ IH]. intros s Hx. rewrite pretty_N_go_step by done.
  set (d := (x `mod` 10)%N). assert (Hd : (d < 10)%N) by (by apply N.mod_lt).
  assert (Hdm : (Z.of_N x = 10 * Z.of_N (x `div` 10) + Z.of_N d)%Z).
  { subst d. pose proof (N.div_mod x 10). lia. }
  pose proof (digit_char d Hd) as Hdig. clearbody d.
  destruct (decide (x `div` 10 = 0)%N) as [E|E].
  - rewrite E, pretty_N_go_0. exists [pretty_N_char d]. rewrite E in Hdm. split; [done|].
    assert (Hne : pretty_N_char d ≠ "0"%char).
    { intros H0. rewrite H0 in Hdig. change (Some 0%Z = Some (Z.of_N d)) in Hdig. simplify_eq. lia. }
    split; [|by intros [= ?]]. split; [by repeat constructor; rewrite Hdig|done| |].
    + right. by intros [= ?].
    + intros acc l. cbn [app digits]. rewrite Hdig. f_equal. rewrite Z.pow_1_r. lia.
  - destruct (IH (x `div` 10)%N) with (s := String (pretty_N_char d) s) as (ds & Hb & Hnum & Hh);
      [by apply N.div_lt|lia|].
    exists (ds ++ [pretty_N_char d]). rewrite Hb. split; [by rewrite <-app_assoc|].
    destruct Hnum as [H1 H2 H3 H4].
    assert (Hhd : head (ds ++ [pretty_N_char d]) ≠ Some "0"%char) by (by destruct ds).
    split; [|done]. split.
    + apply Forall_app. split; [done|]. by repeat constructor; rewrite Hdig.
    + by destruct ds.
    + by right.
    + intros acc l. rewrite <-app_assoc, H4. cbn [app digits]. rewrite Hdig, length_app. f_equal.
      cbn [length]. rewrite Nat2Z.inj_add, Z.pow_add_r by lia.
      change (Z.of_nat 1) with 1%Z. rewrite Z.pow_1_r, Hdm. ring.
Qed.

Lemma pretty_N_numeral x : numeral (Z.of_N x) (to_bytes (pretty x)).
Proof.
  unfold pretty, pretty_N. destruct (decide (x = 0)%N) as [->|Hx].
  - split; [by repeat constructor|done|by left|]. intros acc l.
    change (digits (10 * acc + 0)%Z l = digits (acc * 10 + 0)%Z l). f_equal. lia.
  - destruct (pretty_go_numeral x "" ltac:(lia)) as (ds & -> & Hn & _). by rewrite app_nil_r.
Qed.

(** A decimal: a minus sign when negative, then the numeral. *)
Lemma Itoa_bytes z : ∃ ds, numeral (Z.abs z) ds ∧
  to_bytes (Itoa z) = (if (z <? 0)%Z then ["-"%char] else []) ++ ds.
Proof.
  destruct z as [|p|p].
  - exists ["0"%char]. split; [exact (pretty_N_numeral 0)|done].
  - exists (to_bytes (pretty (Npos p))). split; [exact (pretty_N_numeral (Npos p))|done].
  - exists (to_bytes (pretty (Npos p))). split; [exact (pretty_N_numeral (Npos p))|].
    unfold Itoa, pretty at 1, pretty_Z. by rewrite to_bytes_append.
Qed.

(** Reading back a printed integer. *)
Lemma Atoi_Itoa z : in_int64 z → Atoi (Itoa z) = Some z.
Proof.
  intros Hz. destruct (Itoa_bytes z) as (ds & Hn & Hb). unfold Atoi. rewrite Hb.
  destruct Hn as [H1 H2 H3 H4]. specialize (H4 0%Z []). rewrite app_nil_r in H4. cbn [digits] in H4.
  destruct (Z.ltb_spec z 0); cbn [app].
  - rewrite decide_True, decide_False, H4 by done. cbn [mbind option_bind].
    rewrite decide_True; [f_equal|eapply eq_ind; [exact Hz|]]; lia.
  - destruct ds as [|c ds]; [done|]. apply Forall_cons in H1 as [Hc _].
    rewrite decide_False, decide_False, H4 by (intros ->; by destruct Hc). cbn [mbind option_bind].
    rewrite decide_True; [f_equal|eapply eq_ind; [exact Hz|]]; lia.
Qed.

Lemma split_plain c l : c ∉ l → split_on c l = [l].
Proof.
  induction l as [|x l IH]; intros Hc; [done|]. apply not_elem_of_cons in Hc as [Hx Hc]. simpl.
  rewrite decide_False by congruence. by rewrite IH.
Qed.

Lemma split_app c a l : c ∉ a → split_on c (a ++ c :: l) = a :: split_on c l.
Proof.
  induction a as [|x a IH]; intros Hc; simpl; [by rewrite decide_True|].
  apply not_elem_of_cons in Hc as [Hx Hc]. rewrite decide_False by congruence. by rewrite IH.
Qed.

(** The pieces determine the string. *)
Lemma split_join c l :
  foldr (λ a r, match r with None => Some a | Some r => Some (a ++ c :: r) end) None (split_on c l) = Some l.
Proof.
  induction l as [|x l IH]; [done|]. simpl. case_decide as Hx.
  - subst. cbn [foldr]. by rewrite IH.
  - destruct (split_on c l) as [|h t]; [done|]. cbn [foldr] in *.
    destruct (foldr _ None t); simplify_eq; done.
Qed.

End GoStrings.
