(* ===== verification/Utf8.v ===== *)
(** * UTF-8, as Go's [unicode/utf8] reads and writes it

    Strings of the program are byte sequences.  JSON encoding and decoding look
    at them rune by rune: a byte that does not start a valid encoding counts as
    the replacement character, with width one. *)

From S2P Require Import Prelude GoStrings.
From Stdlib Require Import Ascii.
Local Open Scope Z_scope.

Module Utf8.

Abbreviation bytes := (list ascii).

Definition code (c : ascii) : Z := Z.of_N (N_of_ascii c).
Definition char (n : Z) : ascii := ascii_of_N (Z.to_N n).

Definition RuneError : Z := 65533.
Definition MaxRune : Z := 1114111.

Definition surrogate (r : Z) : bool := (55296 <=? r) && (r <=? 57343).
Definition valid_rune (r : Z) : bool := (0 <=? r) && (r <=? MaxRune) && negb (surrogate r).

(** [utf8.AppendRune]. *)
Definition encodeRune (r : Z) : bytes :=
  let r := if valid_rune r then r else RuneError in
  if r <? 128 then [char r]
  else if r <? 2048 then [char (192 + r / 64); char (128 + r mod 64)]
  else if r <? 65536 then
    [char (224 + r / 4096); char (128 + r / 64 mod 64); char (128 + r mod 64)]
  else
    [char (240 + r / 262144); char (128 + r / 4096 mod 64); char (128 + r / 64 mod 64);
     char (128 + r mod 64)].

Definition in_range (lo hi : Z) (c : ascii) : bool := (lo <=? code c) && (code c <=? hi).
Definition low6 (c : ascii) : Z := code c - 128.

(** The second byte; the exceptions exclude overlong encodings, surrogates and
    code points that are too large. *)
Definition second_ok (b0 : Z) (c : ascii) : bool :=
  in_range 128 191 c &&
  negb ((b0 =? 224) && (code c <? 160)) && negb ((b0 =? 237) && (159 <? code c)) &&
  negb ((b0 =? 240) && (code c <? 144)) && negb ((b0 =? 244) && (143 <? code c)).

(** [utf8.DecodeRune]: the rune and its width; width one with the replacement
    character for an invalid byte, width zero at the end. *)
Definition decodeRune (l : bytes) : Z * nat :=
  match l with
  | [] => (RuneError, 0%nat)
  | c0 :: l =>
      let b0 := code c0 in
      if b0 <? 128 then (b0, 1%nat)
      else if (194 <=? b0) && (b0 <=? 223) then
        match l with
        | c1 :: _ =>
            if second_ok b0 c1 then ((b0 - 192) * 64 + low6 c1, 2%nat)
            else (RuneError, 1%nat)
        | _ => (RuneError, 1%nat)
        end
      else if (224 <=? b0) && (b0 <=? 239) then
        match l with
        | c1 :: c2 :: _ =>
            if second_ok b0 c1 && in_range 128 191 c2
            then ((b0 - 224) * 4096 + low6 c1 * 64 + low6 c2, 3%nat)
            else (RuneError, 1%nat)
        | _ => (RuneError, 1%nat)
        end
      else if (240 <=? b0) && (b0 <=? 244) then
        match l with
        | c1 :: c2 :: c3 :: _ =>
            if second_ok b0 c1 && in_range 128 191 c2 && in_range 128 191 c3
            then ((b0 - 240) * 262144 + low6 c1 * 4096 + low6 c2 * 64 + low6 c3, 4%nat)
            else (RuneError, 1%nat)
        | _ => (RuneError, 1%nat)
        end
      else (RuneError, 1%nat)
  end.

(** A string rune by rune; [None] is an invalid byte.  Every step takes at least
    one byte, so the length of the string is enough fuel. *)
Definition invalid (d : Z * nat) : bool := (d.1 =? RuneError) && (d.2 =? 1)%nat.

Fixpoint chunks_from (fuel : nat) (l : bytes) : list (option Z) :=
  match fuel, l with
  | S fuel, _ :: _ =>
      let d := decodeRune l in
      (if invalid d then None else Some d.1) :: chunks_from fuel (drop d.2 l)
  | _, _ => []
  end.

Definition chunks (l : bytes) : list (option Z) := chunks_from (length l) l.

(** The bytes a chunk stands for after a trip through JSON. *)
Definition chunk_bytes (c : option Z) : bytes := encodeRune (default RuneError c).

(** Invalid bytes replaced by the encoding of the replacement character. *)
Definition sanitize (l : bytes) : bytes := concat (chunk_bytes <$> chunks l).

Definition Sanitize (s : string) : string :=
  GoStrings.of_bytes (sanitize (GoStrings.to_bytes s)).

(** ** Facts *)

Lemma code_char n : 0 ≤ n < 256 → code (char n) = n.
Proof. intros Hn. unfold code, char. rewrite N_ascii_embedding by lia. lia. Qed.

Lemma code_range c : 0 ≤ code c < 256.
Proof. unfold code. pose proof (N_ascii_bounded c). lia. Qed.

Lemma char_code c : char (code c) = c.
Proof. unfold code, char. rewrite N2Z.id. apply ascii_N_embedding. Qed.

Lemma valid_rune_spec r :
  valid_rune r = true ↔ 0 ≤ r ≤ MaxRune ∧ ¬ (55296 ≤ r ≤ 57343).
Proof. unfold valid_rune, surrogate, MaxRune. lia. Qed.

(** Linear arithmetic with division and remainder by constants. *)
Ltac dlia := Z.to_euclidean_division_equations; lia.

Ltac decide_tests :=
  repeat match goal with
  | |- context [if ?b then _ else _] =>
      first [ replace b with true by dlia | replace b with false by dlia ]; cbv iota
  end.

Lemma decode_encode r l :
  valid_rune r = true → decodeRune (encodeRune r ++ l) = (r, length (encodeRune r)).
Proof.
  intros Hv. unfold encodeRune. rewrite Hv. apply valid_rune_spec in Hv as [Hr Hs].
  unfold MaxRune in Hr.
  destruct (Z.ltb_spec r 128); [|destruct (Z.ltb_spec r 2048); [|destruct (Z.ltb_spec r 65536)]];
    cbn [app decodeRune length]; unfold second_ok, in_range, low6; rewrite !code_char by dlia;
    decide_tests; f_equal; dlia.
Qed.

Lemma encodeRune_invalid r : valid_rune r = false → encodeRune r = encodeRune RuneError.
Proof. intros Hv. unfold encodeRune. by rewrite Hv. Qed.

Lemma char_eq n c : n = code c → char n = c.
Proof. intros ->. apply char_code. Qed.

Ltac encode_back :=
  unfold encodeRune; rewrite (proj2 (valid_rune_spec _)) by (unfold MaxRune; lia);
  decide_tests; repeat (apply (f_equal2 cons); [apply char_eq; dlia|]).

Lemma encode1 c0 : code c0 < 128 → encodeRune (code c0) = [c0].
Proof. intros. pose proof (code_range c0). by encode_back. Qed.

Lemma encode2 c0 c1 :
  194 ≤ code c0 ≤ 223 → 128 ≤ code c1 ≤ 191 →
  encodeRune ((code c0 - 192) * 64 + (code c1 - 128)) = [c0; c1].
Proof. intros. by encode_back. Qed.

Lemma encode3 c0 c1 c2 :
  let r := (code c0 - 224) * 4096 + (code c1 - 128) * 64 + (code c2 - 128) in
  224 ≤ code c0 ≤ 239 → 128 ≤ code c1 ≤ 191 → 128 ≤ code c2 ≤ 191 → 2048 ≤ r →
  ¬ (55296 ≤ r ≤ 57343) → encodeRune r = [c0; c1; c2].
Proof. intros r ?????. subst r. by encode_back. Qed.

Lemma encode4 c0 c1 c2 c3 :
  let r := (code c0 - 240) * 262144 + (code c1 - 128) * 4096 + (code c2 - 128) * 64 + (code c3 - 128) in
  240 ≤ code c0 ≤ 244 → 128 ≤ code c1 ≤ 191 → 128 ≤ code c2 ≤ 191 → 128 ≤ code c3 ≤ 191 →
  65536 ≤ r ≤ MaxRune → encodeRune r = [c0; c1; c2; c3].
Proof. intros r ?????. unfold MaxRune in *. subst r. by encode_back. Qed.

(** What was decoded encodes back to the bytes it was read from. *)
Lemma encode_decode l :
  l ≠ [] → invalid (decodeRune l) = false →
  valid_rune (decodeRune l).1 = true ∧
  l = encodeRune (decodeRune l).1 ++ drop (decodeRune l).2 l.
Proof.
  intros Hl. destruct l as [|c0 l]; [done|]. clear Hl. pose proof (code_range c0).
  cbn [decodeRune]. unfold second_ok, in_range, low6. rewrite valid_rune_spec. unfold MaxRune.
  destruct (Z.ltb_spec (code c0) 128).
  { intros _. cbn [fst snd drop]. rewrite encode1 by done. split; [lia|done]. }
  destruct ((194 <=? code c0) && (code c0 <=? 223)) eqn:?; [|
    destruct ((224 <=? code c0) && (code c0 <=? 239)) eqn:?; [|
      destruct ((240 <=? code c0) && (code c0 <=? 244)) eqn:?; [|done]]].
  - destruct l as [|c1 l]; [done|]. case_match; [|done]. intros _. cbn [fst snd drop].
    rewrite encode2 by lia. split; [lia|done].
  - destruct l as [|c1 [|c2 l]]; [done..|]. case_match; [|done]. intros _. cbn [fst snd drop].
    rewrite encode3 by lia. split; [lia|done].
  - destruct l as [|c1 [|c2 [|c3 l]]]; [done..|]. case_match; [|done]. intros _. cbn [fst snd drop].
    rewrite encode4 by (unfold MaxRune; lia). split; [lia|done].
Qed.

Lemma encodeRune_length r : (0 < length (encodeRune r))%nat.
Proof. unfold encodeRune. repeat case_match; simpl; lia. Qed.

Lemma decode_width l : l ≠ [] → (0 < (decodeRune l).2)%nat.
Proof. destruct l; [done|]. intros _. cbn [decodeRune]. repeat case_match; simpl; lia. Qed.

(** The fuel of [chunks_from] does not matter once it reaches the length. *)
Lemma chunks_fuel n l : (length l ≤ n)%nat → chunks_from n l = chunks l.
Proof.
  unfold chunks. revert l. induction n as [n IH] using lt_wf_ind. intros l Hn.
  destruct l as [|c l]; [by destruct n|]. destruct n as [|n]; [simpl in Hn; lia|].
  pose proof (decode_width (c :: l) ltac:(done)). cbn [chunks_from length]. f_equal.
  assert (Hd : (length (drop (decodeRune (c :: l)).2 (c :: l)) ≤ length l)%nat).
  { rewrite length_drop. cbn [length]. lia. }
  simpl in Hn. rewrite (IH n); [|lia|lia]. symmetry. apply IH; lia.
Qed.

Lemma chunks_cons c l :
  chunks (c :: l) =
    (if invalid (decodeRune (c :: l)) then None else Some (decodeRune (c :: l)).1)
      :: chunks (drop (decodeRune (c :: l)).2 (c :: l)).
Proof.
  unfold chunks at 1. cbn [chunks_from length]. f_equal. apply chunks_fuel.
  pose proof (decode_width (c :: l) ltac:(done)). rewrite length_drop. cbn [length]. lia.
Qed.

Lemma chunks_encode r l : valid_rune r = true → chunks (encodeRune r ++ l) = Some r :: chunks l.
Proof.
  intros Hv. pose proof (encodeRune_length r) as Hlen.
  destruct (encodeRune r ++ l) as [|c l'] eqn:E.
  { apply app_nil in E as [E _]. rewrite E in Hlen. simpl in Hlen. lia. }
  rewrite chunks_cons, <-E, decode_encode by done. cbn [fst snd]. rewrite drop_app_length.
  replace (invalid (r, length (encodeRune r))) with false; [done|].
  unfold invalid. simpl. destruct (Z.eqb_spec r RuneError) as [->|]; done.
Qed.

Lemma chunk_bytes_some c : ∃ r, valid_rune r = true ∧ chunk_bytes c = encodeRune r.
Proof.
  unfold chunk_bytes. destruct (valid_rune (default RuneError c)) eqn:Hv; [eauto|].
  exists RuneError. split; [done|]. by apply encodeRune_invalid.
Qed.

(** Every chunk of a string is a valid rune or an invalid byte. *)
Lemma chunks_valid l : Forall (λ c, valid_rune (default RuneError c) = true) (chunks l).
Proof.
  induction l as [l IH] using (induction_ltof1 _ length). unfold ltof in IH.
  destruct l as [|c l]; [done|]. rewrite chunks_cons. constructor.
  - destruct (invalid (decodeRune (c :: l))) eqn:E; [done|]. by apply encode_decode.
  - apply IH. pose proof (decode_width (c :: l) ltac:(done)). rewrite length_drop. cbn [length]. lia.
Qed.

Lemma chunks_concat cs :
  Forall (λ c, valid_rune (default RuneError c) = true) cs →
  chunks (concat (chunk_bytes <$> cs)) = (λ c, Some (default RuneError c)) <$> cs.
Proof.
  induction 1 as [|c cs Hc _ IH]; [done|]. cbn [fmap list_fmap concat].
  unfold chunk_bytes at 1. rewrite chunks_encode by done. by f_equal.
Qed.

(** Sanitizing twice is sanitizing once. *)
Lemma sanitize_idemp l : sanitize (sanitize l) = sanitize l.
Proof.
  unfold sanitize at 1. unfold sanitize at 1. rewrite chunks_concat by apply chunks_valid.
  unfold sanitize. f_equal. rewrite <-list_fmap_compose. by apply list_fmap_ext.
Qed.

Lemma Sanitize_idemp s : Sanitize (Sanitize s) = Sanitize s.
Proof.
  unfold Sanitize, GoStrings.of_bytes, GoStrings.to_bytes.
  by rewrite String.list_ascii_of_string_of_list_ascii, sanitize_idemp.
Qed.

(** A string without invalid bytes is left as it is. *)
Lemma sanitize_valid l : Forall is_Some (chunks l) → sanitize l = l.
Proof.
  induction l as [l IH] using (induction_ltof1 _ length). unfold ltof in IH.
  destruct l as [|c l]; [done|]. unfold sanitize. rewrite chunks_cons.
  destruct (invalid (decodeRune (c :: l))) eqn:E; [by intros [[] _]%Forall_cons|].
  intros [_ Hf]%Forall_cons. cbn [fmap list_fmap concat].
  destruct (encode_decode (c :: l) ltac:(done) E) as [_ Heq]. rewrite Heq at 4. f_equal.
  apply IH; [|done]. pose proof (decode_width (c :: l) ltac:(done)). rewrite length_drop. cbn [length]. lia.
Qed.

(** A result without the replacement character was not changed. *)
Lemma sanitize_unchanged l : Some RuneError ∉ chunks (sanitize l) → sanitize l = l.
Proof.
  unfold sanitize at 1. rewrite chunks_concat by apply chunks_valid. intros Hn.
  apply sanitize_valid, Forall_forall. intros [r|] Hr; [done|]. destruct Hn.
  by apply (list_elem_of_fmap_2' _ _ None).
Qed.

End Utf8.
