(* ===== verification/Json.v ===== *)
(** * JSON, as Go's [encoding/json] writes and reads it

    The syntax trees the encoder prints and the decoder's scanner accepts, the
    quoting of strings, and the round trips between them.  A string literal is
    kept as the bytes between its quotes, a number as its digits: the decoder
    interprets them only when it fills a field. *)

From S2P Require Import Prelude GoStrings Utf8.
From Stdlib Require Import Ascii.
Import Utf8.
Local Open Scope Z_scope.

Module Json.

Abbreviation str := GoStrings.to_bytes.

Definition dquote : ascii := char 34.
Definition bslash : ascii := char 92.

Inductive json :=
  | JNull
  | JBool (b : bool)
  | JNum (lit : bytes)
  | JStr (raw : bytes)
  | JArr (l : list json)
  | JObj (l : list (bytes * json)).

(** ** Printing *)

Fixpoint join (ls : list bytes) : bytes :=
  match ls with
  | [] => []
  | [x] => x
  | x :: ls => x ++ ","%char :: join ls
  end.

(** The compact form, which [Marshal] and [Encoder] produce. *)
Fixpoint print (j : json) : bytes :=
  match j with
  | JNull => str "null"
  | JBool true => str "true"
  | JBool false => str "false"
  | JNum lit => lit
  | JStr raw => dquote :: raw ++ [dquote]
  | JArr l => "["%char :: join (map print l) ++ ["]"%char]
  | JObj l =>
      "{"%char :: join (map (λ f, dquote :: f.1 ++ dquote :: ":"%char :: print f.2) l) ++ ["}"%char]
  end.

(** ** Quoting strings *)

Definition hexdigit (n : Z) : ascii := if n <? 10 then char (48 + n) else char (87 + n).

(** An ASCII character; the characters special to HTML are escaped too. *)
Definition quote_ascii (r : Z) : bytes :=
  if (r =? 34) || (r =? 92) then [bslash; char r]
  else if r =? 8 then bslash :: str "b" else if r =? 12 then bslash :: str "f"
  else if r =? 10 then bslash :: str "n" else if r =? 13 then bslash :: str "r"
  else if r =? 9 then bslash :: str "t"
  else if (r <? 32) || (r =? 38) || (r =? 60) || (r =? 62)
  then bslash :: str "u00" ++ [hexdigit (r / 16); hexdigit (r mod 16)]
  else [char r].

Definition quote_chunk (c : option Z) : bytes :=
  match c with
  | None => bslash :: str "ufffd"
  | Some r =>
      if r <? 128 then quote_ascii r
      else if r =? 8232 then bslash :: str "u2028" else if r =? 8233 then bslash :: str "u2029"
      else encodeRune r
  end.

(** [appendString] without the surrounding quotes. *)
Definition quote (l : bytes) : bytes := concat (quote_chunk <$> chunks l).

(** ** Reading string literals *)

Definition hexval (c : ascii) : option Z :=
  let n := code c in
  if (48 <=? n) && (n <=? 57) then Some (n - 48)
  else if (97 <=? n) && (n <=? 102) then Some (n - 87)
  else if (65 <=? n) && (n <=? 70) then Some (n - 55)
  else None.

(** [getu4] on the bytes after the backslash and the letter u. *)
Definition getu4 (l : bytes) : option (Z * bytes) :=
  match l with
  | a :: b :: c :: d :: l =>
      a ← hexval a; b ← hexval b; c ← hexval c; d ← hexval d;
      Some (a * 4096 + b * 256 + c * 16 + d, l)
  | _ => None
  end.

(** [utf16.DecodeRune]. *)
Definition pair_of (r1 r2 : Z) : option Z :=
  if (55296 <=? r1) && (r1 <? 56320) && (56320 <=? r2) && (r2 <? 57344)
  then Some ((r1 - 55296) * 1024 + (r2 - 56320) + 65536) else None.

(** The rune of a [\u] escape: a surrogate needs the other half of its pair
    right after it, and is the replacement character otherwise. *)
Definition escaped_rune (l : bytes) : option (Z * bytes) :=
  '(r, rest) ← getu4 l;
  if surrogate r then
    match rest with
    | b :: u :: rest' =>
        if decide (b = bslash ∧ u = "u"%char) then
          match getu4 rest' with
          | Some (r2, rest'') =>
              match pair_of r r2 with
              | Some r => Some (r, rest'')
              | None => Some (RuneError, rest)
              end
          | None => Some (RuneError, rest)
          end
        else Some (RuneError, rest)
    | _ => Some (RuneError, rest)
    end
  else Some (r, rest).

Definition simple_escape (e : ascii) : option ascii :=
  if decide (e = dquote ∨ e = bslash ∨ e = "/"%char ∨ e = "'"%char) then Some e
  else if decide (e = "b"%char) then Some (char 8) else if decide (e = "f"%char) then Some (char 12)
  else if decide (e = "n"%char) then Some (char 10) else if decide (e = "r"%char) then Some (char 13)
  else if decide (e = "t"%char) then Some (char 9) else None.

(** [unquoteBytes] between the quotes; every turn takes at least one byte. *)
Fixpoint unquote_from (fuel : nat) (l : bytes) : option bytes :=
  match fuel, l with
  | _, [] => Some []
  | 0%nat, _ => None
  | S fuel, c :: rest =>
      if decide (c = bslash) then
        match rest with
        | [] => None
        | e :: rest =>
            if decide (e = "u"%char) then
              '(r, rest) ← escaped_rune rest;
              out ← unquote_from fuel rest; Some (encodeRune r ++ out)
            else
              x ← simple_escape e;
              out ← unquote_from fuel rest; Some (x :: out)
        end
      else if bool_decide (c = dquote) || (code c <? 32) then None
      else
        let d := decodeRune l in
        out ← unquote_from fuel (drop d.2 l); Some (encodeRune d.1 ++ out)
  end.

Definition unquote (l : bytes) : option bytes := unquote_from (length l) l.

(** ** The scanner *)

Definition is_ws (c : ascii) : bool :=
  (code c =? 32) || (code c =? 9) || (code c =? 13) || (code c =? 10).

Fixpoint skip_ws (l : bytes) : bytes :=
  match l with
  | [] => []
  | c :: rest => if is_ws c then skip_ws rest else l
  end.

Inductive sstate := SNormal | SEscape | SHex (n : nat).

Definition push (c : ascii) (r : option (bytes * bytes)) : option (bytes * bytes) :=
  '(raw, rest) ← r; Some (c :: raw, rest).

(** The bytes up to the closing quote, and what follows it. *)
Fixpoint scan_string (st : sstate) (l : bytes) : option (bytes * bytes) :=
  match l with
  | [] => None
  | c :: rest =>
      match st with
      | SNormal =>
          if decide (c = dquote) then Some ([], rest)
          else if decide (c = bslash) then push c (scan_string SEscape rest)
          else if code c <? 32 then None
          else push c (scan_string SNormal rest)
      | SEscape =>
          if decide (c = "u"%char) then push c (scan_string (SHex 3) rest)
          else if decide (c ∈ dquote :: str "bfnrt\/") then push c (scan_string SNormal rest)
          else None
      | SHex n =>
          match hexval c, n with
          | None, _ => None
          | Some _, 0%nat => push c (scan_string SNormal rest)
          | Some _, S n => push c (scan_string (SHex n) rest)
          end
      end
  end.

Definition is_digit (c : ascii) : bool := (48 <=? code c) && (code c <=? 57).

Fixpoint span_digits (l : bytes) : bytes * bytes :=
  match l with
  | [] => ([], [])
  | c :: rest =>
      if is_digit c then let '(ds, rest) := span_digits rest in (c :: ds, rest) else ([], l)
  end.

(** An optional part introduced by one of [starts], then digits; [sign] allows a
    sign before them. *)
Definition scan_part (starts : bytes) (sign : bool) (l : bytes) : option (bytes * bytes) :=
  match l with
  | c :: rest =>
      if decide (c ∈ starts) then
        let '(sg, rest) :=
          match rest with
          | s :: rest' => if sign && bool_decide (s ∈ str "+-") then ([s], rest') else ([], rest)
          | [] => ([], [])
          end in
        let '(ds, rest) := span_digits rest in
        match ds with [] => None | _ => Some (c :: sg ++ ds, rest) end
      else Some ([], l)
  | [] => Some ([], [])
  end.

Definition scan_int (l : bytes) : option (bytes * bytes) :=
  match l with
  | d :: rest =>
      if decide (d = "0"%char) then Some ([d], rest)
      else if is_digit d then let '(ds, rest) := span_digits rest in Some (d :: ds, rest)
      else None
  | [] => None
  end.

Definition scan_number (l : bytes) : option (bytes * bytes) :=
  let '(sg, l) :=
    match l with
    | c :: rest => if decide (c = "-"%char) then ([c], rest) else ([], l)
    | [] => ([], [])
    end in
  '(int, l) ← scan_int l;
  '(frac, l) ← scan_part (str ".") false l;
  '(exp, l) ← scan_part (str "eE") true l;
  Some (sg ++ int ++ frac ++ exp, l).

Definition literal (lit : bytes) (j : json) (l : bytes) : option (json * bytes) :=
  if GoStrings.has_prefix lit l then Some (j, drop (length lit) l) else None.

Definition maxNestingDepth : Z := 10000.

(** One value, with the white space before it.  Every second call takes a byte,
    so twice the length is enough fuel. *)
Fixpoint value (fuel : nat) (depth : Z) (l : bytes) : option (json * bytes) :=
  match fuel with
  | 0%nat => None
  | S fuel =>
      match skip_ws l with
      | [] => None
      | (c :: rest) as l =>
          if decide (c = dquote) then '(raw, rest) ← scan_string SNormal rest; Some (JStr raw, rest)
          else if decide (c = "{"%char) then
            if maxNestingDepth <=? depth then None else
            match skip_ws rest with
            | c' :: rest' =>
                if decide (c' = "}"%char) then Some (JObj [], rest')
                else '(ms, rest) ← members fuel (depth + 1) rest; Some (JObj ms, rest)
            | [] => None
            end
          else if decide (c = "["%char) then
            if maxNestingDepth <=? depth then None else
            match skip_ws rest with
            | c' :: rest' =>
                if decide (c' = "]"%char) then Some (JArr [], rest')
                else '(es, rest) ← elements fuel (depth + 1) rest; Some (JArr es, rest)
            | [] => None
            end
          else if decide (c = "t"%char) then literal (str "true") (JBool true) l
          else if decide (c = "f"%char) then literal (str "false") (JBool false) l
          else if decide (c = "n"%char) then literal (str "null") JNull l
          else '(lit, rest) ← scan_number l; Some (JNum lit, rest)
      end
  end
with members (fuel : nat) (depth : Z) (l : bytes) : option (list (bytes * json) * bytes) :=
  match fuel with
  | 0%nat => None
  | S fuel =>
      match skip_ws l with
      | c :: rest =>
          if decide (c = dquote) then
            '(key, rest) ← scan_string SNormal rest;
            match skip_ws rest with
            | c :: rest =>
                if decide (c = ":"%char) then
                  '(v, rest) ← value fuel depth rest;
                  match skip_ws rest with
                  | c :: rest =>
                      if decide (c = ","%char) then
                        '(ms, rest) ← members fuel depth rest; Some ((key, v) :: ms, rest)
                      else if decide (c = "}"%char) then Some ([(key, v)], rest)
                      else None
                  | [] => None
                  end
                else None
            | [] => None
            end
          else None
      | [] => None
      end
  end
with elements (fuel : nat) (depth : Z) (l : bytes) : option (list json * bytes) :=
  match fuel with
  | 0%nat => None
  | S fuel =>
      '(v, rest) ← value fuel depth l;
      match skip_ws rest with
      | c :: rest =>
          if decide (c = ","%char) then
            '(es, rest) ← elements fuel depth rest; Some (v :: es, rest)
          else if decide (c = "]"%char) then Some ([v], rest)
          else None
      | [] => None
      end
  end.

(** The first value of a stream, which [Decoder.Decode] reads, and a whole text,
    which [Unmarshal] accepts. *)
Definition first_value (l : bytes) : option (json * bytes) := value (2 * length l + 2) 0 l.

Definition parse (l : bytes) : option json :=
  match first_value l with
  | Some (j, rest) => match skip_ws rest with [] => Some j | _ => None end
  | None => None
  end.

Example parse_print :
  let j := JObj [(str "a", JArr [JNum (str "1"); JNum (str "-2.5e3"); JBool true]); (str "b", JNull)] in
  parse (str "  " ++ print j ++ str " ") = Some j.
Proof. vm_compute. reflexivity. Qed.

Example quote_example :
  quote (str "a<b" ++ [char 7; char 255; char 195; char 169]) =
  str "a" ++ bslash :: str "u003cb" ++ bslash :: str "u0007" ++ bslash :: str "ufffd" ++ [char 195; char 169].
Proof. vm_compute. reflexivity. Qed.

(** ** Facts: strings *)

(** Case analysis on an ASCII code. *)
Lemma ascii_cases (P : Z → Prop) :
  (∀ k, (k < 128)%nat → P (Z.of_nat k)) → ∀ r, 0 ≤ r < 128 → P r.
Proof. intros HP r Hr. rewrite <-(Z2Nat.id r) by lia. apply HP. lia. Qed.

Ltac enum_ascii k := do 128 (destruct k as [|k]; [reflexivity|]); lia.

(** The bytes of a rune beyond ASCII are all at least 128. *)
Lemma encodeRune_high r :
  valid_rune r = true → 128 ≤ r → Forall (λ c, 128 ≤ code c) (encodeRune r).
Proof.
  intros Hv Hr. unfold encodeRune. rewrite Hv. apply valid_rune_spec in Hv as [Hm _].
  unfold MaxRune in Hm. repeat case_match; repeat constructor; rewrite code_char; dlia.
Qed.

Lemma high_plain c : 128 ≤ code c → c ≠ bslash ∧ c ≠ dquote ∧ (code c <? 32) = false.
Proof.
  intros Hc. split_and!; [intros ->; by vm_compute in Hc..|]. apply Z.ltb_ge. lia.
Qed.

Lemma unquote_ascii r n l : 0 ≤ r < 128 →
  unquote_from (S n) (quote_ascii r ++ l) =
    (out ← unquote_from n l; Some (encodeRune r ++ out)).
Proof. revert r. apply ascii_cases. intros k Hk. enum_ascii k. Qed.

Lemma unquote_rune r n l : valid_rune r = true → 128 ≤ r →
  unquote_from (S n) (encodeRune r ++ l) =
    (out ← unquote_from n l; Some (encodeRune r ++ out)).
Proof.
  intros Hv Hr. pose proof (decode_encode r l Hv) as Hd.
  pose proof (encodeRune_high r Hv Hr) as Hh. pose proof (encodeRune_length r) as Hlen.
  destruct (encodeRune r) as [|c e] eqn:E; [simpl in Hlen; lia|].
  apply Forall_cons in Hh as [Hc _]. destruct (high_plain c Hc) as (H1 & H2 & H3).
  cbn [app] in *. cbn [unquote_from]. rewrite decide_False, bool_decide_false, H3 by done.
  cbn [orb]. rewrite Hd. cbn [fst snd]. rewrite E.
  change (drop (length (c :: e)) (c :: e ++ l)) with (drop (length (c :: e)) ((c :: e) ++ l)).
  by rewrite drop_app_length.
Qed.

Lemma unquote_chunk c n l : valid_rune (default RuneError c) = true →
  unquote_from (S n) (quote_chunk c ++ l) =
    (out ← unquote_from n l; Some (chunk_bytes c ++ out)).
Proof.
  destruct c as [r|]; [|done]. simpl. intros Hv. unfold chunk_bytes. simpl.
  pose proof (proj1 (valid_rune_spec r) Hv) as [Hr _].
  destruct (Z.ltb_spec r 128); [apply unquote_ascii; lia|].
  destruct (Z.eqb_spec r 8232) as [->|]; [done|]. destruct (Z.eqb_spec r 8233) as [->|]; [done|].
  by apply unquote_rune.
Qed.

Lemma unquote_chunks cs n :
  Forall (λ c, valid_rune (default RuneError c) = true) cs → (length cs ≤ n)%nat →
  unquote_from n (concat (quote_chunk <$> cs)) = Some (concat (chunk_bytes <$> cs)).
Proof.
  intros Hv. revert n. induction Hv as [|c cs Hc _ IH]; intros n Hn; [by destruct n|].
  destruct n as [|n]; [simpl in Hn; lia|]. rewrite !fmap_cons. cbn [concat].
  rewrite unquote_chunk by done. rewrite IH by (simpl in Hn; lia). done.
Qed.

Lemma quote_chunk_length c : (0 < length (quote_chunk c))%nat.
Proof.
  unfold quote_chunk, quote_ascii. repeat case_match; simpl; try lia. apply encodeRune_length.
Qed.

Lemma quote_length cs : (length cs ≤ length (concat (quote_chunk <$> cs)))%nat.
Proof.
  induction cs as [|c cs IH]; [done|]. rewrite fmap_cons. cbn [concat length].
  rewrite length_app. pose proof (quote_chunk_length c). lia.
Qed.

(** Reading back a quoted string gives the string with invalid bytes replaced. *)
Lemma unquote_quote l : unquote (quote l) = Some (sanitize l).
Proof. apply unquote_chunks; [apply chunks_valid|apply quote_length]. Qed.

Lemma scan_string_app st l r raw rest :
  scan_string st l = Some (raw, rest) → scan_string st (l ++ r) = Some (raw, rest ++ r).
Proof.
  revert st raw rest. induction l as [|c l IH]; intros st raw rest; [done|].
  cbn [app scan_string]. unfold push.
  repeat (case_match; try done); intros Hs;
    try (apply bind_Some in Hs as ([raw' rest'] & Hs & ?); simplify_eq; by rewrite (IH _ _ _ Hs)).
  by simplify_eq.
Qed.

(** The scanner's state after a piece of a literal, if it is still inside. *)
Fixpoint scan_state (st : sstate) (p : bytes) : option sstate :=
  match p with
  | [] => Some st
  | c :: p =>
      match st with
      | SNormal =>
          if decide (c = dquote) then None
          else if decide (c = bslash) then scan_state SEscape p
          else if code c <? 32 then None else scan_state SNormal p
      | SEscape =>
          if decide (c = "u"%char) then scan_state (SHex 3) p
          else if decide (c ∈ dquote :: str "bfnrt\/") then scan_state SNormal p else None
      | SHex n =>
          match hexval c, n with
          | None, _ => None
          | Some _, 0%nat => scan_state SNormal p
          | Some _, S n => scan_state (SHex n) p
          end
      end
  end.

Lemma scan_state_string st p st' l :
  scan_state st p = Some st' →
  scan_string st (p ++ l) = '(raw, rest) ← scan_string st' l; Some (p ++ raw, rest).
Proof.
  revert st. induction p as [|c p IH]; intros st; cbn [scan_state scan_string app].
  { intros [= ->]. by destruct (scan_string st' l) as [[]|]. }
  unfold push. repeat (case_match; try done); intros Hs; rewrite (IH _ Hs);
    by destruct (scan_string st' l) as [[]|].
Qed.

(** A piece of a literal the scanner passes over. *)
Definition passes (p : bytes) : Prop := scan_state SNormal p = Some SNormal.

Lemma passes_high p : Forall (λ c, 128 ≤ code c) p → passes p.
Proof.
  unfold passes. induction 1 as [|c p Hc _ IH]; [done|].
  destruct (high_plain c Hc) as (H1 & H2 & H3). cbn [scan_state].
  by rewrite !decide_False, H3, IH by done.
Qed.

Lemma passes_ascii r : 0 ≤ r < 128 → passes (quote_ascii r).
Proof. revert r. apply ascii_cases. intros k Hk. enum_ascii k. Qed.

Lemma passes_chunk c : valid_rune (default RuneError c) = true → passes (quote_chunk c).
Proof.
  destruct c as [r|]; simpl; [|done].
  intros Hv. pose proof (proj1 (valid_rune_spec r) Hv) as [Hr _].
  destruct (Z.ltb_spec r 128); [apply passes_ascii; lia|].
  destruct (Z.eqb_spec r 8232) as [->|]; [done|]. destruct (Z.eqb_spec r 8233) as [->|]; [done|].
  by apply passes_high, encodeRune_high.
Qed.

Lemma scan_state_app st p q st' :
  scan_state st p = Some st' → scan_state st (p ++ q) = scan_state st' q.
Proof.
  revert st. induction p as [|c p IH]; intros st Hp; [simpl in Hp; by simplify_eq|].
  cbn [app scan_state] in *. repeat (case_match; try done); by apply IH.
Qed.

Lemma passes_app p q : passes p → passes q → passes (p ++ q).
Proof. intros Hp Hq. unfold passes. by rewrite (scan_state_app _ _ _ _ Hp). Qed.

Lemma passes_quote l : passes (quote l).
Proof.
  unfold quote. pose proof (chunks_valid l) as Hv. induction Hv as [|c cs Hc _ IH]; [done|].
  rewrite fmap_cons. cbn [concat]. apply passes_app; [by apply passes_chunk|done].
Qed.

(** ** Facts: numbers *)

(** A text that does not continue a number. *)
Definition delim (l : bytes) : Prop :=
  match l with [] => True | c :: _ => is_digit c = false ∧ c ∉ str ".eE" end.

(** After a number that left [r] the text may go on with [x]. *)
Definition ends (r x : bytes) : Prop := r ≠ [] ∨ delim x.

Lemma span_digits_app l x ds r :
  span_digits l = (ds, r) → ends r x → span_digits (l ++ x) = (ds, r ++ x).
Proof.
  intros Hs Hx. revert ds r Hs Hx. induction l as [|c l IH]; intros ds r Hs Hx; simpl in *.
  { simplify_eq. destruct Hx as [|Hx]; [done|]. destruct x as [|c x]; [done|].
    simpl in *. by destruct Hx as [-> _]. }
  destruct (is_digit c); [|by simplify_eq]. destruct (span_digits l) as [ds' r']. simplify_eq.
  by rewrite (IH _ _ eq_refl).
Qed.

Lemma scan_int_app l x i r : scan_int l = Some (i, r) → ends r x → scan_int (l ++ x) = Some (i, r ++ x).
Proof.
  intros Hs Hx. destruct l as [|d l]; [done|]. simpl in *. case_decide; [by simplify_eq|].
  destruct (is_digit d); [|done]. destruct (span_digits l) as [ds r'] eqn:E. simplify_eq.
  by rewrite (span_digits_app _ _ _ _ E).
Qed.

Lemma scan_part_ends starts sign l x p r : scan_part starts sign l = Some (p, r) → ends r x → ends l x.
Proof. destruct l; [by intros [= _ <-]|]. intros _ _. by left. Qed.

Lemma scan_part_app starts sign l x p r :
  scan_part starts sign l = Some (p, r) → starts ⊆ str ".eE" → ends r x →
  scan_part starts sign (l ++ x) = Some (p, r ++ x).
Proof.
  intros Hs Hst Hx. destruct l as [|c l].
  { simpl in Hs. simplify_eq. destruct Hx as [|Hx]; [done|]. destruct x as [|c x]; [done|]. simpl in *.
    rewrite decide_False; [done|]. intros Hc. by apply (proj2 Hx), Hst. }
  cbn [scan_part app] in *. case_decide; [|by simplify_eq].
  destruct l as [|sg l]; [done|]. cbn [app] in *.
  destruct (sign && bool_decide (sg ∈ str "+-")).
  - destruct (span_digits l) as [ds r'] eqn:E. destruct ds as [|d ds]; simplify_eq/=.
    by rewrite (span_digits_app _ _ _ _ E) by done.
  - destruct (span_digits (sg :: l)) as [ds r'] eqn:E. destruct ds as [|d ds]; simplify_eq.
    change (sg :: l ++ x) with ((sg :: l) ++ x). by rewrite (span_digits_app _ _ _ _ E) by done.
Qed.

Lemma scan_number_app l x n r :
  scan_number l = Some (n, r) → ends r x → scan_number (l ++ x) = Some (n, r ++ x).
Proof.
  intros Hs Hx. unfold scan_number in *.
  destruct l as [|c l]; [done|]. cbn [app].
  destruct (decide (c = "-"%char)) as [Hc|Hc]; cbn [fst snd] in *;
    apply bind_Some in Hs as ([i r1] & Hi & Hs); apply bind_Some in Hs as ([f r2] & Hf & Hs);
    apply bind_Some in Hs as ([ex r3] & He & Hs); simplify_eq;
    pose proof (scan_part_ends _ _ _ _ _ _ He Hx) as Hx2; pose proof (scan_part_ends _ _ _ _ _ _ Hf Hx2);
    try (change (c :: l ++ x) with ((c :: l) ++ x)); rewrite (scan_int_app _ _ _ _ Hi) by done;
    cbn [mbind option_bind]; rewrite (scan_part_app _ _ _ _ _ _ Hf) by (done || set_solver);
    cbn [mbind option_bind]; rewrite (scan_part_app _ _ _ _ _ _ He) by (done || set_solver); done.
Qed.

(** A number starts with a digit or a minus sign. *)
Lemma scan_number_head l n r :
  scan_number l = Some (n, r) → ∃ c l', l = c :: l' ∧ (c = "-"%char ∨ is_digit c = true).
Proof.
  unfold scan_number. destruct l as [|c l]; [done|]. intros Hs. exists c, l. split; [done|].
  destruct (decide (c = "-"%char)); [by left|]. right. cbn in Hs.
  destruct (decide (c = "0"%char)) as [->|]; [done|]. by destruct (is_digit c).
Qed.

Lemma is_digit_digit c : is_Some (GoStrings.digit c) → is_digit c = true.
Proof.
  unfold GoStrings.digit, is_digit, code, nat_of_ascii. rewrite N_nat_Z.
  case_match; [done|]. by intros [].
Qed.

Lemma span_all ds : Forall (λ c, is_Some (GoStrings.digit c)) ds → span_digits ds = (ds, []).
Proof.
  induction 1 as [|c ds Hc _ IH]; [done|]. simpl. by rewrite is_digit_digit, IH.
Qed.

Lemma scan_numeral n ds : GoStrings.numeral n ds → scan_int ds = Some (ds, []).
Proof.
  intros [H1 H2 H3 _]. destruct ds as [|c ds]; [done|]. apply Forall_cons in H1 as [Hc Hds].
  simpl. destruct H3 as [[= -> ->]|H3]; [done|].
  rewrite decide_False by (intros ->; done). by rewrite is_digit_digit, span_all.
Qed.

(** A printed integer is a number literal. *)
Lemma scan_Itoa z : scan_number (str (GoStrings.Itoa z)) = Some (str (GoStrings.Itoa z), []).
Proof.
  destruct (GoStrings.Itoa_bytes z) as (ds & Hn & Hb). rewrite Hb.
  pose proof (scan_numeral _ _ Hn) as Hs. destruct Hn as [H1 H2 _ _]. unfold scan_number.
  destruct (z <? 0); cbn [app].
  - rewrite decide_True by done. cbn [fst snd]. rewrite Hs. simpl. by rewrite app_nil_r.
  - destruct ds as [|c ds]; [done|]. apply Forall_cons in H1 as [Hc _].
    rewrite decide_False by (intros ->; by destruct Hc). rewrite Hs. simpl. by rewrite app_nil_r.
Qed.

(** ** Facts: values *)

(** Induction with hypotheses for the elements of arrays and objects. *)
Section Induction.
Context (P : json → Prop).
Context (HNull : P JNull) (HBool : ∀ b, P (JBool b)) (HNum : ∀ l, P (JNum l)) (HStr : ∀ l, P (JStr l)).
Context (HArr : ∀ l, Forall P l → P (JArr l)).
Context (HObj : ∀ l, Forall (λ f, P f.2) l → P (JObj l)).

Fixpoint json_induction (j : json) : P j :=
  match j with
  | JNull => HNull
  | JBool b => HBool b
  | JNum l => HNum l
  | JStr l => HStr l
  | JArr l => HArr l ((fix go l : Forall P l := match l with
      | [] => Forall_nil_2 _ | x :: l => Forall_cons_2 _ x l (json_induction x) (go l) end) l)
  | JObj l => HObj l ((fix go l : Forall (λ f, P f.2) l := match l with
      | [] => Forall_nil_2 _ | f :: l => Forall_cons_2 _ f l (json_induction f.2) (go l) end) l)
  end.
End Induction.

(** Literals the scanner accepts, nested at most [d] deep. *)
Fixpoint wf (d : Z) (j : json) : Prop :=
  match j with
  | JNull | JBool _ => True
  | JNum lit => scan_number lit = Some (lit, [])
  | JStr raw => passes raw
  | JArr l => 0 < d ∧ foldr (λ x Q, wf (d - 1) x ∧ Q) True l
  | JObj l => 0 < d ∧ foldr (λ f Q, (passes f.1 ∧ wf (d - 1) f.2) ∧ Q) True l
  end.

(** The fuel [value] needs. *)
Fixpoint size (j : json) : nat :=
  match j with
  | JArr l => S (foldr (λ x n, S (size x + n)) 0%nat l)
  | JObj l => S (foldr (λ f n, S (size f.2 + n)) 0%nat l)
  | _ => 1%nat
  end.

Lemma join_cons x ls : join (x :: ls) = x ++ match ls with [] => [] | _ => ","%char :: join ls end.
Proof. destruct ls; simpl; [by rewrite app_nil_r|done]. Qed.

Lemma scan_raw raw rest :
  passes raw → scan_string SNormal (raw ++ dquote :: rest) = Some (raw, rest).
Proof.
  intros Hp. rewrite (scan_state_string _ _ _ _ Hp). simpl. by rewrite app_nil_r.
Qed.

(** The parser reads back what was printed. *)
Definition reads (j : json) : Prop := ∀ d fuel rest,
  wf (maxNestingDepth - d) j → (size j ≤ fuel)%nat → delim rest →
  value fuel d (print j ++ rest) = Some (j, rest).

Lemma read_elements l d fuel rest :
  Forall reads l → l ≠ [] → foldr (λ x Q, wf (maxNestingDepth - d) x ∧ Q) True l →
  (foldr (λ x n, S (size x + n)) 0%nat l ≤ fuel)%nat →
  elements fuel d (join (map print l) ++ "]"%char :: rest) = Some (l, rest).
Proof.
  intros Hl. revert fuel. induction Hl as [|x l Hx Hl IH]; intros fuel Hne Hwf Hf; [done|].
  destruct fuel as [|fuel]; [simpl in Hf; lia|]. destruct Hwf as [Hwx Hwf]. cbn [foldr] in Hf.
  cbn [map]. rewrite join_cons, <-app_assoc. cbn [elements].
  destruct l as [|y l]; cbn [map app] in *; (rewrite Hx; [|done|lia|split; [done|set_solver]]);
    cbn [mbind option_bind]; [done|].
  change (skip_ws (","%char :: ?t)) with (","%char :: t). cbn iota.
  rewrite decide_True by done. rewrite (IH fuel); [done|done|done|lia].
Qed.

Definition print_field (f : bytes * json) : bytes :=
  dquote :: f.1 ++ dquote :: ":"%char :: print f.2.

Lemma read_members l d fuel rest :
  Forall (λ f, reads f.2) l → l ≠ [] →
  foldr (λ f Q, (passes f.1 ∧ wf (maxNestingDepth - d) f.2) ∧ Q) True l →
  (foldr (λ f n, S (size f.2 + n)) 0%nat l ≤ fuel)%nat →
  members fuel d (join (map print_field l) ++ "}"%char :: rest) = Some (l, rest).
Proof.
  intros Hl. revert fuel. induction Hl as [|[k x] l Hx Hl IH]; intros fuel Hne Hwf Hf; [done|].
  destruct fuel as [|fuel]; [simpl in Hf; lia|]. destruct Hwf as [[Hk Hwx] Hwf]. cbn [foldr snd] in Hf.
  cbn [map]. rewrite join_cons, <-app_assoc. unfold print_field at 1. cbn [fst snd app] in *.
  cbn [members]. change (skip_ws (dquote :: ?t)) with (dquote :: t). cbn iota.
  rewrite decide_True by done. rewrite <-!app_assoc. cbn [app]. rewrite scan_raw by done.
  cbn [mbind option_bind]. change (skip_ws (":"%char :: ?t)) with (":"%char :: t). cbn iota.
  rewrite decide_True by done.
  destruct l as [|y l]; cbn [map app] in *; (rewrite Hx; [|done|lia|split; [done|set_solver]]);
    cbn [mbind option_bind]; [done|].
  change (skip_ws (","%char :: ?t)) with (","%char :: t). cbn iota.
  rewrite decide_True by done. rewrite (IH fuel); [done|done|done|lia].
Qed.

Lemma digit_head c : is_digit c = true →
  is_ws c = false ∧ c ≠ dquote ∧ c ∉ str "{[]tfn".
Proof.
  intros Hd. unfold is_digit in Hd. unfold is_ws. split_and!; [lia|intros ->; by vm_compute in Hd|].
  intros Hin. repeat (apply elem_of_cons in Hin as [->|Hin]; [by vm_compute in Hd|]). by apply elem_of_nil in Hin.
Qed.

(** The first character of a printed value. *)
Lemma print_head d j : wf d j → ∃ c l, print j = c :: l ∧ is_ws c = false ∧ c ≠ "]"%char.
Proof.
  destruct j as [|[]|lit|raw|l|l]; simpl; intros Hwf; try by eexists _, _.
  destruct (scan_number_head _ _ _ Hwf) as (c & l & -> & Hc). eexists _, _. split; [done|].
  destruct Hc as [->|Hc]; [done|]. destruct (digit_head c Hc) as (? & _ & ?). split; [done|].
  set_solver.
Qed.

Lemma skip_head c l : is_ws c = false → skip_ws (c :: l) = c :: l.
Proof. intros Hc. simpl. by rewrite Hc. Qed.

Lemma read_number lit : reads (JNum lit).
Proof.
  intros d fuel rest Hwf Hf Hd. destruct fuel as [|fuel]; [simpl in Hf; lia|]. simpl in Hwf.
  pose proof (scan_number_app _ rest _ _ Hwf (or_intror Hd)) as Hs. cbn [print value].
  destruct (scan_number_head _ _ _ Hwf) as (c & l & -> & Hc). cbn [app] in *.
  assert (Hp : is_ws c = false ∧ c ≠ dquote ∧ c ∉ str "{[]tfn").
  { destruct Hc as [->|Hc]; [|by apply digit_head]. split_and!; [done..|]. set_solver. }
  destruct Hp as (Hw & Hq & Hn). rewrite skip_head by done.
  rewrite !decide_False by (done || set_solver). rewrite Hs. done.
Qed.

Lemma read_array l : Forall reads l → reads (JArr l).
Proof.
  intros Hl d fuel rest [Hdep Hwf] Hf Hd. destruct fuel as [|fuel]; [simpl in Hf; lia|].
  cbn [print value app]. rewrite skip_head by done. rewrite !decide_False by done.
  rewrite decide_True by done. replace (maxNestingDepth <=? d) with false by lia.
  rewrite <-app_assoc. cbn [app]. destruct l as [|x l]; [done|].
  replace (maxNestingDepth - d - 1) with (maxNestingDepth - (d + 1)) in Hwf by lia.
  pose proof (read_elements (x :: l) (d + 1) fuel rest Hl) as He.
  destruct (print_head _ x (proj1 Hwf)) as (c & t & Hx & Hw & Hc).
  cbn [map] in *. rewrite join_cons, Hx in *. cbn [app] in *.
  rewrite skip_head by done. rewrite decide_False by done.
  rewrite He; [done|done|done|]. simpl in *. lia.
Qed.

Lemma read_object l : Forall (λ f, reads f.2) l → reads (JObj l).
Proof.
  intros Hl d fuel rest [Hdep Hwf] Hf Hd. destruct fuel as [|fuel]; [simpl in Hf; lia|].
  cbn [print value app]. rewrite skip_head by done. rewrite decide_False by done.
  rewrite decide_True by done. replace (maxNestingDepth <=? d) with false by lia.
  rewrite <-app_assoc. cbn [app]. destruct l as [|x l]; [done|].
  replace (maxNestingDepth - d - 1) with (maxNestingDepth - (d + 1)) in Hwf by lia.
  pose proof (read_members (x :: l) (d + 1) fuel rest Hl) as He.
  change (map _ (x :: l)) with (map print_field (x :: l)).
  assert (∃ t, join (map print_field (x :: l)) ++ "}"%char :: rest = dquote :: t) as [t E].
  { cbn [map]. rewrite join_cons. by eexists. }
  rewrite E in *. rewrite skip_head by done. rewrite decide_False by done.
  rewrite He; [done|done|done|]. simpl in *. lia.
Qed.

Lemma value_print j : reads j.
Proof.
  induction j as [|[]|lit|raw|l IH|l IH] using json_induction.
  1-3: intros d [|fuel] rest Hwf Hf Hd; [simpl in Hf; lia|done].
  - apply read_number.
  - intros d [|fuel] rest Hwf Hf Hd; [simpl in Hf; lia|]. cbn [print value app].
    rewrite skip_head, decide_True by done. rewrite <-app_assoc. cbn [app].
    by rewrite scan_raw.
  - by apply read_array.
  - by apply read_object.
Qed.

Lemma join_length ls :
  (foldr (λ x n, length x + n) 0 ls + length ls ≤ S (length (join ls)))%nat.
Proof.
  induction ls as [|x ls IH]; [simpl; lia|]. rewrite join_cons, length_app.
  destruct ls as [|y ls]; cbn [foldr length] in *; lia.
Qed.

(** The fuel of [first_value] is enough. *)
Lemma size_print j : (size j ≤ 2 * length (print j) + 1)%nat.
Proof.
  induction j as [|[]|lit|raw|l IH|l IH] using json_induction; cbn [size print]; try (simpl; lia).
  - assert (foldr (λ x n, S (size x + n)) 0 l ≤
      2 * (foldr (λ x n, length x + n) 0 (map print l) + length (map print l)))%nat.
    { induction IH; cbn [foldr map length]; lia. }
    pose proof (join_length (map print l)). cbn [length]. rewrite length_app. simpl. lia.
  - change (map _ l) with (map print_field l).
    assert (foldr (λ f n, S (size f.2 + n)) 0 l ≤
      2 * (foldr (λ x n, length x + n) 0 (map print_field l) + length (map print_field l)))%nat.
    { induction IH as [|[k x] l Hx _ IH]; cbn [foldr map length]; [lia|].
      unfold print_field at 1. cbn [length fst snd] in *. rewrite length_app. cbn [length]. lia. }
    pose proof (join_length (map print_field l)). cbn [length]. rewrite length_app. simpl. lia.
Qed.

(** Reading one value of a stream. *)
Lemma first_value_print j rest :
  wf maxNestingDepth j → delim rest → first_value (print j ++ rest) = Some (j, rest).
Proof.
  intros Hwf Hd. apply value_print; [by rewrite Z.sub_0_r| |done].
  pose proof (size_print j). rewrite length_app. lia.
Qed.

(** JSON round trip: a printed value is read back as it is. *)
Lemma parse_print_id j : wf maxNestingDepth j → parse (print j) = Some j.
Proof.
  intros Hwf. unfold parse. rewrite <-(app_nil_r (print j)), first_value_print by done. done.
Qed.

End Json.
