(* ===== verification/JsonText.v ===== *)
(** * JSON texts: torn and indented

    A strict prefix of a printed object is no JSON text, so that a torn record
    of a log is recognised; and the indented form [json.MarshalIndent] writes
    reads back as the value that was written. *)

From S2P Require Import Prelude GoStrings Utf8 Json.
From Stdlib Require Import Ascii.
Import Json.
Local Open Scope Z_scope.

Module JsonText.

Abbreviation bytes := (list ascii).

(** ** A value does not depend on what follows it *)

Lemma skip_ws_app l c r x : skip_ws l = c :: r → skip_ws (l ++ x) = c :: r ++ x.
Proof.
  induction l as [|d l IH]; [done|]. cbn [app skip_ws]. destruct (is_ws d); [exact IH|].
  by intros [= <- <-].
Qed.

Lemma literal_app lit j l v rest x :
  literal lit j l = Some (v, rest) → literal lit j (l ++ x) = Some (v, rest ++ x).
Proof.
  unfold literal, GoStrings.has_prefix. case_bool_decide as Hp; [|done]. intros [= <- <-].
  assert (length lit ≤ length l)%nat.
  { rewrite <-Hp at 1. rewrite length_take. lia. }
  rewrite take_app_le, bool_decide_true by done. by rewrite drop_app_le.
Qed.

Definition is_num (v : json) : bool := match v with JNum _ => true | _ => false end.

(** With more fuel and more text the parsers give the same values; a number at
    the end of the text could go on. *)
Lemma parse_more fuel :
  (∀ fuel' d l v rest x, (fuel ≤ fuel')%nat → value fuel d l = Some (v, rest) →
     is_num v = false ∨ rest ≠ [] → value fuel' d (l ++ x) = Some (v, rest ++ x)) ∧
  (∀ fuel' d l ms rest x, (fuel ≤ fuel')%nat → members fuel d l = Some (ms, rest) →
     members fuel' d (l ++ x) = Some (ms, rest ++ x)) ∧
  (∀ fuel' d l es rest x, (fuel ≤ fuel')%nat → elements fuel d l = Some (es, rest) →
     elements fuel' d (l ++ x) = Some (es, rest ++ x)).
Proof.
  induction fuel as [|fuel (IHv & IHm & IHe)]; [done|].
  split_and!; intros [|fuel'] d l v rest x Hf Hp; try lia; cbn [value members elements] in *.
  - intros Hn. destruct (skip_ws l) as [|c r] eqn:Hl; [done|]. rewrite (skip_ws_app _ _ _ x Hl).
    repeat case_decide; try (by apply (literal_app _ _ (c :: r) _ _ x)).
    + apply bind_Some in Hp as ([raw r'] & Hs & Hp). simplify_eq.
      by rewrite (scan_string_app _ _ x _ _ Hs).
    + destruct (maxNestingDepth <=? d); [done|].
      destruct (skip_ws r) as [|c' r'] eqn:Hr; [done|]. rewrite (skip_ws_app _ _ _ x Hr).
      case_decide; [by simplify_eq|]. apply bind_Some in Hp as ([ms r''] & Hs & Hp). simplify_eq.
      by rewrite (IHm fuel' _ _ _ _ x ltac:(lia) Hs).
    + destruct (maxNestingDepth <=? d); [done|].
      destruct (skip_ws r) as [|c' r'] eqn:Hr; [done|]. rewrite (skip_ws_app _ _ _ x Hr).
      case_decide; [by simplify_eq|]. apply bind_Some in Hp as ([es r''] & Hs & Hp). simplify_eq.
      by rewrite (IHe fuel' _ _ _ _ x ltac:(lia) Hs).
    + apply bind_Some in Hp as ([lit r'] & Hs & Hp). simplify_eq. destruct Hn as [|Hn]; [done|].
      change (c :: r ++ x) with ((c :: r) ++ x).
      by rewrite (scan_number_app _ x _ _ Hs (or_introl Hn)).
  - destruct (skip_ws l) as [|c r] eqn:Hl; [done|]. rewrite (skip_ws_app _ _ _ x Hl).
    case_decide; [|done]. apply bind_Some in Hp as ([key r1] & Hs & Hp).
    rewrite (scan_string_app _ _ x _ _ Hs). cbn [mbind option_bind].
    destruct (skip_ws r1) as [|c1 r2] eqn:Hr1; [done|]. rewrite (skip_ws_app _ _ _ x Hr1).
    case_decide; [|done]. apply bind_Some in Hp as ([w r3] & Hv & Hp).
    destruct (skip_ws r3) as [|c3 r4] eqn:Hr3; [done|].
    rewrite (IHv fuel' _ _ _ _ x ltac:(lia) Hv) by (right; by intros ->).
    cbn [mbind option_bind]. rewrite (skip_ws_app _ _ _ x Hr3).
    case_decide; [|case_decide; by simplify_eq]. apply bind_Some in Hp as ([ms r5] & Hm & Hp).
    simplify_eq. by rewrite (IHm fuel' _ _ _ _ x ltac:(lia) Hm).
  - apply bind_Some in Hp as ([w r3] & Hv & Hp).
    destruct (skip_ws r3) as [|c3 r4] eqn:Hr3; [done|].
    rewrite (IHv fuel' _ _ _ _ x ltac:(lia) Hv) by (right; by intros ->).
    cbn [mbind option_bind]. rewrite (skip_ws_app _ _ _ x Hr3).
    case_decide; [|case_decide; by simplify_eq]. apply bind_Some in Hp as ([ms r5] & Hm & Hp).
    simplify_eq. by rewrite (IHe fuel' _ _ _ _ x ltac:(lia) Hm).
Qed.

(** A text that starts with a brace is no number. *)
Lemma value_brace fuel d l v rest : value fuel d ("{"%char :: l) = Some (v, rest) → is_num v = false.
Proof.
  destruct fuel as [|fuel]; [done|]. cbn [value]. rewrite skip_head by done.
  rewrite decide_False by done. rewrite decide_True by done. intros Hp.
  destruct (maxNestingDepth <=? d); [done|]. destruct (skip_ws l) as [|c r]; [done|].
  case_decide; [by simplify_eq|]. apply bind_Some in Hp as ([ms r'] & _ & Hp). by simplify_eq.
Qed.

(** A torn object is no text. *)
Lemma parse_torn ms p s :
  wf maxNestingDepth (JObj ms) → print (JObj ms) = p ++ s → s ≠ [] → parse p = None.
Proof.
  intros Hwf Hp Hs. destruct (parse p) as [v|] eqn:Hv; [|done]. exfalso. unfold parse in Hv.
  destruct (first_value p) as [[v' rest]|] eqn:Hf; [|done]. unfold first_value in Hf.
  assert (Hn : is_num v' = false).
  { destruct p as [|c p]; [done|]. cbn [print app] in Hp. injection Hp as <- _. by eapply value_brace. }
  pose proof (first_value_print (JObj ms) [] Hwf I) as Hfull. rewrite app_nil_r, Hp in Hfull.
  unfold first_value in Hfull.
  destruct (parse_more (2 * length p + 2)) as [Hmore _].
  rewrite (Hmore (2 * length (p ++ s) + 2)%nat 0 p v' rest s) in Hfull;
    [|rewrite length_app; lia|exact Hf|by left].
  injection Hfull as _ E. by apply app_nil in E as [_ ->].
Qed.

(** ** Indentation *)

(** A new line and [n] levels of two spaces. *)
Definition line (n : nat) : bytes := GoStrings.byte 10 :: replicate (2 * n) " "%char.

(** Items on lines of their own. *)
Fixpoint join_lines (n : nat) (ls : list bytes) : bytes :=
  match ls with
  | [] => []
  | [x] => line n ++ x
  | x :: ls => line n ++ x ++ ","%char :: join_lines n ls
  end.

(** [json.MarshalIndent] with an empty prefix and two spaces. *)
Fixpoint print_indent (n : nat) (j : json) : bytes :=
  match j with
  | JArr [] | JObj [] | JNull | JBool _ | JNum _ | JStr _ => print j
  | JArr l => "["%char :: join_lines (S n) (map (print_indent (S n)) l) ++ line n ++ ["]"%char]
  | JObj l =>
      "{"%char :: join_lines (S n)
        (map (λ f, dquote :: f.1 ++ dquote :: ":"%char :: " "%char :: print_indent (S n) f.2) l)
        ++ line n ++ ["}"%char]
  end.

Definition MarshalIndent (j : json) : bytes := print_indent 0 j.

Example indent_example :
  MarshalIndent (JArr [JObj [(str "a", JNum (str "1")); (str "b", JNull)]; JArr []]) =
  str "[" ++ line 1 ++ str "{" ++ line 2 ++ dquote :: str "a" ++ dquote :: str ": 1," ++ line 2 ++
  dquote :: str "b" ++ dquote :: str ": null" ++ line 1 ++ str "}," ++ line 1 ++ str "[]" ++ line 0 ++ str "]".
Proof. vm_compute. reflexivity. Qed.

(** *** The parsers skip the white space *)

Lemma skip_line n l : skip_ws (line n ++ l) = skip_ws l.
Proof. unfold line. cbn [app skip_ws]. change (is_ws (GoStrings.byte 10)) with true. cbn iota.
  induction (2 * n)%nat as [|k IH]; [done|]. exact IH. Qed.

Lemma value_line fuel d n l : value fuel d (line n ++ l) = value fuel d l.
Proof. destruct fuel; [done|]. cbn [value]. by rewrite skip_line. Qed.

Lemma value_space fuel d l : value fuel d (" "%char :: l) = value fuel d l.
Proof. by destruct fuel. Qed.

Lemma members_line fuel d n l : members fuel d (line n ++ l) = members fuel d l.
Proof. destruct fuel; [done|]. cbn [members]. by rewrite skip_line. Qed.

Lemma delim_line n l : delim (line n ++ l).
Proof. split; [done|]. by apply (bool_decide_unpack _). Qed.

Lemma delim_comma l : delim (","%char :: l).
Proof. split; [done|]. by apply (bool_decide_unpack _). Qed.

(** *** Reading back *)

Definition reads_lines (j : json) : Prop := ∀ n d fuel rest,
  wf (maxNestingDepth - d) j → (size j ≤ fuel)%nat → delim rest →
  value fuel d (print_indent n j ++ rest) = Some (j, rest).

Definition field_lines (n : nat) (f : bytes * json) : bytes :=
  dquote :: f.1 ++ dquote :: ":"%char :: " "%char :: print_indent n f.2.

Lemma elements_lines l n n' d fuel rest :
  Forall reads_lines l → l ≠ [] → foldr (λ x Q, wf (maxNestingDepth - d) x ∧ Q) True l →
  (foldr (λ x n, S (size x + n)) 0%nat l ≤ fuel)%nat →
  elements fuel d (join_lines n (map (print_indent n) l) ++ line n' ++ "]"%char :: rest) = Some (l, rest).
Proof.
  intros Hl. revert fuel. induction Hl as [|x l Hx Hl IH]; intros fuel Hne Hwf Hf; [done|].
  destruct fuel as [|fuel]; [simpl in Hf; lia|]. destruct Hwf as [Hwx Hwf]. cbn [foldr] in Hf.
  cbn [map join_lines]. destruct l as [|y l].
  - cbn [map]. rewrite <-app_assoc. cbn [elements]. rewrite value_line.
    rewrite Hx by (done || lia || apply delim_line). cbn [mbind option_bind].
    by rewrite skip_line, skip_head.
  - cbn [map] in *. rewrite <-!app_assoc. cbn [elements app]. rewrite value_line.
    rewrite Hx by (done || lia || apply delim_comma). cbn [mbind option_bind].
    rewrite skip_head, decide_True by done. rewrite (IH fuel); [done|done|done|lia].
Qed.

Lemma members_lines l n n' d fuel rest :
  Forall (λ f, reads_lines f.2) l → l ≠ [] →
  foldr (λ f Q, (passes f.1 ∧ wf (maxNestingDepth - d) f.2) ∧ Q) True l →
  (foldr (λ f n, S (size f.2 + n)) 0%nat l ≤ fuel)%nat →
  members fuel d (join_lines n (map (field_lines n) l) ++ line n' ++ "}"%char :: rest) = Some (l, rest).
Proof.
  intros Hl. revert fuel. induction Hl as [|[k x] l Hx Hl IH]; intros fuel Hne Hwf Hf; [done|].
  destruct fuel as [|fuel]; [simpl in Hf; lia|]. destruct Hwf as [[Hk Hwx] Hwf].
  cbn [foldr snd] in Hf. change (reads_lines x) in Hx.
  assert (Hhead : ∀ t, members (S fuel) d (line n ++ (field_lines n (k, x)) ++ t) =
    '(v, rest) ← value fuel d (print_indent n x ++ t);
    match skip_ws rest with
    | c :: rest =>
        if decide (c = ","%char) then '(ms, rest) ← members fuel d rest; Some ((k, v) :: ms, rest)
        else if decide (c = "}"%char) then Some ([(k, v)], rest) else None
    | [] => None
    end).
  { intros t. rewrite members_line. unfold field_lines. cbn [fst snd app members].
    rewrite skip_head, decide_True by done. rewrite <-app_assoc. cbn [app]. rewrite scan_raw by done.
    cbn [mbind option_bind]. rewrite skip_head, decide_True by done. by rewrite value_space. }
  cbn [map join_lines]. destruct l as [|y l].
  - cbn [map]. rewrite <-app_assoc, Hhead.
    rewrite Hx by (done || lia || apply delim_line). cbn [mbind option_bind].
    by rewrite skip_line, skip_head.
  - cbn [map] in *. rewrite <-!app_assoc, Hhead. cbn [app].
    rewrite Hx by (done || lia || apply delim_comma). cbn [mbind option_bind].
    rewrite skip_head, decide_True by done. rewrite (IH fuel); [done|done|done|lia].
Qed.

(** The items start on a line of their own. *)
Lemma join_lines_head n x ls : ∃ t, join_lines n (x :: ls) = line n ++ x ++ t.
Proof. destruct ls; cbn [join_lines]; [exists []; by rewrite app_nil_r|]. eauto. Qed.

Lemma indent_head n j d : wf d j → ∃ c l, print_indent n j = c :: l ∧ is_ws c = false ∧ c ≠ "]"%char.
Proof.
  intros Hwf. destruct j as [| | | |[|x l]|[|x l]]; try by apply (print_head d).
  - by eexists _, _.
  - by eexists _, _.
Qed.

Lemma lines_array l : Forall reads_lines l → reads_lines (JArr l).
Proof.
  intros Hl n d fuel rest [Hdep Hwf] Hf Hd.
  destruct l as [|x l]; [by apply (value_print (JArr []))|].
  destruct fuel as [|fuel]; [simpl in Hf; lia|]. cbn [print_indent value app].
  rewrite skip_head by done. rewrite !decide_False by done. rewrite decide_True by done.
  replace (maxNestingDepth <=? d) with false by lia. rewrite <-!app_assoc. cbn [app].
  replace (maxNestingDepth - d - 1) with (maxNestingDepth - (d + 1)) in Hwf by lia.
  pose proof (elements_lines (x :: l) (S n) n (d + 1) fuel rest Hl) as He.
  destruct (indent_head (S n) x _ (proj1 Hwf)) as (c & t & Hx & Hw & Hc).
  destruct (join_lines_head (S n) (print_indent (S n) x) (map (print_indent (S n)) l)) as [u Hu].
  cbn [map] in *. rewrite Hu, Hx in *. rewrite <-!app_assoc in *. cbn [app] in *. rewrite skip_line, skip_head by done.
  rewrite decide_False by done. rewrite He; [done|done|done|]. simpl in *. lia.
Qed.

Lemma lines_object l : Forall (λ f, reads_lines f.2) l → reads_lines (JObj l).
Proof.
  intros Hl n d fuel rest [Hdep Hwf] Hf Hd.
  destruct l as [|x l]; [by apply (value_print (JObj []))|].
  destruct fuel as [|fuel]; [simpl in Hf; lia|]. cbn [print_indent value app].
  rewrite skip_head by done. rewrite decide_False by done. rewrite decide_True by done.
  replace (maxNestingDepth <=? d) with false by lia. rewrite <-!app_assoc. cbn [app].
  replace (maxNestingDepth - d - 1) with (maxNestingDepth - (d + 1)) in Hwf by lia.
  pose proof (members_lines (x :: l) (S n) n (d + 1) fuel rest Hl) as He.
  change (map _ (x :: l)) with (map (field_lines (S n)) (x :: l)).
  destruct (join_lines_head (S n) (field_lines (S n) x) (map (field_lines (S n)) l)) as [u Hu].
  cbn [map] in *. rewrite Hu in *. rewrite <-!app_assoc in *. cbn [app field_lines] in *.
  rewrite skip_line, skip_head by done. rewrite decide_False by done.
  rewrite He; [done|done|done|]. simpl in *. lia.
Qed.

Lemma value_lines j : reads_lines j.
Proof.
  induction j as [|b|lit|raw|l IH|l IH] using json_induction;
    [intros n; by apply (value_print _)..|by apply lines_array|by apply lines_object].
Qed.

Lemma join_le {A} (f g : A → bytes) n l :
  Forall (λ x, length (f x) ≤ length (g x))%nat l →
  (length (join (map f l)) ≤ length (join_lines n (map g l)))%nat.
Proof.
  induction 1 as [|x l Hx Hl IH]; [done|]. cbn [map]. destruct l as [|y l].
  - cbn [map join join_lines]. rewrite length_app. lia.
  - change (join (f x :: map f (y :: l))) with (f x ++ ","%char :: join (map f (y :: l))).
    change (join_lines n (g x :: map g (y :: l))) with
      (line n ++ g x ++ ","%char :: join_lines n (map g (y :: l))).
    rewrite !length_app. cbn [length]. lia.
Qed.

Lemma print_le_indent j : ∀ n, (length (print j) ≤ length (print_indent n j))%nat.
Proof.
  induction j as [|b|lit|raw|l IH|l IH] using json_induction; intros n; [done..| |].
  - destruct l as [|x l]; [done|]. cbn [print print_indent length]. rewrite !length_app. cbn [length].
    assert (Hl : Forall (λ y, length (print y) ≤ length (print_indent (S n) y))%nat (x :: l))
      by (eapply Forall_impl; [exact IH|]; auto).
    pose proof (join_le print (print_indent (S n)) (S n) _ Hl). lia.
  - destruct l as [|x l]; [done|]. cbn [print print_indent length]. rewrite !length_app. cbn [length].
    assert (Hl : Forall (λ f, length (print_field f) ≤ length (field_lines (S n) f))%nat (x :: l)).
    { eapply Forall_impl; [exact IH|]. intros f Hf. specialize (Hf (S n)).
      unfold print_field, field_lines. cbn [length]. rewrite !length_app. cbn [length]. lia. }
    pose proof (join_le print_field (field_lines (S n)) (S n) _ Hl) as Hle.
    unfold print_field, field_lines in Hle. lia.
Qed.

(** What [MarshalIndent] wrote, [Unmarshal] reads. *)
Lemma parse_lines j : wf maxNestingDepth j → parse (MarshalIndent j) = Some j.
Proof.
  intros Hwf. unfold parse, first_value, MarshalIndent.
  pose proof (size_print j). pose proof (print_le_indent j 0).
  rewrite <-(app_nil_r (print_indent 0 j)) at 2. rewrite value_lines; [done| |lia|done].
  by rewrite Z.sub_0_r.
Qed.

(** ** A printed value stays on one line *)

(** No control characters. *)
Definition on_line (l : bytes) : Prop := Forall (λ c, 32 ≤ Utf8.code c) l.

Ltac closed_line := apply (bool_decide_unpack _); vm_compute; exact I.

Lemma on_line_app a b : on_line (a ++ b) ↔ on_line a ∧ on_line b.
Proof. apply Forall_app. Qed.

Lemma on_line_cons c l : on_line (c :: l) ↔ 32 ≤ Utf8.code c ∧ on_line l.
Proof. unfold on_line. by rewrite Forall_cons. Qed.

Lemma on_line_in l c : on_line l → c ∈ l → 32 ≤ Utf8.code c.
Proof. unfold on_line. rewrite Forall_forall. auto. Qed.

Lemma span_digits_line l ds r : span_digits l = (ds, r) → on_line ds.
Proof.
  revert ds r. induction l as [|c l IH]; intros ds r; cbn [span_digits]; [by intros [= <- _]; constructor|].
  unfold is_digit. destruct (_ && _) eqn:Hc; [|by intros [= <- _]; constructor].
  destruct (span_digits l) as [ds' r']. intros [= <- _]. constructor; [lia|]. by eapply IH.
Qed.

Lemma scan_part_line starts sign l p r :
  scan_part starts sign l = Some (p, r) → on_line starts → on_line p.
Proof.
  intros Hs Hst. destruct l as [|c l]; cbn [scan_part] in Hs; [simplify_eq; constructor|].
  case_decide as Hc; [|simplify_eq; constructor].
  destruct (match l with [] => _ | _ => _ end) as [sg l'] eqn:Hsg.
  destruct (span_digits l') as [ds r'] eqn:E. pose proof (span_digits_line _ _ _ E) as Hds.
  destruct ds as [|d ds]; [done|]. injection Hs as <- <-. apply on_line_cons. split; [by apply (on_line_in starts)|].
  apply on_line_app. split; [|done].
  destruct l as [|s l]; [simplify_eq; constructor|].
  destruct (sign && bool_decide (s ∈ str "+-")) eqn:Hb; simplify_eq; [|constructor].
  apply andb_true_iff in Hb as [_ Hb%bool_decide_eq_true].
  constructor; [|constructor]. apply (on_line_in (str "+-")); [closed_line|done].
Qed.

Lemma scan_number_line l n r : scan_number l = Some (n, r) → on_line n.
Proof.
  unfold scan_number. intros Hs. destruct (match l with [] => _ | _ => _ end) as [sg l'] eqn:Hsg.
  apply bind_Some in Hs as ([i r1] & Hi & Hs). apply bind_Some in Hs as ([f r2] & Hf & Hs).
  apply bind_Some in Hs as ([ex r3] & He & Hs). simplify_eq. rewrite !on_line_app. split_and!.
  - destruct l as [|c l]; [simplify_eq; constructor|]. case_decide; simplify_eq; [closed_line|constructor].
  - destruct l' as [|d l']; [done|]. cbn [scan_int] in Hi. case_decide; [simplify_eq; closed_line|].
    unfold is_digit in Hi. destruct (_ && _) eqn:Hd; [|done].
    destruct (span_digits l') as [ds r'] eqn:E. simplify_eq. constructor; [lia|].
    by eapply span_digits_line.
  - eapply scan_part_line; [exact Hf|closed_line].
  - eapply scan_part_line; [exact He|closed_line].
Qed.

Lemma scan_state_line st p st' : scan_state st p = Some st' → on_line p.
Proof.
  revert st. induction p as [|c p IH]; intros st Hs; [constructor|]. cbn [scan_state] in Hs.
  destruct st as [| |n].
  - destruct (decide (c = dquote)); [done|]. case_decide as Hb.
    + subst c. constructor; [by vm_compute|]. by eapply IH.
    + destruct (Z.ltb_spec (Utf8.code c) 32); [done|]. constructor; [done|]. by eapply IH.
  - case_decide as Hu; [subst c; constructor; [by vm_compute|by eapply IH]|]. case_decide as Hc; [|done].
    constructor; [|by eapply IH]. eapply on_line_in; [|exact Hc]. closed_line.
  - destruct (hexval c) eqn:Hx; [|done]. assert (32 ≤ Utf8.code c).
    { unfold hexval in Hx. repeat case_match; simplify_eq; lia. }
    destruct n; (constructor; [done|by eapply IH]).
Qed.

Lemma print_line j d : wf d j → on_line (print j).
Proof.
  revert d. induction j as [|b|lit|raw|l IH|l IH] using json_induction; intros d Hwf.
  - closed_line.
  - destruct b; closed_line.
  - by eapply scan_number_line.
  - cbn [print]. rewrite on_line_cons, on_line_app. split_and!; [by vm_compute| |closed_line].
    by eapply scan_state_line.
  - cbn [print]. rewrite on_line_cons, on_line_app. split_and!; [by vm_compute| |closed_line].
    destruct Hwf as [_ Hwf]. induction IH as [|x l Hx _ IHl]; [constructor|]. destruct Hwf as [Hw Hwf].
    cbn [map]. rewrite join_cons, on_line_app. split; [by eapply Hx|].
    destruct l as [|y l]; [constructor|]. apply on_line_cons. split; [by vm_compute|by apply IHl].
  - cbn [print]. rewrite on_line_cons, on_line_app. split_and!; [by vm_compute| |closed_line].
    destruct Hwf as [_ Hwf]. induction IH as [|x l Hx _ IHl]; [constructor|].
    destruct Hwf as [[Hk Hw] Hwf]. cbn [map]. rewrite join_cons, !on_line_app. split.
    + rewrite on_line_cons, on_line_app, !on_line_cons. split_and!; try by vm_compute.
      * by eapply scan_state_line.
      * by eapply Hx.
    + destruct l as [|y l]; [constructor|]. apply on_line_cons. split; [by vm_compute|by apply IHl].
Qed.

End JsonText.
