(* ===== verification/GoTime.v ===== *)
(** * Calendar dates and RFC 3339, as Go's [time] package has them

    A [Time] is the instant, in nanoseconds since the zero time of Go (the first
    of January of year 1, UTC); the offset of its location from UTC is passed
    where a date is written.  JSON carries times in this format. *)

From S2P Require Import Prelude GoStrings Utf8 Json.
From Stdlib Require Import Ascii.
Import Utf8 Json.
Local Open Scope Z_scope.

Module GoTime.

Definition DaySeconds : Z := 86400.

(** ** Dates *)

Definition leap (y : Z) : bool :=
  (y mod 4 =? 0) && (negb (y mod 100 =? 0) || (y mod 400 =? 0)).

(** Days of the year before the month [m]. *)
Definition before_month (lp : bool) (m : Z) : Z :=
  nth (Z.to_nat (m - 1)) [0; 31; 59; 90; 120; 151; 181; 212; 243; 273; 304; 334; 365] 0 +
  (if lp && (2 <? m) then 1 else 0).

Definition daysIn (m y : Z) : Z := before_month (leap y) (m + 1) - before_month (leap y) m.

(** Days from the first of January of year 1. *)
Definition before_year (y : Z) : Z :=
  365 * (y - 1) + (y - 1) / 4 - (y - 1) / 100 + (y - 1) / 400.
Definition days_of (y m d : Z) : Z := before_year y + before_month (leap y) m + (d - 1).

(** The year of a day and the day of the year, by cycles of 400, 100, 4 and 1
    years; the last year of a cycle may have a day more than the others. *)
Definition year_day (days : Z) : Z * Z :=
  let n400 := days / 146097 in
  let r := days mod 146097 in
  let n100 := Z.min 3 (r / 36524) in
  let r := r - 36524 * n100 in
  let n4 := r / 1461 in
  let r := r mod 1461 in
  let n1 := Z.min 3 (r / 365) in
  (400 * n400 + 100 * n100 + 4 * n4 + n1 + 1, r - 365 * n1).

Definition month_of (lp : bool) (yday : Z) : Z :=
  1 + Z.of_nat (length (filter (λ m, before_month lp m ≤ yday) (seqZ 2 11))).

Definition civil (days : Z) : Z * Z * Z :=
  let '(y, yday) := year_day days in
  let m := month_of (leap y) yday in
  (y, m, yday - before_month (leap y) m + 1).

Example civil_leap : civil (days_of 2024 2 29) = (2024, 2, 29).
Proof. vm_compute. reflexivity. Qed.

(** ** Writing *)

(** The last [w] decimal digits. *)
Fixpoint pad (w : nat) (n : Z) : bytes :=
  match w with
  | 0%nat => []
  | S w => pad w (n / 10) ++ [char (48 + n mod 10)]
  end.

Definition year_text (y : Z) : bytes :=
  if y <? 0 then "-"%char :: (if y <=? -10000 then Json.str (GoStrings.Itoa (- y)) else pad 4 (- y))
  else if 10000 <=? y then Json.str (GoStrings.Itoa y) else pad 4 y.

Fixpoint drop_zeros (l : bytes) : bytes :=
  match l with
  | c :: rest => if decide (c = "0"%char) then drop_zeros rest else l
  | [] => []
  end.

(** The fraction of a second without trailing zeros. *)
Definition fraction (ns : Z) : bytes :=
  if ns =? 0 then [] else "."%char :: reverse (drop_zeros (reverse (pad 9 ns))).

Definition zone_text (off : Z) : bytes :=
  if off =? 0 then ["Z"%char]
  else
    let zone := Z.abs (Z.quot off 60) in
    (if off <? 0 then "-"%char else "+"%char) :: pad 2 (zone / 60) ++ ":"%char :: pad 2 (zone mod 60).

(** [Format] with [RFC3339Nano], or with [RFC3339] when [nanos] is false; [off]
    is the location's offset in seconds. *)
Definition Format (nanos : bool) (off : Z) (t : Time) : bytes :=
  let t := t + off * Second in
  let secs := t / Second in
  let '(y, m, d) := civil (secs / DaySeconds) in
  let sod := secs mod DaySeconds in
  year_text y ++ "-"%char :: pad 2 m ++ "-"%char :: pad 2 d ++ "T"%char ::
  pad 2 (sod / 3600) ++ ":"%char :: pad 2 (sod / 60 mod 60) ++ ":"%char :: pad 2 (sod mod 60) ++
  (if nanos then fraction (t mod Second) else []) ++ zone_text off.

(** [Time.MarshalJSON], without the quotes: the year must have four digits and
    the zone two. *)
Definition MarshalJSON (off : Z) (t : Time) : option bytes :=
  let '(y, _) := year_day ((t + off * Second) / Second / DaySeconds) in
  if (0 <=? y) && (y <=? 9999) && (Z.abs (Z.quot off 60) / 60 <? 24)
  then Some (Format true off t) else None.

(** ** Reading *)

Definition uint (l : bytes) (lo hi : Z) : option Z :=
  x ← GoStrings.digits 0 l;
  if (lo <=? x) && (x <=? hi) then Some x else None.

Definition sub (i n : nat) (l : bytes) : bytes := take n (drop i l).

(** [parseNanoseconds] on the digits after the point. *)
Definition nanoseconds (ds : bytes) : option Z :=
  let ds := take 9 ds in
  x ← GoStrings.digits 0 ds; Some (x * 10 ^ (9 - Z.of_nat (length ds))).

Definition scan_fraction (l : bytes) : option (Z * bytes) :=
  match l with
  | c :: rest =>
      if decide (c = "."%char) then
        match Json.span_digits rest with
        | ([], _) => Some (0, l)
        | (ds, rest) => ns ← nanoseconds ds; Some (ns, rest)
        end
      else Some (0, l)
  | [] => Some (0, l)
  end.

(** The zone: its offset in seconds. *)
Definition scan_zone (l : bytes) : option Z :=
  if decide (l = ["Z"%char]) then Some 0
  else
    match l with
    | sg :: l =>
        if decide (length l = 5%nat ∧ l !! 2%nat = Some ":"%char) then
          hr ← uint (sub 0 2 l) 0 23;
          mm ← uint (sub 3 2 l) 0 59;
          let off := (hr * 60 + mm) * 60 in
          if decide (sg = "-"%char) then Some (- off)
          else if decide (sg = "+"%char) then Some off else None
        else None
    | [] => None
    end.

(** [parseRFC3339]: the instant and the offset of the zone. *)
Definition parseRFC3339 (l : bytes) : option (Time * Z) :=
  if decide (length l < 19)%nat then None else
  year ← uint (sub 0 4 l) 0 9999;
  month ← uint (sub 5 2 l) 1 12;
  day ← uint (sub 8 2 l) 1 (daysIn month year);
  hour ← uint (sub 11 2 l) 0 23;
  min ← uint (sub 14 2 l) 0 59;
  sec ← uint (sub 17 2 l) 0 59;
  if decide (l !! 4%nat = Some "-"%char ∧ l !! 7%nat = Some "-"%char ∧ l !! 10%nat = Some "T"%char ∧
             l !! 13%nat = Some ":"%char ∧ l !! 16%nat = Some ":"%char) then
    '(ns, l) ← scan_fraction (drop 19 l);
    off ← scan_zone l;
    Some ((days_of year month day * DaySeconds + hour * 3600 + min * 60 + sec - off) * Second + ns, off)
  else None.

(** The general parser with the layout [RFC3339], which is more lenient: the
    hour may have one digit, a comma may start the fraction, and offsets up to
    24 hours and 60 minutes are accepted. *)
Definition getnum (fixed : bool) (lo hi : Z) (l : bytes) : option (Z * bytes) :=
  match l with
  | a :: b :: rest =>
      if Json.is_digit a then
        if Json.is_digit b then x ← uint [a; b] lo hi; Some (x, rest)
        else if fixed then None else x ← uint [a] lo hi; Some (x, b :: rest)
      else None
  | [a] => if fixed then None else x ← uint [a] lo hi; Some (x, [])
  | [] => None
  end.

Definition skip (c : ascii) (l : bytes) : option bytes :=
  match l with
  | x :: l => if decide (x = c) then Some l else None
  | [] => None
  end.

Definition lenient_fraction (l : bytes) : option (Z * bytes) :=
  match l with
  | c :: rest =>
      if decide (c = ","%char) then scan_fraction ("."%char :: rest) ≫= λ '(ns, l'),
        match Json.span_digits rest with ([], _) => Some (0, l) | _ => Some (ns, l') end
      else scan_fraction l
  | [] => Some (0, l)
  end.

Definition lenient_zone (l : bytes) : option Z :=
  if decide (l = ["Z"%char]) then Some 0
  else
    match l with
    | sg :: l =>
        if decide (length l = 5%nat ∧ l !! 2%nat = Some ":"%char) then
          '(hr, _) ← getnum true 0 24 (sub 0 2 l);
          '(mm, _) ← getnum true 0 60 (sub 3 2 l);
          let off := (hr * 60 + mm) * 60 in
          if decide (sg = "-"%char) then Some (- off)
          else if decide (sg = "+"%char) then Some off else None
        else None
    | [] => None
    end.

Definition parse_layout (l : bytes) : option (Time * Z) :=
  if decide (length l < 4)%nat then None else
  year ← uint (take 4 l) 0 9999; l ← skip "-" (drop 4 l);
  '(month, l) ← getnum true 1 12 l; l ← skip "-" l;
  '(day, l) ← getnum true 1 (daysIn month year) l; l ← skip "T" l;
  '(hour, l) ← getnum false 0 23 l; l ← skip ":" l;
  '(min, l) ← getnum true 0 59 l; l ← skip ":" l;
  '(sec, l) ← getnum true 0 59 l;
  '(ns, l) ← lenient_fraction l;
  off ← lenient_zone l;
  Some ((days_of year month day * DaySeconds + hour * 3600 + min * 60 + sec - off) * Second + ns, off).

(** [time.Parse(time.RFC3339, ...)], which [UnmarshalJSON] uses too. *)
Definition Parse (l : bytes) : option (Time * Z) :=
  match parseRFC3339 l with
  | Some r => Some r
  | None => parse_layout l
  end.

Example parse_lenient :
  Parse (Json.str "2024-02-29T7:34:05,25Z") =
    Some ((days_of 2024 2 29 * 86400 + 7 * 3600 + 34 * 60 + 5) * Second + 250000000, 0).
Proof. vm_compute. reflexivity. Qed.

Example parse_garbage :
  Parse (Json.str "2024-02-30T07:34:05Z") = None ∧ Parse (Json.str "2024-02-29T07:34:05Z ") = None ∧
  Parse (Json.str "tomorrow") = None.
Proof. vm_compute. done. Qed.

Example parse_example :
  parseRFC3339 (Json.str "2024-02-29T13:04:05.25+05:30") =
    Some ((days_of 2024 2 29 * 86400 + 7 * 3600 + 34 * 60 + 5) * Second + 250000000, 19800).
Proof. vm_compute. reflexivity. Qed.

Example format_example :
  Format true 19800 ((days_of 2024 2 29 * 86400 + 7 * 3600 + 34 * 60 + 5) * Second + 250000000) =
    Json.str "2024-02-29T13:04:05.25+05:30".
Proof. vm_compute. reflexivity. Qed.

(** ** Facts: the calendar *)

Lemma year_day_spec days :
  let '(y, yd) := year_day days in
  before_year y + yd = days ∧ 0 ≤ yd < 365 + (if leap y then 1 else 0).
Proof.
  unfold year_day.
  set (a := days / 146097). set (r0 := days mod 146097).
  set (b := Z.min 3 (r0 / 36524)). set (r1 := r0 - 36524 * b).
  set (c := r1 / 1461). set (r2 := r1 mod 1461). set (e := Z.min 3 (r2 / 365)).
  assert (days = 146097 * a + r0 ∧ 0 ≤ r0 < 146097) by (subst a r0; dlia).
  assert (0 ≤ b ≤ 3 ∧ 0 ≤ r1 ∧ (b < 3 → r1 < 36524) ∧ r1 < 36525) by (subst b r1; dlia).
  assert (r1 = 1461 * c + r2 ∧ 0 ≤ r2 < 1461) by (subst c r2; dlia).
  assert (0 ≤ e ≤ 3 ∧ 0 ≤ r2 - 365 * e ∧ (e < 3 → r2 - 365 * e < 365)) by (subst e; dlia).
  assert (r0 = 36524 * b + r1) by (subst r1; lia).
  clearbody a r0 b r1 c r2 e. unfold before_year, leap.
  replace (400 * a + 100 * b + 4 * c + e + 1 - 1) with (400 * a + 100 * b + 4 * c + e) by lia.
  split; [dlia|]. split; [lia|].
  destruct ((400 * a + 100 * b + 4 * c + e + 1) mod 4 =? 0) eqn:E4; simpl; [|dlia].
  destruct ((400 * a + 100 * b + 4 * c + e + 1) mod 100 =? 0) eqn:E100; simpl; [|dlia].
  destruct ((400 * a + 100 * b + 4 * c + e + 1) mod 400 =? 0) eqn:E400; dlia.
Qed.

Definition month_ok (lp : bool) (yd : Z) : bool :=
  let m := month_of lp yd in
  (1 <=? m) && (m <=? 12) && (before_month lp m <=? yd) && (yd <? before_month lp (m + 1)).

Lemma month_table : forallb (λ yd, month_ok false yd) (seqZ 0 365) && forallb (λ yd, month_ok true yd) (seqZ 0 366) = true.
Proof. vm_compute. reflexivity. Qed.

Lemma month_of_spec (lp : bool) yd :
  0 ≤ yd < 365 + (if lp then 1 else 0) →
  let m := month_of lp yd in
  1 ≤ m ≤ 12 ∧ before_month lp m ≤ yd < before_month lp (m + 1).
Proof.
  intros Hyd m. pose proof month_table as Ht. apply andb_true_iff in Ht as [H0 H1].
  assert (Hok : month_ok lp yd = true).
  { destruct lp.
    - apply (proj1 (forallb_forall _ _) H1), list_elem_of_In, elem_of_seqZ. lia.
    - apply (proj1 (forallb_forall _ _) H0), list_elem_of_In, elem_of_seqZ. lia. }
  unfold month_ok in Hok. fold m in Hok. lia.
Qed.

(** Every day has a date in range, and the date leads back to the day. *)
Lemma civil_spec days :
  let '(y, m, d) := civil days in
  days_of y m d = days ∧ 1 ≤ m ≤ 12 ∧ 1 ≤ d ≤ daysIn m y ∧ (year_day days).1 = y.
Proof.
  unfold civil. pose proof (year_day_spec days) as Hy. destruct (year_day days) as [y yd].
  destruct Hy as [Hd Hyd]. pose proof (month_of_spec (leap y) yd Hyd) as (Hm & Hb).
  unfold days_of, daysIn. split_and!; lia || done.
Qed.

(** ** Facts: digits *)

Lemma pad_digit d : 0 ≤ d < 10 → GoStrings.digit (char (48 + d)) = Some d.
Proof.
  intros Hd. unfold GoStrings.digit, nat_of_ascii. rewrite N_nat_Z.
  change (Z.of_N (N_of_ascii (char (48 + d)))) with (code (char (48 + d))).
  rewrite code_char by lia. replace (_ && _) with true by lia. f_equal. lia.
Qed.

Lemma pad_digits w n : Forall (λ c, is_Some (GoStrings.digit c)) (pad w n).
Proof.
  revert n. induction w as [|w IH]; intros n; [constructor|]. simpl. apply Forall_app. split; [done|].
  repeat constructor. rewrite pad_digit by (apply Z.mod_pos_bound; lia). done.
Qed.

Lemma pad_length w n : length (pad w n) = w.
Proof. revert n. induction w as [|w IH]; intros n; [done|]. simpl. rewrite length_app, IH. simpl. lia. Qed.

Lemma digits_pad w n acc l :
  GoStrings.digits acc (pad w n ++ l) =
  GoStrings.digits (acc * 10 ^ Z.of_nat w + n mod 10 ^ Z.of_nat w) l.
Proof.
  revert n l. induction w as [|w IH]; intros n l.
  { simpl. rewrite Z.mod_1_r. f_equal. lia. }
  cbn [pad]. rewrite <-app_assoc, IH. cbn [app GoStrings.digits].
  rewrite pad_digit by (apply Z.mod_pos_bound; lia). f_equal.
  rewrite Nat2Z.inj_succ, Z.pow_succ_r by lia.
  rewrite Z.rem_mul_r by (try lia; apply Z.pow_nonzero; lia). lia.
Qed.

Lemma uint_pad w n lo hi :
  0 ≤ n < 10 ^ Z.of_nat w → lo ≤ n ≤ hi → uint (pad w n) lo hi = Some n.
Proof.
  intros Hn Hr. unfold uint. rewrite <-(app_nil_r (pad w n)), digits_pad. cbn [GoStrings.digits].
  rewrite Z.mod_small by done. simpl. by replace (_ && _) with true by lia.
Qed.

Lemma digits_app acc a b :
  GoStrings.digits acc (a ++ b) = v ← GoStrings.digits acc a; GoStrings.digits v b.
Proof.
  revert acc. induction a as [|c a IH]; intros acc; [done|]. simpl.
  destruct (GoStrings.digit c); [apply IH|done].
Qed.

Lemma digits_zeros v k :
  GoStrings.digits v (replicate k "0"%char) = Some (v * 10 ^ Z.of_nat k).
Proof.
  revert v. induction k as [|k IH]; intros v; [simpl; f_equal; lia|].
  cbn [replicate GoStrings.digits]. change (GoStrings.digit "0"%char) with (Some 0). cbn iota.
  rewrite IH, Nat2Z.inj_succ, Z.pow_succ_r by lia. f_equal. lia.
Qed.

Lemma drop_zeros_spec l : ∃ k, l = replicate k "0"%char ++ drop_zeros l.
Proof.
  induction l as [|c l [k IH]]; [by exists 0%nat|]. simpl. case_decide as Hc.
  - subst c. exists (S k). simpl. by rewrite <-IH.
  - by exists 0%nat.
Qed.

Lemma trim_zeros_spec l : ∃ k, l = reverse (drop_zeros (reverse l)) ++ replicate k "0"%char.
Proof.
  destruct (drop_zeros_spec (reverse l)) as [k Hk]. exists k.
  rewrite <-(reverse_involutive l) at 1. rewrite Hk at 1. rewrite reverse_app. f_equal.
  apply reverse_replicate.
Qed.

Lemma fraction_digits ns :
  0 < ns < Second → let ds := reverse (drop_zeros (reverse (pad 9 ns))) in
  ds ≠ [] ∧ Forall (λ c, is_Some (GoStrings.digit c)) ds ∧ nanoseconds ds = Some ns.
Proof.
  intros Hns ds. unfold Second in Hns. destruct (trim_zeros_spec (pad 9 ns)) as [k Hk]. fold ds in Hk.
  pose proof (pad_digits 9 ns) as Hd. rewrite Hk in Hd. apply Forall_app in Hd as [Hd _].
  pose proof (f_equal length Hk) as Hl. rewrite pad_length, length_app, length_replicate in Hl.
  pose proof (digits_pad 9 ns 0 []) as Hv. rewrite app_nil_r, Hk, digits_app in Hv.
  cbn [GoStrings.digits] in Hv. rewrite Z.mod_small in Hv by (simpl; lia).
  destruct (GoStrings.digits 0 ds) as [v|] eqn:Ev; [|done]. cbn [mbind option_bind] in Hv.
  rewrite digits_zeros in Hv. simpl in Hv. injection Hv as Hv.
  split; [|split; [done|]].
  - intros Hnil. rewrite Hnil in Ev. simpl in Ev. simplify_eq. lia.
  - unfold nanoseconds. rewrite take_ge by lia. rewrite Ev. simpl. f_equal.
    replace (9 - Z.of_nat (length ds)) with (Z.of_nat k) by lia. done.
Qed.

(** What may follow the fraction. *)
Definition zone_start (l : bytes) : Prop := Json.delim l ∧ head l ≠ Some "."%char.

Lemma zone_text_start off : zone_start (zone_text off).
Proof. unfold zone_text. repeat case_match; (split; [split; [done|set_solver]|done]). Qed.

Lemma scan_fraction_text ns l :
  0 ≤ ns < Second → zone_start l → scan_fraction (fraction ns ++ l) = Some (ns, l).
Proof.
  intros Hns [Hd Hh]. unfold fraction. destruct (Z.eqb_spec ns 0) as [->|Hne].
  { destruct l as [|c l]; [done|]. simpl in *. rewrite decide_False; [done|]. by intros ->. }
  destruct (fraction_digits ns) as (Hn & Hds & Hv); [lia|].
  set (ds := reverse _) in *. cbn [app scan_fraction]. rewrite decide_True by done.
  rewrite (Json.span_digits_app ds l ds []); [|by apply Json.span_all|by right].
  destruct ds as [|c ds]; [done|]. by rewrite Hv.
Qed.

Lemma scan_zone_text off :
  off mod 60 = 0 → Z.abs off < DaySeconds → scan_zone (zone_text off) = Some off.
Proof.
  unfold DaySeconds. intros Hm Ho. unfold zone_text. destruct (Z.eqb_spec off 0) as [->|Hne]; [done|].
  set (z := Z.abs (Z.quot off 60)).
  assert (Hz : off = (if off <? 0 then -1 else 1) * (z * 60) ∧ 0 ≤ z < 1440).
  { subst z. destruct (Z.ltb_spec off 0); Z.to_euclidean_division_equations; lia. }
  destruct Hz as [Hz Hr]. clearbody z. unfold scan_zone. rewrite decide_False by (by case_match).
  change (sub 0 2 (pad 2 (z / 60) ++ ":"%char :: pad 2 (z mod 60))) with (pad 2 (z / 60)).
  change (sub 3 2 (pad 2 (z / 60) ++ ":"%char :: pad 2 (z mod 60))) with (pad 2 (z mod 60)).
  rewrite decide_True by done.
  rewrite (uint_pad 2 (z / 60)) by (simpl; dlia). cbn [mbind option_bind].
  rewrite (uint_pad 2 (z mod 60)) by (simpl; dlia). cbn [mbind option_bind].
  destruct (Z.ltb_spec off 0).
  - rewrite decide_True by done. f_equal. dlia.
  - rewrite decide_False, decide_True by done. f_equal. dlia.
Qed.

Lemma daysIn_bound m y : 1 ≤ m ≤ 12 → daysIn m y ≤ 31.
Proof.
  intros Hm. unfold daysIn, before_month.
  assert (m = 1 ∨ m = 2 ∨ m = 3 ∨ m = 4 ∨ m = 5 ∨ m = 6 ∨ m = 7 ∨ m = 8 ∨ m = 9 ∨ m = 10 ∨ m = 11 ∨ m = 12)
    as Hc by lia.
  by repeat destruct Hc as [-> | Hc]; [..|subst]; destruct (leap y).
Qed.

(** The fixed part of the format, read back field by field. *)
Lemma parse_fields y m d h mi sc tail :
  0 ≤ y ≤ 9999 → 1 ≤ m ≤ 12 → 1 ≤ d ≤ daysIn m y → 0 ≤ h ≤ 23 → 0 ≤ mi ≤ 59 → 0 ≤ sc ≤ 59 →
  parseRFC3339 (pad 4 y ++ "-"%char :: pad 2 m ++ "-"%char :: pad 2 d ++ "T"%char :: pad 2 h ++
                ":"%char :: pad 2 mi ++ ":"%char :: pad 2 sc ++ tail) =
  '(ns, l) ← scan_fraction tail;
  off ← scan_zone l;
  Some ((days_of y m d * DaySeconds + h * 3600 + mi * 60 + sc - off) * Second + ns, off).
Proof.
  intros Hy Hm Hd Hh Hmi Hs. pose proof (daysIn_bound m y Hm).
  set (l := pad 4 y ++ _).
  assert (Hl : ¬ (length l < 19)%nat) by (subst l; simpl; lia).
  unfold parseRFC3339. rewrite decide_False by done.
  change (sub 0 4 l) with (pad 4 y). change (sub 5 2 l) with (pad 2 m).
  change (sub 8 2 l) with (pad 2 d). change (sub 11 2 l) with (pad 2 h).
  change (sub 14 2 l) with (pad 2 mi). change (sub 17 2 l) with (pad 2 sc).
  rewrite (uint_pad 4 y) by (simpl; lia). cbn [mbind option_bind].
  rewrite (uint_pad 2 m) by (simpl; lia). cbn [mbind option_bind].
  rewrite (uint_pad 2 d) by (simpl; lia). cbn [mbind option_bind].
  rewrite (uint_pad 2 h) by (simpl; lia). cbn [mbind option_bind].
  rewrite (uint_pad 2 mi) by (simpl; lia). cbn [mbind option_bind].
  rewrite (uint_pad 2 sc) by (simpl; lia). cbn [mbind option_bind].
  rewrite decide_True by done. change (drop 19 l) with tail. done.
Qed.

(** Times survive JSON: in any zone of whole minutes, the text of an instant
    reads back as that instant. *)
Lemma parse_marshal off t l :
  off mod 60 = 0 → Z.abs off < DaySeconds → MarshalJSON off t = Some l → Parse l = Some (t, off).
Proof.
  intros Hm Ho Hl. cut (parseRFC3339 l = Some (t, off)); [unfold Parse; by intros ->|]. revert Hl. unfold MarshalJSON, Format. set (u := t + off * Second). set (secs := u / Second).
  pose proof (civil_spec (secs / DaySeconds)) as Hc.
  destruct (civil (secs / DaySeconds)) as [[y m] d]. destruct Hc as (Hdays & Hm12 & Hd & Hy).
  destruct (year_day (secs / DaySeconds)) as [y' yd]. simpl in Hy. subst y'.
  case_match; [|done]. intros <-%(inj Some).
  assert (Hyt : year_text y = pad 4 y). { unfold year_text. by decide_tests. }
  rewrite Hyt. set (sod := secs mod DaySeconds).
  assert (Hs : 0 ≤ sod < 86400) by (subst sod; unfold DaySeconds; dlia).
  rewrite parse_fields by dlia.
  rewrite scan_fraction_text; [|unfold Second; dlia|apply zone_text_start]. cbn [mbind option_bind].
  rewrite scan_zone_text by done. cbn [mbind option_bind]. do 2 f_equal. rewrite Hdays.
  subst sod secs u. unfold DaySeconds, Second in *. dlia.
Qed.

(** The text of a time needs no escapes. *)
Definition plain (c : ascii) : Prop := c ≠ dquote ∧ c ≠ bslash ∧ 32 ≤ code c.

Lemma passes_plain l : Forall plain l → passes l.
Proof.
  unfold passes. induction 1 as [|c l (H1 & H2 & H3) _ IH]; [done|]. cbn [scan_state].
  rewrite !decide_False by done. by replace (code c <? 32) with false by lia.
Qed.

Lemma digit_plain c : is_Some (GoStrings.digit c) → plain c.
Proof.
  intros Hd. apply is_digit_digit in Hd. unfold is_digit in Hd. split_and!; [| |lia];
    intros ->; by vm_compute in Hd.
Qed.

Lemma pad_plain w n : Forall plain (pad w n).
Proof. eapply Forall_impl; [apply pad_digits|]. apply digit_plain. Qed.

Lemma marshal_plain off t l : MarshalJSON off t = Some l → Forall plain l.
Proof.
  unfold MarshalJSON, Format. destruct (year_day _) as [y yd] eqn:Ey.
  pose proof (civil_spec ((t + off * Second) / Second / DaySeconds)) as Hc.
  destruct (civil _) as [[y' m] d]. destruct Hc as (_ & _ & _ & Hy). rewrite Ey in Hy. simpl in Hy.
  subst y'. case_match; [|done]. intros <-%(inj Some).
  assert (Hf : Forall plain (fraction ((t + off * Second) mod Second))).
  { unfold fraction. destruct (Z.eqb_spec ((t + off * Second) mod Second) 0); [done|].
    constructor; [done|]. destruct (fraction_digits ((t + off * Second) mod Second)) as (_ & Hd & _).
    { unfold Second in *. dlia. } eapply Forall_impl; [exact Hd|]. apply digit_plain. }
  assert (Hz : Forall plain (zone_text off)).
  { unfold zone_text. case_match; [by repeat constructor|]. constructor; [by case_match|].
    apply Forall_app. split; [apply pad_plain|]. constructor; [done|apply pad_plain]. }
  assert (Hyt : year_text y = pad 4 y). { unfold year_text. by decide_tests. }
  rewrite Hyt.
  repeat (apply Forall_app; split; [by auto using pad_plain|]; try (constructor; [done|])). done.
Qed.

Lemma marshal_passes off t l : MarshalJSON off t = Some l → passes l.
Proof. intros Hl. eapply passes_plain, marshal_plain, Hl. Qed.

Lemma plain_unquotes l : Forall plain l → is_Some (unquote l).
Proof.
  unfold unquote. assert (Hn : (length l ≤ length l)%nat) by done. revert Hn.
  generalize (length l) at 2 3 as n. intros n. revert l. induction n as [|n IH]; intros l Hn Hl.
  { destruct l; [by eexists|simpl in Hn; lia]. }
  destruct l as [|c l]; [by eexists|]. cbn [unquote_from].
  destruct (Forall_cons_1 _ _ _ Hl) as [(H1 & H2 & H3) _].
  rewrite decide_False, bool_decide_false by done. replace (code c <? 32) with false by lia. cbn [orb].
  pose proof (decode_width (c :: l) ltac:(done)) as Hs.
  destruct (IH (drop (decodeRune (c :: l)).2 (c :: l))) as [out Ho].
  - rewrite length_drop. simpl in *. lia.
  - by apply Forall_drop.
  - rewrite Ho. by eexists.
Qed.

(** The zero time can be written in every zone. *)
Lemma marshal_zero off : Z.abs off < DaySeconds → is_Some (MarshalJSON off time_zero).
Proof.
  unfold DaySeconds. intros Ho. unfold MarshalJSON, time_zero. rewrite Z.add_0_l.
  assert (Hs : off * Second / Second = off) by (unfold Second; apply Z.div_mul; lia). rewrite Hs.
  assert (Hq : Z.abs (Z.quot off 60) / 60 <? 24 = true) by (Z.to_euclidean_division_equations; lia).
  rewrite Hq. assert (off / DaySeconds = 0 ∨ off / DaySeconds = -1) as [-> | ->]
    by (unfold DaySeconds; dlia); done.
Qed.

End GoTime.
