(* ===== verification/Codec.v ===== *)
(** * Structs as JSON: the codecs of jobs and cron jobs

    How [encoding/json] fills a struct from a JSON object and writes one, with
    the field tags of [internal/job/job.go] and [internal/cron/cron.go], and the
    round trips.  A [time.Time] is written in the zone of its location, which is
    the parameter [off]: any zone of whole minutes carries the instant. *)

From S2P Require Import Prelude Job Store GoStrings Utf8 Json GoTime.
From Stdlib Require Import Ascii.
Import Utf8 Json.
Local Open Scope Z_scope.

Module Codec.

(** ** Filling a struct *)

(** Case folding of a key; only two letters beyond ASCII fold to ASCII ones. *)
Definition fold_rune (r : Z) : Z :=
  if (97 <=? r) && (r <=? 122) then r - 32
  else if r =? 8490 then 75 else if r =? 383 then 83 else r.

Definition fold_key (k : bytes) : list Z := fold_rune ∘ default RuneError <$> chunks k.

(** The fields of a struct: their names and how a JSON value is stored. *)
Definition fields (A : Type) := list (bytes * (A → json → option A)).

(** A member goes to the field with its exact name, or to the first one whose
    name differs only in case; other members are ignored. *)
Definition find_field {A} (fs : fields A) (k : bytes) : option (A → json → option A) :=
  match list_find (λ f, f.1 = k) fs with
  | Some (_, f) => Some f.2
  | None => snd ∘ snd <$> list_find (λ f, fold_key f.1 = fold_key k) fs
  end.

Definition set_member {A} (fs : fields A) (a : A) (m : bytes * json) : option A :=
  k ← unquote m.1;
  match find_field fs k with
  | Some set => set a m.2
  | None => Some a
  end.

Fixpoint set_members {A} (fs : fields A) (a : A) (ms : list (bytes * json)) : option A :=
  match ms with
  | [] => Some a
  | m :: ms => a ← set_member fs a m; set_members fs a ms
  end.

(** A struct from an object; [null] leaves it as it is. *)
Definition set_struct {A} (fs : fields A) (a : A) (j : json) : option A :=
  match j with
  | JNull => Some a
  | JObj ms => set_members fs a ms
  | _ => None
  end.

(** Scalar fields; [put] stores the decoded value. *)
Definition set_string {A} (put : A → string → A) (a : A) (j : json) : option A :=
  match j with
  | JNull => Some a
  | JStr raw => s ← unquote raw; Some (put a (GoStrings.of_bytes s))
  | _ => None
  end.

Definition set_int {A} (put : A → Z → A) (a : A) (j : json) : option A :=
  match j with
  | JNull => Some a
  | JNum lit => z ← GoStrings.Atoi (GoStrings.of_bytes lit); Some (put a z)
  | _ => None
  end.

(** [Time.UnmarshalJSON] reads the literal between the quotes as it stands. *)
Definition set_time {A} (put : A → Time → A) (a : A) (j : json) : option A :=
  match j with
  | JNull => Some a
  | JStr raw => '(t, _) ← GoTime.Parse raw; Some (put a t)
  | _ => None
  end.

(** A field that is a struct itself. *)
Definition set_nested {A B} (fs : fields B) (get : A → B) (put : A → B → A) (a : A) (j : json)
  : option A :=
  b ← set_struct fs (get a) j; Some (put a b).

(** ** Writing a struct *)

Definition jstring (s : string) : json := JStr (quote (str s)).
Definition jint (z : Z) : json := JNum (str (GoStrings.Itoa z)).

(** [off] is the offset from UTC, in seconds, of the location of a time. *)
Definition jtime (off : Time → Z) (t : Time) : option json := JStr <$> GoTime.MarshalJSON (off t) t.

(** The zones of the times that are written: whole minutes, less than a day. *)
Definition zones_ok (off : Time → Z) : Prop :=
  ∀ t, off t mod 60 = 0 ∧ Z.abs (off t) < GoTime.DaySeconds.

(** A struct type: its zero value, its encoding and its fields. *)
Class Struct (A : Type) := {
  zero : A;
  encode : (Time → Z) → A → option json;
  struct_fields : fields A
}.

(** [json.Marshal], [json.Unmarshal] into a zero value, and [Decoder.Decode],
    which leaves what follows the first value unread. *)
Definition Marshal `{Struct A} (off : Time → Z) (a : A) : option bytes := print <$> encode off a.
Definition Unmarshal {A} `{Struct A} (data : bytes) : option A :=
  v ← parse data; set_struct struct_fields zero v.
Definition Decode {A} `{Struct A} (data : bytes) : option A :=
  '(v, _) ← first_value data; set_struct struct_fields zero v.

(** Slices: a nil slice is written as [null], which is read as an empty one. *)
Definition list_json `{Struct A} (off : Time → Z) (isnil : bool) (l : list A) : option json :=
  if isnil && bool_decide (length l = 0%nat) then Some JNull else JArr <$> mapM (encode off) l.
Definition set_list {A} `{Struct A} (j : json) : option (list A) :=
  match j with
  | JNull => Some []
  | JArr l => mapM (set_struct struct_fields zero) l
  | _ => None
  end.
Definition MarshalList `{Struct A} (off : Time → Z) (isnil : bool) (l : list A) : option bytes :=
  print <$> list_json off isnil l.
Definition UnmarshalList {A} `{Struct A} (data : bytes) : option (list A) :=
  v ← parse data; set_list v.
Definition DecodeList {A} `{Struct A} (data : bytes) : option (list A) :=
  '(v, _) ← first_value data; set_list v.

(** What a codec promises: what is written nests at most [depth] deep and reads
    back as the value itself, with invalid bytes of its strings replaced. *)
Class StructLaws (A : Type) `{Struct A} := {
  depth : Z;
  in_range : A → Prop;
  clean : A → A;
  depth_bound : 0 < depth < 100;
  encode_wf off d a v : depth ≤ d → encode off a = Some v → wf d v;
  decode_encode off a v : zones_ok off → in_range a → encode off a = Some v →
    set_struct struct_fields zero v = Some (clean a)
}.

(** *** [job.Job] *)

Definition job_json (off : Time → Z) (j : Job) : option json :=
  t ← jtime off (NextRunAt j);
  Some (JObj
    [(str "id", jint (ID j)); (str "type", jstring (JType j));
     (str "priority", jint (Priority j)); (str "status", jstring (JStatus j));
     (str "retry_count", jint (RetryCount j)); (str "max_retries", jint (MaxRetries j));
     (str "next_run_at", t); (str "last_error", jstring (LastError j));
     (str "idempotency_key", jstring (IdempotencyKey j))]).

(** *** [cron.CronJob] *)

Definition cron_json (off : Time → Z) (c : CronJob) : option json :=
  t ← jtime off (NextRun c);
  Some (JObj
    [(str "id", jstring (CronID c)); (str "schedule", jstring (Schedule c));
     (str "type", jstring (CronType c)); (str "priority", jint (CronPriority c));
     (str "next_run", t)]).

Definition with_id (j : Job) (x : Z) : Job :=
  mkJob x (JType j) (Priority j) (JStatus j) (RetryCount j) (MaxRetries j)
    (NextRunAt j) (LastError j) (IdempotencyKey j).
Definition with_type (j : Job) (x : string) : Job :=
  mkJob (ID j) x (Priority j) (JStatus j) (RetryCount j) (MaxRetries j)
    (NextRunAt j) (LastError j) (IdempotencyKey j).
Definition with_priority (j : Job) (x : Z) : Job :=
  mkJob (ID j) (JType j) x (JStatus j) (RetryCount j) (MaxRetries j)
    (NextRunAt j) (LastError j) (IdempotencyKey j).
Definition with_maxRetries (j : Job) (x : Z) : Job :=
  mkJob (ID j) (JType j) (Priority j) (JStatus j) (RetryCount j) x
    (NextRunAt j) (LastError j) (IdempotencyKey j).

Definition job_fields : fields Job :=
  [(str "id", set_int with_id); (str "type", set_string with_type);
   (str "priority", set_int with_priority); (str "status", set_string with_status);
   (str "retry_count", set_int with_retry); (str "max_retries", set_int with_maxRetries);
   (str "next_run_at", set_time with_nextRunAt); (str "last_error", set_string with_lastError);
   (str "idempotency_key", set_string with_key)].

Definition cron_fields : fields CronJob :=
  [(str "id", set_string (λ c x, mkCron x (Schedule c) (CronType c) (CronPriority c) (NextRun c)));
   (str "schedule", set_string (λ c x, mkCron (CronID c) x (CronType c) (CronPriority c) (NextRun c)));
   (str "type", set_string (λ c x, mkCron (CronID c) (Schedule c) x (CronPriority c) (NextRun c)));
   (str "priority", set_int (λ c x, mkCron (CronID c) (Schedule c) (CronType c) x (NextRun c)));
   (str "next_run", set_time (λ c x, mkCron (CronID c) (Schedule c) (CronType c) (CronPriority c) x))].

Definition zeroCron : CronJob := mkCron "" "" "" 0 time_zero.

#[global] Instance Job_struct : Struct Job :=
  {| zero := zeroJob; encode := job_json; struct_fields := job_fields |}.
#[global] Instance CronJob_struct : Struct CronJob :=
  {| zero := zeroCron; encode := cron_json; struct_fields := cron_fields |}.

Example job_roundtrip :
  (Marshal (λ _, 0) (with_key (NewJob 7 "a<b" 5) "k") ≫= Unmarshal) =
    Some (with_key (NewJob 7 "a<b" 5) "k").
Proof. vm_compute. reflexivity. Qed.

Example job_case_insensitive :
  set_struct job_fields zeroJob (JObj [(str "ID", jint 3); (str "Type", jstring "x"); (str "other", JNull)])
    = Some (mkJob 3 "x" 0 "" 0 0 time_zero "" "").
Proof. vm_compute. reflexivity. Qed.

(** ** Round trips *)

Definition ints_ok (j : Job) : Prop :=
  in_int64 (ID j) ∧ in_int64 (Priority j) ∧ in_int64 (RetryCount j) ∧ in_int64 (MaxRetries j).

Lemma of_bytes_str s : GoStrings.of_bytes (str s) = s.
Proof. apply String.string_of_list_ascii_of_string. Qed.

Lemma set_jint {A} (put : A → Z → A) a z : in_int64 z → set_int put a (jint z) = Some (put a z).
Proof. intros Hz. simpl. by rewrite of_bytes_str, GoStrings.Atoi_Itoa. Qed.

Lemma set_jstring {A} (put : A → string → A) a s :
  set_string put a (jstring s) = Some (put a (Sanitize s)).
Proof. simpl. by rewrite unquote_quote. Qed.

Lemma set_jtime {A} (put : A → Time → A) off a t v :
  zones_ok off → jtime off t = Some v → set_time put a v = Some (put a t).
Proof.
  intros Hz Hv. unfold jtime in Hv. apply fmap_Some in Hv as (l & Hl & ->). simpl.
  destruct (Hz t) as [Hm Ha]. by rewrite (GoTime.parse_marshal _ _ _ Hm Ha Hl).
Qed.

Lemma set_jnested {A B} (fs : fields B) get (put : A → B → A) a v b :
  set_struct fs (get a) v = Some b → set_nested fs get put a v = Some (put a b).
Proof. intros Hv. unfold set_nested. by rewrite Hv. Qed.

Lemma jtime_zero off : zones_ok off → is_Some (jtime off time_zero).
Proof.
  intros Hz. unfold jtime. apply fmap_is_Some, GoTime.marshal_zero, (Hz time_zero).
Qed.

Lemma wf_jint d z : wf d (jint z).
Proof. apply scan_Itoa. Qed.
Lemma wf_jstring d s : wf d (jstring s).
Proof. apply passes_quote. Qed.
Lemma wf_jtime off d t v : jtime off t = Some v → wf d v.
Proof. intros (l & Hl & ->)%fmap_Some. by eapply GoTime.marshal_passes. Qed.

(** A member whose key is a field's name. *)
Lemma set_members_cons {A} (fs : fields A) a k set v ms a' :
  unquote k = Some k → find_field fs k = Some set → set a v = Some a' →
  set_members fs a ((k, v) :: ms) = set_members fs a' ms.
Proof.
  intros Hk Hf Hs. cbn [set_members]. unfold set_member. cbn [fst snd]. rewrite Hk. simpl.
  rewrite Hf, Hs. done.
Qed.

Ltac member := erewrite set_members_cons;
  [|reflexivity|reflexivity|
   first [by apply set_jint|by apply set_jstring|by eapply set_jtime|by eapply set_jnested]].

(** An object of plain members. *)
Ltac wf_object :=
  cbn [wf foldr fst snd]; split_and!; try done;
  first [lia|apply wf_jint|apply wf_jstring|by eapply wf_jtime].

#[global] Instance Job_laws : StructLaws Job.
Proof.
  refine {| depth := 1; in_range := ints_ok; clean := Store.norm_job Sanitize |}.
  - lia.
  - intros off d j v Hd. cbn [encode Job_struct]. unfold job_json.
    destruct (jtime off (NextRunAt j)) as [t|] eqn:Ht; [|done]. intros [= <-]. wf_object.
  - intros off j v Hz (H1 & H2 & H3 & H4). cbn [encode Job_struct]. unfold job_json.
    destruct (jtime off (NextRunAt j)) as [t|] eqn:Ht; [|done]. intros [= <-].
    cbn [set_struct struct_fields Job_struct]. do 9 member. done.
Defined.

#[global] Instance CronJob_laws : StructLaws CronJob.
Proof.
  refine {| depth := 1; in_range c := in_int64 (CronPriority c); clean := Store.norm_cron Sanitize |}.
  - lia.
  - intros off d c v Hd. cbn [encode CronJob_struct]. unfold cron_json.
    destruct (jtime off (NextRun c)) as [t|] eqn:Ht; [|done]. intros [= <-]. wf_object.
  - intros off c v Hz Hp. cbn [encode CronJob_struct]. unfold cron_json.
    destruct (jtime off (NextRun c)) as [t|] eqn:Ht; [|done]. intros [= <-].
    cbn [set_struct struct_fields CronJob_struct]. do 5 member. done.
Defined.

Section Laws.
Context {A : Type} `{StructLaws A}.

Lemma encode_printable off (a : A) v : encode off a = Some v → wf maxNestingDepth v.
Proof.
  intros Hv. eapply encode_wf; [|done]. pose proof depth_bound. unfold maxNestingDepth. lia.
Qed.

(** Reading back what was written. *)
Lemma Unmarshal_Marshal off (a : A) data :
  zones_ok off → in_range a → Marshal off a = Some data → Unmarshal data = Some (clean a).
Proof.
  intros Hz Hi (v & Hv & ->)%fmap_Some. unfold Unmarshal.
  rewrite parse_print_id by (by eapply encode_printable). by eapply decode_encode.
Qed.

(** The same from a stream. *)
Lemma Decode_Marshal off (a : A) data rest :
  zones_ok off → in_range a → Marshal off a = Some data → delim rest →
  Decode (data ++ rest) = Some (clean a).
Proof.
  intros Hz Hi (v & Hv & ->)%fmap_Some Hd. unfold Decode.
  rewrite first_value_print by (done || by eapply encode_printable). by eapply decode_encode.
Qed.

Lemma list_json_wf off isnil (l : list A) v : list_json off isnil l = Some v → wf maxNestingDepth v.
Proof.
  unfold list_json. destruct (isnil && _); [by intros [= <-]|]. intros (js & Hjs & ->)%fmap_Some.
  apply mapM_Some in Hjs. split; [done|]. induction Hjs as [|a j l js Ha _ IH]; [done|].
  split; [|done]. eapply encode_wf; [|done]. pose proof depth_bound. unfold maxNestingDepth. lia.
Qed.

Lemma set_list_json off isnil (l : list A) v :
  zones_ok off → Forall in_range l → list_json off isnil l = Some v → set_list v = Some (clean <$> l).
Proof.
  intros Hz Hl. unfold list_json. destruct (isnil && _) eqn:E.
  { intros [= <-]. apply andb_true_iff in E as [_ E%bool_decide_eq_true]. by destruct l. }
  intros (js & Hjs & ->)%fmap_Some. apply mapM_Some in Hjs. simpl. apply mapM_Some. clear E.
  induction Hjs as [|a j l js Ha _ IH]; [constructor|]. apply Forall_cons in Hl as [Hi Hl].
  rewrite fmap_cons. constructor; [by eapply decode_encode|by apply IH].
Qed.

Lemma UnmarshalList_Marshal off isnil (l : list A) data :
  zones_ok off → Forall in_range l → MarshalList off isnil l = Some data →
  UnmarshalList data = Some (clean <$> l).
Proof.
  intros Hz Hi (v & Hv & ->)%fmap_Some. unfold UnmarshalList.
  rewrite parse_print_id by (by eapply list_json_wf). by eapply set_list_json.
Qed.

Lemma DecodeList_Marshal off isnil (l : list A) data rest :
  zones_ok off → Forall in_range l → MarshalList off isnil l = Some data → delim rest →
  DecodeList (data ++ rest) = Some (clean <$> l).
Proof.
  intros Hz Hi (v & Hv & ->)%fmap_Some Hd. unfold DecodeList.
  rewrite first_value_print by (done || by eapply list_json_wf). by eapply set_list_json.
Qed.
End Laws.

End Codec.
