(* ===== verification/Storage.v ===== *)
(** * The write-ahead log and the snapshot file: [internal/storage]

    The log is a file of JSON lines, one per event; [Replay] reads it into the
    jobs that are still pending.  The snapshot is one indented JSON array.
    Files are their bytes; a write may stop short or fail, as the operating
    system decides.  A crash in the middle of an append loses that record and
    nothing else. *)

From S2P Require Import Prelude Job Store GoStrings Utf8 Json JsonText GoTime Codec.
From Stdlib Require Import Ascii.
Local Open Scope Z_scope.

Module Storage.

Abbreviation bytes := (list ascii).
Abbreviation str := GoStrings.to_bytes.

(** ** Records *)

Definition EventSubmit := "submit".
Definition EventRetry := "retry".
Definition EventFailure := "failed".
Definition EventComplete := "complete".
Definition EventCancel := "cancel".

Record record := mkRecord {
  Kind : string;
  RecJob : option Job;   (** [*job.Job] *)
  JobID : Z
}.

Definition record_json (off : Time → Z) (r : record) : option Json.json :=
  job ← match RecJob r with
        | None => Some []
        | Some j => v ← Codec.encode off j; Some [(str "job", v)]
        end;
  Some (Json.JObj ((str "kind", Codec.jstring (Kind r)) :: job ++
    (if decide (JobID r = 0) then [] else [(str "job_id", Codec.jint (JobID r))]))).

(** A pointer to a struct: [null] makes it nil, an object goes to the struct it
    points to, or to a new one. *)
Definition set_pointer {A B} (fs : Codec.fields B) (zero : B) (get : A → option B)
    (put : A → option B → A) (a : A) (v : Json.json) : option A :=
  match v with
  | Json.JNull => Some (put a None)
  | _ => b ← Codec.set_struct fs (default zero (get a)) v; Some (put a (Some b))
  end.

Definition record_fields : Codec.fields record :=
  [(str "kind", Codec.set_string (λ r x, mkRecord x (RecJob r) (JobID r)));
   (str "job", set_pointer Codec.struct_fields zeroJob RecJob (λ r x, mkRecord (Kind r) x (JobID r)));
   (str "job_id", Codec.set_int (λ r x, mkRecord (Kind r) (RecJob r) x))].

#[global] Instance record_struct : Codec.Struct record :=
  {| Codec.zero := mkRecord "" None 0; Codec.encode := record_json; Codec.struct_fields := record_fields |}.

(** ** The log *)

(** The file behind a [WAL] and its descriptor. *)
Record WAL := mkWAL {
  content : bytes;
  offset : nat;
  appendOnly : bool;   (** opened with [O_APPEND] *)
  isOpen : bool
}.

(** What the operating system makes of a write: all of it, or some bytes and an
    error. *)
Inductive written := Complete | Short (n : nat) (msg : string).

Definition newline : ascii := GoStrings.byte 10.
Definition errClosed := "file already closed".
Definition errTooLong := "bufio.Scanner: token too long".
Definition errMarshal := "json: error calling MarshalJSON".

(** [NewWal] on the file that is there, empty if it was created. *)
Definition NewWal (file : bytes) : WAL := mkWAL file 0 true true.

(** [File.Write]: at the end with [O_APPEND], else at the offset. *)
Definition write (w : WAL) (data : bytes) (o : written) : WAL * option string :=
  if negb (isOpen w) then (w, Some errClosed)
  else
    let '(data, e) := match o with Complete => (data, None) | Short n msg => (take n data, Some msg) end in
    let at_ := if appendOnly w then length (content w) else offset w in
    let before := take at_ (content w) ++ replicate (at_ - length (content w)) Ascii.zero in
    (mkWAL (before ++ data ++ drop (at_ + length data) (content w)) (at_ + length data)
       (appendOnly w) (isOpen w), e).

(** [appendRecord]: [sync] is the answer of [File.Sync]. *)
Definition appendRecord (off : Time → Z) (w : WAL) (r : record) (o : written) (sync : option string)
  : WAL * option string :=
  match Codec.Marshal off r with
  | None => (w, Some errMarshal)
  | Some data =>
      let '(w, e) := write w (data ++ [newline]) o in
      match e with
      | Some _ => (w, e)
      | None => (w, sync)
      end
  end.

Definition Append off w (j : Job) := appendRecord off w (mkRecord EventSubmit (Some j) 0).
Definition AppendRetry off w (j : Job) := appendRecord off w (mkRecord EventRetry (Some j) 0).
Definition AppendFailure off w (j : Job) := appendRecord off w (mkRecord EventFailure (Some j) 0).
Definition AppendCompletion off w (jobID : Z) := appendRecord off w (mkRecord EventComplete None jobID).
Definition AppendCancel off w (jobID : Z) := appendRecord off w (mkRecord EventCancel None jobID).

(** ** Replay *)

(** The [switch] on the kind of a record. *)
Definition applyRecord (pending : gmap Z Job) (r : record) : gmap Z Job :=
  if decide (Kind r = EventSubmit ∨ Kind r = EventRetry) then
    match RecJob r with Some j => <[ID j := j]> pending | None => pending end
  else if decide (Kind r = EventFailure) then
    match RecJob r with Some j => delete (ID j) pending | None => pending end
  else if decide (Kind r = EventCancel ∨ Kind r = EventComplete) then delete (JobID r) pending
  else pending.

(** One line: a record, else a job of the old format, else the loop stops. *)
Definition replayLine (pending : gmap Z Job) (line : bytes) : option (gmap Z Job) :=
  let legacy := legacyJob ← Codec.Unmarshal line; Some (<[ID legacyJob := legacyJob]> pending) in
  match Codec.Unmarshal line with
  | Some r => if decide (Kind r = "") then legacy else Some (applyRecord pending r)
  | None => legacy
  end.

(** [bufio.Scanner] with [ScanLines]: the lines of the file, the last of them
    not ended by a newline; a carriage return at the end of a line is dropped. *)
Definition MaxScanTokenSize : Z := 65536.

Fixpoint drop_tail (ls : list bytes) : list bytes :=
  match ls with
  | [] | [[]] => []
  | l :: ls => l :: drop_tail ls
  end.

Definition lines (file : bytes) : list bytes := drop_tail (GoStrings.split_on newline file).

Definition dropCR (line : bytes) : bytes :=
  match reverse line with
  | c :: l => if decide (c = GoStrings.byte 13) then reverse l else line
  | [] => line
  end.

Fixpoint replayLines (pending : gmap Z Job) (ls : list bytes) : gmap Z Job + string :=
  match ls with
  | [] => inl pending
  | line :: ls =>
      if MaxScanTokenSize <=? Z.of_nat (length line) then inr errTooLong
      else match replayLine pending (dropCR line) with
      | None => inl pending
      | Some pending => replayLines pending ls
      end
  end.

Section Replay.
Context `{GoRange}.

(** [Replay]; [seek] is the answer of [File.Seek], [ahead] where the scanner
    stopped reading the file. *)
Definition Replay (w : WAL) (seek : option string) (ahead : nat) : WAL * (list Job * option string) :=
  if negb (isOpen w) then (w, ([], Some errClosed))
  else match seek with
  | Some _ => (w, ([], seek))
  | None =>
      let w := mkWAL (content w) ahead (appendOnly w) (isOpen w) in
      match replayLines ∅ (lines (content w)) with
      | inl pending => (w, ((go_range pending).*2, None))
      | inr e => (w, ([], Some e))
      end
  end.
End Replay.

(** [Reset] opens the file again, now without [O_APPEND]. *)
Definition Reset (w : WAL) (close reopen : option string) : WAL * option string :=
  if negb (isOpen w) then (w, Some errClosed)
  else match close, reopen with
  | Some _, _ => (mkWAL (content w) (offset w) (appendOnly w) false, close)
  | None, Some _ => (mkWAL (content w) (offset w) (appendOnly w) false, reopen)
  | None, None => (mkWAL [] 0 false true, None)
  end.

Definition Close (w : WAL) (close : option string) : WAL * option string :=
  if negb (isOpen w) then (w, Some errClosed)
  else (mkWAL (content w) (offset w) (appendOnly w) false, close).

(** ** The snapshot file *)

(** [Save]: the file afterwards; [os.WriteFile] truncates it first. *)
Definition Save (off : Time → Z) (isnil : bool) (jobs : list Job) (file : option bytes) (o : written)
  : option bytes * option string :=
  match Codec.list_json off isnil jobs with
  | None => (file, Some errMarshal)
  | Some v =>
      let data := JsonText.MarshalIndent v in
      match o with
      | Complete => (Some data, None)
      | Short n msg => (Some (take n data), Some msg)
      end
  end.

(** [Load]; [None] for a file that does not exist. *)
Definition Load (file : option bytes) (readErr : option string) : list Job * option string :=
  match file with
  | None => ([], None)
  | Some data =>
      match readErr with
      | Some _ => ([], readErr)
      | None =>
          match Codec.UnmarshalList data with
          | Some jobs => (jobs, None)
          | None => ([], Some "json: cannot unmarshal")
          end
      end
  end.

(** ** The codec of records *)

Definition record_ok (r : record) : Prop :=
  in_int64 (JobID r) ∧ match RecJob r with Some j => Codec.ints_ok j | None => True end.

Definition clean_record (r : record) : record :=
  mkRecord (Utf8.Sanitize (Kind r)) (Codec.clean <$> RecJob r) (JobID r).

Lemma set_jpointer {A B} (fs : Codec.fields B) zero get (put : A → option B → A) a ms b :
  get a = None → Codec.set_struct fs zero (Json.JObj ms) = Some b →
  set_pointer fs zero get put a (Json.JObj ms) = Some (put a (Some b)).
Proof. intros Hg Hb. unfold set_pointer. rewrite Hg. simpl in *. by rewrite Hb. Qed.

Lemma job_object off (j : Job) v : Codec.encode off j = Some v → ∃ ms, v = Json.JObj ms.
Proof.
  cbn [Codec.encode Codec.Job_struct]. unfold Codec.job_json.
  destruct (Codec.jtime off (NextRunAt j)); [|done]. intros [= <-]. eauto.
Qed.

#[global] Instance record_laws : Codec.StructLaws record.
Proof.
  refine {| Codec.depth := 2; Codec.in_range := record_ok; Codec.clean := clean_record |}.
  - lia.
  - intros off d [k jo id] v Hd. cbn [Codec.encode record_struct]. unfold record_json.
    cbn [RecJob Kind JobID]. assert (Hd1 : 1 ≤ d - 1) by lia.
    destruct jo as [j|]; [destruct (Codec.encode off j) as [jv|] eqn:Hj; [|done];
      pose proof (Codec.encode_wf (A := Job) off _ _ _ Hd1 Hj)|];
      cbn [mbind option_bind]; intros [= <-]; case_decide; cbn [app]; Codec.wf_object.
  - intros off [k jo id] v Hz [Hid Hj]. cbn [Codec.encode record_struct]. unfold record_json.
    cbn [RecJob Kind JobID] in *. unfold clean_record. cbn [RecJob Kind JobID].
    destruct jo as [j|]; [destruct (Codec.encode off j) as [jv|] eqn:Ej; [|done];
      pose proof (Codec.decode_encode (A := Job) off _ _ Hz Hj Ej) as Dj;
      destruct (job_object _ _ _ Ej) as [ms ->]|];
      cbn [mbind option_bind]; intros [= <-]; cbn [Codec.set_struct Codec.struct_fields record_struct];
      case_decide; subst; cbn [app];
      repeat first [ Codec.member
                   | erewrite Codec.set_members_cons;
                       [|reflexivity|reflexivity|by apply set_jpointer] ]; done.
Defined.

(** ** Replaying a log *)

(** The bytes of a log. *)
Definition log (ds : list bytes) : bytes := concat ((λ d, d ++ [newline]) <$> ds).

Lemma newline_off l : JsonText.on_line l → newline ∉ l.
Proof. intros Hl Hin. pose proof (JsonText.on_line_in _ _ Hl Hin) as Hc. by vm_compute in Hc. Qed.

Lemma dropCR_line l : JsonText.on_line l → dropCR l = l.
Proof.
  intros Hl. unfold dropCR. destruct (reverse l) as [|c t] eqn:E; [done|]. case_decide as Hc; [|done].
  assert (Hin : c ∈ l) by (rewrite <-elem_of_reverse, E; by left).
  pose proof (JsonText.on_line_in _ _ Hl Hin) as H32. subst c. by vm_compute in H32.
Qed.

Lemma split_log ds p :
  Forall (λ d, newline ∉ d) ds → newline ∉ p → GoStrings.split_on newline (log ds ++ p) = ds ++ [p].
Proof.
  intros Hds Hp. induction Hds as [|d ds Hd _ IH]; [by apply GoStrings.split_plain|].
  unfold log in *. rewrite fmap_cons. cbn [concat]. rewrite <-!app_assoc. cbn [app].
  rewrite GoStrings.split_app by done. by rewrite IH.
Qed.

Lemma drop_tail_snoc ds p :
  drop_tail (ds ++ [p]) = ds ++ (if decide (p = []) then [] else [p]).
Proof.
  induction ds as [|d ds IH]; cbn [app drop_tail].
  - destruct p; [done|]. by rewrite decide_False.
  - destruct d; [|by rewrite IH]. destruct (ds ++ [p]) eqn:E; [by destruct ds|]. by rewrite IH.
Qed.

(** A line that was written from [r]. *)
Definition line_of (off : Time → Z) (r : record) (d : bytes) : Prop :=
  Codec.Marshal off r = Some d ∧ record_ok r ∧ Kind r ∈ [EventSubmit; EventRetry; EventFailure; EventComplete; EventCancel] ∧
  Z.of_nat (length d) < MaxScanTokenSize.

(** *** What a log is for *)

(** The calls of the log's five operations. *)
Inductive entry :=
  | Submitted (j : Job)
  | Retried (j : Job)
  | HasFailed (j : Job)
  | HasCompleted (id : Z)
  | WasCancelled (id : Z).

Definition append (off : Time → Z) (w : WAL) (e : entry) : written → option string → WAL * option string :=
  match e with
  | Submitted j => Append off w j
  | Retried j => AppendRetry off w j
  | HasFailed j => AppendFailure off w j
  | HasCompleted id => AppendCompletion off w id
  | WasCancelled id => AppendCancel off w id
  end.

(** A history of calls that all succeed. *)
Definition appendAll (off : Time → Z) (w : WAL) (es : list entry) : WAL :=
  foldl (λ w e, (append off w e Complete None).1) w es.

(** The job a call is about. *)
Definition about (e : entry) : Z :=
  match e with
  | Submitted j | Retried j | HasFailed j => ID j
  | HasCompleted id | WasCancelled id => id
  end.

(** A job is left over when the last call about it submitted or retried it, in
    the state given there. *)
Definition left_over (es : list entry) (j : Job) : Prop :=
  ∃ pre e post, es = pre ++ e :: post ∧ (e = Submitted j ∨ e = Retried j) ∧
    Forall (λ e', about e' ≠ ID j) post.

(** The answer of a replay: each such job once, with invalid bytes of its
    strings replaced. *)
Definition recovers (jobs : list Job) (es : list entry) : Prop :=
  NoDup (ID <$> jobs) ∧ ∀ j, j ∈ jobs ↔ ∃ j0, left_over es j0 ∧ j = Codec.clean j0.

Definition record_of (e : entry) : record :=
  match e with
  | Submitted j => mkRecord EventSubmit (Some j) 0
  | Retried j => mkRecord EventRetry (Some j) 0
  | HasFailed j => mkRecord EventFailure (Some j) 0
  | HasCompleted id => mkRecord EventComplete None id
  | WasCancelled id => mkRecord EventCancel None id
  end.

(** The line of a call: its integers are machine integers, its times can be
    written and it is shorter than the scanner's 64 KiB. *)
Definition fits (off : Time → Z) (e : entry) (d : bytes) : Prop :=
  Codec.Marshal off (record_of e) = Some d ∧ record_ok (record_of e) ∧ Z.of_nat (length d) < MaxScanTokenSize.

Lemma fits_line off e d : fits off e d → line_of off (record_of e) d.
Proof. intros (Hm & Hok & Hl). split_and!; try done. destruct e; cbn; set_solver. Qed.

Lemma left_over_snoc es e j :
  left_over (es ++ [e]) j ↔ (e = Submitted j ∨ e = Retried j) ∨ about e ≠ ID j ∧ left_over es j.
Proof.
  split.
  - intros (pre & x & post & E & Hx & Hp). destruct post as [|y post _] using rev_ind.
    + apply app_inj_tail in E as [_ ->]. by left.
    + rewrite app_comm_cons, app_assoc in E. apply app_inj_tail in E as [-> ->].
      apply Forall_app in Hp as [Hp Hy]. apply Forall_inv in Hy. right. split; [done|]. by exists pre, x, post.
  - intros [He|(Hne & pre & x & post & -> & Hx & Hp)].
    + by exists es, e, [].
    + exists pre, x, (post ++ [e]). rewrite <-app_assoc. split; [done|]. split; [done|].
      apply Forall_app. split; [done|]. by apply Forall_singleton.
Qed.

(** Replaying a call. *)
Lemma apply_entry pending e :
  applyRecord pending (clean_record (record_of e)) =
    match e with
    | Submitted j | Retried j => <[ID j := Codec.clean j]> pending
    | _ => delete (about e) pending
    end.
Proof.
  assert (Hs : ∀ k, k ∈ [EventSubmit; EventRetry; EventFailure; EventComplete; EventCancel] → Utf8.Sanitize k = k).
  { intros k Hk. repeat (apply elem_of_cons in Hk as [->|Hk]; [by vm_compute|]). by apply elem_of_nil in Hk. }
  unfold clean_record, applyRecord. destruct e; cbn [record_of Kind RecJob JobID fmap option_fmap option_map about];
    rewrite Hs by set_solver; reflexivity.
Qed.

Definition pending_after (es : list entry) : gmap Z Job :=
  foldl applyRecord ∅ (clean_record ∘ record_of <$> es).

Lemma pending_left_over es id j :
  pending_after es !! id = Some j ↔ ∃ j0, left_over es j0 ∧ ID j0 = id ∧ j = Codec.clean j0.
Proof.
  revert j. induction es as [|e es IH] using rev_ind; intros j.
  { split; [done|]. intros (j0 & (pre & x & post & E & _) & _). by destruct pre. }
  unfold pending_after in *. rewrite fmap_app, foldl_app. cbn [fmap list_fmap foldl compose]. rewrite apply_entry.
  setoid_rewrite left_over_snoc.
  assert (Hput : ∀ k, e = Submitted k ∨ e = Retried k →
    <[ID k := Codec.clean k]> (foldl applyRecord ∅ (clean_record ∘ record_of <$> es)) !! id = Some j ↔
    ∃ j0, ((e = Submitted j0 ∨ e = Retried j0) ∨ about e ≠ ID j0 ∧ left_over es j0) ∧ ID j0 = id ∧ j = Codec.clean j0).
  { intros k Hk. assert (Hab : about e = ID k) by (by destruct Hk as [->| ->]).
    rewrite lookup_insert_Some, IH, Hab. split.
    - intros [[<- <-]|(Hne & j0 & Hl & <- & ->)]; eauto 10.
    - intros (j0 & [He|[Hne Hl]] & <- & ->).
      + left. destruct Hk as [->| ->], He as [He|He]; simplify_eq; done.
      + right. eauto. }
  assert (Hdel : (∀ k, e ≠ Submitted k ∧ e ≠ Retried k) →
    delete (about e) (foldl applyRecord ∅ (clean_record ∘ record_of <$> es)) !! id = Some j ↔
    ∃ j0, ((e = Submitted j0 ∨ e = Retried j0) ∨ about e ≠ ID j0 ∧ left_over es j0) ∧ ID j0 = id ∧ j = Codec.clean j0).
  { intros Hk. rewrite lookup_delete_Some, IH. split.
    - intros (Hne & j0 & Hl & <- & ->). exists j0. by split; [right|].
    - intros (j0 & [[He|He]|[Hne Hl]] & <- & ->); [by destruct (Hk j0)..|]. eauto. }
  destruct e; (apply Hput; by auto) || (apply Hdel; by intros k; split).
Qed.

Lemma pending_recovers jobs es : jobs ≡ₚ (map_to_list (pending_after es)).*2 → recovers jobs es.
Proof.
  intros Hj. assert (Hid : ∀ id j, pending_after es !! id = Some j → ID j = id).
  { intros id j (j0 & _ & <- & ->)%pending_left_over. done. }
  split.
  - rewrite Hj, <-list_fmap_compose. erewrite (list_fmap_ext _ fst); [apply NoDup_fst_map_to_list|].
    intros i [id j] Hi%list_elem_of_lookup_2%elem_of_map_to_list. by apply Hid.
  - intros j. rewrite Hj, list_elem_of_fmap. split.
    + intros ([id x] & -> & Hx%elem_of_map_to_list). apply pending_left_over in Hx as (j0 & Hl & _ & ->). eauto.
    + intros (j0 & Hl & ->). exists (ID j0, Codec.clean j0). split; [done|]. apply elem_of_map_to_list.
      apply pending_left_over. eauto.
Qed.

Section Logged.
Context (off : Time → Z).
Hypothesis zones : Codec.zones_ok off.

Lemma line_of_on_line r d : line_of off r d → JsonText.on_line d.
Proof.
  intros [(v & Hv & ->)%fmap_Some _]. eapply JsonText.print_line. by eapply Codec.encode_printable.
Qed.

Lemma replay_record pending r d :
  line_of off r d → replayLine pending d = Some (applyRecord pending (clean_record r)).
Proof.
  intros (Hm & Hok & Hk & _). unfold replayLine.
  rewrite (Codec.Unmarshal_Marshal (A := record) (H0 := record_laws) off r d zones Hok Hm). change (Codec.clean r) with (clean_record r).
  rewrite decide_False; [done|]. cbn [Kind clean_record].
  repeat (apply elem_of_cons in Hk as [->|Hk]; [by vm_compute|]). by apply elem_of_nil in Hk.
Qed.

Lemma replay_log pending rs ds tail :
  Forall2 (line_of off) rs ds →
  replayLines pending (ds ++ tail) =
  replayLines (foldl applyRecord pending (clean_record <$> rs)) tail.
Proof.
  intros Hl. revert pending. induction Hl as [|r d rs ds Hd _ IH]; intros pending; [done|].
  cbn [app replayLines]. pose proof Hd as (_ & _ & _ & Hlen).
  destruct (Z.leb_spec MaxScanTokenSize (Z.of_nat (length d))); [lia|].
  rewrite (dropCR_line d) by (by eapply line_of_on_line). rewrite (replay_record pending r d Hd).
  apply IH.
Qed.

(** Appending to an open log. *)
Lemma append_content w r d o :
  isOpen w = true → appendOnly w = true → Codec.Marshal off r = Some d →
  let data := match o with Complete => d ++ [newline] | Short n _ => take n (d ++ [newline]) end in
  let w' := (appendRecord off w r o None).1 in
  content w' = content w ++ data ∧ isOpen w' = true ∧ appendOnly w' = true ∧
  (appendRecord off w r o None).2 = match o with Complete => None | Short _ msg => Some msg end.
Proof.
  intros Ho Ha Hd. cbn zeta. unfold appendRecord, write. rewrite Hd, Ho, Ha. cbn [negb].
  rewrite Nat.sub_diag, firstn_all. destruct o as [|n msg]; cbn [fst snd replicate content isOpen appendOnly];
    rewrite app_nil_r, drop_ge, app_nil_r by lia; done.
Qed.

Lemma appended_log w rs ds :
  isOpen w = true → appendOnly w = true → Forall2 (line_of off) rs ds →
  let w' := foldl (λ w r, (appendRecord off w r Complete None).1) w rs in
  content w' = content w ++ log ds ∧ isOpen w' = true ∧ appendOnly w' = true.
Proof.
  intros Ho Ha Hl. revert w Ho Ha. induction Hl as [|r d rs ds [Hd _] _ IH]; intros w Ho Ha.
  { unfold log. cbn. by rewrite app_nil_r. }
  destruct (append_content w r d Complete Ho Ha Hd) as (Hc & Ho' & Ha' & _).
  cbn [foldl]. destruct (IH _ Ho' Ha') as (-> & ? & ?). split; [|done].
  rewrite Hc. unfold log. rewrite fmap_cons. cbn [concat]. by rewrite <-app_assoc.
Qed.

Lemma lines_log rs ds p :
  Forall2 (line_of off) rs ds → JsonText.on_line p →
  lines (log ds ++ p) = ds ++ (if decide (p = []) then [] else [p]).
Proof.
  intros Hl Hp. unfold lines. rewrite split_log; [apply drop_tail_snoc| |by apply newline_off].
  induction Hl as [|r d rs ds Hd _ IH]; constructor; [|done]. eapply newline_off, line_of_on_line, Hd.
Qed.

Lemma record_object (r : record) v : Codec.encode off r = Some v → ∃ ms, v = Json.JObj ms.
Proof.
  cbn [Codec.encode record_struct]. unfold record_json. intros (job & _ & [= <-])%bind_Some. eauto.
Qed.

(** A torn record is neither a record nor a job of the old format. *)
Lemma torn_line pending r d p s : line_of off r d → d = p ++ s → s ≠ [] → replayLine pending p = None.
Proof.
  intros [(v & Hv & ->)%fmap_Some _] Hp Hs. assert (Hn : Json.parse p = None).
  { destruct (record_object r v Hv) as [ms ->].
    eapply JsonText.parse_torn; [by eapply Codec.encode_printable|exact Hp|done]. }
  unfold replayLine, Codec.Unmarshal. by rewrite Hn.
Qed.

Context `{GoRange}.

Lemma Replay_lines w ahead pending :
  isOpen w = true → replayLines ∅ (lines (content w)) = inl pending →
  ∃ w' jobs, Replay w None ahead = (w', (jobs, None)) ∧ jobs ≡ₚ (map_to_list pending).*2.
Proof.
  intros Ho Hr. unfold Replay. rewrite Ho. cbn [negb content]. rewrite Hr. eexists _, _.
  split; [done|]. by rewrite go_range_perm.
Qed.

Lemma fits_lines es ds : Forall2 (fits off) es ds → Forall2 (line_of off) (record_of <$> es) ds.
Proof. induction 1; constructor; [by apply fits_line|done]. Qed.

(** A history of calls on a fresh log. *)
Lemma appendAll_content es ds :
  Forall2 (fits off) es ds →
  let w := appendAll off (NewWal []) es in
  content w = log ds ∧ isOpen w = true ∧ appendOnly w = true.
Proof.
  intros Hl. pose proof (appended_log (NewWal []) _ ds eq_refl eq_refl (fits_lines es ds Hl)) as Happ.
  enough (E : ∀ w, appendAll off w es =
    foldl (λ w r, (appendRecord off w r Complete None).1) w (record_of <$> es)) by (by rewrite E).
  clear. unfold appendAll. induction es as [|e es IH]; intros w; [done|]. cbn [foldl fmap list_fmap].
  rewrite IH. by destruct e.
Qed.

(** Reading whole lines, with a torn one or nothing behind them. *)
Lemma replay_calls es ds tail :
  Forall2 (fits off) es ds → replayLines ∅ (ds ++ tail) = replayLines (pending_after es) tail.
Proof.
  intros Hl. rewrite (replay_log ∅ (record_of <$> es)) by (by apply fits_lines).
  unfold pending_after. by rewrite <-list_fmap_compose.
Qed.

(** C32. The log replays: after any history of calls whose lines are shorter
    than 64 KiB, [Replay] succeeds and returns exactly the jobs whose last call
    submitted or retried them, each once and in the state given there; jobs
    that were completed, failed or cancelled since are not among them. *)
Theorem wal_replays es ds ahead :
  Forall2 (fits off) es ds →
  ∃ w' jobs, Replay (appendAll off (NewWal []) es) None ahead = (w', (jobs, None)) ∧ recovers jobs es.
Proof.
  intros Hl. destruct (appendAll_content es ds Hl) as (Hc & Ho & _).
  destruct (Replay_lines (appendAll off (NewWal []) es) ahead (pending_after es) Ho) as (w' & jobs & Hr & Hj).
  - rewrite Hc, <-(app_nil_r (log ds)). rewrite (lines_log (record_of <$> es)) by (by apply fits_lines || constructor).
    by rewrite (replay_calls es).
  - exists w', jobs. split; [done|]. by apply pending_recovers.
Qed.

(** C31. A crash in the middle of an append is atomic: whatever part of a line
    of less than 64 KiB reached the file, opening it again and replaying it
    recovers the jobs of the calls before, and of this one only if its line was
    written to its end. *)
Theorem wal_crash_atomic es ds e d n msg ahead :
  Forall2 (fits off) es ds → fits off e d → (n ≤ length d + 1)%nat →
  let crashed := (append off (appendAll off (NewWal []) es) e (Short n msg) None).1 in
  ∃ w' jobs, Replay (NewWal (content crashed)) None ahead = (w', (jobs, None)) ∧
    recovers jobs (if decide (n < length d)%nat then es else es ++ [e]).
Proof.
  intros Hl Hd Hn crashed. pose proof (fits_line off e d Hd) as Hd'. pose proof (fits_lines es ds Hl) as Hls.
  destruct (appendAll_content es ds Hl) as (Hc & Ho & Ha).
  destruct (append_content _ (record_of e) d (Short n msg) Ho Ha (proj1 Hd)) as (Hc' & _).
  assert (Hcr : content crashed = log ds ++ take n (d ++ [newline])) by (rewrite <-Hc, <-Hc'; by destruct e).
  enough (Hr : replayLines ∅ (lines (content crashed)) =
    inl (pending_after (if decide (n < length d)%nat then es else es ++ [e]))).
  { destruct (Replay_lines (NewWal (content crashed)) ahead _ eq_refl Hr) as (w' & jobs & Hrep & Hj).
    exists w', jobs. split; [done|]. by apply pending_recovers. }
  rewrite Hcr. pose proof (line_of_on_line _ d Hd') as Hline. case_decide as Hlt.
  - rewrite take_app_le by lia. set (p := take n d).
    assert (Hp : JsonText.on_line p) by (by apply Forall_take).
    rewrite (lines_log (record_of <$> es)), (replay_calls es) by done. case_decide as He; [done|].
    cbn [replayLines]. pose proof Hd as (_ & _ & Hlen).
    assert (Hlp : (length p ≤ length d)%nat) by (unfold p; rewrite length_take; lia).
    destruct (Z.leb_spec MaxScanTokenSize (Z.of_nat (length p))); [lia|].
    rewrite dropCR_line by done. rewrite (torn_line _ (record_of e) d p (drop n d)); [done|done| |].
    + unfold p. by rewrite take_drop.
    + intros E%(f_equal length). rewrite length_drop in E. simpl in E. lia.
  - assert (Hl' : Forall2 (fits off) (es ++ [e]) (ds ++ [d]))
      by (apply Forall2_app; [done|constructor; [done|constructor]]).
    destruct (decide (n = length d)) as [->|].
    + rewrite take_app_length. rewrite (lines_log (record_of <$> es)) by done. rewrite decide_False.
      * rewrite <-(app_nil_r (ds ++ [d])). by rewrite (replay_calls (es ++ [e])).
      * intros ->. destruct Hd as [(v & Hv & E)%fmap_Some _]. by destruct (record_object _ v Hv) as [ms ->].
    + rewrite take_ge by (rewrite length_app; simpl; lia).
      assert (E : log ds ++ d ++ [newline] = log (ds ++ [d]) ++ []).
      { unfold log. rewrite fmap_app, concat_app, app_nil_r. cbn. by rewrite app_nil_r. }
      rewrite E, (lines_log (record_of <$> (es ++ [e]))) by (by apply fits_lines || constructor).
      by rewrite (replay_calls (es ++ [e])).
Qed.

(** The snapshot file reads back: [Load] returns the jobs [Save] wrote, in
    order (with invalid bytes of their strings replaced), whatever the file
    held before. *)
Theorem snapshot_file_roundtrip isnil (jobs : list Job) file :
  Forall (λ j, is_Some (Codec.encode off j) ∧ Codec.ints_ok j) jobs →
  ∃ f, Save off isnil jobs file Complete = (f, None) ∧ Load f None = (Codec.clean <$> jobs, None).
Proof.
  intros Hj. apply Forall_and in Hj as [He Hi].
  assert (is_Some (Codec.list_json off isnil jobs)) as [v Hv].
  { unfold Codec.list_json. case_match; [eauto|]. apply fmap_is_Some, mapM_is_Some, He. }
  exists (Some (JsonText.MarshalIndent v)). unfold Save, Load. rewrite Hv. split; [done|].
  unfold Codec.UnmarshalList. rewrite JsonText.parse_lines by (exact (Codec.list_json_wf off isnil jobs v Hv)).
  cbn [mbind option_bind]. by rewrite (Codec.set_list_json (A := Job) (H0 := Codec.Job_laws) off isnil jobs v zones Hi Hv).
Qed.
End Logged.

(** ** Concrete logs *)
Section Examples.
#[local] Existing Instance canonical_range.

Definition utc : Time → Z := λ _, 0.
Definition submit (id : Z) : record := mkRecord EventSubmit (Some (NewJob id "email" 5)) 0.
Definition text (r : record) : bytes := default [] (Codec.Marshal utc r).
Definition replayed (file : bytes) : list Z * option string :=
  let '(_, (jobs, e)) := Replay (NewWal file) None 0 in (ID <$> jobs, e).

Definition job5 (id : Z) : entry := Submitted (NewJob id "email" 5).

Lemma submit_fits id : in_int64 id → Codec.Marshal utc (submit id) = Some (text (submit id)) →
  Z.of_nat (length (text (submit id))) < MaxScanTokenSize → fits utc (job5 id) (text (submit id)).
Proof.
  intros Hid Hm Hlen. split_and!; [done| |done]. split; [by vm_compute|].
  cbn [RecJob record_of job5]. split_and!; [done|by vm_compute..].
Qed.

Lemma wal_replays_witness :
  ∃ w' jobs, Replay (appendAll utc (NewWal []) [job5 1; job5 2]) None 0 = (w', (jobs, None)) ∧
    recovers jobs [job5 1; job5 2].
Proof.
  apply (wal_replays utc (λ _, ltac:(done)) [job5 1; job5 2] [text (submit 1); text (submit 2)] 0).
  repeat constructor; apply submit_fits; first [by vm_compute | vm_compute; reflexivity].
Defined.

Lemma wal_crash_atomic_witness :
  ∃ w' jobs,
    Replay (NewWal (content
      (append utc (appendAll utc (NewWal []) [job5 1]) (job5 2) (Short 9 "power loss") None).1))
      None 0 = (w', (jobs, None)) ∧ recovers jobs [job5 1].
Proof.
  apply (wal_crash_atomic utc (λ _, ltac:(done)) [job5 1] [text (submit 1)] (job5 2) (text (submit 2)) 9).
  - constructor; [|constructor]. apply submit_fits; first [by vm_compute | vm_compute; reflexivity].
  - apply submit_fits; first [by vm_compute | vm_compute; reflexivity].
  - apply (bool_decide_unpack _). vm_compute. exact I.
Defined.

Lemma snapshot_file_roundtrip_witness :
  ∃ f, Save utc false [NewJob 1 "email" 5; NewJob 2 "sms" 1] None Complete = (f, None) ∧
    Load f None = (Codec.clean <$> [NewJob 1 "email" 5; NewJob 2 "sms" 1], None).
Proof.
  apply (snapshot_file_roundtrip utc (λ _, ltac:(done)) false).
  repeat constructor; first [by vm_compute | vm_compute; eauto].
Defined.

(** Events remove jobs, and lines of the old format still count. *)
Example mixed_log :
  replayed (log [text (submit 1); text (submit 2); text (mkRecord EventComplete None 1);
                 default [] (Codec.Marshal utc (NewJob 7 "old" 0))]) = ([7; 2], None).
Proof. vm_compute. reflexivity. Qed.

(** The record appended after a torn one shares its line, and every record from
    there on is lost: opening the log does not cut the torn bytes off. *)
Example torn_append_lost :
  let torn := NewWal (log [text (submit 1)] ++ take 9 (text (submit 2))) in
  let '(w, e1) := Append utc torn (NewJob 3 "email" 5) Complete None in
  let '(w, e2) := Append utc w (NewJob 4 "email" 5) Complete None in
  e1 = None ∧ e2 = None ∧ replayed (content w) = ([1], None).
Proof. vm_compute. done. Qed.

(** A line that does not fit the scanner's buffer makes the whole log unreadable. *)
Example long_line :
  replayed (log [text (submit 1); replicate (Z.to_nat 65536) "x"%char]) = ([], Some errTooLong).
Proof. vm_compute. reflexivity. Qed.
End Examples.

End Storage.
