(* ===== verification/Crypto.v ===== *)
(** * Base64 and HMAC-SHA-256, as Go's [encoding/base64] and [crypto/hmac] compute them

    [base64.RawURLEncoding] with its round trip, and the signature algorithm of
    the tokens of [internal/auth/jwt.go], executable so that tokens can be
    checked by evaluation. *)

From S2P Require Import Prelude GoStrings Utf8.
From Stdlib Require Import Ascii.
Import Utf8.
Local Open Scope Z_scope.

Module Crypto.

Abbreviation str := GoStrings.to_bytes.

(** ** Base64: the URL alphabet without padding *)

Definition encode_sextet (s : Z) : ascii :=
  if s <? 26 then char (65 + s)
  else if s <? 52 then char (71 + s)
  else if s <? 62 then char (s - 4)
  else if s =? 62 then "-"%char else "_"%char.

Definition decode_sextet (c : ascii) : option Z :=
  let n := code c in
  if (65 <=? n) && (n <=? 90) then Some (n - 65)
  else if (97 <=? n) && (n <=? 122) then Some (n - 71)
  else if (48 <=? n) && (n <=? 57) then Some (n + 4)
  else if n =? 45 then Some 62
  else if n =? 95 then Some 63
  else None.

(** [EncodeToString]. *)
Fixpoint EncodeToString (l : bytes) : bytes :=
  match l with
  | a :: b :: c :: l =>
      let '(a, b, c) := (code a, code b, code c) in
      encode_sextet (a / 4) :: encode_sextet (a mod 4 * 16 + b / 16) ::
      encode_sextet (b mod 16 * 4 + c / 64) :: encode_sextet (c mod 64) :: EncodeToString l
  | [a; b] =>
      let '(a, b) := (code a, code b) in
      [encode_sextet (a / 4); encode_sextet (a mod 4 * 16 + b / 16); encode_sextet (b mod 16 * 4)]
  | [a] => let a := code a in [encode_sextet (a / 4); encode_sextet (a mod 4 * 16)]
  | [] => []
  end.

(** Groups of four characters; a last group of one is an error.  The decoder is
    not strict: bits beyond the last byte are ignored. *)
Fixpoint decode_groups (l : bytes) : option bytes :=
  match l with
  | a :: b :: c :: d :: l =>
      a ← decode_sextet a; b ← decode_sextet b; c ← decode_sextet c; d ← decode_sextet d;
      out ← decode_groups l;
      Some (char (a * 4 + b / 16) :: char (b mod 16 * 16 + c / 4) :: char (c mod 4 * 64 + d) :: out)
  | [a; b; c] =>
      a ← decode_sextet a; b ← decode_sextet b; c ← decode_sextet c;
      Some [char (a * 4 + b / 16); char (b mod 16 * 16 + c / 4)]
  | [a; b] => a ← decode_sextet a; b ← decode_sextet b; Some [char (a * 4 + b / 16)]
  | [_] => None
  | [] => Some []
  end.

(** Line breaks are skipped. *)
Definition is_break (c : ascii) : bool := (code c =? 10) || (code c =? 13).

Definition DecodeString (l : bytes) : option bytes :=
  decode_groups (filter (λ c, is_break c = false) l).

Example encode_example : EncodeToString (str "light w") = str "bGlnaHQgdw".
Proof. vm_compute. reflexivity. Qed.

Example decode_example : DecodeString (str "bGlnaH" ++ char 10 :: str "Qgdw") = Some (str "light w").
Proof. vm_compute. reflexivity. Qed.

(** ** SHA-256 *)

Definition mask32 (x : Z) : Z := Z.land x 4294967295.
Definition rotr (x n : Z) : Z := mask32 (Z.lor (Z.shiftr x n) (Z.shiftl x (32 - n))).

(** The constants are, by their definition in the standard, the first 32 bits of
    the fractional parts of the cube roots and the square roots of the first
    primes. *)
Definition is_prime (n : nat) : bool :=
  forallb (λ d, negb (Nat.eqb (Nat.modulo n d) 0)) (seq 2 (n - 2)).

Definition primes_below (n : nat) : list Z := Z.of_nat <$> filter is_prime (seq 2 (n - 2)).

(** The integer cube root, one binary digit at a time. *)
Fixpoint cube_root (digits : nat) (root n : Z) : Z :=
  match digits with
  | 0%nat => root
  | S i =>
      let next := root + 2 ^ Z.of_nat i in
      cube_root i (if next ^ 3 <=? n then next else root) n
  end.

Definition round_constants : list Z :=
  Eval vm_compute in (λ p, mask32 (cube_root 36 0 (p * 2 ^ 96))) <$> primes_below 312.

Definition initial_hash : list Z :=
  Eval vm_compute in (λ p, mask32 (Z.sqrt (p * 2 ^ 64))) <$> primes_below 20.

Lemma cube_root_bounds digits root n :
  root ^ 3 ≤ n < (root + 2 ^ Z.of_nat digits) ^ 3 →
  cube_root digits root n ^ 3 ≤ n < (cube_root digits root n + 1) ^ 3.
Proof.
  revert root. induction digits as [|i IH]; intros root Hn; [exact Hn|]. cbn [cube_root].
  rewrite Nat2Z.inj_succ, Z.pow_succ_r in Hn by lia.
  destruct (Z.leb_spec ((root + 2 ^ Z.of_nat i) ^ 3) n); apply IH; [|lia].
  replace (root + 2 ^ Z.of_nat i + 2 ^ Z.of_nat i) with (root + 2 * 2 ^ Z.of_nat i) by lia. lia.
Qed.

Example constants_count : length round_constants = 64%nat ∧ length initial_hash = 8%nat.
Proof. done. Qed.

(** The message schedule, newest word first. *)
Fixpoint schedule (n : nat) (w : list Z) : list Z :=
  match n with
  | 0%nat => w
  | S n =>
      let x := nth 14 w 0 in
      let y := nth 1 w 0 in
      let s0 := Z.lxor (Z.lxor (rotr x 7) (rotr x 18)) (Z.shiftr x 3) in
      let s1 := Z.lxor (Z.lxor (rotr y 17) (rotr y 19)) (Z.shiftr y 10) in
      schedule n (mask32 (nth 15 w 0 + s0 + nth 6 w 0 + s1) :: w)
  end.

Definition round (h : list Z) (kw : Z * Z) : list Z :=
  match h with
  | [a; b; c; d; e; f; g; h] =>
      let s1 := Z.lxor (Z.lxor (rotr e 6) (rotr e 11)) (rotr e 25) in
      let ch := Z.lxor (Z.land e f) (Z.land (4294967295 - e) g) in
      let t1 := h + s1 + ch + kw.1 + kw.2 in
      let s0 := Z.lxor (Z.lxor (rotr a 2) (rotr a 13)) (rotr a 22) in
      let maj := Z.lxor (Z.lxor (Z.land a b) (Z.land a c)) (Z.land b c) in
      [mask32 (t1 + s0 + maj); a; b; c; mask32 (d + t1); e; f; g]
  | _ => h
  end.

Definition compress (h w : list Z) : list Z :=
  let ws := reverse (schedule 48 (reverse w)) in
  zip_with (λ x y, mask32 (x + y)) h (foldl round h (zip round_constants ws)).

Definition word (l : bytes) : Z := foldl (λ x c, x * 256 + code c) 0 l.

(** Blocks of 64 bytes, 16 words each. *)
Fixpoint blocks (fuel : nat) (l : bytes) : list (list Z) :=
  match fuel, l with
  | S fuel, _ :: _ =>
      ((λ i, word (take 4 (drop (4 * i) l))) <$> seq 0 16) :: blocks fuel (drop 64 l)
  | _, _ => []
  end.

Fixpoint big_endian (n : nat) (x : Z) : bytes :=
  match n with
  | 0%nat => []
  | S n => big_endian n (x / 256) ++ [char (x mod 256)]
  end.

Definition pad (l : bytes) : bytes :=
  let n := length l in
  l ++ char 128 :: replicate (Z.to_nat ((55 - Z.of_nat n) mod 64)) (char 0)
    ++ big_endian 8 (8 * Z.of_nat n).

(** [sha256.Sum256]. *)
Definition sha256 (l : bytes) : bytes :=
  let p := pad l in
  concat (big_endian 4 <$> foldl compress initial_hash (blocks (length p) p)).

Definition hex (l : bytes) : bytes :=
  let d n := if n <? 10 then char (48 + n) else char (87 + n) in
  concat ((λ c, [d (code c / 16); d (code c mod 16)]) <$> l).

Example sha256_abc :
  hex (sha256 (str "abc")) =
  str "ba7816bf8f01cfea414140de5dae2223b00361a396177a9cb410ff61f20015ad".
Proof. vm_compute. reflexivity. Qed.

(** ** HMAC *)

Definition xor_key (key : bytes) (x : Z) : bytes := (λ c, char (Z.lxor (code c) x)) <$> key.

(** [hmac.New(sha256.New, key)], [Write] and [Sum]. *)
Definition hmac (key msg : bytes) : bytes :=
  let key := if decide (64 < length key)%nat then sha256 key else key in
  let key := key ++ replicate (64 - length key) (char 0) in
  sha256 (xor_key key 0x5c ++ sha256 (xor_key key 0x36 ++ msg)).

Example hmac_example :
  hex (hmac (str "key") (str "The quick brown fox jumps over the lazy dog")) =
  str "f7bc83f430538424b13298e6aa6fb143ef4d59a14946175997479dbc2d1a3cd8".
Proof. vm_compute. reflexivity. Qed.

(** ** Facts *)

Lemma sextet_roundtrip s : 0 ≤ s < 64 →
  decode_sextet (encode_sextet s) = Some s ∧ is_break (encode_sextet s) = false ∧
  encode_sextet s ≠ "."%char.
Proof.
  intros Hs. assert (∃ k, (k < 64)%nat ∧ s = Z.of_nat k) as (k & Hk & ->).
  { exists (Z.to_nat s). lia. }
  clear Hs. do 64 (destruct k as [|k]; [vm_compute; by split_and!|]). lia.
Qed.

Lemma char_of_code n c : n = code c → char n = c.
Proof. intros ->. apply char_code. Qed.

(** Recursion on groups of three bytes. *)
Lemma bytes_ind3 (P : bytes → Prop) :
  P [] → (∀ a, P [a]) → (∀ a b, P [a; b]) → (∀ a b c l, P l → P (a :: b :: c :: l)) → ∀ l, P l.
Proof.
  intros H0 H1 H2 H3. fix IH 1. intros [|a [|b [|c l]]]; [done..|]. apply H3, IH.
Qed.

(** The sextets of a byte sequence. *)
Definition plain_char (c : ascii) : Prop := is_break c = false ∧ c ≠ "."%char.

Ltac sextets :=
  repeat match goal with
  | |- context [decode_sextet (encode_sextet ?s)] =>
      rewrite (proj1 (sextet_roundtrip s ltac:(dlia))); cbn [mbind option_bind]
  end.

Lemma encode_plain l : Forall plain_char (EncodeToString l).
Proof.
  induction l as [|a|a b|a b c l IH] using bytes_ind3; cbn [EncodeToString];
    try pose proof (code_range a); try pose proof (code_range b); try pose proof (code_range c);
    repeat constructor; try apply sextet_roundtrip; try done; dlia.
Qed.

Lemma decode_groups_encode l : decode_groups (EncodeToString l) = Some l.
Proof.
  induction l as [|a|a b|a b c l IH] using bytes_ind3; cbn [EncodeToString decode_groups]; [done|..];
    pose proof (code_range a); try pose proof (code_range b); try pose proof (code_range c); sextets.
  - rewrite (char_of_code _ a) by dlia. done.
  - rewrite (char_of_code _ a) by dlia. rewrite (char_of_code _ b) by dlia. done.
  - rewrite IH. cbn [mbind option_bind].
    rewrite (char_of_code _ a) by dlia. rewrite (char_of_code _ b) by dlia.
    rewrite (char_of_code _ c) by dlia. done.
Qed.

(** Decoding what was encoded. *)
Lemma Decode_Encode l : DecodeString (EncodeToString l) = Some l.
Proof.
  unfold DecodeString. transitivity (decode_groups (EncodeToString l)); [f_equal|apply decode_groups_encode].
  induction (encode_plain l) as [|c e [Hc _] _ IH]; [done|].
  by rewrite filter_cons_True, IH.
Qed.

End Crypto.
