(* ===== verification/Auth.v ===== *)
(** * Tokens and roles: [internal/auth/jwt.go], [internal/middleware/auth.go]

    Generating and verifying HS256 tokens, the role hierarchy, and the
    decisions of the authorization middleware.  A handler behind the middleware
    runs only when [Authenticate] or [RequireRoles] lets the request pass. *)

From S2P Require Import Prelude Job Store GoStrings Utf8 Json GoTime Codec Crypto.
From Stdlib Require Import Ascii.
Import GoStrings.
Local Open Scope Z_scope.

Module Auth.

Definition RoleAdmin := "admin".
Definition RoleSubmitter := "submitter".
Definition RoleViewer := "viewer".

Inductive auth_error := ErrInvalidToken | ErrExpiredToken | ErrInvalidRole | ErrEmptySecret.

#[export] Instance auth_error_eq_dec : EqDecision auth_error.
Proof. solve_decision. Defined.

Record Claims := mkClaims {
  UserID : string;
  Role : string;
  IssuedAt : Z;
  ExpiresAt : Z
}.

Definition zeroClaims : Claims := mkClaims "" "" 0 0.

Record header := mkHeader { Alg : string; Typ : string }.

(** ** JSON of the two parts of a token *)

Definition header_json (h : header) : Json.json :=
  Json.JObj [(to_bytes "alg", Codec.jstring (Alg h)); (to_bytes "typ", Codec.jstring (Typ h))].

Definition claims_json (off : Time → Z) (c : Claims) : option Json.json :=
  Some (Json.JObj
    [(to_bytes "user_id", Codec.jstring (UserID c)); (to_bytes "role", Codec.jstring (Role c));
     (to_bytes "iat", Codec.jint (IssuedAt c)); (to_bytes "exp", Codec.jint (ExpiresAt c))]).

Definition claims_fields : Codec.fields Claims :=
  [(to_bytes "user_id", Codec.set_string (λ c x, mkClaims x (Role c) (IssuedAt c) (ExpiresAt c)));
   (to_bytes "role", Codec.set_string (λ c x, mkClaims (UserID c) x (IssuedAt c) (ExpiresAt c)));
   (to_bytes "iat", Codec.set_int (λ c x, mkClaims (UserID c) (Role c) x (ExpiresAt c)));
   (to_bytes "exp", Codec.set_int (λ c x, mkClaims (UserID c) (Role c) (IssuedAt c) x))].

#[global] Instance Claims_struct : Codec.Struct Claims :=
  {| Codec.zero := zeroClaims; Codec.encode := claims_json; Codec.struct_fields := claims_fields |}.

(** ** Roles *)

Definition IsValidRole (role : string) : bool :=
  bool_decide (role = RoleAdmin) || bool_decide (role = RoleSubmitter) || bool_decide (role = RoleViewer).

Fixpoint anyRole (userRole : string) (allowedRoles : list string) : bool :=
  match allowedRoles with
  | [] => false
  | allowed :: rest => if decide (userRole = allowed) then true else anyRole userRole rest
  end.

Definition RoleSatisfies (userRole : string) (allowedRoles : list string) : bool :=
  if decide (userRole = RoleAdmin) then true else anyRole userRole allowedRoles.

(** ** Tokens *)

(** [Time.Unix]: seconds since 1970, rounded down. *)
Definition Unix (t : Time) : Z := t / Second - 62135596800.

Definition signHS256 (message : bytes) (key : bytes) : bytes := Crypto.hmac key message.

Definition GenerateToken (secret userID role : string) (ttl : Duration) (now : Time)
  : string + auth_error :=
  if decide (secret = "") then inr ErrEmptySecret
  else if negb (IsValidRole role) then inr ErrInvalidRole
  else
    let headerJSON := Json.print (header_json (mkHeader "HS256" "JWT")) in
    match Codec.Marshal (λ _, 0) (mkClaims userID role (Unix now) (Unix (now + ttl))) with
    | None => inr ErrInvalidToken
    | Some claimsJSON =>
        let headerB64 := Crypto.EncodeToString headerJSON in
        let claimsB64 := Crypto.EncodeToString claimsJSON in
        let signingInput := headerB64 ++ "."%char :: claimsB64 in
        let sig := signHS256 signingInput (to_bytes secret) in
        inl (of_bytes (signingInput ++ "."%char :: Crypto.EncodeToString sig))
    end.

Definition VerifyToken (secret tokenStr : string) (now : Time) : Claims + auth_error :=
  if decide (secret = "") then inr ErrEmptySecret
  else match split_on "." (to_bytes tokenStr) with
  | [headerB64; claimsB64; sigB64] =>
      let expectedSig := signHS256 (headerB64 ++ "."%char :: claimsB64) (to_bytes secret) in
      match Crypto.DecodeString sigB64 with
      | None => inr ErrInvalidToken
      | Some actualSig =>
          if negb (bool_decide (expectedSig = actualSig)) then inr ErrInvalidToken
          else match Crypto.DecodeString claimsB64 with
          | None => inr ErrInvalidToken
          | Some claimsBytes =>
              match Codec.Unmarshal claimsBytes with
              | None => inr ErrInvalidToken
              | Some claims =>
                  if (0 <? ExpiresAt claims) && (ExpiresAt claims <? Unix now) then inr ErrExpiredToken
                  else if negb (IsValidRole (Role claims)) then inr ErrInvalidRole
                  else inl claims
              end
          end
      end
  | _ => inr ErrInvalidToken
  end.

(** ** The middleware *)

(** What the middleware does with a request: it answers itself, with a status
    and a message, or calls the next handler with the claims in the context. *)
Inductive decision :=
  | Reject (status : Z) (message : string)
  | Pass (claims : Claims).

Definition StatusUnauthorized : Z := 401.
Definition StatusForbidden : Z := 403.

(** [strings.EqualFold] with an ASCII string. *)
Definition EqualFold (s t : string) : bool :=
  bool_decide (Codec.fold_key (to_bytes s) = Codec.fold_key (to_bytes t)).

(** [Authenticate], on the value of the [Authorization] header. *)
Definition Authenticate (secret authHeader : string) (now : Time) : decision :=
  if decide (authHeader = "") then Reject StatusUnauthorized "missing Authorization header"
  else match SplitN2 authHeader " " with
  | [scheme; rest] =>
      if negb (EqualFold scheme "Bearer") then
        Reject StatusUnauthorized "invalid Authorization header format, expected 'Bearer <token>'"
      else match VerifyToken secret (TrimSpace rest) now with
      | inr ErrExpiredToken => Reject StatusUnauthorized "token has expired"
      | inr _ => Reject StatusUnauthorized "invalid or malformed token"
      | inl claims => Pass claims
      end
  | _ => Reject StatusUnauthorized "invalid Authorization header format, expected 'Bearer <token>'"
  end.

Definition RequireRoles (secret : string) (allowedRoles : list string) (authHeader : string) (now : Time)
  : decision :=
  match Authenticate secret authHeader now with
  | Reject st msg => Reject st msg
  | Pass claims =>
      if negb (RoleSatisfies (Role claims) allowedRoles)
      then Reject StatusForbidden "insufficient permissions for this resource"
      else Pass claims
  end.

Definition RequireAdmin (secret : string) := RequireRoles secret [RoleAdmin].
Definition RequireSubmitter (secret : string) := RequireRoles secret [RoleSubmitter; RoleAdmin].
Definition RequireViewer (secret : string) := RequireRoles secret [RoleViewer; RoleSubmitter; RoleAdmin].

(** ** Facts *)

#[global] Instance Claims_laws : Codec.StructLaws Claims.
Proof.
  refine {| Codec.depth := 1;
            Codec.in_range c := in_int64 (IssuedAt c) ∧ in_int64 (ExpiresAt c);
            Codec.clean c := mkClaims (Utf8.Sanitize (UserID c)) (Utf8.Sanitize (Role c))
                               (IssuedAt c) (ExpiresAt c) |}.
  - lia.
  - intros off d c v Hd. cbn [Codec.encode Claims_struct]. unfold claims_json. intros [= <-].
    Codec.wf_object.
  - intros off c v Hz [H1 H2]. cbn [Codec.encode Claims_struct]. unfold claims_json. intros [= <-].
    cbn [Codec.set_struct Codec.struct_fields Claims_struct]. do 4 Codec.member. done.
Defined.

Lemma IsValidRole_spec role :
  IsValidRole role = true ↔ role = RoleAdmin ∨ role = RoleSubmitter ∨ role = RoleViewer.
Proof. unfold IsValidRole. rewrite !orb_true_iff, !bool_decide_eq_true. tauto. Qed.

Lemma sanitize_role role : IsValidRole role = true → Utf8.Sanitize role = role.
Proof. intros [-> | [-> | ->]]%IsValidRole_spec; vm_compute; reflexivity. Qed.

Lemma anyRole_spec r rs : anyRole r rs = true ↔ r ∈ rs.
Proof.
  induction rs as [|x rs IH]; simpl; [split; [done|by intros ?%elem_of_nil]|].
  rewrite elem_of_cons, <-IH. case_decide; [by split; [left|]|]. split; [by right|by intros [?|?]].
Qed.

Lemma RoleSatisfies_spec r rs : RoleSatisfies r rs = true ↔ r = RoleAdmin ∨ r ∈ rs.
Proof.
  unfold RoleSatisfies. case_decide; [by split; [left|]|]. rewrite anyRole_spec.
  split; [by right|by intros [?|?]].
Qed.

Lemma encode_no_dot l : "."%char ∉ Crypto.EncodeToString l.
Proof.
  intros Hin. by destruct (proj1 (Forall_forall _ _) (Crypto.encode_plain l) _ Hin) as [_ Hn].
Qed.

(** The three parts of a token. *)
Lemma split_token h p s :
  "."%char ∉ h → "."%char ∉ p → "."%char ∉ s →
  split_on "." ((h ++ "."%char :: p) ++ "."%char :: s) = [h; p; s].
Proof.
  intros Hh Hp Hs. rewrite <-app_assoc. cbn [app]. rewrite split_app, split_app, split_plain by done. done.
Qed.

Lemma split_three c l h p s : split_on c l = [h; p; s] → l = h ++ c :: p ++ c :: s.
Proof. intros E. pose proof (split_join c l) as Hj. rewrite E in Hj. simpl in Hj. by simplify_eq. Qed.

(** C24. A generated token is accepted until it expires and by then only: for
    any non-empty secret and valid role a token is produced, and verifying it
    with the same secret gives back the user (with invalid bytes replaced), the
    role and the times, up to the second of its expiry, and the expiry error
    from then on. *)
Theorem token_roundtrip secret userID role ttl now later :
  secret ≠ "" → IsValidRole role = true →
  in_int64 (Unix now) → in_int64 (Unix (now + ttl)) → 0 < Unix (now + ttl) →
  ∃ tok, GenerateToken secret userID role ttl now = inl tok ∧
    VerifyToken secret tok later =
      if Unix (now + ttl) <? Unix later then inr ErrExpiredToken
      else inl (mkClaims (Utf8.Sanitize userID) role (Unix now) (Unix (now + ttl))).
Proof.
  intros Hs Hrole H1 H2 Hpos. unfold GenerateToken, VerifyToken.
  rewrite decide_False by done. rewrite Hrole. cbn [negb].
  set (c := mkClaims userID role (Unix now) (Unix (now + ttl))).
  destruct (Codec.Marshal (λ _, 0) c) as [data|] eqn:Hm; [|done].
  eexists. split; [reflexivity|]. rewrite decide_False by done. rewrite String.list_ascii_of_string_of_list_ascii.
  rewrite split_token by apply encode_no_dot. rewrite Crypto.Decode_Encode.
  rewrite bool_decide_eq_true_2 by done. cbn [negb]. rewrite Crypto.Decode_Encode.
  assert (Hr : Codec.in_range c) by done.
  rewrite (Codec.Unmarshal_Marshal (λ _, 0) c data (λ _, conj eq_refl eq_refl) Hr Hm).
  subst c. cbn [Codec.clean Claims_laws ExpiresAt Role UserID IssuedAt].
  rewrite (sanitize_role role Hrole), Hrole. cbn [negb].
  destruct (Z.ltb_spec 0 (Unix (now + ttl))); [|lia]. cbn [andb].
  by destruct (Unix (now + ttl) <? Unix later).
Qed.

(** C25. Only signed, unexpired tokens are accepted: whatever [VerifyToken]
    accepts is three parts separated by dots, the last of which decodes to the
    HMAC of the first two under the secret, and the middle one to the returned
    claims, which carry a valid role and have not expired. *)
Theorem verified_is_signed secret tok now c :
  VerifyToken secret tok now = inl c →
  secret ≠ "" ∧ ∃ h p s payload,
    to_bytes tok = h ++ "."%char :: p ++ "."%char :: s ∧
    Crypto.DecodeString s = Some (signHS256 (h ++ "."%char :: p) (to_bytes secret)) ∧
    Crypto.DecodeString p = Some payload ∧ Codec.Unmarshal payload = Some c ∧
    IsValidRole (Role c) = true ∧ (0 < ExpiresAt c → Unix now ≤ ExpiresAt c).
Proof.
  unfold VerifyToken. case_decide as Hs; [done|]. intros Hv. split; [done|].
  destruct (split_on "." (to_bytes tok)) as [|h [|p [|s [|]]]] eqn:E; try done.
  destruct (Crypto.DecodeString s) as [sig|] eqn:Hsig; [|done].
  destruct (bool_decide _) eqn:Heq; [|done]. apply bool_decide_eq_true in Heq. cbn [negb] in Hv.
  destruct (Crypto.DecodeString p) as [payload|] eqn:Hp; [|done].
  destruct (Codec.Unmarshal payload) as [claims|] eqn:Hu; [|done].
  destruct ((0 <? _) && _) eqn:He; [done|]. destruct (IsValidRole (Role claims)) eqn:Hr; [|done].
  cbn [negb] in Hv. injection Hv as <-. exists h, p, s, payload.
  split; [by apply split_three|]. split; [by rewrite Heq|]. split_and!; [done..|]. lia.
Qed.

(** What passes [RequireRoles]. *)
Lemma RequireRoles_pass secret roles hdr now c :
  RequireRoles secret roles hdr now = Pass c →
  (∃ scheme rest, SplitN2 hdr " " = [scheme; rest] ∧ EqualFold scheme "Bearer" = true ∧
     VerifyToken secret (TrimSpace rest) now = inl c) ∧
  (Role c = RoleAdmin ∨ Role c ∈ roles).
Proof.
  unfold RequireRoles, Authenticate. case_decide; [done|].
  destruct (SplitN2 hdr " ") as [|scheme [|rest [|]]]; try done.
  destruct (EqualFold scheme "Bearer") eqn:He; [|done]. cbn [negb].
  destruct (VerifyToken secret (TrimSpace rest) now) as [claims|[]] eqn:Hv; try done.
  destruct (RoleSatisfies (Role claims) roles) eqn:Hr; [|done]. intros [= ->].
  split; [by exists scheme, rest|by apply RoleSatisfies_spec].
Qed.

Lemma RequireRoles_status secret roles hdr now st msg :
  RequireRoles secret roles hdr now = Reject st msg → st = StatusUnauthorized ∨ st = StatusForbidden.
Proof.
  unfold RequireRoles, Authenticate. intros Hr. repeat case_match; simplify_eq; auto.
Qed.

(** ** Witnesses *)

Definition noon : Time := (62135596800 + 1700000000) * Second.

Lemma token_roundtrip_witness :
  ∃ tok, GenerateToken "s3cret" "user-42" RoleSubmitter (3600 * Second) noon = inl tok ∧
    VerifyToken "s3cret" tok (noon + 60 * Second) =
      inl (mkClaims "user-42" RoleSubmitter 1700000000 1700003600).
Proof.
  destruct (token_roundtrip "s3cret" "user-42" RoleSubmitter (3600 * Second) noon (noon + 60 * Second))
    as (tok & Ht & Hv); [done|done|by vm_compute..|].
  exists tok. split; [exact Ht|]. rewrite Hv. vm_compute. reflexivity.
Defined.

Definition demo_token : string :=
  match GenerateToken "s3cret" "user-42" RoleSubmitter (3600 * Second) noon with
  | inl tok => tok
  | inr _ => ""
  end.

Lemma verified_is_signed_witness :
  ∃ h p s, to_bytes demo_token = h ++ "."%char :: p ++ "."%char :: s ∧
    Crypto.DecodeString s = Some (signHS256 (h ++ "."%char :: p) (to_bytes "s3cret")).
Proof.
  assert (Hv : VerifyToken "s3cret" demo_token noon =
                 inl (mkClaims "user-42" RoleSubmitter 1700000000 1700003600))
    by (vm_compute; reflexivity).
  destruct (verified_is_signed "s3cret" demo_token noon _ Hv) as (_ & h & p & s & payload & H1 & H2 & _).
  exists h, p, s. split; [exact H1|exact H2].
Defined.

(** A token signed with another key is refused. *)
Example wrong_key : VerifyToken "other" demo_token noon = inr ErrInvalidToken.
Proof. vm_compute. reflexivity. Qed.

Example expired : VerifyToken "s3cret" demo_token (noon + 3601 * Second) = inr ErrExpiredToken.
Proof. vm_compute. reflexivity. Qed.

End Auth.
