(* ===== verification/BoltStore.v ===== *)
(** * The persistent store: [internal/store/bolt_store.go]

    The store of the server, kept in a bbolt database: one bucket of JSON jobs,
    one of cron jobs, one of dead letters, one of idempotency keys and one per
    status that serves as its index.  bbolt itself is a parameter, the class
    [Bbolt] of the calls the source makes with the behaviour its documentation
    gives them ([BboltLaws]).  The store is proved to satisfy the same
    interface as the in-memory store ([Store.StoreLaws]). *)

From S2P Require Import Prelude Job Store GoStrings Utf8 Json GoTime Codec.
From Stdlib Require Import Ascii.
Import GoStrings.

Module BoltStore.

(** ** bbolt *)

(** A database as the transaction in progress sees it.  [bget] and [entries]
    are [Bucket.Get] and [Bucket.ForEach]; [bput], [bdel] and [create] are
    [Bucket.Put], [Bucket.Delete] and [Tx.CreateBucketIfNotExists], which can
    return an error; [commit] is the error of [Tx.Commit], if any. *)
Class Bbolt (DB : Type) := {
  is_open : DB → bool;
  has_bucket : DB → string → bool;
  bget : DB → string → string → option (list ascii);
  entries : DB → string → list (string * list ascii);
  bput : DB → string → string → list ascii → DB + string;
  bdel : DB → string → string → DB + string;
  create : DB → string → DB + string;
  commit : DB → option string;
  close : DB → DB
}.

Class BboltLaws (DB : Type) `{Bbolt DB} : Prop := {
  (** A bucket holds each key once, and [ForEach] visits every key. *)
  entries_NoDup db b : NoDup (entries db b).*1;
  entries_lookup db b k v : (k, v) ∈ entries db b ↔ bget db b k = Some v;
  (** [Put] sets the value of a key. *)
  put_lookup db b k v db' b' k' : has_bucket db b = true → bput db b k v = inl db' →
    bget db' b' k' = if decide (b' = b ∧ k' = k) then Some v else bget db b' k';
  put_shape db b k v db' : has_bucket db b = true → bput db b k v = inl db' →
    is_open db' = is_open db ∧ ∀ b', has_bucket db' b' = has_bucket db b';
  (** [Delete] removes a key, does nothing if it is not there, and only fails in
      a read-only transaction. *)
  del_total db b k : has_bucket db b = true → ∃ db', bdel db b k = inl db';
  del_lookup db b k db' b' k' : has_bucket db b = true → bdel db b k = inl db' →
    bget db' b' k' = if decide (b' = b ∧ k' = k) then None else bget db b' k';
  del_shape db b k db' : has_bucket db b = true → bdel db b k = inl db' →
    is_open db' = is_open db ∧ ∀ b', has_bucket db' b' = has_bucket db b';
  (** [CreateBucketIfNotExists] keeps the contents of every bucket. *)
  create_lookup db b db' b' k' : create db b = inl db' → bget db' b' k' = bget db b' k';
  create_shape db b db' : create db b = inl db' →
    is_open db' = is_open db ∧
    ∀ b', has_bucket db' b' = (bool_decide (b' = b) || has_bucket db b')
}.

(** ** The store *)

Definition jobsBucket := "jobs".
Definition cronBucket := "cron_jobs".
Definition dlqBucket := "dlq".
Definition idempotencyBucket := "idempotency_keys".
Definition statusPendingBucket := "status_pending".
Definition statusScheduledBucket := "status_scheduled".
Definition statusCompletedBucket := "status_completed".
Definition statusFailedBucket := "status_failed".
Definition statusCancelledBucket := "status_cancelled".

Definition buckets : list string :=
  [jobsBucket; cronBucket; dlqBucket; idempotencyBucket; statusPendingBucket;
   statusScheduledBucket; statusCompletedBucket; statusFailedBucket; statusCancelledBucket].

(** The locations of the times a process writes. *)
Class Zones := located : Time → Z.
Class ZonesOk `{Zones} : Prop := zones_located : Codec.zones_ok located.

Record BoltStore (DB : Type) := mkBolt { db : DB }.
Arguments mkBolt {DB} _.
Arguments db {DB} _.

(** Steps of a transaction that can fail. *)
Definition andThen {A B} (r : A + error) (k : A → B + error) : B + error :=
  match r with inl a => k a | inr e => inr e end.
Notation "'try' x := r 'in' k" := (andThen r (λ x, k))
  (at level 200, x name, r at level 100, k at level 200).

(** An error of bbolt, passed on. *)
Definition storage {A} (r : A + string) : A + error :=
  match r with inl a => inl a | inr m => inr (ErrStorage m) end.

Definition json_error {A} (what : string) (r : option A) : A + error :=
  match r with Some a => inl a | None => inr (ErrStorage what) end.

(** [ForEach] with a closure that appends to a slice, or skips, or stops with
    an error. *)
Fixpoint collect {A} (f : string → list ascii → option A + error)
    (kvs : list (string * list ascii)) : list A * err :=
  match kvs with
  | [] => ([], None)
  | (k, v) :: kvs =>
      match f k v with
      | inr e => ([], Some e)
      | inl x => let '(l, e) := collect f kvs in
                 (match x with Some a => a :: l | None => l end, e)
      end
  end.

(** The closures that unmarshal a value and append it. *)
Definition unmarshalled {A} `{Codec.Struct A} (v : list ascii) : option A + error :=
  try a := json_error "unmarshal" (Codec.Unmarshal v) in inl (Some a).

Definition key (id : Z) : string := Itoa id.

Section Ops.
Context {DB : Type} `{Bbolt DB} `{Zones}.

(** [db.Update]: the closure runs on a private view; its error, or one of the
    commit, rolls everything back. *)
Definition UpdateTx (d : DB) (fn : DB → DB + error) : DB * err :=
  if is_open d then
    match fn d with
    | inr e => (d, Some e)
    | inl d' => match commit d' with
                | Some m => (d, Some (ErrStorage m))
                | None => (d', None)
                end
    end
  else (d, Some (ErrStorage "database not open")).

(** [db.View]; a slice the closure appends to keeps what it got before an
    error. *)
Definition ViewTx {A} (d : DB) (fn : DB → list A * err) : list A * err :=
  if is_open d then fn d else ([], Some (ErrStorage "database not open")).

Definition putJob (d : DB) (j : Job) : DB + error :=
  try v := json_error ("marshal job " +:+ Itoa (ID j)) (Codec.Marshal located j) in
  storage (bput d jobsBucket (key (ID j)) v).

Definition getStatusBucket (st : Status) : option string :=
  if decide (st = Pending) then Some statusPendingBucket
  else if decide (st = Scheduled) then Some statusScheduledBucket
  else if decide (st = Completed) then Some statusCompletedBucket
  else if decide (st = Failed) then Some statusFailedBucket
  else if decide (st = Cancelled) then Some statusCancelledBucket
  else None.

Definition addToStatusBucket (d : DB) (st : Status) (id : Z) : DB + error :=
  match getStatusBucket st with
  | None => inl d
  | Some b => storage (bput d b (key id) [])
  end.

Definition removeFromStatusBucket (d : DB) (st : Status) (id : Z) : DB + error :=
  match getStatusBucket st with
  | None => inl d
  | Some b => storage (bdel d b (key id))
  end.

(** The loop over [buckets] of [NewBoltStore]. *)
Definition createBuckets (d : DB) : DB + error :=
  foldl (λ r b, try d := r in storage (create d b)) (inl d) buckets.

(** [NewBoltStore] on the result of [bolt.Open]. *)
Definition NewBoltStore (opened : DB + string) : BoltStore DB + error :=
  try d := storage opened in
  match UpdateTx d createBuckets with
  | (_, Some e) => inr e
  | (d, None) => inl (mkBolt d)
  end.

Definition Close (s : BoltStore DB) : BoltStore DB := mkBolt (close (db s)).

(** The methods below run one transaction on [s.db]. *)
Definition onUpdate (s : BoltStore DB) (fn : DB → DB + error) : BoltStore DB * err :=
  let '(d, e) := UpdateTx (db s) fn in (mkBolt d, e).

Definition Add (s : BoltStore DB) (j : Job) : BoltStore DB * err :=
  onUpdate s (λ d,
    try d := putJob d j in
    try d := (if decide (IdempotencyKey j = "") then inl d
              else storage (bput d idempotencyBucket (IdempotencyKey j) (to_bytes (Itoa (ID j))))) in
    addToStatusBucket d (JStatus j) (ID j)).

(** The closures of [Get] and [FindByIdempotencyKey] fill one variable; any
    error makes the call report that nothing was found. *)
Definition Get (s : BoltStore DB) (id : Z) : option Job :=
  if is_open (db s) then bget (db s) jobsBucket (key id) ≫= Codec.Unmarshal else None.

Definition List (s : BoltStore DB) : list Job :=
  (ViewTx (db s) (λ d, collect (λ _, unmarshalled)
     (entries d jobsBucket))).1.

Definition ListByStatus (s : BoltStore DB) (st : Status) : list Job * err :=
  ViewTx (db s) (λ d,
    match getStatusBucket st with
    | None => ([], None)
    | Some b =>
        collect (λ k _,
          match bget d jobsBucket k with
          | None => inl None
          | Some v => unmarshalled v
          end) (entries d b)
    end).

Definition Update (s : BoltStore DB) (j : Job) : BoltStore DB * err :=
  onUpdate s (λ d,
    match bget d jobsBucket (key (ID j)) with
    | None => inr (ErrNotFoundForUpdate (ID j))
    | Some v =>
        try existing := json_error ("unmarshal job " +:+ Itoa (ID j)) (Codec.Unmarshal v) in
        if negb (IsValidTransition (JStatus existing) (JStatus j)) then
          inr (ErrInvalidTransition (JStatus existing) (JStatus j) (ID j))
        else
          try d := removeFromStatusBucket d (JStatus existing) (ID j) in
          try d := putJob d j in
          addToStatusBucket d (JStatus j) (ID j)
    end).

(** An error that is assigned to the blank identifier. *)
Definition ignored (d : DB) (r : DB + error) : DB :=
  match r with inl d' => d' | inr _ => d end.

(** The closure of [Delete]. *)
Definition deleteTx (id : Z) (d : DB) : DB + error :=
  match bget d jobsBucket (key id) with
  | None => inl d
  | Some v =>
      let d := match Codec.Unmarshal v with
               | None => d
               | Some j =>
                   let d := ignored d (removeFromStatusBucket d (JStatus j) id) in
                   if decide (IdempotencyKey j = "") then d
                   else ignored d (storage (bdel d idempotencyBucket (IdempotencyKey j)))
               end in
      storage (bdel d jobsBucket (key id))
  end.

(** [found] is set by the closure, whatever becomes of the transaction. *)
Definition Delete (s : BoltStore DB) (id : Z) : BoltStore DB * (bool * err) :=
  let found := is_open (db s) && bool_decide (is_Some (bget (db s) jobsBucket (key id))) in
  let '(s, e) := onUpdate s (deleteTx id) in
  (s, (found, e)).

Definition Cancel (s : BoltStore DB) (id : Z) : BoltStore DB * err :=
  onUpdate s (λ d,
    match bget d jobsBucket (key id) with
    | None => inr ErrJobNotFound
    | Some v =>
        try j := json_error "unmarshal job" (Codec.Unmarshal v) in
        if is_terminal (JStatus j) then inr (ErrTerminal (JStatus j))
        else
          try d := removeFromStatusBucket d (JStatus j) id in
          try d := putJob d (with_status j Cancelled) in
          addToStatusBucket d Cancelled id
    end).

Definition AddCron (s : BoltStore DB) (c : CronJob) : BoltStore DB * err :=
  onUpdate s (λ d,
    try v := json_error "marshal cron" (Codec.Marshal located c) in
    storage (bput d cronBucket (CronID c) v)).

Definition DeleteCron (s : BoltStore DB) (id : string) : BoltStore DB * (bool * err) :=
  let found := is_open (db s) && bool_decide (is_Some (bget (db s) cronBucket id)) in
  let '(s, e) := onUpdate s (λ d,
    match bget d cronBucket id with
    | None => inl d
    | Some _ => storage (bdel d cronBucket id)
    end) in
  (s, (found, e)).

Definition ListCrons (s : BoltStore DB) : list CronJob * err :=
  ViewTx (db s) (λ d,
    collect (λ _, unmarshalled)
      (entries d cronBucket)).

Definition AddDLQ (s : BoltStore DB) (j : Job) : BoltStore DB * err :=
  onUpdate s (λ d,
    try v := json_error "marshal job" (Codec.Marshal located j) in
    storage (bput d dlqBucket (key (ID j)) v)).

Definition ListDLQ (s : BoltStore DB) : list Job * err :=
  ViewTx (db s) (λ d,
    collect (λ _, unmarshalled)
      (entries d dlqBucket)).

Definition FindByIdempotencyKey (s : BoltStore DB) (ikey : string) : option Job :=
  if decide (ikey = "") then None
  else if is_open (db s) then
    idBytes ← bget (db s) idempotencyBucket ikey;
    id ← Atoi (of_bytes idBytes);
    v ← bget (db s) jobsBucket (key id);
    Codec.Unmarshal v
  else None.

#[global] Instance BoltStore_ops : Store.StoreOps (BoltStore DB) := {|
  Store.Add := Add; Store.Get := Get; Store.List := List;
  Store.ListByStatus := ListByStatus; Store.Update := Update; Store.Delete := Delete;
  Store.Cancel := Cancel; Store.AddCron := AddCron; Store.DeleteCron := DeleteCron;
  Store.ListCrons := ListCrons; Store.AddDLQ := AddDLQ; Store.ListDLQ := ListDLQ;
  Store.FindByIdempotencyKey := FindByIdempotencyKey
|}.
End Ops.

(** ** Generic facts *)

#[global] Instance key_inj : Inj (=) (=) key.
Proof. unfold key, Itoa. intros x y Hxy. by apply (inj pretty) in Hxy. Qed.

Lemma sanitize_known st st' :
  known_status st' = true → Utf8.Sanitize st = st' ↔ st = st'.
Proof.
  intros Hk. assert (Hn : Some Utf8.RuneError ∉ Utf8.chunks (to_bytes st') ∧ Utf8.Sanitize st' = st').
  { apply known_status_spec in Hk as [->|[->|Hk]]; [| |apply is_terminal_spec in Hk as [-> | [-> | ->]]];
      (split; [apply (bool_decide_unpack _); vm_compute; exact I|vm_compute; reflexivity]). }
  destruct Hn as [Hn Hs]. split; [|by intros ->]. intros <-. unfold Utf8.Sanitize in *.
  rewrite String.list_ascii_of_string_of_list_ascii in Hn. rewrite Utf8.sanitize_unchanged by done. by rewrite Codec.of_bytes_str.
Qed.

Lemma clean_clean (j : Job) : Codec.clean (Codec.clean j) = Codec.clean j.
Proof.
  cbn [Codec.clean Codec.Job_laws]. unfold Store.norm_job, Utf8.Sanitize.
  cbn [ID JType Priority JStatus RetryCount MaxRetries NextRunAt LastError IdempotencyKey].
  by rewrite !String.list_ascii_of_string_of_list_ascii, !Utf8.sanitize_idemp.
Qed.

Lemma clean_cancelled (j : Job) :
  Codec.clean j = j → Codec.clean (with_status j Cancelled) = with_status j Cancelled.
Proof.
  assert (Utf8.Sanitize Cancelled = Cancelled) by (vm_compute; reflexivity).
  destruct j as [i t p st rc mr nr le ik]. cbn [Codec.clean Codec.Job_laws]. unfold Store.norm_job, with_status.
  cbn [ID JType Priority JStatus RetryCount MaxRetries NextRunAt LastError IdempotencyKey].
  congruence.
Qed.

(** The buckets that hold data; the others are the status buckets. *)
Definition plain (b : string) : Prop := b ∈ [jobsBucket; cronBucket; dlqBucket; idempotencyBucket].

Lemma getStatusBucket_spec st b :
  getStatusBucket st = Some b →
  known_status st = true ∧ b ∈ buckets ∧ ¬ plain b ∧ ∀ st', getStatusBucket st' = Some b → st' = st.
Proof.
  unfold getStatusBucket. repeat case_decide; intros [= <-]; subst;
    (split; [reflexivity|]); (split; [apply (bool_decide_unpack _); vm_compute; exact I|]);
    (split; [by intros Hp%(bool_decide_pack _)|]);
    intros st' Hst'; repeat case_decide; simplify_eq; done.
Qed.

Lemma getStatusBucket_known st : known_status st = true → is_Some (getStatusBucket st).
Proof.
  intros [->|[->|[-> | [-> | ->]]%is_terminal_spec]]%known_status_spec; by eexists.
Qed.

(** ** The contents of a database *)

Definition stored {A} `{Codec.Struct A} (v : list ascii) (a : A) : Prop :=
  Codec.Unmarshal v = Some a.

Section Rel.
Context {DB : Type} {BB : Bbolt DB} {BL : BboltLaws DB}.
Implicit Types d : DB.

Definition ready d : Prop := is_open d = true ∧ ∀ b, b ∈ buckets → has_bucket d b = true.

(** Jobs under their ids. *)
Definition table d (b : string) (m : gmap Z Job) : Prop :=
  (∀ id, option_Forall2 stored (bget d b (key id)) (m !! id)) ∧
  (∀ k, is_Some (bget d b k) → ∃ id, k = key id) ∧
  (∀ id j, m !! id = Some j → ID j = id ∧ Codec.ints_ok j ∧ Codec.clean j = j).

Definition cron_table d (m : gmap string CronJob) : Prop :=
  ∀ k, option_Forall2 stored (bget d cronBucket k) (m !! k).

Definition key_table d (m : gmap string Z) : Prop :=
  (∀ k, k ≠ "" → bget d idempotencyBucket k = to_bytes ∘ Itoa <$> m !! k) ∧
  (∀ k id, m !! k = Some id → in_int64 id).

(** The status buckets list the ids in [R]. *)
Definition indexed d (R : Status → Z → Prop) : Prop :=
  ∀ st b, getStatusBucket st = Some b →
  ∀ k, is_Some (bget d b k) ↔ ∃ id, k = key id ∧ R st id.

Definition has_status (m : gmap Z Job) (st : Status) (id : Z) : Prop :=
  ∃ j, m !! id = Some j ∧ JStatus j = st.

(** The contents of the data buckets, and of the status buckets. *)
Definition contents d (a : Store.Abs) (R : Status → Z → Prop) : Prop :=
  ready d ∧ table d jobsBucket (Store.jobs a) ∧ table d dlqBucket (Store.dlq a) ∧
  cron_table d (Store.crons a) ∧ key_table d (Store.idem a) ∧ indexed d R.

Definition holds d (a : Store.Abs) : Prop := contents d a (has_status (Store.jobs a)).

(** *** One write *)

(** [d'] is [d] with [o] under [k] in bucket [b]. *)
Definition wrote d d' (b k : string) (o : option (list ascii)) : Prop :=
  (ready d → ready d') ∧
  ∀ b' k', bget d' b' k' = if decide (b' = b ∧ k' = k) then o else bget d b' k'.

(** A step succeeds with [Q], or with an error of the storage. *)
Definition ok {A} (Q : A → Prop) (r : A + error) : Prop :=
  match r with inl a => Q a | inr e => ∃ m, e = ErrStorage m end.

Lemma ok_try {A B} (P : A → Prop) (Q : B → Prop) r (k : A → B + error) :
  ok P r → (∀ a, P a → ok Q (k a)) → ok Q (andThen r k).
Proof. destruct r; simpl; eauto. Qed.

Lemma ok_mono {A} (P Q : A → Prop) r : ok P r → (∀ a, P a → Q a) → ok Q r.
Proof. destruct r; simpl; eauto. Qed.

Lemma ready_bucket d b : ready d → b ∈ buckets → has_bucket d b = true.
Proof. intros [_ Hb]. apply Hb. Qed.

Lemma ok_put d b k v :
  ready d → b ∈ buckets → ok (λ d', wrote d d' b k (Some v)) (storage (bput d b k v)).
Proof.
  intros Hr Hb. destruct (bput d b k v) as [d'|m] eqn:E; simpl; [|eauto].
  destruct (put_shape _ _ _ _ _ (ready_bucket d b Hr Hb) E) as [Ho Hbs]. split.
  - intros _. destruct Hr as [Ho' Hb']. split; [congruence|]. intros b' ?. rewrite Hbs. auto.
  - intros b' k'. eapply put_lookup; [|done]. by apply ready_bucket.
Qed.

Lemma del_wrote d b k :
  ready d → b ∈ buckets → ∃ d', bdel d b k = inl d' ∧ wrote d d' b k None.
Proof.
  intros Hr Hb. pose proof (ready_bucket d b Hr Hb) as Hh.
  destruct (del_total d b k Hh) as [d' E]. exists d'. split; [done|].
  destruct (del_shape _ _ _ _ Hh E) as [Ho Hbs]. split.
  - intros _. destruct Hr as [Ho' Hb']. split; [congruence|]. intros b' ?. rewrite Hbs. auto.
  - intros b' k'. by eapply del_lookup.
Qed.

Lemma wrote_other d d' b k o b' : wrote d d' b k o → b' ≠ b → ∀ k', bget d' b' k' = bget d b' k'.
Proof. intros [_ Hw] Hne k'. rewrite Hw. case_decide; naive_solver. Qed.

Lemma wrote_same d d' b k o k' :
  wrote d d' b k o → bget d' b k' = if decide (k' = k) then o else bget d b k'.
Proof. intros [_ Hw]. rewrite Hw. repeat case_decide; naive_solver. Qed.

(** *** What a write does to the tables *)

Lemma table_ext d d' b m : (∀ k, bget d' b k = bget d b k) → table d b m → table d' b m.
Proof. intros Hk. unfold table. by setoid_rewrite Hk. Qed.

Lemma cron_table_ext d d' m :
  (∀ k, bget d' cronBucket k = bget d cronBucket k) → cron_table d m → cron_table d' m.
Proof. intros Hk. unfold cron_table. by setoid_rewrite Hk. Qed.

Lemma key_table_ext d d' m :
  (∀ k, bget d' idempotencyBucket k = bget d idempotencyBucket k) → key_table d m → key_table d' m.
Proof. intros Hk. unfold key_table. by setoid_rewrite Hk. Qed.

Lemma indexed_ext d d' R :
  (∀ b k, ¬ plain b → bget d' b k = bget d b k) → indexed d R → indexed d' R.
Proof.
  intros Hk Hi st b Hb k. rewrite Hk; [by apply Hi|]. by apply getStatusBucket_spec in Hb as (_ & _ & ? & _).
Qed.

Lemma indexed_iff d R R' :
  indexed d R → (∀ st id, known_status st = true → R st id ↔ R' st id) → indexed d R'.
Proof.
  intros Hi HR st b Hb k. rewrite (Hi st b Hb). apply getStatusBucket_spec in Hb as (Hk & _).
  split; intros (id & -> & Hid); exists id; (split; [done|]); by apply (HR st id Hk).
Qed.

Lemma table_put d d' b m j v :
  wrote d d' b (key (ID j)) (Some v) → Codec.Unmarshal v = Some (Codec.clean j) → Codec.ints_ok j →
  table d b m → table d' b (<[ID j := Codec.clean j]> m).
Proof.
  intros Hw Hv Hi (H1 & H2 & H3). split; [|split].
  - intros id. rewrite (wrote_same _ _ _ _ _ _ Hw), lookup_insert.
    destruct (decide (id = ID j)) as [->|].
    + rewrite !decide_True by done. constructor. exact Hv.
    + rewrite !decide_False; [apply H1|congruence|by intros ?%(inj key)].
  - intros k. rewrite (wrote_same _ _ _ _ _ _ Hw). case_decide; [eauto|apply H2].
  - intros id i. rewrite lookup_insert_Some. intros [[<- <-]|[_ Hm]]; [|by apply H3].
    split; [done|]. split; [done|apply clean_clean].
Qed.

Lemma table_del d d' b m id :
  wrote d d' b (key id) None → table d b m → table d' b (delete id m).
Proof.
  intros Hw (H1 & H2 & H3). split; [|split].
  - intros id'. rewrite (wrote_same _ _ _ _ _ _ Hw), lookup_delete.
    destruct (decide (id' = id)) as [->|].
    + rewrite !decide_True by done. constructor.
    + rewrite !decide_False; [apply H1|congruence|by intros ?%(inj key)].
  - intros k. rewrite (wrote_same _ _ _ _ _ _ Hw). case_decide; [by intros []|apply H2].
  - intros id' i. rewrite lookup_delete_Some. intros [_ Hm]. by apply H3.
Qed.

Lemma cron_table_put d d' m k c v :
  wrote d d' cronBucket k (Some v) → stored v c → cron_table d m → cron_table d' (<[k := c]> m).
Proof.
  intros Hw Hv Hm k'. rewrite (wrote_same _ _ _ _ _ _ Hw), lookup_insert.
  destruct (decide (k' = k)) as [->|].
  - rewrite !decide_True by done. by constructor.
  - rewrite !decide_False by congruence. apply Hm.
Qed.

Lemma cron_table_del d d' m k :
  wrote d d' cronBucket k None → cron_table d m → cron_table d' (delete k m).
Proof.
  intros Hw Hm k'. rewrite (wrote_same _ _ _ _ _ _ Hw), lookup_delete.
  destruct (decide (k' = k)) as [->|].
  - rewrite !decide_True by done. constructor.
  - rewrite !decide_False by congruence. apply Hm.
Qed.

Lemma key_table_put d d' m k id :
  wrote d d' idempotencyBucket k (Some (to_bytes (Itoa id))) → in_int64 id →
  key_table d m → key_table d' (<[k := id]> m).
Proof.
  intros Hw Hid [H1 H2]. split.
  - intros k' Hk'. rewrite (wrote_same _ _ _ _ _ _ Hw), lookup_insert.
    destruct (decide (k' = k)) as [->|].
    + by rewrite !decide_True.
    + rewrite !decide_False by congruence. by apply H1.
  - intros k' id' [[_ <-]|[_ Hm]]%lookup_insert_Some; [done|by eapply H2].
Qed.

Lemma key_table_del d d' m k :
  wrote d d' idempotencyBucket k None → key_table d m → key_table d' (delete k m).
Proof.
  intros Hw [H1 H2]. split.
  - intros k' Hk'. rewrite (wrote_same _ _ _ _ _ _ Hw), lookup_delete.
    destruct (decide (k' = k)) as [->|].
    + by rewrite !decide_True.
    + rewrite !decide_False by congruence. by apply H1.
  - intros k' id' [_ Hm]%lookup_delete_Some. by eapply H2.
Qed.

Lemma indexed_put d d' st b id R :
  getStatusBucket st = Some b → wrote d d' b (key id) (Some []) → indexed d R →
  indexed d' (λ st' id', st' = st ∧ id' = id ∨ R st' id').
Proof.
  intros Hb Hw Hi st' b' Hb' k. destruct (decide (b' = b)) as [->|Hne].
  - pose proof (proj2 (proj2 (proj2 (getStatusBucket_spec _ _ Hb))) _ Hb') as ->.
    rewrite (wrote_same _ _ _ _ _ _ Hw). case_decide as Hk.
    + split; [|by eauto]. intros _. exists id. auto.
    + rewrite (Hi st b Hb). split; intros (i & -> & HR); exists i; (split; [done|]); [by right|].
      destruct HR as [[_ ->]|HR]; done.
  - rewrite (wrote_other _ _ _ _ _ _ Hw Hne), (Hi st' b' Hb').
    split; intros (i & -> & HR); exists i; (split; [done|]); [by right|].
    destruct HR as [[-> ->]|HR]; [congruence|done].
Qed.

Lemma indexed_del d d' st b id R :
  getStatusBucket st = Some b → wrote d d' b (key id) None → indexed d R →
  indexed d' (λ st' id', ¬ (st' = st ∧ id' = id) ∧ R st' id').
Proof.
  intros Hb Hw Hi st' b' Hb' k. destruct (decide (b' = b)) as [->|Hne].
  - pose proof (proj2 (proj2 (proj2 (getStatusBucket_spec _ _ Hb))) _ Hb') as ->.
    rewrite (wrote_same _ _ _ _ _ _ Hw). case_decide as Hk.
    + subst. split; [by intros []|]. intros (i & Hi'%(inj key) & HR & _). naive_solver.
    + rewrite (Hi st b Hb). split; intros (i & -> & HR); exists i; naive_solver.
  - rewrite (wrote_other _ _ _ _ _ _ Hw Hne), (Hi st' b' Hb').
    split; intros (i & -> & HR); exists i; (split; [done|]); [|by apply HR].
    split; [intros [-> ->]; congruence|done].
Qed.

(** *** The steps of the transactions *)

Ltac member := try unfold plain; apply (bool_decide_unpack _); vm_compute; exact I.

(** A write to a bucket leaves the other tables as they are. *)
Ltac elsewhere Hw :=
  first [eapply table_ext|eapply cron_table_ext|eapply key_table_ext|eapply indexed_ext]; [|eassumption];
  intros; eapply (wrote_other _ _ _ _ _ _ Hw);
  first [done|match goal with Hp : ¬ plain _ |- _ =>
    let E := fresh in intros E; apply Hp; first [rewrite E|rewrite <-E]; member end].

Context {ZN : Zones} {ZO : ZonesOk}.

Lemma ok_marshal {A} `{Codec.StructLaws A} what (x : A) :
  Codec.in_range x →
  ok (λ v, Codec.Unmarshal v = Some (Codec.clean x)) (json_error what (Codec.Marshal located x)).
Proof.
  intros Hx. destruct (Codec.Marshal located x) as [v|] eqn:E; simpl; [|eauto].
  by apply (Codec.Unmarshal_Marshal located); [apply zones_located|..].
Qed.

Lemma ok_putJob d a R j :
  contents d a R → Codec.ints_ok j →
  ok (λ d', contents d' (Store.abs_put Utf8.Sanitize a j) R) (putJob d j).
Proof.
  intros (Hr & Ht & Hd & Hc & Hk & Hi) Hj. unfold putJob. eapply ok_try.
  { by apply (ok_marshal (A := Job)). }
  intros v Hv. eapply ok_mono; [apply ok_put; [done|member]|]. intros d' Hw.
  split; [by apply Hw|]. split; [by apply (table_put _ _ _ _ _ _ Hw)|].
  split_and!; simpl; elsewhere Hw.
Qed.

Lemma ok_putKey d a R k id :
  contents d a R → in_int64 id →
  ok (λ d', contents d' (Store.set_idem a (<[k := id]> (Store.idem a))) R)
    (storage (bput d idempotencyBucket k (to_bytes (Itoa id)))).
Proof.
  intros (Hr & Ht & Hd & Hc & Hk & Hi) Hj. eapply ok_mono; [apply ok_put; [done|member]|].
  intros d' Hw. split; [by apply Hw|]. split_and!; simpl; try elsewhere Hw.
  by apply (key_table_put _ _ _ _ _ Hw).
Qed.

Lemma ok_addStatus d a R st id :
  contents d a R →
  ok (λ d', contents d' a (λ st' id', st' = st ∧ id' = id ∨ R st' id')) (addToStatusBucket d st id).
Proof.
  intros (Hr & Ht & Hd & Hc & Hk & Hi). unfold addToStatusBucket.
  destruct (getStatusBucket st) as [b|] eqn:Hb; simpl.
  - destruct (getStatusBucket_spec st b Hb) as (_ & Hin & Hp & _).
    eapply ok_mono; [by apply ok_put|]. intros d' Hw. split; [by apply Hw|].
    split_and!; try elsewhere Hw. exact (indexed_put _ _ _ _ _ _ Hb Hw Hi).
  - split_and!; try done. eapply indexed_iff; [done|]. intros st' id' Hst'.
    split; [by right|]. intros [[-> _]|?]; [|done].
    apply getStatusBucket_known in Hst' as [? ?]. congruence.
Qed.

Lemma removeStatus_contents d a R st id :
  contents d a R →
  ∃ d', removeFromStatusBucket d st id = inl d' ∧
    contents d' a (λ st' id', ¬ (st' = st ∧ id' = id) ∧ R st' id').
Proof.
  intros (Hr & Ht & Hd & Hc & Hk & Hi). unfold removeFromStatusBucket.
  destruct (getStatusBucket st) as [b|] eqn:Hb; simpl.
  - destruct (getStatusBucket_spec st b Hb) as (_ & Hin & Hp & _).
    destruct (del_wrote d b (key id) Hr Hin) as (d' & -> & Hw). exists d'. split; [done|].
    split; [by apply Hw|]. split_and!; try elsewhere Hw. exact (indexed_del _ _ _ _ _ _ Hb Hw Hi).
  - exists d. split; [done|]. split_and!; try done. eapply indexed_iff; [done|].
    intros st' id' Hst'. split; [|by intros []]. intros HR. split; [|done]. intros [-> _].
    apply getStatusBucket_known in Hst' as [? ?]. congruence.
Qed.

(** *** The transactions *)

Lemma onUpdate_ok (s : BoltStore DB) fn a a' :
  holds (db s) a → ok (λ d, holds d a') (fn (db s)) →
  (onUpdate s fn).2 = None ∧ holds (db (onUpdate s fn).1) a' ∨
  Store.storage_err (onUpdate s fn).2 ∧ holds (db (onUpdate s fn).1) a.
Proof.
  intros Ha Hf. unfold onUpdate, UpdateTx. rewrite (proj1 (proj1 Ha)).
  destruct (fn (db s)) as [d|e]; simpl in *.
  - destruct (commit d) as [m|]; simpl; [right|by left]. split; [by exists m|done].
  - right. destruct Hf as [m ->]. split; [by exists m|done].
Qed.

Lemma onUpdate_err (s : BoltStore DB) fn a e :
  holds (db s) a → fn (db s) = inr e → onUpdate s fn = (s, Some e).
Proof.
  intros [[Ho _] _] Hf. unfold onUpdate, UpdateTx. rewrite Ho, Hf. by destruct s.
Qed.

Lemma get_job d a R id :
  contents d a R →
  match Store.jobs a !! id with
  | Some j => ∃ v, bget d jobsBucket (key id) = Some v ∧ Codec.Unmarshal v = Some j ∧
                   ID j = id ∧ Codec.ints_ok j ∧ Codec.clean j = j
  | None => bget d jobsBucket (key id) = None
  end.
Proof.
  intros (_ & (H1 & _ & H3) & _). specialize (H1 id). specialize (H3 id).
  destruct (Store.jobs a !! id) as [j|]; inversion H1; subst; [|done].
  eexists. split; [done|]. split; [done|]. by apply H3.
Qed.

(** The index after a new job, and after a job changed. *)
Lemma index_add d a R j :
  contents d a R → Store.jobs a !! ID j = Some (Codec.clean j) →
  (∀ st id, known_status st = true →
     R st id ↔ st = JStatus j ∧ id = ID j ∨ id ≠ ID j ∧ has_status (Store.jobs a) st id) →
  holds d a.
Proof.
  intros (Hr & Ht & Hd & Hc & Hk & Hi) Hj HR. split_and!; try done.
  eapply indexed_iff; [done|]. intros st id Hst. rewrite HR by done. unfold has_status.
  destruct (decide (id = ID j)) as [->|]; [|naive_solver].
  rewrite Hj. pose proof (sanitize_known (JStatus j) st Hst) as Hs. split.
  - intros [[-> _]|[? _]]; [|done]. exists (Codec.clean j). split; [done|]. by apply Hs.
  - intros (i & [= <-] & Hi'). left. split; [|done]. symmetry. by apply Hs.
Qed.

Lemma Add_ok (s : BoltStore DB) a j :
  holds (db s) a → Codec.ints_ok j → Store.jobs a !! ID j = None →
  (Add s j).2 = None ∧ holds (db (Add s j).1) (Store.abs_add Utf8.Sanitize a j).1 ∨
  Store.storage_err (Add s j).2 ∧ holds (db (Add s j).1) a.
Proof.
  intros Ha Hj Hn. apply onUpdate_ok; [done|]. eapply ok_try; [by apply ok_putJob|].
  intros d1 H1. eapply (ok_try (λ d, contents d (Store.abs_add Utf8.Sanitize a j).1 _)).
  { unfold Store.abs_add. rewrite Hn. case_decide; [exact H1|].
    apply (ok_putKey _ (Store.abs_put Utf8.Sanitize a j)); [exact H1|by apply Hj]. }
  intros d2 H2. eapply ok_mono; [by apply ok_addStatus|]. intros d3 H3.
  assert (Hjobs : Store.jobs (Store.abs_add Utf8.Sanitize a j).1 = <[ID j := Codec.clean j]> (Store.jobs a)).
  { unfold Store.abs_add. rewrite Hn. by case_decide. }
  eapply index_add; [exact H3|rewrite Hjobs; apply lookup_insert_eq|].
  intros st id _. rewrite Hjobs. unfold has_status. split.
  - intros [?|(i & Hi & Hs)]; [by left|]. assert (id ≠ ID j) by congruence. right. split; [done|].
    exists i. by rewrite lookup_insert_ne.
  - intros [?|(Hne & i & Hi & Hs)]; [by left|]. right. exists i. by rewrite lookup_insert_ne in Hi.
Qed.

(** Storing [j] over [old]: what [Update] and [Cancel] do. *)
Lemma ok_replace d a old j :
  holds d a → Codec.ints_ok j → Store.jobs a !! ID j = Some old →
  ok (λ d, holds d (Store.abs_put Utf8.Sanitize a j))
    (try d := removeFromStatusBucket d (JStatus old) (ID j) in
     try d := putJob d j in
     addToStatusBucket d (JStatus j) (ID j)).
Proof.
  intros Ha Hj Ho. destruct (removeStatus_contents d a _ (JStatus old) (ID j) Ha) as (d1 & -> & H1).
  cbn [andThen]. eapply ok_try; [exact (ok_putJob _ _ _ _ H1 Hj)|]. intros d2 H2.
  eapply ok_mono; [exact (ok_addStatus _ _ _ _ _ H2)|]. intros d3 H3.
  eapply index_add; [exact H3|apply lookup_insert_eq|].
  intros st id _. unfold has_status. simpl. destruct (decide (id = ID j)) as [->|Hne].
  - rewrite Ho. naive_solver.
  - rewrite lookup_insert_ne by done. naive_solver.
Qed.

Lemma Update_ok (s : BoltStore DB) a j :
  holds (db s) a → Codec.ints_ok j →
  (Update s j).2 = (Store.abs_update Utf8.Sanitize a j).2 ∧
    holds (db (Update s j).1) (Store.abs_update Utf8.Sanitize a j).1 ∨
  Store.storage_err (Update s j).2 ∧ holds (db (Update s j).1) a.
Proof.
  intros Ha Hj. unfold Update, Store.abs_update. pose proof (get_job _ _ _ (ID j) Ha) as Hg.
  destruct (Store.jobs a !! ID j) as [old|] eqn:Ho.
  - destruct Hg as (v & Hv & Hu & _). destruct (IsValidTransition (JStatus old) (JStatus j)) eqn:Ht.
    + apply onUpdate_ok; [done|]. rewrite Hv, Hu. cbn [andThen json_error]. rewrite Ht.
      by apply ok_replace.
    + left. erewrite onUpdate_err; [done|done|]. rewrite Hv, Hu. cbn [andThen json_error]. by rewrite Ht.
  - left. erewrite onUpdate_err; [done|done|]. by rewrite Hg.
Qed.

Lemma Cancel_ok (s : BoltStore DB) a id :
  holds (db s) a →
  (Cancel s id).2 = (Store.abs_cancel a id).2 ∧ holds (db (Cancel s id).1) (Store.abs_cancel a id).1 ∨
  Store.storage_err (Cancel s id).2 ∧ holds (db (Cancel s id).1) a.
Proof.
  intros Ha. unfold Cancel, Store.abs_cancel. pose proof (get_job _ _ _ id Ha) as Hg.
  destruct (Store.jobs a !! id) as [j|] eqn:Ho.
  - destruct Hg as (v & Hv & Hu & Hid & Hj & Hcl). destruct (is_terminal (JStatus j)) eqn:Ht.
    + left. erewrite onUpdate_err; [done|done|]. rewrite Hv, Hu. cbn [andThen json_error]. by rewrite Ht.
    + apply onUpdate_ok; [done|]. rewrite Hv, Hu. cbn [andThen json_error]. rewrite Ht. cbn [fst].
      rewrite <-Hid in Ho |- *. eapply ok_mono.
      { exact (ok_replace (db s) a j (with_status j Cancelled) Ha Hj Ho). }
      intros d Hd. exact (eq_rect _ (λ x, holds d (Store.set_jobs a (<[ID j := x]> (Store.jobs a))))
        Hd _ (clean_cancelled j Hcl)).
  - left. erewrite onUpdate_err; [done|done|]. by rewrite Hg.
Qed.

(** The deletions of the transaction of [Delete]. *)
Lemma del_job_contents d a R id :
  contents d a R →
  ∃ d', bdel d jobsBucket (key id) = inl d' ∧
    contents d' (Store.set_jobs a (delete id (Store.jobs a))) R.
Proof.
  intros (Hr & Ht & Hd & Hc & Hk & Hi).
  destruct (del_wrote d jobsBucket (key id)) as (d' & E & Hw); [done|member|].
  exists d'. split; [done|]. split; [by apply Hw|]. split; [by apply (table_del _ _ _ _ _ Hw)|].
  split_and!; simpl; elsewhere Hw.
Qed.

Lemma del_key_contents d a R k :
  contents d a R →
  ∃ d', bdel d idempotencyBucket k = inl d' ∧
    contents d' (Store.set_idem a (delete k (Store.idem a))) R.
Proof.
  intros (Hr & Ht & Hd & Hc & Hk & Hi).
  destruct (del_wrote d idempotencyBucket k) as (d' & E & Hw); [done|member|].
  exists d'. split; [done|]. split; [by apply Hw|]. split_and!; simpl; try elsewhere Hw.
  by apply (key_table_del _ _ _ _ Hw).
Qed.

Lemma ok_deleteTx d a id :
  holds d a → ok (λ d', holds d' (Store.abs_delete a id).1) (deleteTx id d).
Proof.
  intros Ha. unfold deleteTx, Store.abs_delete. pose proof (get_job _ _ _ id Ha) as Hg.
  destruct (Store.jobs a !! id) as [j|] eqn:Ho; [|by rewrite Hg].
  destruct Hg as (v & -> & -> & Hid & Hj & Hcl). cbv beta iota zeta. cbn [fst].
  destruct (removeStatus_contents _ a _ (JStatus j) id Ha) as (d1 & -> & H1). cbn [ignored].
  set (R := λ st' id', ¬ (st' = JStatus j ∧ id' = id) ∧ has_status (Store.jobs a) st' id') in *.
  assert (HR : ∀ st id', R st id' ↔ has_status (delete id (Store.jobs a)) st id').
  { intros st id'. subst R. unfold has_status. setoid_rewrite lookup_delete_Some.
    destruct (decide (id' = id)) as [->|]; [rewrite Ho|]; naive_solver. }
  case_decide as Hk.
  - destruct (del_job_contents _ _ _ id H1) as (d2 & -> & (Hr & Ht & Hd & Hc & Hkt & Hi)).
    split_and!; try done. eapply indexed_iff; [done|]. intros st id' _. apply HR.
  - destruct (del_key_contents _ _ _ (IdempotencyKey j) H1) as (d2 & -> & H2). cbn [ignored storage].
    destruct (del_job_contents _ _ _ id H2) as (d3 & -> & (Hr & Ht & Hd & Hc & Hkt & Hi)).
    split_and!; try done. eapply indexed_iff; [done|]. intros st id' _. apply HR.
Qed.

Lemma found_job d a R id :
  contents d a R →
  is_open d && bool_decide (is_Some (bget d jobsBucket (key id))) =
    bool_decide (is_Some (Store.jobs a !! id)).
Proof.
  intros Ha. rewrite (proj1 (proj1 Ha)). pose proof (get_job _ _ _ id Ha) as Hg. simpl.
  destruct (Store.jobs a !! id); [destruct Hg as (v & -> & _)|rewrite Hg]; done.
Qed.

Lemma Delete_ok (s : BoltStore DB) a id :
  holds (db s) a →
  (Delete s id).2 = (Store.abs_delete a id).2 ∧ holds (db (Delete s id).1) (Store.abs_delete a id).1 ∨
  Store.storage_err (Delete s id).2.2 ∧ holds (db (Delete s id).1) a.
Proof.
  intros Ha. unfold Delete. rewrite (found_job _ _ _ id Ha).
  pose proof (onUpdate_ok s (deleteTx id) a _ Ha (ok_deleteTx _ _ id Ha)) as Hu.
  assert (He : (Store.abs_delete a id).2 = (bool_decide (is_Some (Store.jobs a !! id)), None)).
  { unfold Store.abs_delete. by destruct (Store.jobs a !! id). }
  rewrite He. destruct (onUpdate s (deleteTx id)). simpl in *. destruct Hu as [[-> ?]|?]; auto.
Qed.

Lemma AddCron_ok (s : BoltStore DB) a c :
  holds (db s) a → in_int64 (CronPriority c) →
  (AddCron s c).2 = None ∧ holds (db (AddCron s c).1) (Store.abs_addCron Utf8.Sanitize a c).1 ∨
  Store.storage_err (AddCron s c).2 ∧ holds (db (AddCron s c).1) a.
Proof.
  intros Ha Hc. apply onUpdate_ok; [done|]. eapply ok_try.
  { by apply (ok_marshal (A := CronJob)). }
  intros v Hv. destruct Ha as (Hr & Ht & Hd & Hct & Hk & Hi).
  eapply ok_mono; [apply ok_put; [done|member]|]. intros d Hw. split; [by apply Hw|].
  split_and!; simpl; try elsewhere Hw. by apply (cron_table_put _ _ _ _ _ _ Hw).
Qed.

Lemma DeleteCron_ok (s : BoltStore DB) a id :
  holds (db s) a →
  (DeleteCron s id).2 = (Store.abs_deleteCron a id).2 ∧
    holds (db (DeleteCron s id).1) (Store.abs_deleteCron a id).1 ∨
  Store.storage_err (DeleteCron s id).2.2 ∧ holds (db (DeleteCron s id).1) a.
Proof.
  intros Ha. unfold DeleteCron. match goal with |- context [onUpdate s ?fn] => set (f := fn) end.
  assert (Hf : ok (λ d, holds d (Store.abs_deleteCron a id).1) (f (db s)) ∧
    (Store.abs_deleteCron a id).2 =
      (is_open (db s) && bool_decide (is_Some (bget (db s) cronBucket id)), None)).
  { pose proof Ha as (Hr & Ht & Hd & Hc & Hk & Hi). rewrite (proj1 Hr). subst f. cbv beta.
    specialize (Hc id) as Hid. unfold Store.abs_deleteCron.
    destruct (Store.crons a !! id) as [c|]; inversion Hid; [|done]. split; [|done].
    destruct (del_wrote (db s) cronBucket id) as (d & -> & Hw); [done|member|].
    split; [by apply Hw|]. split_and!; simpl; try elsewhere Hw.
    by apply (cron_table_del _ _ _ _ Hw). }
  destruct Hf as [Hf ->]. pose proof (onUpdate_ok s f a _ Ha Hf) as Hu.
  destruct (onUpdate s f). simpl in *. destruct Hu as [[-> ?]|?]; auto.
Qed.

Lemma AddDLQ_ok (s : BoltStore DB) a j :
  holds (db s) a → Codec.ints_ok j →
  (AddDLQ s j).2 = None ∧ holds (db (AddDLQ s j).1) (Store.abs_addDLQ Utf8.Sanitize a j).1 ∨
  Store.storage_err (AddDLQ s j).2 ∧ holds (db (AddDLQ s j).1) a.
Proof.
  intros Ha Hj. apply onUpdate_ok; [done|]. eapply ok_try.
  { by apply (ok_marshal (A := Job)). }
  intros v Hv. destruct Ha as (Hr & Ht & Hd & Hc & Hk & Hi).
  eapply ok_mono; [apply ok_put; [done|member]|]. intros d Hw. split; [by apply Hw|].
  split_and!; simpl; try elsewhere Hw. by apply (table_put _ _ _ _ _ _ Hw).
Qed.

(** *** Reading *)

(** A loop over a bucket that decodes the entries of a map. *)
Lemma collect_map {K A} `{Countable K} (kf : K → string) `{!Inj (=) (=) kf} f (m : gmap K A)
    (kvs : list (string * list ascii)) :
  NoDup kvs.*1 →
  (∀ k v, (k, v) ∈ kvs → ∃ i x, k = kf i ∧ m !! i = Some x ∧ f k v = inl (Some x)) →
  (∀ i x, m !! i = Some x → kf i ∈ kvs.*1) →
  ∃ l, collect f kvs = (l, None) ∧ l ≡ₚ (map_to_list m).*2.
Proof.
  intros Hnd Hin Hall.
  assert (∃ ps, collect f kvs = (ps.*2, None) ∧ kvs.*1 = kf <$> ps.*1 ∧
    ∀ p, p ∈ ps → m !! p.1 = Some p.2) as (ps & Hc & Hk & Hps).
  { clear Hnd Hall. induction kvs as [|[k v] kvs IH].
    { exists []. split_and!; [done..|]. by intros p ?%elem_of_nil. }
    destruct IH as (ps & Hc & Hk & Hps). { intros k' v' ?. apply Hin. by right. }
    destruct (Hin k v) as (i & x & -> & Hi & Hf); [by left|]. exists ((i, x) :: ps).
    cbn [collect]. rewrite Hf, Hc, !fmap_cons, Hk. split_and!; [done..|]. intros p [->|Hp]%elem_of_cons; [done|auto]. }
  exists ps.*2. split; [done|]. apply Permutation_map. rewrite Hk in Hnd.
  apply NoDup_fmap_1 in Hnd. apply NoDup_Permutation.
  - by eapply NoDup_fmap_1.
  - apply NoDup_map_to_list.
  - intros [i x]. rewrite elem_of_map_to_list. split; [apply Hps|]. intros Hi.
    pose proof (Hall i x Hi) as Hx. rewrite Hk in Hx.
    apply list_elem_of_fmap in Hx as (i' & Hi'%(inj kf) & Hx). subst.
    apply list_elem_of_fmap in Hx as ([i2 y] & -> & Hx). simpl in *.
    pose proof (Hps _ Hx). simpl in *. congruence.
Qed.

Lemma elem_of_entries d b k v : bget d b k = Some v → k ∈ (entries d b).*1.
Proof. intros Hk. apply list_elem_of_fmap. exists (k, v). by rewrite entries_lookup. Qed.

Lemma collect_table d b m :
  table d b m →
  ∃ l, collect (λ _, unmarshalled) (entries d b) = (l, None) ∧ l ≡ₚ (map_to_list m).*2.
Proof.
  intros (H1 & H2 & _). apply (collect_map key).
  - apply entries_NoDup.
  - intros k v Hk%entries_lookup. destruct (H2 k) as [id ->]; [done|].
    specialize (H1 id). rewrite Hk in H1. inversion H1 as [? j Hj Hv Hm|]; subst.
    exists id, j. unfold unmarshalled. by rewrite Hj.
  - intros id j Hj. specialize (H1 id). rewrite Hj in H1. inversion H1. by eapply elem_of_entries.
Qed.

Lemma collect_crons d m :
  cron_table d m →
  ∃ l, collect (λ _, unmarshalled) (entries d cronBucket) = (l, None) ∧ l ≡ₚ (map_to_list m).*2.
Proof.
  intros H1. apply (collect_map (K := string) id).
  - apply entries_NoDup.
  - intros k v Hk%entries_lookup. specialize (H1 k). rewrite Hk in H1.
    inversion H1 as [? c Hc Hv Hm|]; subst. exists k, c. unfold unmarshalled. by rewrite Hc.
  - intros k c Hc. specialize (H1 k). rewrite Hc in H1. inversion H1. by eapply elem_of_entries.
Qed.

Lemma map_to_list_byStatus a st :
  (map_to_list (filter (λ e : Z * Job, JStatus e.2 = st) (Store.jobs a))).*2 ≡ₚ Store.abs_byStatus a st.
Proof.
  unfold Store.abs_byStatus. apply Permutation_map. rewrite map_filter_alt.
  apply map_to_list_to_map, NoDup_fmap_2_strong.
  - intros [k1 j1] [k2 j2] [_ H1]%list_elem_of_filter [_ H2]%list_elem_of_filter Heq. simpl in Heq. subst.
    apply elem_of_map_to_list in H1, H2. congruence.
  - apply NoDup_filter, NoDup_map_to_list.
Qed.

Lemma ListByStatus_ok (s : BoltStore DB) a st :
  holds (db s) a → known_status st = true →
  ∃ l, ListByStatus s st = (l, None) ∧ l ≡ₚ Store.abs_byStatus a st.
Proof.
  intros Ha Hst. pose proof Ha as (Hr & _ & _ & _ & _ & Hi).
  setoid_rewrite <-map_to_list_byStatus. unfold ListByStatus, ViewTx. rewrite (proj1 Hr).
  destruct (getStatusBucket_known st Hst) as [b Hb]. rewrite Hb. specialize (Hi st b Hb).
  apply (collect_map key).
  - apply entries_NoDup.
  - intros k v Hk%entries_lookup. destruct (proj1 (Hi k)) as (id & -> & j & Hj & Hs); [done|].
    pose proof (get_job _ _ _ id Ha) as Hg. rewrite Hj in Hg. destruct Hg as (w & -> & Hu & _).
    exists id, j. unfold unmarshalled. rewrite Hu. split_and!; [done| |done].
    by apply map_lookup_filter_Some.
  - intros id j [Hj Hs]%map_lookup_filter_Some. destruct (proj2 (Hi (key id))) as [v Hv]; [|by eapply elem_of_entries].
    exists id. split; [done|]. by exists j.
Qed.

Lemma Find_ok (s : BoltStore DB) a k : holds (db s) a → FindByIdempotencyKey s k = Store.abs_find a k.
Proof.
  intros Ha. pose proof Ha as (Hr & _ & _ & _ & (Hk & Hid) & _).
  unfold FindByIdempotencyKey, Store.abs_find. case_decide; [done|]. rewrite (proj1 Hr), Hk by done.
  specialize (Hid k). destruct (Store.idem a !! k) as [id|]; [|done]. simpl.
  rewrite Codec.of_bytes_str, Atoi_Itoa by auto. simpl.
  pose proof (get_job _ _ _ id Ha) as Hg. destruct (Store.jobs a !! id).
  - destruct Hg as (v & -> & Hu & _). done.
  - by rewrite Hg.
Qed.

Lemma Get_ok (s : BoltStore DB) a id : holds (db s) a → Get s id = Store.jobs a !! id.
Proof.
  intros Ha. unfold Get. rewrite (proj1 (proj1 Ha)). pose proof (get_job _ _ _ id Ha) as Hg.
  destruct (Store.jobs a !! id); [destruct Hg as (v & -> & Hu & _); exact Hu|by rewrite Hg].
Qed.

Lemma holds_wf d a : holds d a → Store.abs_wf a.
Proof. intros (_ & (_ & _ & H1) & (_ & _ & H2) & _). split; intros id j Hj; [by apply H1|by apply H2]. Qed.

(** The persistent store keeps the promises of the interface. *)
#[global] Instance BoltStore_laws : Store.StoreLaws (BoltStore DB).
Proof.
  refine {| Store.norm := Utf8.Sanitize; Store.storable := Codec.ints_ok;
            Store.storable_cron c := in_int64 (CronPriority c);
            Store.rel s a := holds (db s) a |}.
  - intros x. unfold Utf8.Sanitize.
    by rewrite String.list_ascii_of_string_of_list_ascii, Utf8.sanitize_idemp.
  - intros st Hst. by apply sanitize_known.
  - intros s a. apply holds_wf.
  - intros s a id. apply Get_ok.
  - intros s a Ha. simpl. unfold List, ViewTx. rewrite (proj1 (proj1 Ha)).
    destruct (collect_table _ _ _ (proj1 (proj2 Ha))) as (l & -> & Hl). done.
  - intros s a st l Ha Hst Hl. destruct (ListByStatus_ok s a st Ha Hst) as (l' & Hl' & Hp).
    change (ListByStatus s st = (l, None)) in Hl. rewrite Hl' in Hl. by injection Hl as <-.
  - intros s a k. apply Find_ok.
  - intros s a l Ha Hl. change (ListDLQ s = (l, None)) in Hl. unfold ListDLQ, ViewTx in Hl. rewrite (proj1 (proj1 Ha)) in Hl.
    destruct (collect_table _ _ _ (proj1 (proj2 (proj2 Ha)))) as (l' & Hl' & Hp).
    rewrite Hl' in Hl. by injection Hl as <-.
  - intros s a l Ha Hl. change (ListCrons s = (l, None)) in Hl. unfold ListCrons, ViewTx in Hl. rewrite (proj1 (proj1 Ha)) in Hl.
    destruct (collect_crons _ _ (proj1 (proj2 (proj2 (proj2 Ha))))) as (l' & Hl' & Hp).
    rewrite Hl' in Hl. by injection Hl as <-.
  - intros s a j. apply Add_ok.
  - intros s a j. apply Update_ok.
  - intros s a id. apply Delete_ok.
  - intros s a id. apply Cancel_ok.
  - intros s a j. apply AddDLQ_ok.
  - intros s a c. apply AddCron_ok.
  - intros s a id. apply DeleteCron_ok.
Defined.

(** ** Opening *)

(** Creating the buckets changes no contents and gives every bucket. *)
Lemma createBuckets_spec d d' :
  createBuckets d = inl d' →
  is_open d' = is_open d ∧ (∀ b k, bget d' b k = bget d b k) ∧
  ∀ b, b ∈ buckets → has_bucket d' b = true.
Proof.
  unfold createBuckets.
  assert (Hgen : ∀ (bs : list string) r d', foldl (λ r b, try d := r in storage (create d b)) r bs = inl d' →
    ∃ d0, r = inl d0 ∧ is_open d' = is_open d0 ∧ (∀ b k, bget d' b k = bget d0 b k) ∧
      ∀ b, b ∈ bs ∨ has_bucket d0 b = true → has_bucket d' b = true).
  { clear d d'. induction bs as [|b bs IH]; intros r d' Hf; simpl in Hf.
    { exists d'. split_and!; try done. intros b [?%elem_of_nil|?]; done. }
    destruct (IH _ _ Hf) as (d1 & E & Ho & Hg & Hb). destruct r as [d0|e]; simpl in E; [|done].
    exists d0. split; [done|]. destruct (create d0 b) as [d2|] eqn:Ec; simplify_eq/=.
    destruct (create_shape _ _ _ Ec) as [Ho' Hb']. split; [congruence|]. split.
    - intros b' k. rewrite Hg. by eapply create_lookup.
    - intros b' Hin. apply Hb. rewrite Hb'. rewrite elem_of_cons in Hin.
      destruct Hin as [[->|?]| ->]; [right; by rewrite bool_decide_eq_true_2|by left|right].
      apply orb_true_r. }
  intros Hf. destruct (Hgen _ _ _ Hf) as (d0 & [= <-] & Ho & Hg & Hb). auto.
Qed.

Lemma NewBoltStore_spec d s :
  NewBoltStore (inl d) = inl s →
  ready (db s) ∧ ∀ b k, bget (db s) b k = bget d b k.
Proof.
  unfold NewBoltStore, UpdateTx. simpl. destruct (is_open d) eqn:Ho; [|done].
  destruct (createBuckets d) as [d'|e] eqn:E; [|done].
  destruct (createBuckets_spec _ _ E) as (Ho' & Hg & Hb).
  destruct (commit d'); [done|]. intros [= <-]. split; [|done]. split; [simpl; congruence|done].
Qed.

(** The contents depend on the buckets only. *)
Lemma holds_ext d d' a : ready d' → (∀ b k, bget d' b k = bget d b k) → holds d a → holds d' a.
Proof.
  intros Hr Hg (_ & Ht & Hd & Hc & Hk & Hi). split; [done|]. split_and!.
  - by apply (table_ext d).
  - by apply (table_ext d).
  - by apply (cron_table_ext d).
  - by apply (key_table_ext d).
  - by apply (indexed_ext d).
Qed.

Lemma new_holds d s :
  (∀ b k, bget d b k = None) → NewBoltStore (inl d) = inl s → holds (db s) Store.empty.
Proof.
  intros He Hn. destruct (NewBoltStore_spec d s Hn) as [Hr Hg].
  assert (Hg' : ∀ b k, bget (db s) b k = None) by (intros; by rewrite Hg).
  split; [done|]. split_and!; simpl.
  - split; [intros id; rewrite Hg', lookup_empty; constructor|].
    split; [intros k; rewrite Hg'; by intros []|intros id j Hj; by rewrite lookup_empty in Hj].
  - split; [intros id; rewrite Hg', lookup_empty; constructor|].
    split; [intros k; rewrite Hg'; by intros []|intros id j Hj; by rewrite lookup_empty in Hj].
  - intros k. rewrite Hg', lookup_empty. constructor.
  - split; [intros k _; by rewrite Hg', lookup_empty|intros k id Hk; by rewrite lookup_empty in Hk].
  - intros st b _ k. rewrite Hg'. split; [by intros []|]. intros (id & _ & j & Hj & _).
    by rewrite lookup_empty in Hj.
Qed.

(** C8. The persistent store implements the abstract store: from a new
    database, any sequence of calls answers what the abstract store answers,
    except that a call may fail in storage and then has no effect, and every
    lookup and every listing afterwards shows the contents of the abstract
    store, strings with invalid bytes replaced. *)
Theorem bolt_store_refines d s os :
  (∀ b k, bget d b k = None) → NewBoltStore (inl d) = inl s → Store.admissible_all s os →
  let '(s', rs) := Store.exec_all s os in
  ∃ a, Store.abs_run Store.empty os rs a ∧
    (∀ id, Get s' id = Store.jobs a !! id) ∧
    (∀ k, FindByIdempotencyKey s' k = Store.abs_find a k) ∧
    (∀ st, known_status st = true →
       ∃ l, ListByStatus s' st = (l, None) ∧ l ≡ₚ Store.abs_byStatus a st) ∧
    (∃ l, ListDLQ s' = (l, None) ∧ l ≡ₚ (map_to_list (Store.dlq a)).*2) ∧
    (∃ l, ListCrons s' = (l, None) ∧ l ≡ₚ (map_to_list (Store.crons a)).*2).
Proof.
  intros He Hn Hs. assert (H0 : Store.rel s Store.empty) by exact (new_holds d s He Hn).
  destruct (Store.exec_all_run s Store.empty os H0 Hs) as (a & Ha & Hr).
  destruct (Store.exec_all s os) as [s' rs]. exists a. change (holds (db s') a) in Hr.
  pose proof Hr as ((Ho & _) & _ & Hd & Hc & _). split; [done|]. split_and!.
  - intros id. by apply Get_ok.
  - intros k. by apply Find_ok.
  - intros st. by apply ListByStatus_ok.
  - unfold ListDLQ, ViewTx. rewrite Ho. by apply collect_table.
  - unfold ListCrons, ViewTx. rewrite Ho. by apply collect_crons.
Qed.

(** Jobs survive a restart: a store opened on a database with the buckets
    of [s] answers every lookup and lists every status as [s] did. *)
Theorem bolt_persists s a d s' :
  Store.rel s a → (∀ b k, bget d b k = bget (db s) b k) → NewBoltStore (inl d) = inl s' →
  (∀ id, Get s' id = Get s id) ∧
  (∀ k, FindByIdempotencyKey s' k = FindByIdempotencyKey s k) ∧
  (∀ st, known_status st = true → (ListByStatus s' st).1 ≡ₚ (ListByStatus s st).1).
Proof.
  intros Ha Hg Hn. change (holds (db s) a) in Ha. destruct (NewBoltStore_spec d s' Hn) as [Hr Hg'].
  assert (Ha' : holds (db s') a).
  { apply (holds_ext (db s)); [done| |done]. intros b k. by rewrite Hg', Hg. }
  split_and!.
  - intros id. by rewrite (Get_ok s' a), (Get_ok s a).
  - intros k. by rewrite (Find_ok s' a), (Find_ok s a).
  - intros st Hst. destruct (ListByStatus_ok s a st Ha Hst) as (l & -> & Hl).
    destruct (ListByStatus_ok s' a st Ha' Hst) as (l' & -> & Hl'). simpl. by rewrite Hl, Hl'.
Qed.
End Rel.

(** ** A database to run the theorems on *)

(** Buckets as maps; [Put] refuses the keys bbolt refuses. *)
Record MapDB := mkMapDB { opened : bool; tree : gmap string (gmap string (list ascii)) }.

Definition map_bucket (d : MapDB) (b : string) : gmap string (list ascii) := default ∅ (tree d !! b).

#[global] Instance MapDB_bbolt : Bbolt MapDB := {|
  is_open := opened;
  has_bucket d b := bool_decide (is_Some (tree d !! b));
  bget d b k := map_bucket d b !! k;
  entries d b := map_to_list (map_bucket d b);
  bput d b k v :=
    if decide (k = "") then inr "key required"
    else if decide (32768 < Z.of_nat (String.length k))%Z then inr "key too large"
    else inl (mkMapDB (opened d) (<[b := <[k := v]> (map_bucket d b)]> (tree d)));
  bdel d b k := inl (mkMapDB (opened d) (<[b := delete k (map_bucket d b)]> (tree d)));
  create d b := inl (mkMapDB (opened d) (<[b := map_bucket d b]> (tree d)));
  commit _ := None;
  close d := mkMapDB false (tree d)
|}.

Lemma map_bucket_insert o t b m b' :
  map_bucket (mkMapDB o (<[b := m]> t)) b' = if decide (b' = b) then m else default ∅ (t !! b').
Proof.
  unfold map_bucket. simpl. rewrite lookup_insert.
  destruct (decide (b = b')), (decide (b' = b)); congruence || done.
Qed.

Lemma has_bucket_insert (t : gmap string (gmap string (list ascii))) b m b' :
  bool_decide (is_Some (<[b := m]> t !! b')) = (bool_decide (b' = b) || bool_decide (is_Some (t !! b'))).
Proof.
  apply eq_true_iff_eq. rewrite orb_true_iff, !bool_decide_eq_true, lookup_insert_is_Some.
  destruct (decide (b = b')); naive_solver.
Qed.

Lemma has_bucket_insert_same (t : gmap string (gmap string (list ascii))) b m b' :
  bool_decide (is_Some (t !! b)) = true →
  bool_decide (is_Some (<[b := m]> t !! b')) = bool_decide (is_Some (t !! b')).
Proof.
  intros Hb. rewrite has_bucket_insert. destruct (decide (b' = b)) as [->|].
  - by rewrite Hb, orb_true_r.
  - by rewrite (bool_decide_eq_false_2 (b' = b)).
Qed.

#[global] Instance MapDB_laws : BboltLaws MapDB.
Proof.
  split; simpl.
  - intros d b. apply NoDup_fst_map_to_list.
  - intros d b k v. apply elem_of_map_to_list.
  - intros d b k v d' b' k' _ Hp. do 2 (case_decide; [done|]). injection Hp as <-.
    rewrite map_bucket_insert. destruct (decide (b' = b)) as [->|].
    + rewrite lookup_insert. destruct (decide (k = k')), (decide (b = b ∧ k' = k)); naive_solver.
    + by rewrite decide_False by naive_solver.
  - intros d b k v d' Hb Hp. do 2 (case_decide; [done|]). injection Hp as <-. split; [done|].
    intros b'. by apply has_bucket_insert_same.
  - eauto.
  - intros d b k d' b' k' _ [= <-]. rewrite map_bucket_insert. destruct (decide (b' = b)) as [->|].
    + rewrite lookup_delete. destruct (decide (k = k')), (decide (b = b ∧ k' = k)); naive_solver.
    + by rewrite decide_False by naive_solver.
  - intros d b k d' Hb [= <-]. split; [done|]. intros b'. by apply has_bucket_insert_same.
  - intros d b d' b' k' [= <-]. rewrite map_bucket_insert. by case_decide; subst.
  - intros d b d' [= <-]. split; [done|]. intros b'. apply has_bucket_insert.
Qed.

Section Witnesses.

#[local] Instance utc : Zones := λ _, 0%Z.
#[local] Instance utc_ok : ZonesOk.
Proof. intros t. done. Qed.

Definition fresh_db : MapDB := mkMapDB true ∅.

Definition opened_store : BoltStore MapDB :=
  match NewBoltStore (inl fresh_db) with inl s => s | inr _ => mkBolt fresh_db end.

Lemma opened_store_ok : NewBoltStore (inl fresh_db) = inl opened_store.
Proof. vm_compute. reflexivity. Qed.

(** Two jobs are added, one completes and the other is deleted. *)
Definition history : list Store.op :=
  let j := with_key (NewJob 1 "email" 5) "k" in
  [Store.OAdd j; Store.OAdd (NewJob 2 "report" 3); Store.OUpdate (with_status j Completed);
   Store.ODelete 2; Store.OCancel 1].

Lemma history_admissible : Store.admissible_all opened_store history.
Proof.
  unfold history. cbv zeta. cbn [Store.admissible_all Store.admissible].
  repeat match goal with |- _ ∧ _ => split end;
    match goal with
    | |- Store.Get _ _ = None => vm_compute; reflexivity
    | |- Store.storable _ => repeat split; vm_compute; discriminate
    | |- True => exact I
    end.
Qed.

Lemma bolt_store_refines_witness :
  let '(s', rs) := Store.exec_all opened_store history in
  ∃ a, Store.abs_run Store.empty history rs a ∧
    (∀ id, Get s' id = Store.jobs a !! id) ∧
    (∀ k, FindByIdempotencyKey s' k = Store.abs_find a k) ∧
    (∀ st, known_status st = true →
       ∃ l, ListByStatus s' st = (l, None) ∧ l ≡ₚ Store.abs_byStatus a st) ∧
    (∃ l, ListDLQ s' = (l, None) ∧ l ≡ₚ (map_to_list (Store.dlq a)).*2) ∧
    (∃ l, ListCrons s' = (l, None) ∧ l ≡ₚ (map_to_list (Store.crons a)).*2).
Proof.
  assert (He : ∀ b k, bget fresh_db b k = None) by (intros b k; apply lookup_empty).
  pose proof (bolt_store_refines fresh_db opened_store history He opened_store_ok history_admissible) as Hw.
  exact Hw.
Defined.

(** The database at the end of that history, closed and opened again. *)
Definition reopened : BoltStore MapDB := (Store.exec_all opened_store history).1.

Definition reopen (s : BoltStore MapDB) : MapDB := mkMapDB true (tree (db s)).

Lemma reopen_bget s b k : bget (reopen s) b k = bget (db s) b k.
Proof. done. Qed.

Lemma bolt_persists_witness :
  ∃ s', NewBoltStore (inl (reopen reopened)) = inl s' ∧
    (∀ id, Get s' id = Get reopened id) ∧
    (∀ k, FindByIdempotencyKey s' k = FindByIdempotencyKey reopened k) ∧
    (∀ st, known_status st = true → (ListByStatus s' st).1 ≡ₚ (ListByStatus reopened st).1).
Proof.
  assert (Hr : ∃ a, Store.rel reopened a).
  { assert (He : ∀ b k, bget fresh_db b k = None) by (intros b k; apply lookup_empty).
    assert (H0 : Store.rel opened_store Store.empty) by exact (new_holds fresh_db _ He opened_store_ok).
    destruct (Store.exec_all_run _ _ _ H0 history_admissible) as (a & _ & Hr). by exists a. }
  assert (Hn : ∃ s', NewBoltStore (inl (reopen reopened)) = inl s') by (vm_compute; eexists; reflexivity).
  destruct Hr as [a Hr], Hn as [s' Hn]. exists s'. split; [exact Hn|].
  exact (bolt_persists reopened a (reopen reopened) s' Hr (reopen_bget reopened) Hn).
Defined.

(** Adding a job under an id in use replaces the job, where the in-memory store
    refuses, and leaves the id in the bucket of the old status: the listing of
    the completed jobs now shows a pending one. *)
Example add_overwrites :
  let '(s, e) := Add reopened (NewJob 1 "email" 9) in
  e = None ∧ Get s 1 = Some (NewJob 1 "email" 9) ∧
  ListByStatus s Completed = ([NewJob 1 "email" 9], None) ∧
  JStatus (NewJob 1 "email" 9) = Pending.
Proof. vm_compute. split_and!; reflexivity. Qed.
End Witnesses.

End BoltStore.
