(* ===== verification/Broker.v ===== *)
(** * Topic routing: [internal/broker/broker.go], [internal/worker/client.go]

    The broker records which job types a worker subscribed to and picks, from
    the channel of idle workers, the first one that can run a job. *)

From S2P Require Import Prelude Job GoStrings.

(** The two implementations of [worker.WorkerClient]: an in-process worker and
    the proxy of a registered worker process. *)
Inductive WorkerClient :=
  | LocalWorker (id : Z)
  | RemoteWorker (id : Z) (address : string).

#[export] Instance WorkerClient_eq_dec : EqDecision WorkerClient.
Proof. solve_decision. Defined.

(** [WorkerClient.ID]. *)
Definition WID (w : WorkerClient) : Z :=
  match w with LocalWorker id => id | RemoteWorker id _ => id end.

Module Broker.

Record Broker := mkBroker {
  workerTopics : gmap Z (gmap string unit);
  workerIsAll : gmap Z bool
}.

Definition New : Broker := mkBroker ∅ ∅.

(** The loop of [RegisterWorker] over the topics: the topic set so far and
    whether a wildcard stopped it. *)
Fixpoint topicLoop (topics : list string) (topicSet : gmap string unit) (isAll : bool)
  : gmap string unit * bool :=
  match topics with
  | [] => (topicSet, isAll)
  | t :: topics =>
      let trimmed := GoStrings.TrimSpace t in
      if decide (trimmed = "*" ∨ trimmed = "all" ∨ trimmed = "") then (topicSet, true)
      else topicLoop topics (<[trimmed := tt]> topicSet) isAll
  end.

Definition RegisterWorker (b : Broker) (workerID : Z) (topics : list string) : Broker :=
  let '(topicSet, isAll) := topicLoop topics ∅ (bool_decide (length topics = 0)) in
  mkBroker (<[workerID := topicSet]> (workerTopics b)) (<[workerID := isAll]> (workerIsAll b)).

Definition UnregisterWorker (b : Broker) (workerID : Z) : Broker :=
  mkBroker (delete workerID (workerTopics b)) (delete workerID (workerIsAll b)).

Definition CanHandle (b : Broker) (workerID : Z) (jobType : string) : bool :=
  if default false (workerIsAll b !! workerID) then true
  else match workerTopics b !! workerID with
       | None => true
       | Some topics => bool_decide (is_Some (topics !! jobType))
       end.

(** Putting skipped workers back, each with a non-blocking send. *)
Definition requeue (c : chan WorkerClient) (ws : list WorkerClient) : chan WorkerClient :=
  foldl (λ c w, (try_send c w).1) c ws.

(** The scan: at most [n] receives, [skipped] in the order they were taken. *)
Fixpoint selectLoop (b : Broker) (jobType : string) (n : nat) (c : chan WorkerClient)
    (skipped : list WorkerClient) : option WorkerClient * chan WorkerClient :=
  match n with
  | 0 => (None, requeue c skipped)
  | S n =>
      match try_recv c with
      | None => (None, requeue c skipped)
      | Some (w, c') =>
          if CanHandle b (WID w) jobType then (Some w, requeue c' skipped)
          else selectLoop b jobType n c' (skipped ++ [w])
      end
  end.

Definition SelectWorker (b : Broker) (jobType : string) (c : chan WorkerClient)
  : option WorkerClient * chan WorkerClient :=
  let n := length (buf c) in
  if decide (n = 0) then (None, c) else selectLoop b jobType n c [].

(** ** Facts *)

Lemma requeue_room c ws :
  length (buf c) + length ws ≤ cap c → requeue c ws = Chan (buf c ++ ws) (cap c).
Proof.
  revert c. induction ws as [|w ws IH]; intros c Hroom; simpl in *.
  { rewrite app_nil_r. by destruct c. }
  unfold requeue. simpl. fold (requeue (try_send c w).1 ws).
  rewrite try_send_room by lia. simpl. rewrite IH; simpl.
  - by rewrite <-app_assoc.
  - rewrite length_app. simpl. lia.
Qed.

(** The first capable worker of the buffer, with what stands before and after
    it. *)
Lemma selectLoop_found b ty pre w post k skipped :
  Forall (λ w, CanHandle b (WID w) ty = false) pre →
  CanHandle b (WID w) ty = true →
  length (pre ++ w :: post) + length skipped ≤ k →
  selectLoop b ty (length (pre ++ w :: post)) (Chan (pre ++ w :: post) k) skipped =
    (Some w, Chan (post ++ skipped ++ pre) k).
Proof.
  intros Hpre Hw. revert skipped. induction Hpre as [|x pre Hx Hpre IH]; intros skipped Hk.
  - simpl. rewrite Hw. rewrite requeue_room by (simpl in *; lia). simpl.
    by rewrite app_nil_r.
  - simpl. rewrite Hx. rewrite IH.
    + by rewrite <-app_assoc.
    + rewrite (length_app skipped). simpl in *. lia.
Qed.

Lemma selectLoop_none b ty ws k skipped :
  Forall (λ w, CanHandle b (WID w) ty = false) ws →
  length ws + length skipped ≤ k →
  selectLoop b ty (length ws) (Chan ws k) skipped = (None, Chan (skipped ++ ws) k).
Proof.
  intros Hws. revert skipped. induction Hws as [|x ws Hx Hws IH]; intros skipped Hk.
  - simpl. rewrite requeue_room by (simpl in *; lia). simpl. by rewrite app_nil_r.
  - simpl. rewrite Hx, IH.
    + by rewrite <-app_assoc.
    + rewrite (length_app skipped). simpl in *. lia.
Qed.

Lemma SelectWorker_found b ty pre w post k :
  Forall (λ w, CanHandle b (WID w) ty = false) pre →
  CanHandle b (WID w) ty = true → length (pre ++ w :: post) ≤ k →
  SelectWorker b ty (Chan (pre ++ w :: post) k) = (Some w, Chan (post ++ pre) k).
Proof.
  intros Hpre Hw Hk. unfold SelectWorker. rewrite decide_False.
  - simpl buf. rewrite selectLoop_found by (done || (simpl; lia)). done.
  - simpl. rewrite length_app. simpl. lia.
Qed.

Lemma SelectWorker_none b ty ws k :
  Forall (λ w, CanHandle b (WID w) ty = false) ws → length ws ≤ k →
  SelectWorker b ty (Chan ws k) = (None, Chan ws k).
Proof.
  intros Hws Hk. unfold SelectWorker. case_decide; [done|].
  simpl buf. rewrite selectLoop_none by (done || (simpl; lia)). done.
Qed.

(** The two cases are exhaustive. *)
Lemma select_cases b ty (ws : list WorkerClient) :
  Forall (λ w, CanHandle b (WID w) ty = false) ws ∨
  ∃ pre w post, ws = pre ++ w :: post ∧
    Forall (λ w, CanHandle b (WID w) ty = false) pre ∧ CanHandle b (WID w) ty = true.
Proof.
  induction ws as [|w ws IH]; [by left|]. destruct (CanHandle b (WID w) ty) eqn:E.
  - right. by exists [], w, ws.
  - destruct IH as [?|(pre & x & post & -> & ? & ?)]; [left; by constructor|].
    right. exists (w :: pre), x, post. split; [done|]. split; [by constructor|done].
Qed.

(** What a selection gives, whichever case applies. *)
Lemma SelectWorker_cases b ty c :
  chan_ok c →
  (∃ w c', SelectWorker b ty c = (Some w, c') ∧ CanHandle b (WID w) ty = true ∧
           buf c ≡ₚ w :: buf c' ∧ cap c' = cap c) ∨
  (SelectWorker b ty c = (None, c) ∧ Forall (λ w, CanHandle b (WID w) ty = false) (buf c)).
Proof.
  destruct c as [ws k]. unfold chan_ok. simpl. intros Hk.
  destruct (select_cases b ty ws) as [Hn|(pre & w & post & -> & Hpre & Hw)].
  - right. split; [by apply SelectWorker_none|done].
  - left. rewrite (SelectWorker_found b ty pre w post k) by done.
    eexists _, _. split; [done|]. split; [done|]. split; [|done].
    simpl. rewrite <-Permutation_middle. by rewrite Permutation_app_comm.
Qed.

Lemma topicLoop_isAll topics set : (topicLoop topics set true).2 = true.
Proof. revert set. induction topics; intros; simpl; [done|]. by case_decide. Qed.

(** Without a wildcard entry the set collects the trimmed topics. *)
Definition wildcard (t : string) : Prop :=
  GoStrings.TrimSpace t = "*" ∨ GoStrings.TrimSpace t = "all" ∨ GoStrings.TrimSpace t = "".

#[global] Instance wildcard_dec t : Decision (wildcard t).
Proof. unfold wildcard. apply _. Defined.

Lemma topicLoop_topics topics set isAll :
  Forall (λ t, ¬ wildcard t) topics →
  (topicLoop topics set isAll).2 = isAll ∧
  ∀ t, is_Some ((topicLoop topics set isAll).1 !! t) ↔
         is_Some (set !! t) ∨ t ∈ GoStrings.TrimSpace <$> topics.
Proof.
  intros Hw. revert set. induction Hw as [|x topics Hx Hw IH]; intros set; simpl.
  { set_solver. }
  rewrite decide_False by done. destruct (IH (<[GoStrings.TrimSpace x := tt]> set)) as [Ha Ht].
  split; [done|]. intros t. rewrite Ht, lookup_insert_is_Some', elem_of_cons. naive_solver.
Qed.

Lemma topicLoop_wildcard topics set isAll :
  Exists wildcard topics → (topicLoop topics set isAll).2 = true.
Proof.
  intros Hw. revert set. induction Hw as [x topics Hx|x topics Hw IH]; intros set; simpl.
  - by rewrite decide_True.
  - by case_decide.
Qed.

(** Worker selection: the first worker of the idle channel that can run the
    job is taken, the incapable ones before it go to the back in their order,
    and no worker is lost; if none can run it the channel is as before. *)
Theorem SelectWorker_correct b ty c :
  chan_ok c →
  match SelectWorker b ty c with
  | (Some w, c') => ∃ pre post,
      buf c = pre ++ w :: post ∧ Forall (λ w, CanHandle b (WID w) ty = false) pre ∧
      CanHandle b (WID w) ty = true ∧ c' = Chan (post ++ pre) (cap c)
  | (None, c') => c' = c ∧ Forall (λ w, CanHandle b (WID w) ty = false) (buf c)
  end.
Proof.
  destruct c as [ws k]. unfold chan_ok. simpl. intros Hk.
  destruct (select_cases b ty ws) as [Hn|(pre & w & post & -> & Hpre & Hw)].
  - by rewrite SelectWorker_none.
  - rewrite (SelectWorker_found b ty pre w post k) by done. by exists pre, post.
Qed.

Lemma SelectWorker_correct_witness :
  let b := RegisterWorker (RegisterWorker New 1 ["email"]) 2 ["sms"; "push"] in
  ∃ pre post, [LocalWorker 1; LocalWorker 2] = pre ++ LocalWorker 2 :: post ∧
    Forall (λ w, CanHandle b (WID w) "push" = false) pre ∧
    CanHandle b (WID (LocalWorker 2)) "push" = true ∧
    Chan [LocalWorker 1] 100 = Chan (post ++ pre) 100.
Proof.
  refine (SelectWorker_correct (RegisterWorker (RegisterWorker New 1 ["email"]) 2 ["sms"; "push"])
    "push" (Chan [LocalWorker 1; LocalWorker 2] 100) _).
  unfold chan_ok. simpl. lia.
Defined.

Lemma CanHandle_registered b id topics ty :
  CanHandle (RegisterWorker b id topics) id ty = true ↔
    topics = [] ∨ Exists wildcard topics ∨ ty ∈ GoStrings.TrimSpace <$> topics.
Proof.
  unfold RegisterWorker. destruct (topicLoop topics ∅ _) as [set all] eqn:E.
  unfold CanHandle. simpl. rewrite !lookup_insert_eq. simpl.
  destruct topics as [|t topics].
  { simplify_eq/=. tauto. }
  rewrite bool_decide_eq_false_2 in E by done.
  destruct (decide (Exists wildcard (t :: topics))) as [Hw|Hw].
  - pose proof (topicLoop_wildcard (t :: topics) ∅ false Hw) as Ha. rewrite E in Ha. simpl in Ha.
    subst all. tauto.
  - apply not_Exists_Forall in Hw; [|apply _].
    destruct (topicLoop_topics (t :: topics) ∅ false Hw) as [Ha Hs]. rewrite E in Ha, Hs.
    simpl in Ha, Hs. subst all. rewrite bool_decide_eq_true, Hs, lookup_empty.
    split; [intros [[? ?]|?]; auto; done|]. intros [?|[Hx|?]]; [done| |by right].
    apply Exists_exists in Hx as (x & Hx & Hwx). rewrite Forall_forall in Hw. by destruct (Hw x Hx).
Qed.

(** Topic routing: after a registration a worker runs exactly the types
    among its trimmed topics, or every type when it named no topic or a
    wildcard; the other workers are routed as before. *)
Theorem topic_routing b id topics ty :
  (CanHandle (RegisterWorker b id topics) id ty = true ↔
     topics = [] ∨ Exists wildcard topics ∨ ty ∈ GoStrings.TrimSpace <$> topics) ∧
  ∀ id', id' ≠ id → CanHandle (RegisterWorker b id topics) id' ty = CanHandle b id' ty.
Proof.
  split; [apply CanHandle_registered|]. intros id' Hne. unfold RegisterWorker.
  destruct (topicLoop topics ∅ _) as [set all]. unfold CanHandle. simpl. by rewrite !lookup_insert_ne.
Qed.

End Broker.
