(* ===== verification/Config.v ===== *)
(** * Configuration: [internal/config/config.go] *)

From S2P Require Import Prelude.
Local Open Scope Z_scope.

Module Config.

Record Config := mkConfig {
  WorkerCount : Z;
  WorkerID : Z;
  HeartbeatTimeout : Duration;
  MaxRetries : Z;
  MaxBackoff : Duration;
  ResultBuffer : Z;
  WorkerExecutionTimeout : Duration;
  DelayQueuePollInterval : Duration;
  RateLimit : Z;
  RateBurst : Z;
  BreakerFailureThreshold : Z;
  BreakerResetTimeout : Duration;
  ControllerGRPCPort : Z;
  WorkerGRPCPort : Z;
  StorageType : string;
  StoragePath : string;
  RaftEnabled : bool;
  RaftNodeID : string;
  RaftAddr : string;
  RaftDataDir : string;
  JWTSecret : string;
  AuthEnabled : bool
}.

(** [Default]; [getenv] is [os.Getenv], the empty string for an unset
    variable. *)
Definition Default (getenv : string → string) : Config := {|
  WorkerCount := 0;
  WorkerID := 1;
  HeartbeatTimeout := 5 * Second;
  MaxRetries := 3;
  MaxBackoff := Minute;
  ResultBuffer := 100;
  WorkerExecutionTimeout := 30 * Second;
  DelayQueuePollInterval := 500 * Millisecond;
  RateLimit := 5;
  RateBurst := 10;
  BreakerFailureThreshold := 5;
  BreakerResetTimeout := 30 * Second;
  ControllerGRPCPort := 50051;
  WorkerGRPCPort := 50052;
  StorageType := "bolt";
  StoragePath := "quorum.db";
  RaftEnabled := true;
  RaftNodeID := "node1";
  RaftAddr := "127.0.0.1:18088";
  RaftDataDir := "data/raft";
  JWTSecret :=
    if decide (getenv "QUORUM_JWT_SECRET" ≠ "") then getenv "QUORUM_JWT_SECRET"
    else if decide (getenv "JWT_SECRET" ≠ "") then getenv "JWT_SECRET"
    else "quorum-jwt-secret-key-change-in-production";
  AuthEnabled :=
    bool_decide (getenv "QUORUM_AUTH_ENABLED" = "true") ||
    bool_decide (getenv "QUORUM_AUTH_ENABLED" = "1")
|}.

End Config.
