(* ===== verification/Events.v ===== *)
(** * Event broadcasting: [internal/events/broadcaster.go]

    The process-wide broadcaster: a set of subscriber channels of capacity 100,
    each fed by non-blocking sends.  A channel of the source is a number here,
    its identity in the subscriber set. *)

From S2P Require Import Prelude.

Module Events.

Inductive EventType :=
  | EventWorkerRegistered
  | EventWorkerEvicted
  | EventJobSubmitted
  | EventLeaseGranted
  | EventLeaseReleased
  | EventLeaderChanged
  | EventQueueRebuilt
  | EventDispatchResumed
  | EventFailoverTriggered.

Record Event := mkEvent {
  EType : EventType;
  Message : string;
  Timestamp : Time
}.

Record Broadcaster := mkBroadcaster {
  subscribers : gmap nat (chan Event);
  nextChan : nat       (** the identity the next [make(chan Event, 100)] gets *)
}.

Definition Global : Broadcaster := mkBroadcaster ∅ 0.

Definition Subscribe (b : Broadcaster) : Broadcaster * nat :=
  (mkBroadcaster (<[nextChan b := Chan [] 100]> (subscribers b)) (S (nextChan b)), nextChan b).

(** [Unsubscribe]; the channel is closed, which its reader sees as the end of
    the stream. *)
Definition Unsubscribe (b : Broadcaster) (ch : nat) : Broadcaster :=
  mkBroadcaster (delete ch (subscribers b)) (nextChan b).

Definition Broadcast (b : Broadcaster) (evt : Event) (now : Time) : Broadcaster :=
  let evt := if decide (Timestamp evt = time_zero)
             then mkEvent (EType evt) (Message evt) now else evt in
  mkBroadcaster ((λ c, (try_send c evt).1) <$> subscribers b) (nextChan b).

(** A receive by the reader of [ch]. *)
Definition Receive (b : Broadcaster) (ch : nat) : option (Event * Broadcaster) :=
  match subscribers b !! ch with
  | None => None
  | Some c =>
      match try_recv c with
      | None => None
      | Some (e, c') => Some (e, mkBroadcaster (<[ch := c']> (subscribers b)) (nextChan b))
      end
  end.

(** ** Facts *)

(** The event a subscriber sees: stamped when the sender left it unstamped. *)
Definition stamped (evt : Event) (now : Time) : Event :=
  if decide (Timestamp evt = time_zero) then mkEvent (EType evt) (Message evt) now else evt.

Lemma try_send_take {A} (c : chan A) x :
  chan_ok c → (try_send c x).1 = Chan (take (cap c) (buf c ++ [x])) (cap c).
Proof.
  destruct c as [l k]. unfold chan_ok, try_send. simpl. intros Hk. case_decide; simpl.
  - by rewrite take_ge by (rewrite length_app; simpl; lia).
  - by rewrite take_app_le, take_ge by lia.
Qed.

(** Truncating after each send is truncating at the end. *)
Lemma take_after {A} k (l r : list A) x :
  take k (take k (l ++ [x]) ++ r) = take k (l ++ x :: r).
Proof.
  change (x :: r) with ([x] ++ r). rewrite (app_assoc l).
  destruct (Nat.le_ge_cases (length (l ++ [x])) k).
  - by rewrite (take_ge (l ++ [x])).
  - rewrite (take_app_le (take k (l ++ [x]))) by (rewrite length_take; lia).
    rewrite take_take, Nat.min_id. by rewrite (take_app_le (l ++ [x]) r) by lia.
Qed.

(** Broadcasting never blocks and never reorders: a subscriber that reads
    nothing holds the oldest 100 of its events, in order; the ones that did
    not fit are dropped, for it alone. *)
Theorem broadcast_keeps_oldest b evts ch c :
  subscribers b !! ch = Some c → chan_ok c →
  subscribers (foldl (λ b e, Broadcast b e.1 e.2) b evts) !! ch =
    Some (Chan (take (cap c) (buf c ++ ((λ e, stamped e.1 e.2) <$> evts))) (cap c)).
Proof.
  revert b c. induction evts as [|[e now] evts IH]; intros b c Hc Hok; cbn [foldl fmap list_fmap].
  { rewrite app_nil_r, take_ge by done. rewrite Hc. by destruct c. }
  rewrite (IH _ (Chan (take (cap c) (buf c ++ [stamped e now])) (cap c))).
  - cbn [buf cap fst snd]. do 2 f_equal. apply take_after.
  - unfold Broadcast. cbn [fst snd subscribers]. rewrite lookup_fmap, Hc. cbn [fmap option_fmap option_map].
    by rewrite try_send_take.
  - unfold chan_ok. cbn [buf cap]. rewrite length_take. lia.
Qed.

Lemma broadcast_keeps_oldest_witness :
  subscribers (foldl (λ b e, Broadcast b e.1 e.2) (Subscribe Global).1
    [(mkEvent EventJobSubmitted "a" 5, 7%Z); (mkEvent EventLeaseGranted "b" 0, 8%Z)]) !! 0%nat =
  Some (Chan [mkEvent EventJobSubmitted "a" 5; mkEvent EventLeaseGranted "b" 8] 100).
Proof.
  refine (broadcast_keeps_oldest (Subscribe Global).1
    [(mkEvent EventJobSubmitted "a" 5, 7%Z); (mkEvent EventLeaseGranted "b" 0, 8%Z)] 0%nat
    (Chan [] 100) eq_refl _). unfold chan_ok. simpl. lia.
Defined.

End Events.
