(* ===== verification/Consensus.v ===== *)
(** * The replicated state machine: [internal/consensus/fsm.go], [raft.go]

    The commands the engine proposes, the state machine every node applies
    them with, and its snapshots.  The Raft library itself is outside the
    repository: a proposal is handed to it by [Machine]. *)

From S2P Require Import Prelude Job Store MemoryStore Metrics GoStrings Utf8 Json Codec.
From Stdlib Require Import Ascii.

Module Consensus.

Definition CommandType := string.
Definition CmdAddJob : CommandType := "add_job".
Definition CmdUpdateJob : CommandType := "update_job".
Definition CmdDeleteJob : CommandType := "delete_job".
Definition CmdCancelJob : CommandType := "cancel_job".
Definition CmdAddCronJob : CommandType := "add_cron_job".
Definition CmdDeleteCronJob : CommandType := "delete_cron_job".

Record Command := mkCommand {
  CType : CommandType;
  CJob : Job;
  CID : Z;
  CCron : CronJob;
  CCronID : string
}.

(** The [Propose*] helpers: the command each of them builds. *)
Definition ProposeAddJob (j : Job) : Command := mkCommand CmdAddJob j 0 Codec.zeroCron "".
Definition ProposeUpdateJob (j : Job) : Command := mkCommand CmdUpdateJob j 0 Codec.zeroCron "".
Definition ProposeDeleteJob (id : Z) : Command := mkCommand CmdDeleteJob zeroJob id Codec.zeroCron "".
Definition ProposeCancelJob (id : Z) : Command := mkCommand CmdCancelJob zeroJob id Codec.zeroCron "".
Definition ProposeAddCron (c : CronJob) : Command := mkCommand CmdAddCronJob zeroJob 0 c "".
Definition ProposeDeleteCron (id : string) : Command :=
  mkCommand CmdDeleteCronJob zeroJob 0 Codec.zeroCron id.

(** *** The JSON form of a command *)

Definition command_json (off : Time → Z) (c : Command) : option Json.json :=
  j ← Codec.encode off (CJob c);
  cr ← Codec.encode off (CCron c);
  Some (Json.JObj (
    [(Json.str "type", Codec.jstring (CType c)); (Json.str "job", j)] ++
    (if decide (CID c = 0%Z) then [] else [(Json.str "id", Codec.jint (CID c))]) ++
    [(Json.str "cron", cr)] ++
    (if decide (CCronID c = "") then [] else [(Json.str "cron_id", Codec.jstring (CCronID c))]))).

Definition command_fields : Codec.fields Command :=
  [(Json.str "type", Codec.set_string (λ c x, mkCommand x (CJob c) (CID c) (CCron c) (CCronID c)));
   (Json.str "job", Codec.set_nested Codec.struct_fields CJob
      (λ c x, mkCommand (CType c) x (CID c) (CCron c) (CCronID c)));
   (Json.str "id", Codec.set_int (λ c x, mkCommand (CType c) (CJob c) x (CCron c) (CCronID c)));
   (Json.str "cron", Codec.set_nested Codec.struct_fields CCron
      (λ c x, mkCommand (CType c) (CJob c) (CID c) x (CCronID c)));
   (Json.str "cron_id", Codec.set_string (λ c x, mkCommand (CType c) (CJob c) (CID c) (CCron c) x))].

#[global] Instance Command_struct : Codec.Struct Command := {|
  Codec.zero := mkCommand "" zeroJob 0 Codec.zeroCron "";
  Codec.encode := command_json;
  Codec.struct_fields := command_fields
|}.

(** *** The node's view of the cluster *)

(** [fmt.Sscanf(s, "%d", &term)]: blanks, then digits that fit 64 bits; the
    variable keeps its zero otherwise. *)
Definition parseTerm (s : string) : Z :=
  let l := GoStrings.to_bytes s in
  let blanks := filter (λ p, p ≠ [GoStrings.byte 10]) GoStrings.spaces in
  match Json.span_digits (GoStrings.strip blanks (length l) l) with
  | ([], _) => 0
  | (ds, _) =>
      match GoStrings.digits 0 ds with
      | Some z => if (z <? 2 ^ 64)%Z then z else 0
      | None => 0
      end
  end.

(** [LeaderTerm], on the term in the statistics of the Raft library. *)
Definition LeaderTerm (termStr : string) : Z :=
  if decide (termStr = "") then 0%Z else parseTerm termStr.

(** Membership changes: only the leader asks the library, whose answer is
    [answer]. *)
Definition AddVoter (isLeader : bool) (answer : option string) : err :=
  if negb isLeader then Some ErrNotLeader else ErrRaftApply <$> answer.

Definition RemoveServer (isLeader : bool) (answer : option string) : err :=
  if negb isLeader then Some ErrNotLeader else ErrRaftApply <$> answer.

Section FSM.
Context {S : Type} `{Store.StoreOps S}.

(** The switch of [FSM.Apply]; the result is the value handed back to the
    proposer, and an unknown command type is logged and answered with [nil]. *)
Definition applyCommand (s : S) (m : Metrics.Metrics) (cmd : Command) : S * Metrics.Metrics * err :=
  if decide (CType cmd = CmdAddJob) then
    let '(s, e) := Store.Add s (CJob cmd) in (s, m, e)
  else if decide (CType cmd = CmdUpdateJob) then
    let '(s, e) := Store.Update s (CJob cmd) in (s, m, e)
  else if decide (CType cmd = CmdDeleteJob) then
    let '(s, (_, e)) := Store.Delete s (CID cmd) in (s, m, e)
  else if decide (CType cmd = CmdCancelJob) then
    match Store.Cancel s (CID cmd) with
    | (s, Some e) => (s, m, Some e)
    | (s, None) => (s, Metrics.cancelled m, None)
    end
  else if decide (CType cmd = CmdAddCronJob) then
    let '(s, e) := Store.AddCron s (CCron cmd) in (s, m, e)
  else if decide (CType cmd = CmdDeleteCronJob) then
    let '(s, (_, e)) := Store.DeleteCron s (CCronID cmd) in (s, m, e)
  else (s, m, None).

(** [FSM.Apply] on the data of a log entry. *)
Definition Apply (s : S) (m : Metrics.Metrics) (data : list ascii) : S * Metrics.Metrics * err :=
  match Codec.Unmarshal data with
  | None => (s, m, Some ErrUnmarshal)
  | Some cmd => applyCommand s m cmd
  end.

(** [FSM.Snapshot] and [fsmSnapshot.Persist]: the job list as JSON; [isnil]
    tells whether the store lists no jobs as a nil slice. *)
Definition Snapshot (s : S) : list Job := Store.List s.
Definition Persist (off : Time → Z) (isnil : bool) (jobs : list Job) : option (list ascii) :=
  Codec.MarshalList off isnil jobs.

(** [FSM.Restore]: each job is added to the store as it stands, errors
    ignored. *)
Definition addAll (s : S) (jobs : list Job) : S := foldl (λ s j, (Store.Add s j).1) s jobs.

Definition Restore (s : S) (data : list ascii) : S * err :=
  match Codec.DecodeList data with
  | None => (s, Some ErrUnmarshal)
  | Some jobs => (addAll s jobs, None)
  end.

(** Applying a log, entry by entry. *)
Definition apply_log (s : S) (log : list (list ascii)) : S :=
  foldl (λ s data, (Apply s Metrics.init data).1.1) s log.
End FSM.

(** The store call a command amounts to, if any. *)
Definition command_op (c : Command) : option Store.op :=
  if decide (CType c = CmdAddJob) then Some (Store.OAdd (CJob c))
  else if decide (CType c = CmdUpdateJob) then Some (Store.OUpdate (CJob c))
  else if decide (CType c = CmdDeleteJob) then Some (Store.ODelete (CID c))
  else if decide (CType c = CmdCancelJob) then Some (Store.OCancel (CID c))
  else if decide (CType c = CmdAddCronJob) then Some (Store.OAddCron (CCron c))
  else if decide (CType c = CmdDeleteCronJob) then Some (Store.ODeleteCron (CCronID c))
  else None.

(** [applyCommand] is that store call: same state, same error. *)
Lemma applyCommand_op {S} `{Store.StoreOps S} (s : S) m c :
  match command_op c with
  | Some o => (applyCommand s m c).1.1 = (Store.exec s o).1 ∧
              (applyCommand s m c).2 = (Store.exec s o).2.2
  | None => (applyCommand s m c).1.1 = s ∧ (applyCommand s m c).2 = None
  end.
Proof.
  unfold command_op, applyCommand. repeat case_decide; simpl.
  - by destruct (Store.Add s (CJob c)).
  - by destruct (Store.Update s (CJob c)).
  - by destruct (Store.Delete s (CID c)) as [? [? ?]].
  - by destruct (Store.Cancel s (CID c)) as [? [?|]].
  - by destruct (Store.AddCron s (CCron c)).
  - by destruct (Store.DeleteCron s (CCronID c)) as [? [? ?]].
  - done.
Qed.

(** The term of the library's statistics, a decimal, is read back. *)
Lemma LeaderTerm_decimal t : (0 ≤ t < 2 ^ 64)%Z → LeaderTerm (GoStrings.Itoa t) = t.
Proof.
  intros Ht. unfold LeaderTerm. destruct (GoStrings.Itoa_bytes t) as (ds & Hn & Hb).
  destruct (Z.ltb_spec t 0); [lia|]. cbn [app] in Hb. rewrite Z.abs_eq in Hn by lia.
  rewrite decide_False.
  2:{ intros E. rewrite E in Hb. simpl in Hb. by destruct (GoStrings.num_ne _ _ Hn). }
  unfold parseTerm. rewrite Hb. set (blanks := filter _ GoStrings.spaces).
  assert (Hs : GoStrings.strip blanks (length ds) ds = ds).
  { pose proof (GoStrings.num_digits _ _ Hn) as Hd. destruct ds as [|c ds]; [done|].
    apply Forall_cons in Hd as [Hc _]. cbn [length GoStrings.strip].
    destruct (list_find _ blanks) as [[i p]|] eqn:E; [exfalso|done].
    apply list_find_Some in E as (Hp & Hpre & _).
    assert (Hhd : Forall (λ p : list ascii, match p with [] => False | x :: _ => GoStrings.digit x = None end) blanks)
      by (subst blanks; repeat constructor).
    pose proof (Forall_lookup_1 _ _ _ _ Hhd Hp) as Hx. simpl in Hx. destruct p as [|x p]; [done|].
    apply bool_decide_eq_true in Hpre. simpl in Hpre. injection Hpre as -> _.
    rewrite Hx in Hc. by destruct Hc. }
  rewrite Hs, (Json.span_all _ (GoStrings.num_digits _ _ Hn)).
  pose proof (GoStrings.num_value _ _ Hn 0 []) as Hv. rewrite app_nil_r in Hv. cbn [GoStrings.digits] in Hv.
  destruct ds as [|c ds]; [by destruct (GoStrings.num_ne _ _ Hn)|]. rewrite Hv.
  replace (0 * 10 ^ _ + t)%Z with t by lia. destruct (Z.ltb_spec t (2 ^ 64)); lia.
Qed.

(** ** Commands survive the log *)

Definition command_ok (c : Command) : Prop :=
  Codec.ints_ok (CJob c) ∧ in_int64 (CID c) ∧ in_int64 (CronPriority (CCron c)).

Definition clean_command (c : Command) : Command :=
  mkCommand (Utf8.Sanitize (CType c)) (Codec.clean (CJob c)) (CID c) (Codec.clean (CCron c))
    (Utf8.Sanitize (CCronID c)).

#[global] Instance Command_laws : Codec.StructLaws Command.
Proof.
  refine {| Codec.depth := 2; Codec.in_range := command_ok; Codec.clean := clean_command |}.
  - lia.
  - intros off d c v Hd. cbn [Codec.encode Command_struct]. unfold command_json.
    destruct (Codec.encode off (CJob c)) as [j|] eqn:Hj; [|done].
    destruct (Codec.encode off (CCron c)) as [cr|] eqn:Hc; [|done]. cbn [mbind option_bind].
    intros [= <-]. assert (Hd1 : (1 ≤ d - 1)%Z) by lia.
    pose proof (Codec.encode_wf (A := Job) off _ _ _ Hd1 Hj).
    pose proof (Codec.encode_wf (A := CronJob) off _ _ _ Hd1 Hc).
    repeat case_decide; cbn [app]; Codec.wf_object.
  - intros off c v Hz (H1 & H2 & H3). cbn [Codec.encode Command_struct]. unfold command_json.
    destruct (Codec.encode off (CJob c)) as [j|] eqn:Hj; [|done].
    destruct (Codec.encode off (CCron c)) as [cr|] eqn:Hc; [|done]. cbn [mbind option_bind].
    intros [= <-]. pose proof (Codec.decode_encode (A := Job) off _ _ Hz H1 Hj) as Dj.
    pose proof (Codec.decode_encode (A := CronJob) off _ _ Hz H3 Hc) as Dc.
    cbn [Codec.set_struct Codec.struct_fields Command_struct].
    destruct c as [ty jb id cr' cid]. cbn [CType CJob CID CCron CCronID] in *.
    repeat case_decide; subst; cbn [app]; repeat Codec.member; done.
Defined.

(** ** Replication *)

Definition op_of (data : list ascii) : option Store.op := Codec.Unmarshal data ≫= command_op.

(** A log entry applied to the contents of a store. *)
Definition abs_apply (a : Store.Abs) (data : list ascii) : Store.Abs :=
  match op_of data with Some o => (Store.abs_exec id a o).1 | None => a end.

(** A log that adds each job under an id not in use. *)
Fixpoint fresh_log (a : Store.Abs) (log : list (list ascii)) : Prop :=
  match log with
  | [] => True
  | data :: log =>
      (match op_of data with
       | Some (Store.OAdd j) => Store.jobs a !! ID j = None
       | _ => True
       end) ∧ fresh_log (abs_apply a data) log
  end.

Lemma Apply_state {S} `{Store.StoreOps S} (s : S) m data :
  (Apply s m data).1.1 = match op_of data with Some o => (Store.exec s o).1 | None => s end.
Proof.
  unfold Apply, op_of. destruct (Codec.Unmarshal data) as [c|]; [|done]. simpl.
  pose proof (applyCommand_op s m c). case_match; naive_solver.
Qed.

Lemma apply_log_rel {S} `{Store.ReliableStore S} (log : list (list ascii)) (s : S) a :
  Store.rel s a → fresh_log a log → Store.rel (apply_log s log) (foldl abs_apply a log).
Proof.
  revert s a. induction log as [|data log IH]; intros s a Hr Hf; [done|].
  cbn [apply_log foldl fresh_log] in *. destruct Hf as [Hc Hf]. apply IH; [|done].
  rewrite Apply_state. unfold abs_apply. destruct (op_of data) as [o|]; [|done].
  apply Store.exec_reliable; [done|].
  destruct o; simpl in *; rewrite ?(Store.Get_spec s a) by done;
    auto using Store.storable_all, Store.storable_cron_all.
Qed.

(** Replicas agree: two nodes whose stores start with the same contents
    and apply the same log answer every lookup alike, whatever reliable
    backends they run on. *)
Theorem replicas_agree {S1 S2} `{R1 : Store.ReliableStore S1} `{R2 : Store.ReliableStore S2}
    (s1 : S1) (s2 : S2) a log :
  Store.rel s1 a → Store.rel s2 a → fresh_log a log →
  (∀ id, Store.Get (apply_log s1 log) id = Store.Get (apply_log s2 log) id) ∧
  (∀ key, Store.FindByIdempotencyKey (apply_log s1 log) key =
          Store.FindByIdempotencyKey (apply_log s2 log) key).
Proof.
  intros Hr1 Hr2 Hf. pose proof (apply_log_rel log s1 a Hr1 Hf) as Ha1.
  pose proof (apply_log_rel log s2 a Hr2 Hf) as Ha2. split.
  - intros id. by rewrite (Store.Get_spec _ _ id Ha1), (Store.Get_spec _ _ id Ha2).
  - intros key. by rewrite (Store.Find_spec _ _ key Ha1), (Store.Find_spec _ _ key Ha2).
Qed.

(** Adding the jobs of a snapshot to a store that has none of them. *)
Lemma restore_rel {S} `{Store.ReliableStore S} (js : list Job) (s : S) a :
  Store.rel s a → NoDup (ID <$> js) → (∀ j, j ∈ js → Store.jobs a !! ID j = None) →
  ∃ a', Store.rel (addAll s js) a' ∧
    Store.crons a' = Store.crons a ∧ Store.dlq a' = Store.dlq a ∧
    (∀ id j, Store.jobs a' !! id = Some j ↔
       Store.jobs a !! id = Some j ∨ j ∈ js ∧ ID j = id).
Proof.
  revert s a. induction js as [|j js IH]; intros s a Hr Hnd Hf.
  { exists a. split_and!; [done..|]. intros id j. set_solver. }
  apply NoDup_cons in Hnd as [Hni Hnd].
  assert (Hfj : Store.jobs a !! ID j = None) by (apply Hf; by left).
  destruct (Store.reliable_Add s a j Hr Hfj) as [_ Hr1].
  set (a1 := (Store.abs_add Store.norm a j).1) in *.
  assert (Ha1 : Store.jobs a1 = <[ID j := j]> (Store.jobs a) ∧
                Store.crons a1 = Store.crons a ∧ Store.dlq a1 = Store.dlq a).
  { unfold a1, Store.abs_add. rewrite Hfj. case_decide; simpl; by rewrite Store.norm_job_id. }
  destruct Ha1 as (Hj1 & Hc1 & Hd1).
  destruct (IH (Store.Add s j).1 a1 Hr1 Hnd) as (a' & Hr' & Hc & Hd & Hjobs).
  { intros i Hi. rewrite Hj1, lookup_insert_ne; [apply Hf; by right|].
    intros E. apply Hni. rewrite E. by apply list_elem_of_fmap_2. }
  exists a'. split_and!; [done|congruence|congruence|].
  intros id i. rewrite Hjobs, Hj1, lookup_insert_Some, elem_of_cons.
  assert (Store.jobs a !! id = Some i → ID j ≠ id) by congruence. naive_solver.
Qed.

(** The jobs of a snapshot. *)
Lemma snapshot_elem {S} `{Store.StoreLaws S} (s : S) a :
  Store.rel s a → ∀ j, j ∈ Snapshot s ↔ Store.jobs a !! ID j = Some j.
Proof.
  intros Hr j. unfold Snapshot. rewrite (Store.List_spec s a Hr), list_elem_of_fmap. split.
  - intros ([k i] & -> & Hi%elem_of_map_to_list). simpl.
    by rewrite (proj1 (Store.rel_wf s a Hr) _ _ Hi).
  - intros Hj. exists (ID j, j). by rewrite elem_of_map_to_list.
Qed.

Lemma snapshot_NoDup {S} `{Store.StoreLaws S} (s : S) a :
  Store.rel s a → NoDup (ID <$> Snapshot s).
Proof.
  intros Hr. unfold Snapshot. rewrite (Store.List_spec s a Hr), <-list_fmap_compose.
  apply (NoDup_fmap_2_strong _ (map_to_list (Store.jobs a))); [|apply NoDup_map_to_list].
  intros [k1 i1] [k2 i2] Hi1%elem_of_map_to_list Hi2%elem_of_map_to_list Heq. simpl in Heq.
  pose proof (proj1 (Store.rel_wf s a Hr)) as Hwf.
  rewrite (Hwf _ _ Hi1), (Hwf _ _ Hi2) in Heq. congruence.
Qed.

(** Restoring the persisted snapshot of [s] into an empty store. *)
Lemma restore_snapshot {S1 S2} `{R1 : Store.ReliableStore S1} `{R2 : Store.ReliableStore S2}
    (s : S1) a (s0 : S2) off isnil data :
  Store.rel s a → Store.rel s0 Store.empty → Codec.zones_ok off →
  (∀ id j, Store.jobs a !! id = Some j → Codec.ints_ok j) →
  Persist off isnil (Snapshot s) = Some data →
  ∃ s' a', Restore s0 data = (s', None) ∧ Store.rel s' a' ∧ Store.crons a' = ∅ ∧ Store.dlq a' = ∅ ∧
    (∀ id, Store.jobs a' !! id = Store.norm_job Utf8.Sanitize <$> Store.jobs a !! id).
Proof.
  intros Hr Hr0 Hz Hi Hdata. pose proof (snapshot_elem s a Hr) as Hin.
  pose proof (proj1 (Store.rel_wf s a Hr)) as Hwf.
  assert (Hd : Restore s0 data = (addAll s0 (Codec.clean <$> Snapshot s), None)).
  { unfold Restore. rewrite <-(app_nil_r data).
    rewrite (Codec.DecodeList_Marshal off isnil (Snapshot s) data []); [done|done| |done|done].
    apply Forall_forall. intros j Hj. eapply Hi, Hin, Hj. }
  destruct (restore_rel (Codec.clean <$> Snapshot s) s0 Store.empty Hr0) as (a' & Hr' & Hc & Hdl & Hj).
  { rewrite <-list_fmap_compose. apply (snapshot_NoDup s a Hr). } { intros j _. apply lookup_empty. }
  rewrite Hd. eexists _, a'. split_and!; [done..|]. intros id.
  apply option_eq. intros j. rewrite Hj. cbn [Store.jobs Store.empty]. rewrite lookup_empty.
  rewrite fmap_Some, list_elem_of_fmap. split.
  - intros [?|[(i & -> & Hi') <-]]; [done|]. exists i. split; [exact (proj1 (Hin i) Hi')|done].
  - intros (i & Hi' & ->). right. pose proof (Hwf _ _ Hi') as Hid. split; [|done].
    exists i. split; [done|]. apply Hin. by rewrite Hid.
Qed.

(** Snapshots carry the jobs and nothing else: restoring the persisted
    snapshot of [s] into an empty store gives back every job as it was (with
    invalid bytes of its strings replaced), and no cron job and no dead
    letter. *)
Theorem snapshot_roundtrip {S1 S2} `{R1 : Store.ReliableStore S1} `{R2 : Store.ReliableStore S2}
    (s : S1) a (s0 : S2) off isnil data :
  Store.rel s a → Store.rel s0 Store.empty → Codec.zones_ok off →
  (∀ id j, Store.jobs a !! id = Some j → Codec.ints_ok j) →
  Persist off isnil (Snapshot s) = Some data →
  ∃ s', Restore s0 data = (s', None) ∧
    (∀ id, Store.Get s' id = Store.norm_job Utf8.Sanitize <$> Store.Get s id) ∧
    (∀ l, Store.ListCrons s' = (l, None) → l = []) ∧
    (∀ l, Store.ListDLQ s' = (l, None) → l = []).
Proof.
  intros Hr Hr0 Hz Hi Hdata.
  destruct (restore_snapshot s a s0 off isnil data Hr Hr0 Hz Hi Hdata)
    as (s' & a' & Hd & Hr' & Hc & Hdl & Hj).
  exists s'. split_and!; [done| | |].
  - intros id. by rewrite (Store.Get_spec _ _ id Hr'), (Store.Get_spec _ _ id Hr), Hj.
  - intros l Hcr. apply (Store.ListCrons_spec _ _ _ Hr') in Hcr. rewrite Hc, map_to_list_empty in Hcr.
    by apply Permutation_nil_r.
  - intros l Hdl'. apply (Store.ListDLQ_spec _ _ _ Hr') in Hdl'. rewrite Hdl, map_to_list_empty in Hdl'.
    by apply Permutation_nil_r.
Qed.

Section Witnesses.
#[local] Existing Instance canonical_range.

Definition utc : Time → Z := λ _, 0%Z.

Lemma utc_ok : Codec.zones_ok utc.
Proof. intros t. done. Qed.

(** A log of two submissions and a cancellation, as the leader writes it. *)
Definition two_jobs : list (list ascii) :=
  omap (Codec.Marshal utc)
    [ProposeAddJob (NewJob 1 "email" 5); ProposeAddJob (NewJob 2 "sms" 1); ProposeCancelJob 1].

Definition replica : MemoryStore.MemoryStore := apply_log MemoryStore.NewMemoryStore two_jobs.

Lemma new_store_rel : Store.rel MemoryStore.NewMemoryStore Store.empty.
Proof. split; [apply MemoryStore.inv_new|done]. Qed.

Lemma two_jobs_fresh : fresh_log Store.empty two_jobs.
Proof. vm_compute. repeat split. Qed.

Lemma replica_rel : Store.rel replica (foldl abs_apply Store.empty two_jobs).
Proof. exact (apply_log_rel two_jobs _ _ new_store_rel two_jobs_fresh). Qed.

(** Another replica, which is empty again after a cron job was removed. *)
Definition other : MemoryStore.MemoryStore :=
  (Store.exec_all MemoryStore.NewMemoryStore
     [Store.OAddCron (mkCron "c" "* * * * *" "email" 1 0); Store.ODeleteCron "c"]).1.

Lemma other_rel : Store.rel other Store.empty.
Proof.
  split; [|vm_compute; reflexivity].
  exact (proj2 (proj2 (MemoryStore.exec_all_refines _ _ MemoryStore.inv_new))).
Qed.

Lemma replicas_agree_witness :
  ∃ j, Store.Get (apply_log other two_jobs) 1 = Some j ∧ JStatus j = Cancelled.
Proof.
  rewrite <-(proj1 (replicas_agree MemoryStore.NewMemoryStore other
    Store.empty two_jobs new_store_rel other_rel two_jobs_fresh) 1%Z).
  eexists. split; [vm_compute; reflexivity|reflexivity].
Defined.

Lemma replica_jobs :
  ∀ id j, Store.jobs (foldl abs_apply Store.empty two_jobs) !! id = Some j → Codec.ints_ok j.
Proof.
  assert (E : map_to_list (Store.jobs (foldl abs_apply Store.empty two_jobs)) =
    [(2%Z, NewJob 2 "sms" 1); (1%Z, with_status (NewJob 1 "email" 5) Cancelled)])
    by (vm_compute; reflexivity).
  intros id j Hj%elem_of_map_to_list. rewrite E in Hj.
  repeat (apply elem_of_cons in Hj as [[= -> ->]|Hj]; [vm_compute; by split_and!|]).
  exfalso. exact (not_elem_of_nil _ Hj).
Qed.

Definition replica_snapshot : list ascii := default [] (Persist utc false (Snapshot replica)).

Lemma replica_persists : Persist utc false (Snapshot replica) = Some replica_snapshot.
Proof. vm_compute. reflexivity. Qed.

Lemma snapshot_roundtrip_witness :
  ∃ s', Restore MemoryStore.NewMemoryStore replica_snapshot = (s', None) ∧
    Store.Get s' 2 = Some (NewJob 2 "sms" 1).
Proof.
  destruct (snapshot_roundtrip replica _ MemoryStore.NewMemoryStore utc false replica_snapshot
    replica_rel new_store_rel utc_ok replica_jobs replica_persists) as (s' & Hr & Hg & _).
  exists s'. split; [exact Hr|]. rewrite Hg. vm_compute. reflexivity.
Defined.
End Witnesses.

End Consensus.
