(* ===== verification/Cron.v ===== *)
(** * Recurring jobs: [internal/cron/cron.go]

    The in-memory table of cron jobs, the computation of the next run and one
    tick of the cron loop.  The location of a [time.Time] is its offset from
    UTC, constant in the model. *)

From S2P Require Import Prelude Job Store GoStrings.
From stdpp Require Import sorting.
Local Open Scope Z_scope.

Module Cron.

Definition Hour : Duration := 60 * Minute.

(** [t.Truncate(d)]: down to a multiple of [d] since the zero time. *)
Definition Truncate (t : Time) (d : Duration) : Time := t - t mod d.

(** [t.Minute()] and [time.Date] at the hour of [t] with the given hour and
    minute offsets, in the zone [off] ahead of UTC. *)
Definition minuteOf (off : Duration) (t : Time) : Z := ((t + off) / Minute) mod 60.
Definition dateAt (off : Duration) (t : Time) (hours minutes : Z) : Time :=
  ((t + off) / Hour + hours) * Hour + minutes * Minute - off.

(** [nextRun]: the zero time for a schedule that is not supported. *)
Definition nextRun (off : Duration) (schedule : string) (from : Time) : Time :=
  let schedule := GoStrings.TrimSpace schedule in
  let fromMin := Truncate from Minute in
  if decide (schedule = "* * * * *") then fromMin + Minute
  else if GoStrings.HasPrefix schedule "*/" then
    let fields := GoStrings.Fields schedule in
    if negb (bool_decide (length fields = 5%nat)) then time_zero
    else
      match GoStrings.Atoi (GoStrings.TrimPrefix (default "" (head fields)) "*/") with
      | None => time_zero
      | Some interval =>
          if interval <=? 0 then time_zero
          else
            let currentMin := minuteOf off fromMin in
            let nextMin := wrap64 ((currentMin / interval + 1) * interval) in
            if 60 <=? nextMin then dateAt off fromMin 1 0
            else dateAt off fromMin 0 nextMin
      end
  else time_zero.

Example every_five : nextRun 0 "*/5 * * * *" (7 * Minute + 3) = 10 * Minute.
Proof. reflexivity. Qed.

Example next_hour : nextRun 0 "*/25 * * * *" (58 * Minute) = Hour.
Proof. reflexivity. Qed.

Record Scheduler := mkCronScheduler { jobs : gmap string CronJob }.

Definition New : Scheduler := mkCronScheduler ∅.

Definition with_nextRun (c : CronJob) (t : Time) : CronJob :=
  mkCron (CronID c) (Schedule c) (CronType c) (CronPriority c) t.

Definition Add (off : Duration) (s : Scheduler) (j : CronJob) (now : Time) : Scheduler * err :=
  if decide (GoStrings.TrimSpace (CronID j) = "") then (s, Some (ErrCron "id"))
  else if decide (GoStrings.TrimSpace (CronType j) = "") then (s, Some (ErrCron "type"))
  else if CronPriority j <? 0 then (s, Some (ErrCron "priority"))
  else
    let next := nextRun off (Schedule j) now in
    if decide (next = time_zero) then (s, Some (ErrCron "schedule"))
    else
      match jobs s !! CronID j with
      | Some _ => (s, Some (ErrCron "exists"))
      | None => (mkCronScheduler (<[CronID j := with_nextRun j next]> (jobs s)), None)
      end.

Definition Remove (s : Scheduler) (id : string) : Scheduler :=
  mkCronScheduler (delete id (jobs s)).

(** [strings.Compare(a.ID, b.ID) <= 0]. *)
Definition id_le (a b : CronJob) : Prop := String.leb (CronID a) (CronID b) = true.
#[export] Instance id_le_dec : RelDecision id_le.
Proof. unfold id_le. intros a b. apply _. Defined.

Section Range.
Context `{GoRange}.

Definition List (s : Scheduler) : list CronJob := merge_sort id_le (go_range (jobs s)).*2.

(** The locked part of one tick of [Start]: the jobs that are due, with their
    next run moved on.  The caller then submits each of them. *)
Fixpoint tickLoop (off : Duration) (now : Time) (es : list (string * CronJob))
    (m : gmap string CronJob) (due : list CronJob) : gmap string CronJob * list CronJob :=
  match es with
  | [] => (m, due)
  | (id, cj) :: es =>
      if now <? NextRun cj then tickLoop off now es m due
      else
        let cj := with_nextRun cj (nextRun off (Schedule cj) (NextRun cj)) in
        tickLoop off now es (<[id := cj]> m) (due ++ [cj])
  end.

Definition tick (off : Duration) (s : Scheduler) (now : Time) : Scheduler * list CronJob :=
  let '(m, due) := tickLoop off now (go_range (jobs s)) (jobs s) [] in
  (mkCronScheduler m, due).
End Range.

(** ** The next run *)

Lemma Truncate_bounds t d : 0 < d → t - d < Truncate t d ≤ t.
Proof. intros. unfold Truncate. pose proof (Z.mod_pos_bound t d). lia. Qed.

(** Whole minutes, counted in the zone. *)
Definition minuteIndex (off : Duration) (t : Time) : Z := (t + off) / Minute.

Lemma whole_minute off t :
  off mod Minute = 0 → t mod Minute = 0 → t = minuteIndex off t * Minute - off.
Proof.
  intros Hoff Ht. unfold minuteIndex.
  assert (Hm : (t + off) mod Minute = 0) by (by rewrite Z.add_mod, Ht, Hoff).
  pose proof (Z.div_mod (t + off) Minute ltac:(done)). lia.
Qed.

Lemma truncate_index off t :
  off mod Minute = 0 → minuteIndex off (Truncate t Minute) = (t + off) / Minute.
Proof.
  intros Hoff. unfold minuteIndex, Truncate.
  pose proof (Z.div_mod off Minute ltac:(done)) as Ho. rewrite Hoff, Z.add_0_r in Ho.
  pose proof (Z.div_mod t Minute ltac:(done)) as Ht.
  rewrite Ho at 1. replace (t - t mod Minute + Minute * (off / Minute))
    with ((t / Minute + off / Minute) * Minute) by lia.
  rewrite Z.div_mul by done. rewrite Ho at 2. rewrite (Z.mul_comm Minute).
  by rewrite Z.div_add.
Qed.

Lemma minuteIndex_at off T : minuteIndex off (T * Minute - off) = T.
Proof.
  unfold minuteIndex. replace (T * Minute - off + off) with (T * Minute) by lia.
  by apply Z.div_mul.
Qed.

Lemma dateAt_index off t h m :
  dateAt off t h m = ((minuteIndex off t / 60 + h) * 60 + m) * Minute - off.
Proof.
  unfold dateAt, minuteIndex, Hour. rewrite Z.div_div by done.
  rewrite (Z.mul_comm Minute 60). lia.
Qed.

(** The arithmetic of the next multiple: the index [N] chosen from [T] is the
    first one after [T] whose minute of the hour is a multiple of [n]. *)
Lemma next_index T n :
  0 < n →
  let nm := (T mod 60 / n + 1) * n in
  let N := if 60 <=? nm then (T / 60 + 1) * 60 else T / 60 * 60 + nm in
  T < N ∧ (N mod 60) mod n = 0 ∧ ∀ U, T < U < N → (U mod 60) mod n ≠ 0.
Proof.
  intros Hn nm N. pose proof (Z.mod_pos_bound T 60 ltac:(lia)) as Hb.
  pose proof (Z.div_mod T 60 ltac:(lia)) as HT.
  pose proof (Z.div_mod (T mod 60) n ltac:(lia)) as Hq.
  pose proof (Z.mod_pos_bound (T mod 60) n Hn) as Hr.
  assert (Hnm : T mod 60 < nm) by (unfold nm; lia).
  assert (Hgap : ∀ U, T < U → U < T / 60 * 60 + nm → U < (T / 60 + 1) * 60 →
            (U mod 60) mod n ≠ 0).
  { intros U H1 H2 H3 H0.
    assert (Hu : U mod 60 = U - T / 60 * 60).
    { symmetry. apply (Z.mod_unique _ _ (T / 60)); lia. }
    rewrite Hu in H0. apply Z.mod_divide in H0 as [k Hk]; [|lia].
    unfold nm in H2. assert (T mod 60 / n < k) by nia. nia. }
  unfold N. destruct (Z.leb_spec 60 nm).
  - split; [lia|]. split; [|intros U HU; apply Hgap; lia].
    rewrite Z.mod_mul by lia. by apply Z.mod_0_l; lia.
  - split; [lia|]. split; [|intros U HU; apply Hgap; lia].
    assert (Hm : (T / 60 * 60 + nm) mod 60 = nm).
    { symmetry. apply (Z.mod_unique _ _ (T / 60)); lia. }
    rewrite Hm. unfold nm. by apply Z.mod_mul; lia.
Qed.

Lemma minuteOf_bounds off t : 0 ≤ minuteOf off t < 60.
Proof. unfold minuteOf. apply Z.mod_pos_bound. done. Qed.

Lemma nextMin_small cur interval :
  0 ≤ cur < 60 → 0 < interval ≤ maxInt64 →
  wrap64 ((cur / interval + 1) * interval) = (cur / interval + 1) * interval.
Proof.
  intros Hc Hi. apply wrap64_id. unfold in_int64, minInt64, maxInt64 in *.
  pose proof (Z.mul_div_le cur interval ltac:(lia)).
  pose proof (Z.div_pos cur interval ltac:(lia) ltac:(lia)).
  destruct (Z.lt_ge_cases interval 60).
  - nia.
  - rewrite Z.div_small by lia. lia.
Qed.

Lemma Atoi_range s z : GoStrings.Atoi s = Some z → in_int64 z.
Proof.
  unfold GoStrings.Atoi. intros Hs.
  repeat (case_match; simplify_option_eq; try done).
Qed.

(** The interval a supported "*/N" schedule denotes. *)
Definition interval_of (schedule : string) : option Z :=
  let schedule := GoStrings.TrimSpace schedule in
  if decide (schedule = "* * * * *") then Some 1
  else if GoStrings.HasPrefix schedule "*/" then
    let fields := GoStrings.Fields schedule in
    if negb (bool_decide (length fields = 5%nat)) then None
    else match GoStrings.Atoi (GoStrings.TrimPrefix (default "" (head fields)) "*/") with
         | Some n => if n <=? 0 then None else Some n
         | None => None
         end
  else None.

(** [nextRun] on a supported schedule, by index. *)
Lemma nextRun_index off schedule n from :
  off mod Minute = 0 → interval_of schedule = Some n →
  let T := minuteIndex off (Truncate from Minute) in
  let nm := (T mod 60 / n + 1) * n in
  0 < n ∧
  nextRun off schedule from =
    (if 60 <=? nm then (T / 60 + 1) * 60 else T / 60 * 60 + nm) * Minute - off.
Proof.
  intros Hoff Hs T nm. unfold interval_of in Hs.
  assert (Htr : Truncate from Minute mod Minute = 0).
  { unfold Truncate. rewrite Zminus_mod, Zmod_mod, Z.sub_diag. done. }
  unfold nextRun. destruct (decide (GoStrings.TrimSpace schedule = "* * * * *")).
  - injection Hs as <-. split; [done|]. rewrite (whole_minute off _ Hoff Htr). fold T.
    unfold nm. rewrite Z.div_1_r, Z.mul_1_r.
    pose proof (Z.div_mod T 60 ltac:(lia)). pose proof (Z.mod_pos_bound T 60 ltac:(lia)).
    replace (if 60 <=? _ then _ else _) with (T + 1); [lia|].
    destruct (Z.leb_spec 60 (T mod 60 + 1)); lia.
  - destruct (GoStrings.HasPrefix _ _); [|done].
    destruct (negb _); [done|]. destruct (GoStrings.Atoi _) as [i|] eqn:Ei; [|done].
    destruct (Z.leb_spec i 0); [done|]. injection Hs as <-. split; [done|].
    apply Atoi_range in Ei. unfold in_int64 in Ei.
    rewrite nextMin_small by (try apply minuteOf_bounds; lia).
    rewrite !dateAt_index. change (minuteOf off (Truncate from Minute)) with (T mod 60).
    fold T. fold nm. destruct (60 <=? nm); f_equal; lia.
Qed.

(** What [tick] reports and what it leaves. *)
Section TickFacts.
Context `{GoRange}.

Lemma tickLoop_spec off now es m due :
  tickLoop off now es m due =
    (foldl (λ m e, <[e.1 := e.2]> m) m
       (prod_map id (λ cj, with_nextRun cj (nextRun off (Schedule cj) (NextRun cj))) <$>
          filter (λ e, NextRun e.2 ≤ now) es),
     due ++ ((λ cj, with_nextRun cj (nextRun off (Schedule cj) (NextRun cj))) <$>
          (filter (λ e, NextRun e.2 ≤ now) es).*2)).
Proof.
  revert m due. induction es as [|[k cj] es IH]; intros m due; simpl.
  { by rewrite app_nil_r. }
  rewrite filter_cons. simpl. destruct (Z.ltb_spec now (NextRun cj)).
  - rewrite decide_False by lia. apply IH.
  - rewrite decide_True by lia. rewrite IH. simpl. by rewrite <-app_assoc.
Qed.

(** A cron tick: every job whose time has come is submitted once, with its
    next run moved on by its schedule; every other job is left alone. *)
Theorem tick_exact off s now :
  let advance cj := with_nextRun cj (nextRun off (Schedule cj) (NextRun cj)) in
  (tick off s now).2 ≡ₚ
    advance <$> (filter (λ e, NextRun e.2 ≤ now) (map_to_list (jobs s))).*2 ∧
  ∀ id, jobs (tick off s now).1 !! id =
    (λ cj, if decide (NextRun cj ≤ now) then advance cj else cj) <$> jobs s !! id.
Proof.
  intros advance. unfold tick. rewrite tickLoop_spec. cbn [fst snd jobs].
  split; [by rewrite app_nil_l, go_range_perm|]. intros id.
  set (l := filter _ _). set (l' := prod_map _ _ <$> l).
  assert (Hnd : NoDup l'.*1).
  { unfold l'. rewrite <-list_fmap_compose. change (fst ∘ prod_map _ _) with (@fst string CronJob).
    eapply sublist_NoDup; [apply (NoDup_go_range_keys (jobs s))|].
    apply fmap_sublist, sublist_filter. }
  destruct (foldl_insert_lookup l' (jobs s) id Hnd) as [H1 H2].
  destruct (jobs s !! id) as [cj|] eqn:Hj; simpl.
  - destruct (decide (NextRun cj ≤ now)) as [Hd|Hd].
    + apply H1. apply list_elem_of_fmap. exists (id, cj). split; [done|].
      apply list_elem_of_filter. by rewrite elem_of_go_range.
    + rewrite H2; [done|]. intros ([k v] & Hk & Hin)%list_elem_of_fmap. simpl in Hk. subst k.
      apply list_elem_of_fmap in Hin as ([k c] & Heq & Hin). simplify_eq/=.
      apply list_elem_of_filter in Hin as [Hle Hin%elem_of_go_range]. simpl in Hle.
      rewrite Hin in Hj. by simplify_eq.
  - rewrite H2; [done|]. intros ([k v] & Hk & Hin)%list_elem_of_fmap. simpl in Hk. subst k.
    apply list_elem_of_fmap in Hin as ([k c] & Heq & Hin). simplify_eq/=.
    apply list_elem_of_filter in Hin as [_ Hin%elem_of_go_range]. congruence.
Qed.
End TickFacts.


(** Cron times: for a supported schedule of interval [n], the next run is
    the first whole minute strictly after [from] whose minute of the hour is a
    multiple of [n]; no earlier boundary qualifies. *)
Theorem nextRun_least off schedule n from :
  off mod Minute = 0 → interval_of schedule = Some n →
  let t := nextRun off schedule from in
  from < t ∧ (t + off) mod Minute = 0 ∧ minuteOf off t mod n = 0 ∧
  ∀ u, from < u < t → (u + off) mod Minute = 0 → minuteOf off u mod n ≠ 0.
Proof.
  intros Hoff Hs t. destruct (nextRun_index off schedule n from Hoff Hs) as [Hn Ht].
  set (T := minuteIndex off (Truncate from Minute)) in *.
  set (N := if 60 <=? (T mod 60 / n + 1) * n then (T / 60 + 1) * 60
            else T / 60 * 60 + (T mod 60 / n + 1) * n) in *.
  destruct (next_index T n Hn) as (HlT & Hmod & Hleast). fold N in HlT, Hmod, Hleast.
  assert (HtN : t = N * Minute - off) by exact Ht.
  assert (HT : T = (from + off) / Minute) by (by apply truncate_index).
  assert (Hidx : ∀ U, minuteOf off (U * Minute - off) = U mod 60).
  { intros U. unfold minuteOf. replace (U * Minute - off + off) with (U * Minute) by lia.
    by rewrite Z.div_mul. }
  pose proof (Z.div_mod (from + off) Minute ltac:(done)) as Hdm.
  pose proof (Z.mod_pos_bound (from + off) Minute ltac:(done)) as Hb. rewrite <-HT in Hdm.
  split_and!.
  - assert ((T + 1) * Minute ≤ N * Minute) by (apply Z.mul_le_mono_nonneg_r; [done|lia]). lia.
  - rewrite HtN. replace (N * Minute - off + off) with (N * Minute) by lia. by apply Z.mod_mul.
  - rewrite HtN, Hidx. done.
  - intros u [Hfu Hut] Hu.
    assert (Huu : u = (u + off) / Minute * Minute - off).
    { pose proof (Z.div_mod (u + off) Minute ltac:(done)). lia. }
    set (U := (u + off) / Minute) in *. rewrite Huu, Hidx. apply Hleast.
    split; apply (Z.mul_lt_mono_pos_r Minute); lia.
Qed.

Lemma nextRun_least_witness :
  let t := nextRun 0 "*/15 * * * *" (7 * Minute + 3 * Second) in
  7 * Minute + 3 * Second < t ∧ (t + 0) mod Minute = 0 ∧ minuteOf 0 t mod 15 = 0.
Proof.
  destruct (nextRun_least 0 "*/15 * * * *" 15 (7 * Minute + 3 * Second) eq_refl
    ltac:(vm_compute; reflexivity)) as (H1 & H2 & H3 & _).
  split; [exact H1|]. split; [exact H2|exact H3].
Defined.

End Cron.
