(* ===== verification/Manager.v ===== *)
(** * Worker registration and failure detection: [internal/workermanager/manager.go] *)

From S2P Require Import Prelude Job Metrics Broker.
Local Open Scope Z_scope.

Module Manager.

Definition deadWorkersBufSize : nat := 100.

Record WorkerInfo := mkInfo {
  Client : WorkerClient;
  LastHeartbeat : Time;
  Alive : bool;
  Topics : list string;
  Address : string
}.

Record NodeSnapshot := mkNode {
  NodeID : Z;
  NodeAddress : string;
  NodeAlive : bool;
  NodeLastHeartbeat : Time;
  NodeTopics : list string
}.

Record Manager := mkManager {
  workers : gmap Z WorkerInfo;
  Available : chan WorkerClient;
  DeadWorkers : chan Z;
  Broker : Broker.Broker
}.

Definition NewManager : Manager :=
  mkManager ∅ (Chan [] 100) (Chan [] deadWorkersBufSize) Broker.New.

Definition set_workers (m : Manager) (x : gmap Z WorkerInfo) : Manager :=
  mkManager x (Available m) (DeadWorkers m) (Broker m).
Definition set_Available (m : Manager) (x : chan WorkerClient) : Manager :=
  mkManager (workers m) x (DeadWorkers m) (Broker m).

Definition set_DeadWorkers (m : Manager) (x : chan Z) : Manager :=
  mkManager (workers m) (Available m) x (Broker m).

Definition Register (m : Manager) (mt : Metrics.Metrics) (w : WorkerClient) (address : string)
    (topics : list string) (now : Time) : Manager * Metrics.Metrics :=
  (mkManager (<[WID w := mkInfo w now true topics address]> (workers m)) (Available m)
     (DeadWorkers m) (Broker.RegisterWorker (Broker m) (WID w) topics),
   Metrics.workers_add 1 mt).

Definition MakeAvailable (m : Manager) (w : WorkerClient) : Manager :=
  set_Available m (try_send (Available m) w).1.

Definition Remove (m : Manager) (mt : Metrics.Metrics) (id : Z) : Manager * Metrics.Metrics :=
  let '(ws, mt) :=
    match workers m !! id with
    | Some info =>
        (delete id (workers m), if Alive info then Metrics.workers_add (-1) mt else mt)
    | None => (workers m, mt)
    end in
  (mkManager ws (Available m) (DeadWorkers m) (Broker.UnregisterWorker (Broker m) id), mt).

Definition Get (m : Manager) (id : Z) : option WorkerClient := Client <$> workers m !! id.

Definition Count (m : Manager) : nat := size (workers m).

Definition Heartbeat (m : Manager) (mt : Metrics.Metrics) (id : Z) (now : Time)
  : Manager * Metrics.Metrics :=
  match workers m !! id with
  | None => (m, mt)
  | Some info =>
      (set_workers m
         (<[id := mkInfo (Client info) now true (Topics info) (Address info)]> (workers m)),
       if Alive info then mt else Metrics.workers_add 1 mt)
  end.

(** The polling period of [Monitor]. *)
Definition monitorInterval (timeout : Duration) : Duration :=
  let interval := timeout / 2 in
  if interval <? 100 * Millisecond then 100 * Millisecond else interval.

(** When the loop of a [Monitor] that started at [t0] receives the [k]-th tick of
    its ticker, [late k] after it is due. *)
Definition tickTime (t0 : Time) (timeout : Duration) (late : nat → Duration) (k : nat) : Time :=
  t0 + (Z.of_nat k + 1) * monitorInterval timeout + late k.

Section Range.
Context `{GoRange}.

Definition List (m : Manager) : list WorkerClient :=
  Client <$> filter (λ info, Alive info = true) (go_range (workers m)).*2.

Definition Nodes (m : Manager) : list NodeSnapshot :=
  (λ e, mkNode e.1 (Address e.2) (Alive e.2) (LastHeartbeat e.2) (Topics e.2))
    <$> go_range (workers m).

(** The loop of one tick of [Monitor]. *)
Fixpoint monitorLoop (timeout : Duration) (now : Time) (es : list (Z * WorkerInfo))
    (m : Manager) (mt : Metrics.Metrics) : Manager * Metrics.Metrics :=
  match es with
  | [] => (m, mt)
  | (id, info) :: es =>
      if (timeout <? now - LastHeartbeat info) && Alive info then
        let info' := mkInfo (Client info) (LastHeartbeat info) false (Topics info) (Address info) in
        monitorLoop timeout now es
          (mkManager (<[id := info']> (workers m)) (Available m)
             (try_send (DeadWorkers m) (WID (Client info))).1 (Broker m))
          (Metrics.workers_add (-1) mt)
      else monitorLoop timeout now es m mt
  end.

Definition monitorTick (m : Manager) (mt : Metrics.Metrics) (timeout : Duration) (now : Time)
  : Manager * Metrics.Metrics :=
  monitorLoop timeout now (go_range (workers m)) m mt.
End Range.

(** ** The gauge of active workers *)

Definition alive_count (ws : gmap Z WorkerInfo) : Z :=
  Z.of_nat (size (filter (λ e, Alive e.2 = true) ws)).

(** A worker counts for one while it is alive. *)
Definition alive_bit (o : option WorkerInfo) : Z :=
  match o with Some info => if Alive info then 1 else 0 | None => 0 end.

Lemma alive_count_delete ws id :
  alive_count (delete id ws) = alive_count ws - alive_bit (ws !! id).
Proof.
  unfold alive_count, alive_bit. rewrite map_filter_delete.
  destruct (ws !! id) as [info|] eqn:E.
  - destruct (Alive info) eqn:Ea.
    + assert (Hf : filter (λ e : Z * WorkerInfo, Alive e.2 = true) ws !! id = Some info).
      { by apply map_lookup_filter_Some. }
      rewrite map_size_delete_Some by eauto.
      assert (0 < size (filter (λ e : Z * WorkerInfo, Alive e.2 = true) ws))%nat; [|lia].
      destruct (decide (size (filter (λ e : Z * WorkerInfo, Alive e.2 = true) ws) = 0%nat)) as [E0|]; [|lia].
      apply map_size_empty_inv in E0. rewrite E0 in Hf. done.
    + rewrite map_size_delete_None; [lia|]. apply map_lookup_filter_None. right.
      intros ? ?. simplify_eq. simpl. congruence.
  - rewrite map_size_delete_None; [lia|]. apply map_lookup_filter_None. by left.
Qed.

Lemma alive_count_insert ws id info :
  alive_count (<[id := info]> ws) =
    alive_count ws - alive_bit (ws !! id) + alive_bit (Some info).
Proof.
  rewrite <-insert_delete_eq. rewrite <-alive_count_delete.
  unfold alive_count. simpl. destruct (Alive info) eqn:Ea.
  - rewrite map_filter_insert_True by done.
    rewrite map_size_insert_None; [lia|]. apply map_lookup_filter_None. left.
    apply lookup_delete_eq.
  - rewrite map_filter_insert_False by (simpl; congruence).
    rewrite delete_delete_eq. lia.
Qed.

(** ** Histories of manager calls *)
Inductive call :=
  | CRegister (w : WorkerClient) (address : string) (topics : list string) (now : Time)
  | CRemove (id : Z)
  | CHeartbeat (id : Z) (now : Time)
  | CTick (timeout : Duration) (now : Time).

Section History.
Context `{GoRange}.

Definition do_call (mm : Manager * Metrics.Metrics) (c : call) : Manager * Metrics.Metrics :=
  match c with
  | CRegister w a ts now => Register mm.1 mm.2 w a ts now
  | CRemove id => Remove mm.1 mm.2 id
  | CHeartbeat id now => Heartbeat mm.1 mm.2 id now
  | CTick d now => monitorTick mm.1 mm.2 d now
  end.

(** Registrations of a worker that was registered and alive already. *)
Definition repeated (m : Manager) (c : call) : Z :=
  match c with
  | CRegister w _ _ _ => alive_bit (workers m !! WID w)
  | _ => 0
  end.

Fixpoint do_calls (mm : Manager * Metrics.Metrics) (cs : list call)
  : Manager * Metrics.Metrics * Z :=
  match cs with
  | [] => (mm, 0)
  | c :: cs => let '(mm', n) := do_calls (do_call mm c) cs in (mm', n + repeated mm.1 c)
  end.

(** Entries a tick finds timed out and alive. *)
Definition timed_out (timeout : Duration) (now : Time) (info : WorkerInfo) : Prop :=
  timeout < now - LastHeartbeat info ∧ Alive info = true.

#[local] Instance timed_out_dec timeout now info : Decision (timed_out timeout now info).
Proof. unfold timed_out. apply _. Defined.

Definition kill (info : WorkerInfo) : WorkerInfo :=
  mkInfo (Client info) (LastHeartbeat info) false (Topics info) (Address info).

Lemma timed_out_test timeout now info :
  (timeout <? now - LastHeartbeat info) && Alive info = true ↔ timed_out timeout now info.
Proof. unfold timed_out. by rewrite andb_true_iff, Z.ltb_lt. Qed.

(** The tick as a fold over the timed-out entries. *)
Lemma monitorLoop_spec timeout now es m mt :
  let l := filter (λ e, timed_out timeout now e.2) es in
  monitorLoop timeout now es m mt =
    (mkManager (foldl (λ ws e, <[e.1 := e.2]> ws) (workers m) (prod_map id kill <$> l)) (Available m)
       (foldl (λ c e, (try_send c (WID (Client e.2))).1) (DeadWorkers m) l) (Broker m),
     Metrics.workers_add (- Z.of_nat (length l)) mt).
Proof.
  simpl. revert m mt. induction es as [|[id info] es IH]; intros m mt; cbn [monitorLoop].
  { destruct m, mt. simpl. unfold Metrics.workers_add. simpl. do 3 f_equal. lia. }
  rewrite filter_cons. cbn [snd]. destruct (_ && _) eqn:Ht.
  2:{ rewrite decide_False; [apply IH|]. rewrite <-timed_out_test, Ht. done. }
  rewrite decide_True by by apply timed_out_test.
  rewrite IH. cbn [workers Available DeadWorkers Broker fmap list_fmap foldl fst snd prod_map].
  f_equal. unfold Metrics.workers_add. simpl. f_equal. lia.
Qed.
(** Sending to a channel with room appends. *)
Lemma send_all {A} (xs : list A) c :
  (length (buf c) + length xs ≤ cap c)%nat →
  foldl (λ c x, (try_send c x).1) c xs = Chan (buf c ++ xs) (cap c).
Proof.
  revert c. induction xs as [|x xs IH]; intros c Hr; cbn [foldl].
  { rewrite app_nil_r. by destruct c. }
  simpl in Hr. rewrite try_send_room by lia. cbn [fst]. rewrite IH; cbn [buf cap].
  - by rewrite <-app_assoc.
  - rewrite length_app. simpl. lia.
Qed.

Lemma send_map {A B} (f : B → A) l c :
  foldl (λ c e, (try_send c (f e)).1) c l = foldl (λ c x, (try_send c x).1) c (f <$> l).
Proof. revert c. induction l as [|e l IH]; intros c; [done|]. apply IH. Qed.

(** Failure detection: one tick of the monitor marks dead exactly the live
    workers whose last heartbeat is older than the timeout, and, when the
    channel has room, signals each of them once. *)
Theorem monitorTick_exact m mt timeout now :
  let '(m', mt') := monitorTick m mt timeout now in
  (∀ id, workers m' !! id =
     (λ info, if decide (timed_out timeout now info) then kill info else info)
       <$> workers m !! id) ∧
  ∃ ids, ids ≡ₚ (WID ∘ Client ∘ snd)
                 <$> filter (λ e, timed_out timeout now e.2) (map_to_list (workers m)) ∧
    Metrics.ActiveWorkers mt' = Metrics.ActiveWorkers mt - Z.of_nat (length ids) ∧
    ((length (buf (DeadWorkers m)) + length ids ≤ cap (DeadWorkers m))%nat →
       buf (DeadWorkers m') = buf (DeadWorkers m) ++ ids).
Proof.
  unfold monitorTick. rewrite monitorLoop_spec. set (l := filter _ _). split.
  - intros id. cbn [workers]. assert (Hnd : NoDup (prod_map Datatypes.id kill <$> l).*1).
    { rewrite <-list_fmap_compose. change (fst ∘ prod_map _ _) with (@fst Z WorkerInfo).
      eapply sublist_NoDup; [apply (NoDup_go_range_keys (workers m))|].
      apply fmap_sublist, sublist_filter. }
    destruct (foldl_insert_lookup _ (workers m) id Hnd) as [H1 H2].
    assert (Hin : ∀ info, (id, info) ∈ l ↔ workers m !! id = Some info ∧ timed_out timeout now info).
    { intros info. unfold l. rewrite list_elem_of_filter, elem_of_go_range. simpl. tauto. }
    destruct (workers m !! id) as [info|] eqn:Hw; simpl.
    + case_decide as Ht.
      * apply H1, list_elem_of_fmap. exists (id, info). split; [done|]. by apply Hin.
      * rewrite H2; [done|]. intros ([k v] & Hk & Hv)%list_elem_of_fmap. simpl in Hk. subst k.
        apply list_elem_of_fmap in Hv as ([k i] & Heq & Hv). injection Heq as -> ->.
        apply Hin in Hv as [Hv Ht']. by simplify_eq.
    + rewrite H2; [done|]. intros ([k v] & Hk & Hv)%list_elem_of_fmap. simpl in Hk. subst k.
      apply list_elem_of_fmap in Hv as ([k i] & Heq & Hv). injection Heq as -> ->.
      by apply Hin in Hv as [Hv _].
  - exists ((WID ∘ Client ∘ snd) <$> l). split_and!.
    + unfold l. by rewrite go_range_perm.
    + simpl. rewrite length_fmap. lia.
    + intros Hr. cbn [DeadWorkers]. rewrite send_map, send_all by done. done.
Qed.
Lemma alive_count_kill l ws :
  NoDup l.*1 → (∀ id info, (id, info) ∈ l → ws !! id = Some info ∧ Alive info = true) →
  alive_count (foldl (λ ws e, <[e.1 := e.2]> ws) ws (prod_map id kill <$> l)) =
    alive_count ws - Z.of_nat (length l).
Proof.
  revert ws. induction l as [|[id info] l IH]; intros ws Hnd Hin; cbn [fmap list_fmap foldl].
  { simpl. lia. }
  apply NoDup_cons in Hnd as [Hni Hnd]. cbn [prod_map fst snd]. rewrite IH; [|done|].
  - destruct (Hin id info) as [Hw Ha]; [by left|].
    rewrite alive_count_insert. cbn [Datatypes.id]. rewrite Hw. simpl. rewrite Ha. lia.
  - intros id' info' Hl. destruct (Hin id' info') as [Hw Ha]; [by right|]. split; [|done].
    rewrite lookup_insert_ne; [done|]. intros <-. apply Hni. apply list_elem_of_fmap.
    by exists (id, info').
Qed.

Lemma do_call_gauge mm c :
  Metrics.ActiveWorkers (do_call mm c).2 - alive_count (workers (do_call mm c).1) =
    Metrics.ActiveWorkers mm.2 - alive_count (workers mm.1) + repeated mm.1 c.
Proof.
  destruct mm as [m mt], c as [w a ts now|id|id now|d now]; cbn [do_call fst snd repeated].
  - simpl. rewrite alive_count_insert. simpl. lia.
  - unfold Remove. destruct (workers m !! id) as [info|] eqn:E; simpl; [|lia].
    rewrite alive_count_delete, E. simpl. destruct (Alive info); simpl; lia.
  - unfold Heartbeat. destruct (workers m !! id) as [info|] eqn:E; simpl; [|lia].
    rewrite alive_count_insert, E. simpl. destruct (Alive info); simpl; lia.
  - unfold monitorTick. rewrite monitorLoop_spec. simpl. rewrite alive_count_kill; [lia| |].
    + eapply sublist_NoDup; [apply (NoDup_go_range_keys (workers m))|].
      apply fmap_sublist, sublist_filter.
    + intros id info [[_ Ha] Hin%elem_of_go_range]%list_elem_of_filter. done.
Qed.

(** The active-workers gauge: after any sequence of manager calls it is the
    number of live workers plus the number of times a live worker registered
    again, so it is exact as long as no live worker does. *)
Theorem active_workers_gauge cs :
  let '(m, mt, n) := do_calls (NewManager, Metrics.init) cs in
  Metrics.ActiveWorkers mt = alive_count (workers m) + n.
Proof.
  assert (Hgen : ∀ cs mm, let '(m, mt, n) := do_calls mm cs in
    Metrics.ActiveWorkers mt - alive_count (workers m) =
      Metrics.ActiveWorkers mm.2 - alive_count (workers mm.1) + n).
  { clear cs. induction cs as [|c cs IH]; intros mm; cbn [do_calls].
    - destruct mm. simpl. lia.
    - specialize (IH (do_call mm c)). destruct (do_calls (do_call mm c) cs) as [[m mt] n].
      pose proof (do_call_gauge mm c). lia. }
  specialize (Hgen cs (NewManager, Metrics.init)).
  destruct (do_calls (NewManager, Metrics.init) cs) as [[m mt] n]. cbn [fst snd] in Hgen.
  change (alive_count (workers NewManager)) with 0 in Hgen. simpl in Hgen. lia.
Qed.
End History.

End Manager.
