(* ===== verification/Machine.v ===== *)
(** * The control node as a machine

    The goroutines of the server (HTTP and gRPC handlers, the scheduler loops,
    the cron loop, the worker monitor, the local workers) share one set of
    components.  A handler is a program over atomic calls of those components:
    each call runs under the mutex of the component it goes to, is a channel
    operation, or is an atomic of the engine.  [run] executes a program without
    interference; [System] interleaves programs.

    The state gathers the fields of [engine.Engine] (which holds the scheduler,
    the queues, the worker manager, the cron scheduler and the store), of
    [scheduler.Scheduler] and the process-wide event bus and metrics. *)

From S2P Require Import Prelude Job Lease Retry Dlq Store Heap Metrics Queue Broker Events.
From S2P Require Import Codec Consensus Cron Manager.
From Stdlib Require Import Ascii.

Module Machine.

Inductive which := PQ | DQ.
#[export] Instance which_eq : EqDecision which.
Proof. solve_decision. Defined.

(** ** Atomic calls, indexed by the type of their result *)
Inductive act : Type → Type :=
  | AGet (id : Z) : act (option Job)
  | AList : act (list Job)
  | AListByStatus (st : Status) : act (list Job * err)
  | AAdd (j : Job) : act err
  | AUpdate (j : Job) : act err
  | ADelete (id : Z) : act (bool * err)
  | ACancel (id : Z) : act err
  | AAddCron (c : CronJob) : act err
  | ADeleteCron (id : string) : act (bool * err)
  | AListCrons : act (list CronJob * err)
  | AAddDLQ (j : Job) : act err
  | AListDLQ : act (list Job * err)
  | AFind (key : string) : act (option Job)
  | ALeaseGet (id : Z) : act (option Lease.Lease)
  | ALeaseAcquire (jobID workerID term attempt : Z) : act unit
  | ALeaseRelease (id : Z) : act unit
  | AReleaseByWorker (workerID : Z) : act (list Z)
  | ALeaseClear : act unit
  | APush (q : which) (id : Z) : act unit
  | ADepthInc : act unit
  | ANotify (q : which) : act unit
  | ADequeue (q : which) : act (option Z)
  | APeek (q : which) : act (option Z)
  | ASelect (jobType : string) : act (option WorkerClient)
  | ASubmit (w : WorkerClient) (j : Job) : act err
  | ADlqAdd (j : Job) : act unit
  | ADlqList : act (list Job)
  | ARegister (w : WorkerClient) (address : string) (topics : list string) : act unit
  | AMakeAvailable (w : WorkerClient) : act unit
  | ARemoveWorker (id : Z) : act unit
  | AWorkerGet (id : Z) : act (option WorkerClient)
  | AHeartbeat (id : Z) : act unit
  | AMonitorTick (timeout : Duration) : act unit
  | AWorkers : act (list WorkerClient)
  | ANodes : act (list Manager.NodeSnapshot)
  | ACronAdd (c : CronJob) : act err
  | ACronRemove (id : string) : act unit
  | ACronList : act (list CronJob)
  | ACronTick : act (list CronJob)
  | ANextID : act Z
  | ASetNextID (id : Z) : act unit
  | ALock : act unit
  | AUnlock : act unit
  | ARaftNode : act bool
  | AIsLeader : act bool
  | ALeaderTerm : act Z
  | ALeaderAddr : act string
  | APropose (c : Consensus.Command) : act err
  | ASendResult (r : Result) : act unit
  | AForwardResult (r : Result) : act bool
  | ATaskStart (workerID jobID : Z) : act unit
  | ATaskEnd (workerID jobID : Z) : act unit
  | ATaskCancel (workerID jobID : Z) : act bool
  | AExecute (j : Job) : act (option exec_error)
  | ADial (id : Z) (address : string) : act err
  | AMetric (c : Metrics.counter) : act unit
  | ABroadcast (t : Events.EventType) (msg : string) : act unit
  | ASubscribe : act nat
  | AUnsubscribe (ch : nat) : act unit
  | AReceive (ch : nat) : act Events.Event
  | ANow : act Time
  | ACtxErr : act bool.

(** Programs; [Panic] is a Go run-time panic. *)
Inductive prog (A : Type) : Type :=
  | Ret (x : A)
  | Panic
  | Act {X : Type} (a : act X) (k : X → prog A).
Arguments Ret {A} _.
Arguments Panic {A}.
Arguments Act {A X} _ _.

Fixpoint prog_bind {A B} (f : A → prog B) (p : prog A) : prog B :=
  match p with
  | Ret x => f x
  | Panic => Panic
  | Act a k => Act a (λ x, prog_bind f (k x))
  end.

#[export] Instance prog_ret : MRet prog := @Ret.
#[export] Instance prog_mbind : MBind prog := @prog_bind.

Definition call {X} (a : act X) : prog X := Act a Ret.

(** [JobQueue.Enqueue]: the push under the mutex, then the gauge, then the
    notification; other goroutines may run in between. *)
Definition Enqueue (q : which) (id : Z) : prog unit :=
  _ ← call (APush q id);
  _ ← call ADepthInc;
  call (ANotify q).

Fixpoint for_each {A} (l : list A) (body : A → prog unit) : prog unit :=
  match l with
  | [] => Ret tt
  | x :: l => _ ← body x; for_each l body
  end.

(** ** State *)

Record State (S : Type) := mkState {
  store : S;   (** the job store every component shares *)
  pq : Queue.JobQueue;   (** the priority queue *)
  dq : Queue.JobQueue;   (** the delay queue *)
  manager : Manager.Manager;   (** workers, their idle channel, dead workers, topics *)
  useBroker : bool;   (** [Scheduler.Broker != nil] *)
  results : chan Result;   (** [Scheduler.Results] *)
  dead : Dlq.DeadLetterQueue;   (** the in-memory dead-letter queue *)
  leases : Lease.LeaseManager;   (** [Scheduler.Leases] *)
  metrics : Metrics.Metrics;
  bus : Events.Broadcaster;   (** [events.Global()] *)
  crons : Cron.Scheduler;   (** [Engine.CronScheduler] *)
  nextJobID : Z;   (** [Engine.nextJobID] *)
  submitMu : bool;   (** whether [Engine.submitMu] is held *)
  raft : bool;   (** [Engine.RaftNode != nil] *)
  tasks : gset (Z * Z);   (** [Runner.activeTasks]: worker and job of the running executions *)
  clock : Time;   (** the wall clock *)
  sent : list (WorkerClient * Job)   (** the jobs workers accepted, oldest first *)
}.
Arguments mkState {S} _ _ _ _ _ _ _ _ _ _ _ _ _ _ _ _ _.
Arguments store {S} _.
Arguments pq {S} _.
Arguments dq {S} _.
Arguments manager {S} _.
Arguments useBroker {S} _.
Arguments results {S} _.
Arguments dead {S} _.
Arguments leases {S} _.
Arguments metrics {S} _.
Arguments bus {S} _.
Arguments crons {S} _.
Arguments nextJobID {S} _.
Arguments submitMu {S} _.
Arguments raft {S} _.
Arguments tasks {S} _.
Arguments clock {S} _.
Arguments sent {S} _.

Section Setters.
Context {S : Type}.
Implicit Types st : State S.

Definition set_store st (x : S) : State S :=
  mkState x (pq st) (dq st) (manager st) (useBroker st) (results st) (dead st) (leases st)
    (metrics st) (bus st) (crons st) (nextJobID st) (submitMu st) (raft st) (tasks st) (clock
    st) (sent st).
Definition set_manager st (x : Manager.Manager) : State S :=
  mkState (store st) (pq st) (dq st) x (useBroker st) (results st) (dead st) (leases st)
    (metrics st) (bus st) (crons st) (nextJobID st) (submitMu st) (raft st) (tasks st) (clock
    st) (sent st).
Definition set_results st (x : chan Result) : State S :=
  mkState (store st) (pq st) (dq st) (manager st) (useBroker st) x (dead st) (leases st)
    (metrics st) (bus st) (crons st) (nextJobID st) (submitMu st) (raft st) (tasks st) (clock
    st) (sent st).
Definition set_dead st (x : Dlq.DeadLetterQueue) : State S :=
  mkState (store st) (pq st) (dq st) (manager st) (useBroker st) (results st) x (leases st)
    (metrics st) (bus st) (crons st) (nextJobID st) (submitMu st) (raft st) (tasks st) (clock
    st) (sent st).
Definition set_leases st (x : Lease.LeaseManager) : State S :=
  mkState (store st) (pq st) (dq st) (manager st) (useBroker st) (results st) (dead st) x
    (metrics st) (bus st) (crons st) (nextJobID st) (submitMu st) (raft st) (tasks st) (clock
    st) (sent st).
Definition set_metrics st (x : Metrics.Metrics) : State S :=
  mkState (store st) (pq st) (dq st) (manager st) (useBroker st) (results st) (dead st) (leases
    st) x (bus st) (crons st) (nextJobID st) (submitMu st) (raft st) (tasks st) (clock st) (sent
    st).
Definition set_bus st (x : Events.Broadcaster) : State S :=
  mkState (store st) (pq st) (dq st) (manager st) (useBroker st) (results st) (dead st) (leases
    st) (metrics st) x (crons st) (nextJobID st) (submitMu st) (raft st) (tasks st) (clock st)
    (sent st).
Definition set_crons st (x : Cron.Scheduler) : State S :=
  mkState (store st) (pq st) (dq st) (manager st) (useBroker st) (results st) (dead st) (leases
    st) (metrics st) (bus st) x (nextJobID st) (submitMu st) (raft st) (tasks st) (clock st)
    (sent st).
Definition set_nextJobID st (x : Z) : State S :=
  mkState (store st) (pq st) (dq st) (manager st) (useBroker st) (results st) (dead st) (leases
    st) (metrics st) (bus st) (crons st) x (submitMu st) (raft st) (tasks st) (clock st) (sent
    st).
Definition set_submitMu st (x : bool) : State S :=
  mkState (store st) (pq st) (dq st) (manager st) (useBroker st) (results st) (dead st) (leases
    st) (metrics st) (bus st) (crons st) (nextJobID st) x (raft st) (tasks st) (clock st) (sent
    st).
Definition set_tasks st (x : gset (Z * Z)) : State S :=
  mkState (store st) (pq st) (dq st) (manager st) (useBroker st) (results st) (dead st) (leases
    st) (metrics st) (bus st) (crons st) (nextJobID st) (submitMu st) (raft st) x (clock st)
    (sent st).
Definition set_clock st (x : Time) : State S :=
  mkState (store st) (pq st) (dq st) (manager st) (useBroker st) (results st) (dead st) (leases
    st) (metrics st) (bus st) (crons st) (nextJobID st) (submitMu st) (raft st) (tasks st) x
    (sent st).
Definition set_sent st (x : list (WorkerClient * Job)) : State S :=
  mkState (store st) (pq st) (dq st) (manager st) (useBroker st) (results st) (dead st) (leases
    st) (metrics st) (bus st) (crons st) (nextJobID st) (submitMu st) (raft st) (tasks st)
    (clock st) x.

Definition queue st (w : which) : Queue.JobQueue :=
  match w with PQ => pq st | DQ => dq st end.

Definition set_queue st (w : which) (x : Queue.JobQueue) (m : Metrics.Metrics) : State S :=
  match w with
  | PQ =>
      mkState (store st) x (dq st) (manager st) (useBroker st) (results st) (dead st) (leases
        st) m (bus st) (crons st) (nextJobID st) (submitMu st) (raft st) (tasks st) (clock st)
        (sent st)
  | DQ =>
      mkState (store st) (pq st) x (manager st) (useBroker st) (results st) (dead st) (leases
        st) m (bus st) (crons st) (nextJobID st) (submitMu st) (raft st) (tasks st) (clock st)
        (sent st)
  end.
End Setters.

(** What the outside decides during a run: whether a worker accepts a
    submission, what an executor answers, whether a worker can be dialled,
    whether the scheduler's context is cancelled and whether a request's is, the
    zone of the wall clock, the zone (in seconds) a time value carries when it is
    written, and the Raft library: whether this node leads, the error of
    [raft.Apply], the term in its statistics and the leader's address. *)
Record Env := mkEnv {
  submit : WorkerClient → Job → err;
  execute : Job → option exec_error;
  dial : Z → string → err;
  ctx_err : bool;
  req_done : bool;
  zone : Duration;
  leader : bool;
  located : Time → Z;
  raft_apply : list ascii → option string;
  raft_term : string;
  leader_addr : string
}.

Section Run.
Context `{GoRange} {S : Type} `{Store.StoreOps S}.

Definition comparator (st : State S) (w : which) : Z → Z → bool :=
  match w with
  | PQ => Queue.PriorityComparator (store st)
  | DQ => Queue.DelayComparator (store st)
  end.

(** [s.Broker.SelectWorker], or a plain receive without a broker. *)
Definition selectWorker (st : State S) (ty : string) : option WorkerClient * chan WorkerClient :=
  let c := Manager.Available (manager st) in
  if useBroker st then Broker.SelectWorker (Manager.Broker (manager st)) ty c
  else match try_recv c with
       | Some (w, c) => (Some w, c)
       | None => (None, c)
       end.

(** [RaftNode.Propose]: this node's own state machine applies the committed
    entry before the proposer gets its answer. *)
Definition propose (env : Env) (st : State S) (c : Consensus.Command) : err * State S :=
  if negb (leader env) then (Some ErrNotLeader, st)
  else match Codec.Marshal (located env) c with
       | None => (Some ErrMarshal, st)
       | Some data =>
           match raft_apply env data with
           | Some msg => (Some (ErrRaftApply msg), st)
           | None =>
               let '(s, m, e) := Consensus.Apply (store st) (metrics st) data in
               (e, set_metrics (set_store st s) m)
           end
       end.

(** A call of the worker manager, which also moves the gauge of workers. *)
Definition with_manager (st : State S) (mm : Manager.Manager * Metrics.Metrics) : unit * State S :=
  (tt, set_metrics (set_manager st mm.1) mm.2).

(** The effect of a call; [None] when the call blocks. *)
Definition do_act (env : Env) {X} (a : act X) : State S → option (X * State S) :=
  match a in act X return State S → option (X * State S) with
  | AGet id => λ st, Some (Store.Get (store st) id, st)
  | AList => λ st, Some (Store.List (store st), st)
  | AListByStatus x => λ st, Some (Store.ListByStatus (store st) x, st)
  | AAdd j => λ st, let '(s, e) := Store.Add (store st) j in Some (e, set_store st s)
  | AUpdate j => λ st, let '(s, e) := Store.Update (store st) j in Some (e, set_store st s)
  | ADelete id => λ st, let '(s, r) := Store.Delete (store st) id in Some (r, set_store st s)
  | ACancel id => λ st, let '(s, e) := Store.Cancel (store st) id in Some (e, set_store st s)
  | AAddCron c => λ st, let '(s, e) := Store.AddCron (store st) c in Some (e, set_store st s)
  | ADeleteCron id => λ st,
      let '(s, r) := Store.DeleteCron (store st) id in Some (r, set_store st s)
  | AListCrons => λ st, Some (Store.ListCrons (store st), st)
  | AAddDLQ j => λ st, let '(s, e) := Store.AddDLQ (store st) j in Some (e, set_store st s)
  | AListDLQ => λ st, Some (Store.ListDLQ (store st), st)
  | AFind key => λ st, Some (Store.FindByIdempotencyKey (store st) key, st)
  | ALeaseGet id => λ st, Some (Lease.Get (leases st) id, st)
  | ALeaseAcquire j w t n => λ st,
      Some (tt, set_leases st (Lease.Acquire (leases st) j w t n (clock st)))
  | ALeaseRelease id => λ st, Some (tt, set_leases st (Lease.Release (leases st) id))
  | AReleaseByWorker w => λ st,
      let '(lm, ids) := Lease.ReleaseByWorker (leases st) w in Some (ids, set_leases st lm)
  | ALeaseClear => λ st, Some (tt, set_leases st (Lease.Clear (leases st)))
  | APush w id => λ st,
      Some (tt, set_queue st w (Queue.Push (comparator st w) (queue st w) id) (metrics st))
  | ADepthInc => λ st, Some (tt, set_metrics st (Metrics.depth_add 1 (metrics st)))
  | ANotify w => λ st, Some (tt, set_queue st w (Queue.Notify (queue st w)) (metrics st))
  | ADequeue w => λ st,
      let '(mid, (q, m)) := Queue.Dequeue (comparator st w) (queue st w) (metrics st) in
      Some (mid, set_queue st w q m)
  | APeek w => λ st, Some (Queue.Peek (queue st w), st)
  | ASelect ty => λ st,
      let '(w, c) := selectWorker st ty in
      Some (w, set_manager st (Manager.set_Available (manager st) c))
  | ASubmit w j => λ st,
      match submit env w j with
      | None => Some (None, set_sent st (sent st ++ [(w, j)]))
      | Some e => Some (Some e, st)
      end
  | ADlqAdd j => λ st, Some (tt, set_dead st (Dlq.Add (dead st) j))
  | ADlqList => λ st, Some (Dlq.List (dead st), st)
  | ARegister w addr ts => λ st,
      Some (with_manager st (Manager.Register (manager st) (metrics st) w addr ts (clock st)))
  | AMakeAvailable w => λ st,
      Some (tt, set_manager st (Manager.MakeAvailable (manager st) w))
  | ARemoveWorker id => λ st,
      Some (with_manager st (Manager.Remove (manager st) (metrics st) id))
  | AWorkerGet id => λ st, Some (Manager.Get (manager st) id, st)
  | AHeartbeat id => λ st,
      Some (with_manager st (Manager.Heartbeat (manager st) (metrics st) id (clock st)))
  | AMonitorTick d => λ st,
      Some (with_manager st (Manager.monitorTick (manager st) (metrics st) d (clock st)))
  | AWorkers => λ st, Some (Manager.List (manager st), st)
  | ANodes => λ st, Some (Manager.Nodes (manager st), st)
  | ACronAdd c => λ st,
      let '(cs, e) := Cron.Add (zone env) (crons st) c (clock st) in Some (e, set_crons st cs)
  | ACronRemove id => λ st, Some (tt, set_crons st (Cron.Remove (crons st) id))
  | ACronList => λ st, Some (Cron.List (crons st), st)
  | ACronTick => λ st,
      let '(cs, due) := Cron.tick (zone env) (crons st) (clock st) in Some (due, set_crons st cs)
  | ANextID => λ st,
      let n := wrap64 (nextJobID st + 1) in Some (n, set_nextJobID st n)
  | ASetNextID n => λ st, Some (tt, set_nextJobID st n)
  | ALock => λ st, if submitMu st then None else Some (tt, set_submitMu st true)
  | AUnlock => λ st, Some (tt, set_submitMu st false)
  | ARaftNode => λ st, Some (raft st, st)
  | AIsLeader => λ st, Some (leader env, st)
  | ALeaderTerm => λ st, Some (Consensus.LeaderTerm (raft_term env), st)
  | ALeaderAddr => λ st, Some (leader_addr env, st)
  | APropose c => λ st, Some (propose env st c)
  | ASendResult r => λ st, Some (tt, set_results st (try_send (results st) r).1)
  | AForwardResult r => λ st,
      if req_done env then Some (false, st)
      else let '(c, ok) := try_send (results st) r in
           if ok then Some (true, set_results st c) else None
  | ATaskStart w id => λ st, Some (tt, set_tasks st ({[(w, id)]} ∪ tasks st))
  | ATaskEnd w id => λ st, Some (tt, set_tasks st (tasks st ∖ {[(w, id)]}))
  | ATaskCancel w id => λ st,
      if decide ((w, id) ∈ tasks st) then Some (true, set_tasks st (tasks st ∖ {[(w, id)]}))
      else Some (false, st)
  | AExecute j => λ st, Some (execute env j, st)
  | ADial id addr => λ st, Some (dial env id addr, st)
  | AMetric c => λ st, Some (tt, set_metrics st (Metrics.inc c (metrics st)))
  | ABroadcast t msg => λ st,
      Some (tt, set_bus st (Events.Broadcast (bus st) (Events.mkEvent t msg (clock st)) (clock st)))
  | ASubscribe => λ st, let '(b, ch) := Events.Subscribe (bus st) in Some (ch, set_bus st b)
  | AUnsubscribe ch => λ st, Some (tt, set_bus st (Events.Unsubscribe (bus st) ch))
  | AReceive ch => λ st,
      match Events.Receive (bus st) ch with
      | Some (e, b) => Some (e, set_bus st b)
      | None => None
      end
  | ANow => λ st, Some (clock st, st)
  | ACtxErr => λ st, Some (ctx_err env, st)
  end.

(** How a run ends. *)
Inductive outcome (A : Type) := Returned (x : A) | Panicked | Blocked.
Arguments Returned {A} _.
Arguments Panicked {A}.
Arguments Blocked {A}.

(** Running a program without interference, in a fixed environment. *)
Fixpoint run (env : Env) {A} (p : prog A) (st : State S) : outcome A * State S :=
  match p with
  | Ret x => (Returned x, st)
  | Panic => (Panicked, st)
  | Act a k =>
      match do_act env a st with
      | None => (Blocked, st)
      | Some (x, st) => run env (k x) st
      end
  end.

(** ** Facts *)

Lemma run_bind env {A B} (p : prog A) (f : A → prog B) st :
  run env (p ≫= f) st =
    match run env p st with
    | (Returned x, st') => run env (f x) st'
    | (Panicked, st') => (Panicked, st')
    | (Blocked, st') => (Blocked, st')
    end.
Proof.
  revert st. induction p as [x| |X a k IH]; intros st; simpl; [done..|].
  destruct (do_act env a st) as [[x st']|]; [|done]. apply IH.
Qed.

Lemma run_act env {X B} (a : act X) (f : X → prog B) st :
  run env (call a ≫= f) st =
    match do_act env a st with
    | None => (Blocked, st)
    | Some (x, st') => run env (f x) st'
    end.
Proof. done. Qed.

(** Without interference the three steps are [Queue.Enqueue]. *)
Lemma run_Enqueue env w id st :
  run env (Enqueue w id) st =
    (Returned tt,
     set_queue st w (Queue.Enqueue (comparator st w) (queue st w) (metrics st) id).1
                    (Queue.Enqueue (comparator st w) (queue st w) (metrics st) id).2).
Proof. by destruct w. Qed.

End Run.
Arguments Returned {A} _.
Arguments Panicked {A}.
Arguments Blocked {A}.

(** Evaluating the next calls of a program. *)
Ltac run_simpl := cbn [run do_act mbind prog_mbind prog_bind call mret prog_ret].

End Machine.
