(* ===== verification/Scheduler.v ===== *)
(** * The scheduler: [internal/scheduler/scheduler.go]

    The handlers of the scheduler's four loops and its queue reconstruction, as
    programs of [Machine]; the functional behaviour of each is in
    [SchedulerSpec]. *)

From S2P Require Import Prelude Job Lease Retry Broker Config Events Machine.
Import Machine.

Module Scheduler.

Definition enqueueJob (jobID : Z) (q : which) : prog unit :=
  _ ← call (AGet jobID);
  Enqueue q jobID.

(** [time.Since] in milliseconds, zero for a job that never waited; a tracing
    attribute. *)
Definition schedulingWaitTimeMs (j : Job) (now : Time) : Z :=
  if decide (NextRunAt j = time_zero) then 0
  else if (now - NextRunAt j <? 0)%Z then 0
  else (Z.quot (Z.min (now - NextRunAt j) maxInt64) Millisecond).

Definition leaseMessage (jobID workerID attempt : Z) : string :=
  "Ephemeral lease granted for Job #" +:+ pretty jobID +:+ " to Worker-" +:+ pretty workerID
  +:+ " (attempt: " +:+ pretty attempt +:+ ")".

Definition Dispatch (j : Job) : prog bool :=
  cancelled ← call ACtxErr;
  if (cancelled : bool) then mret false else
  w ← call (ASelect (JType j));
  match w with
  | None =>
      _ ← enqueueJob (ID j) PQ;
      mret false
  | Some w =>
      lease ← call (ALeaseGet (ID j));
      let attempt := match lease with
                     | Some l => wrap64 (Lease.Attempt l + 1)
                     | None => 1%Z
                     end in
      _ ← call (ALeaseAcquire (ID j) (WID w) 1 attempt);
      _ ← call (ABroadcast Events.EventLeaseGranted (leaseMessage (ID j) (WID w) attempt));
      e ← call (ASubmit w j);
      match e with
      | Some _ =>
          _ ← call (ALeaseRelease (ID j));
          _ ← enqueueJob (ID j) PQ;
          mret false
      | None => mret true
      end
  end.

(** How one turn of a loop body ends. *)
Inductive turn := Break | Continue | Return.

(** One turn of the inner loop of [dispatchLoop]. *)
Definition dispatchTurn : prog turn :=
  mid ← call (ADequeue PQ);
  match mid with
  | None => mret Break
  | Some id =>
      mj ← call (AGet id);
      match mj with
      | None => mret Continue
      | Some j =>
          if is_terminal (JStatus j) then mret Continue else
          ok ← Dispatch j;
          if (ok : bool) then mret Continue else
          cancelled ← call ACtxErr;
          mret (if (cancelled : bool) then Return else Continue)
      end
  end.

(** One turn of the loop of [ProcessDelayedJobs]. *)
Definition delayedTurn : prog turn :=
  mid ← call (APeek DQ);
  match mid with
  | None => mret Return
  | Some id =>
      mj ← call (AGet id);
      match mj with
      | None => _ ← call (ADequeue DQ); mret Continue
      | Some j =>
          now ← call ANow;
          if (now <? NextRunAt j)%Z then mret Return else
          _ ← call (ADequeue DQ);
          e ← call (AUpdate (with_status j Pending));
          match e with
          | Some _ => mret Continue
          | None => _ ← enqueueJob id PQ; mret Continue
          end
      end
  end.

(** At most [fuel] turns; every turn but the last takes an entry out of the
    delay queue, so one more than its length is enough. *)
Fixpoint ProcessDelayedJobs (fuel : nat) : prog unit :=
  match fuel with
  | 0 => mret tt
  | Datatypes.S fuel =>
      t ← delayedTurn;
      match t with
      | Continue => ProcessDelayedJobs fuel
      | _ => mret tt
      end
  end.

(** What [delayLoop] goes on with: its next turn, a turn of
    [ProcessDelayedJobs], or the select on the notification of the delay queue
    and on a timer if it set one. *)
Inductive next := Look | Promote | Sleep (timer : option Duration).

(** The turn of [delayLoop] up to its call or its select; [time.Until]
    saturates. *)
Definition delayLook : prog next :=
  mid ← call (APeek DQ);
  match mid with
  | None => mret (Sleep None)
  | Some id =>
      mj ← call (AGet id);
      match mj with
      | None => _ ← call (ADequeue DQ); mret Look
      | Some j =>
          now ← call ANow;
          let wait := Z.min (NextRunAt j - now) maxInt64 in
          if (wait <=? 0)%Z then mret Promote else mret (Sleep (Some wait))
      end
  end.

(** A turn of [ProcessDelayedJobs] called from [delayLoop]. *)
Definition delayPromote : prog next :=
  t ← delayedTurn;
  mret (match t with Continue => Promote | _ => Look end).

(** A result whose attempt is not the one of the current lease. *)
Definition stale (r : Result) (lease : option Lease.Lease) : bool :=
  match lease with
  | Some l => (0 <? RAttempt r)%Z && negb (RAttempt r =? Lease.Attempt l)%Z
  | None => false
  end.

(** [config.Default().MaxBackoff], which no environment variable changes. *)
Definition maxBackoff : Duration := Config.MaxBackoff (Config.Default (λ _, "")).

(** The body of [resultLoop] for one result. *)
Definition handleResult (r : Result) : prog unit :=
  mj ← call (AGet (RJobID r));
  match mj with
  | None => mret tt
  | Some j =>
      lease ← call (ALeaseGet (RJobID r));
      if stale r lease then mret tt else
      _ ← call (ALeaseRelease (RJobID r));
      if RSuccess r then
        _ ← call (AUpdate (with_status j Completed));
        call (ABroadcast Events.EventLeaseReleased
          ("Job #" +:+ pretty (ID j) +:+ " executed successfully; lease released"))
      else if Retry.ShouldRetry j then
        let j := with_status (with_retry j (wrap64 (RetryCount j + 1))) Scheduled in
        match RError r with
        | None => Panic
        | Some msg =>
            let j := with_lastError j msg in
            now ← call ANow;
            match Retry.NextRetryTime j maxBackoff now with
            | None => Panic
            | Some t =>
                _ ← call (AUpdate (with_nextRunAt j t));
                enqueueJob (ID j) DQ
            end
        end
      else
        let j := with_status j Failed in
        match RError r with
        | None => Panic
        | Some msg =>
            let j := with_lastError j msg in
            _ ← call (AUpdate j);
            _ ← call (AAddDLQ j);
            call (ADlqAdd j)
        end
  end.

(** Putting a job whose lease was released back, if it is still pending. *)
Definition recoverJob (jobID : Z) : prog unit :=
  mj ← call (AGet jobID);
  match mj with
  | Some j => if decide (JStatus j = Pending) then enqueueJob jobID PQ else mret tt
  | None => mret tt
  end.

(** The body of [recoveryLoop] for one dead worker. *)
Definition recoverWorker (workerID : Z) : prog unit :=
  released ← call (AReleaseByWorker workerID);
  for_each released recoverJob.

Definition RebuildQueuesFromStore : prog err :=
  pe ← call (AListByStatus Pending);
  match pe with
  | (_, Some e) => mret (Some e)
  | (pendingJobs, None) =>
      _ ← for_each pendingJobs (λ j, enqueueJob (ID j) PQ);
      se ← call (AListByStatus Scheduled);
      match se with
      | (_, Some e) => mret (Some e)
      | (scheduledJobs, None) =>
          _ ← for_each scheduledJobs (λ j, enqueueJob (ID j) DQ);
          _ ← call (ABroadcast Events.EventQueueRebuilt
                ("Rebuilt queues from BoltDB status buckets: " +:+ pretty (length pendingJobs)
                 +:+ " pending, " +:+ pretty (length scheduledJobs) +:+ " scheduled"));
          mret None
      end
  end.

End Scheduler.
