(* ===== verification/Runner.v ===== *)
(** * Job execution: [internal/runner/runner.go], [internal/worker/worker.go] *)

From S2P Require Import Prelude Job Metrics Machine.
Import Machine.

Module Runner.

(** [Runner.Cancel]; the runner of worker [workerID]. *)
Definition Cancel (workerID jobID : Z) : prog bool := call (ATaskCancel workerID jobID).

Definition sendResult (r : Result) : prog unit := call (ASendResult r).

(** [if r.Store != nil { _ = r.Store.Update(j) }]. *)
Definition updateStore (hasStore : bool) (j : Job) : prog unit :=
  if hasStore then _ ← call (AUpdate j); mret tt else mret tt.

(** [Runner.Execute]: [hasStore] tells a local worker, whose runner writes to
    the shared store, from a worker process, whose runner has none. *)
Definition Execute (hasStore : bool) (workerID : Z) (j : Job) : prog unit :=
  _ ← call (ATaskStart workerID (ID j));
  e ← call (AExecute j);
  _ ← match e with
      | Some ExecCanceled =>
          _ ← updateStore hasStore (with_status j Cancelled);
          _ ← call (AMetric Metrics.Cancelled);
          sendResult (mkResult (ID j) false (Some (exec_text ExecCanceled)) 0)
      | Some e =>
          _ ← updateStore hasStore (with_lastError (with_status j Failed) (exec_text e));
          _ ← call (AMetric Metrics.Failed);
          sendResult (mkResult (ID j) false (Some (exec_text e)) 0)
      | None =>
          _ ← updateStore hasStore (with_status j Completed);
          _ ← call (AMetric Metrics.Completed);
          sendResult (mkResult (ID j) true None 0)
      end;
  call (ATaskEnd workerID (ID j)).

End Runner.
