(* ===== verification/Rpc.v ===== *)
(** * The worker protocol: [internal/rpc/client/client.go],
    [internal/rpc/server/server.go], [internal/rpc/server/execution_server.go],
    the result forwarder of [cmd/worker/main.go]

    The messages are the fields the code sets on the generated protobuf
    structs, at their declared widths; gRPC carries them unchanged. *)

From S2P Require Import Prelude Job Broker Events GoStrings Manager Machine Runner.
Import Machine.

Module Rpc.

Record SubmitJobRequest := mkSubmit {
  SId : Z;
  SType : string;
  SPriority : Z;
  SWorkerId : Z;
  SAttempt : Z
}.

Record ReportResultRequest := mkReport {
  PJobId : Z;
  PSuccess : bool;
  PError : string;
  PWorkerId : Z;
  PAttempt : Z
}.

(** ** The control node's side *)

(** The request of [Client.Submit]. *)
Definition submitRequest (clientID : Z) (j : Job) : SubmitJobRequest :=
  mkSubmit (ID j) (JType j) (wrap32 (Priority j)) (wrap32 clientID) 1.

(** [fmt.Sprintf("%v", topics)]. *)
Definition formatTopics (topics : list string) : string :=
  "[" +:+ String.concat " " topics +:+ "]".

(** [WorkerServer.RegisterWorker]: whether the registration succeeded. *)
Definition RegisterWorker (workerId : Z) (address : string) (topics : list string) : prog bool :=
  e ← call (ADial workerId address);
  match e with
  | Some _ => mret false
  | None =>
      let remote := RemoteWorker workerId address in
      _ ← call (ARegister remote address topics);
      _ ← call (AMakeAvailable remote);
      _ ← call (ABroadcast Events.EventWorkerRegistered
            ("Worker-" +:+ pretty workerId +:+ " registered at " +:+ address +:+
             " (topics: " +:+ formatTopics topics +:+ ")"));
      mret true
  end.

Definition Heartbeat (workerId : Z) : prog bool :=
  _ ← call (AHeartbeat workerId); mret true.

(** The [job.Result] of a request. *)
Definition reportedResult (req : ReportResultRequest) : Result :=
  mkResult (PJobId req) (PSuccess req)
    (if PSuccess req then None else Some (PError req)) (PAttempt req).

(** [WorkerServer.ReportResult]: whether the result was acknowledged. *)
Definition ReportResult (req : ReportResultRequest) : prog bool :=
  forwarded ← call (AForwardResult (reportedResult req));
  if (forwarded : bool) then
    mw ← call (AWorkerGet (PWorkerId req));
    match mw with
    | Some w => _ ← call (AMakeAvailable w); mret true
    | None => mret true
    end
  else mret false.

(** ** The worker process's side *)

(** The job [ExecutionServer.SubmitJob] builds; its runner has no store. *)
Definition receivedJob (req : SubmitJobRequest) : Job :=
  mkJob (SId req) (SType req) (SPriority req) "" 0 0 time_zero "" "".

(** The goroutine [ExecutionServer.SubmitJob] starts; the request itself is
    always accepted. *)
Definition ExecutionSubmitJob (req : SubmitJobRequest) : prog unit :=
  Runner.Execute false (SWorkerId req) (receivedJob req).

(** The request [Client.ReportResult] builds for a result the worker process
    takes from its channel. *)
Definition reportRequest (clientID : Z) (r : Result) : ReportResultRequest :=
  mkReport (RJobID r) (RSuccess r) (default "" (RError r)) (wrap32 clientID) (wrap32 (RAttempt r)).

End Rpc.
