(* ===== verification/Engine.v ===== *)
(** * The engine: [internal/engine/engine.go]

    The operations behind the HTTP handlers, crash recovery, the cron loop's
    submissions and the reaction to leadership changes. *)

From S2P Require Import Prelude Job Lease Dlq Store Metrics Queue Broker Events Consensus Cron Config.
From S2P Require Import Manager Machine Scheduler.
Import Machine.

Module Engine.

(** The worker registrations of [New]. *)
Fixpoint registerLocal (n : nat) (mm : Manager.Manager * Metrics.Metrics) (now : Time)
  : Manager.Manager * Metrics.Metrics :=
  match n with
  | 0 => mm
  | S i =>
      let mm := registerLocal i mm now in
      Manager.Register mm.1 mm.2 (LocalWorker (Z.of_nat n))
        ("localhost:local-" +:+ pretty n) ["*"] now
  end.

(** [New] over an opened store; [raft] tells whether a Raft node came up. *)
Definition New {T : Type} `{Store.StoreOps T} (cfg : Config.Config) (s : T) (raft : bool) (now : Time)
  : State T :=
  let mm := registerLocal (Z.to_nat (Config.WorkerCount cfg))
              (Manager.NewManager, Metrics.init) now in
  mkState s
    (Queue.NewJobQueue (Queue.PriorityComparator s)) (Queue.NewJobQueue (Queue.DelayComparator s))
    mm.1 true (Chan [] (Z.to_nat (Config.ResultBuffer cfg))) Dlq.New Lease.NewLeaseManager mm.2
    Events.Global Cron.New 0 false raft ∅ now [].

(** Storing a new job: through the replicated log when the node runs Raft,
    otherwise into the store and then the queue. *)
Definition addJob (j : Job) (q : which) : prog err :=
  rn ← call ARaftNode;
  if (rn : bool) then call (APropose (Consensus.ProposeAddJob j))
  else
    e ← call (AAdd j);
    match e with
    | Some _ => mret e
    | None => _ ← Enqueue q (ID j); mret None
    end.

Definition submitMessage (j : Job) (key : string) : string :=
  "Job #" +:+ pretty (ID j) +:+ " (type: " +:+ JType j +:+ ", priority: " +:+ pretty (Priority j)
  +:+ (if decide (key = "") then "" else ", key: " +:+ key) +:+ ") submitted to cluster".

Definition SubmitJobWithContext (jobType : string) (priority : Z) : prog (Job * err) :=
  id ← call ANextID;
  let j := NewJob id jobType priority in
  e ← addJob j PQ;
  match e with
  | Some _ => mret (zeroJob, e)
  | None =>
      _ ← call (AMetric Metrics.Submitted);
      _ ← call (ABroadcast Events.EventJobSubmitted (submitMessage j ""));
      mret (j, None)
  end.

Definition SubmitJobAtWithContext (jobType : string) (priority : Z) (runAt : Time)
  : prog (Job * err) :=
  id ← call ANextID;
  let j := with_nextRunAt (with_status (NewJob id jobType priority) Scheduled) runAt in
  e ← addJob j DQ;
  match e with
  | Some _ => mret (zeroJob, e)
  | None => mret (j, None)
  end.

(** The part of [SubmitJobIdempotent] under [submitMu]. *)
Definition findOrCreate (key jobType : string) (priority : Z) : prog (Job * bool * err) :=
  found ← call (AFind key);
  match found with
  | Some existing => mret (existing, true, None)
  | None =>
      id ← call ANextID;
      let j := with_key (NewJob id jobType priority) key in
      e ← addJob j PQ;
      match e with
      | Some _ => mret (zeroJob, false, e)
      | None =>
          _ ← call (AMetric Metrics.Submitted);
          _ ← call (ABroadcast Events.EventJobSubmitted (submitMessage j key));
          mret (j, false, None)
      end
  end.

Definition SubmitJobIdempotent (key jobType : string) (priority : Z) : prog (Job * bool * err) :=
  if decide (key = "") then
    r ← SubmitJobWithContext jobType priority;
    mret (r.1, false, r.2)
  else
    _ ← call ALock;
    r ← findOrCreate key jobType priority;
    _ ← call AUnlock;
    mret r.

Definition Jobs : prog (list Job) := call AList.
Definition GetJob (id : Z) : prog (option Job) := call (AGet id).

Definition DeleteJob (id : Z) : prog bool :=
  rn ← call ARaftNode;
  if (rn : bool) then
    _ ← call (APropose (Consensus.ProposeDeleteJob id)); mret true
  else
    r ← call (ADelete id); mret r.1.

Definition CancelJobWithContext (id : Z) : prog err :=
  rn ← call ARaftNode;
  if (rn : bool) then call (APropose (Consensus.ProposeCancelJob id))
  else
    e ← call (ACancel id);
    match e with
    | Some _ => mret e
    | None => _ ← call (AMetric Metrics.Cancelled); mret None
    end.

Definition DeadJobs : prog (list Job) :=
  r ← call AListDLQ;
  match r with
  | ([], _) | (_, Some _) => call ADlqList
  | (dlqJobs, None) => mret dlqJobs
  end.

Definition AddCronJob (id schedule jobType : string) (priority : Z) : prog err :=
  let c := mkCron id schedule jobType priority time_zero in
  rn ← call ARaftNode;
  if (rn : bool) then call (APropose (Consensus.ProposeAddCron c))
  else
    e ← call (AAddCron c);
    match e with
    | Some _ => mret e
    | None => call (ACronAdd c)
    end.

Definition RemoveCronJob (id : string) : prog unit :=
  rn ← call ARaftNode;
  if (rn : bool) then _ ← call (APropose (Consensus.ProposeDeleteCron id)); mret tt
  else _ ← call (ADeleteCron id); call (ACronRemove id).

Definition ListCronJobs : prog (list CronJob) :=
  r ← call AListCrons;
  match r with
  | ([], _) | (_, Some _) => call ACronList
  | (crons, None) => mret crons
  end.

(** The loop of [Restore] over the stored jobs. *)
Definition maxID (js : list Job) : Z :=
  foldl (λ m j, if (m <? ID j)%Z then ID j else m) 0%Z js.

Definition Restore : prog err :=
  js ← call AList;
  _ ← call (ASetNextID (maxID js));
  Scheduler.RebuildQueuesFromStore.

(** [Start]: a standalone node rebuilds its queues before its loops run, a Raft
    node leaves both to [watchLeadership].  The result tells whether the loops
    run at once; they and the workers' goroutines are those of [System]. *)
Definition Start : prog bool :=
  rn ← call ARaftNode;
  if (rn : bool) then mret false
  else
    _ ← Scheduler.RebuildQueuesFromStore;
    mret true.

(** One tick of [cron.Scheduler.Start], whose [submit] is [SubmitJob]. *)
Definition cronTurn : prog unit :=
  due ← call ACronTick;
  for_each due (λ c, _ ← SubmitJobWithContext (CronType c) (CronPriority c); mret tt).

(** One message of [LeaderCh] in [watchLeadership]: whether the scheduler and
    cron loops are to run after it.  The one-second grace period before they
    start is left to the caller. *)
Definition watchLeadership (nodeID : string) (isLeader : bool) : prog bool :=
  if isLeader then
    _ ← call (ABroadcast Events.EventLeaderChanged
          ("Node " +:+ nodeID +:+ " claimed Raft Leadership: executing Leader Startup Sequence..."));
    _ ← Scheduler.RebuildQueuesFromStore;
    _ ← call (ABroadcast Events.EventDispatchResumed
          "Leader Startup Sequence completed: Schedulers & dispatch loops active");
    mret true
  else
    _ ← call (ABroadcast Events.EventLeaderChanged
          ("Node " +:+ nodeID +:+ " stepped down from Raft Leadership: pausing schedulers"));
    _ ← call ALeaseClear;
    mret false.

End Engine.
