(* ===== verification/Handlers.v ===== *)
(** * The HTTP handlers: [internal/handlers], [internal/httpapi]

    Each handler is a program over the calls of the engine that answers with a
    status, a content type and a body.  Bodies are the bytes on the wire: the
    request's are decoded and the response's encoded with the JSON of the
    development. *)

From S2P Require Import Prelude Job Lease Store GoStrings Utf8 Json GoTime Codec Metrics Broker.
From S2P Require Import Events Consensus Cron Config Manager Machine Scheduler Engine.
From Stdlib Require Import Ascii.
Import Machine.
Local Open Scope Z_scope.

Module Handlers.

Abbreviation str := GoStrings.to_bytes.

(** ** Requests and responses *)

(** The parts of a request the server looks at; [PathID] is [PathValue("id")]. *)
Record Request := mkRequest {
  Method : string;
  Path : string;
  PathID : string;
  Authorization : string;
  XRequestID : string;
  Body : list ascii
}.

Record Response := mkResponse {
  StatusCode : Z;
  ContentType : string;
  Location : string;   (** the header of a redirect *)
  Content : list ascii
}.

Definition newline : ascii := GoStrings.byte 10.

(** [http.Error]. *)
Definition Error (code : Z) (msg : string) : Response :=
  mkResponse code "text/plain; charset=utf-8" "" (str msg ++ [newline]).

(** A JSON content type, a status and [Encoder.Encode], which writes nothing
    when a value cannot be encoded. *)
Definition respond (code : Z) (j : option Json.json) : Response :=
  mkResponse code "application/json" ""
    (match j with Some j => Json.print j ++ [newline] | None => [] end).

(** [httpapi.WriteError]. *)
Definition WriteError (code : Z) (msg : string) : Response :=
  respond code (Some (Json.JObj [(str "error", Codec.jstring msg)])).

Definition MethodGet := "GET".
Definition MethodPost := "POST".
Definition MethodDelete := "DELETE".

Definition StatusOK : Z := 200.
Definition StatusCreated : Z := 201.
Definition StatusBadRequest : Z := 400.
Definition StatusNotFound : Z := 404.
Definition StatusMethodNotAllowed : Z := 405.
Definition StatusConflict : Z := 409.
Definition StatusInternalServerError : Z := 500.

Definition methodNotAllowed : Response := Error StatusMethodNotAllowed "Method Not Allowed".

(** The text of an error of the engine, which two handlers pass on; the one of
    a follower names the leader. *)
Definition error_text (leader : string) (e : error) : string :=
  match e with
  | ErrJobExists id => "job " +:+ pretty id +:+ " already exists"
  | ErrNotFoundForUpdate id => "job " +:+ pretty id +:+ " not found for update"
  | ErrInvalidTransition a b id =>
      "invalid job status transition from " +:+ a +:+ " to " +:+ b +:+ " for job " +:+ pretty id
  | ErrJobNotFound => "job not found"
  | ErrTerminal st => "job already in terminal status " +:+ st
  | ErrStorage m => m
  | ErrNotLeader => "not leader, leader is " +:+ leader
  | ErrMarshal => "marshal command"
  | ErrRaftApply m => "raft apply error: " +:+ m
  | ErrUnmarshal => "unmarshal command"
  | ErrContextCanceled => "context canceled"
  | ErrWorkerBusy => "worker is busy"
  | ErrRemote m => m
  | ErrCron m => m
  end.

Definition errorBody (e : error) : prog string :=
  match e with
  | ErrNotLeader => addr ← call ALeaderAddr; mret (error_text addr e)
  | _ => mret (error_text "" e)
  end.

(** [Decoder.Decode] into a zero value. *)
Definition decodeBody {A} (fs : Codec.fields A) (zero : A) (body : list ascii) : option A :=
  '(v, _) ← Json.first_value body; Codec.set_struct fs zero v.

(** ** [jobs.go] *)

Record SubmitJobRequest := mkSubmit {
  ReqType : string;
  ReqPriority : Z;
  ReqRunAt : string;
  ReqKey : string
}.

Definition submit_fields : Codec.fields SubmitJobRequest :=
  [(str "type", Codec.set_string (λ r x, mkSubmit x (ReqPriority r) (ReqRunAt r) (ReqKey r)));
   (str "priority", Codec.set_int (λ r x, mkSubmit (ReqType r) x (ReqRunAt r) (ReqKey r)));
   (str "run_at", Codec.set_string (λ r x, mkSubmit (ReqType r) (ReqPriority r) x (ReqKey r)));
   (str "idempotency_key", Codec.set_string (λ r x, mkSubmit (ReqType r) (ReqPriority r) (ReqRunAt r) x))].

Definition decodeSubmit : list ascii → option SubmitJobRequest :=
  decodeBody submit_fields (mkSubmit "" 0 "" "").

(** The answers to accepted submissions; the keys of a map are written in
    order. *)
Definition scheduledResponse (id : Z) (runAt : list ascii) : Json.json :=
  Json.JObj [(str "id", Codec.jint id); (str "run_at", Json.JStr (Json.quote runAt));
             (str "status", Codec.jstring "scheduled")].

Definition submittedResponse (j : Job) : Json.json :=
  Json.JObj ([(str "id", Codec.jint (ID j))] ++
    (if decide (IdempotencyKey j = "") then []
     else [(str "idempotency_key", Codec.jstring (IdempotencyKey j))]) ++
    [(str "status", Codec.jstring "submitted")]).

(** A submission with a [run_at]. *)
Definition submitScheduled (req : SubmitJobRequest) : prog Response :=
  match GoTime.Parse (str (ReqRunAt req)) with
  | None => mret (Error StatusBadRequest "run_at must be RFC3339")
  | Some (runAt, zone) =>
      now ← call ANow;
      if negb (now <? runAt) then mret (Error StatusBadRequest "run_at must be in the future")
      else
        r ← Engine.SubmitJobAtWithContext (ReqType req) (ReqPriority req) runAt;
        match r.2 with
        | Some _ => mret (Error StatusInternalServerError "Failed to submit job")
        | None =>
            mret (respond StatusCreated
              (Some (scheduledResponse (ID r.1) (GoTime.Format false zone (NextRunAt r.1)))))
        end
  end.

(** A submission to run at once. *)
Definition submitNow (req : SubmitJobRequest) : prog Response :=
  r ← Engine.SubmitJobIdempotent (ReqKey req) (ReqType req) (ReqPriority req);
  let '(created, wasDuplicate, e) := r in
  match e with
  | Some _ => mret (Error StatusInternalServerError "Failed to submit job")
  | None =>
      mret (respond (if (wasDuplicate : bool) then StatusOK else StatusCreated)
        (Some (submittedResponse created)))
  end.

Definition SubmitJobHandler (r : Request) : prog Response :=
  if decide (Method r ≠ MethodPost) then mret methodNotAllowed
  else match decodeSubmit (Body r) with
  | None => mret (Error StatusBadRequest "Invalid JSON")
  | Some req =>
      if decide (ReqType req = "") then mret (Error StatusBadRequest "type is required")
      else if ReqPriority req <? 0 then mret (Error StatusBadRequest "priority must be >= 0")
      else if decide (GoStrings.TrimSpace (ReqRunAt req) ≠ "") then submitScheduled req
      else submitNow req
  end.

Section Located.
(** The zones of the times that are written, and whether the store returns a
    nil slice when it has no jobs. *)
Context (located : Time → Z) (nilJobs : bool).

Definition ListJobsHandler (r : Request) : prog Response :=
  if decide (Method r ≠ MethodGet) then mret methodNotAllowed
  else
    js ← Engine.Jobs;
    mret (respond StatusOK (Codec.list_json located nilJobs js)).

Definition GetJobHandler (r : Request) : prog Response :=
  match GoStrings.Atoi (PathID r) with
  | None => mret (Error StatusBadRequest "Invalid job ID")
  | Some id =>
      j ← Engine.GetJob id;
      match j with
      | None => mret (Error StatusNotFound "Job not found")
      | Some j => mret (respond StatusOK (Codec.encode located j))
      end
  end.

Definition JobsHandler (r : Request) : prog Response :=
  if decide (Method r = MethodPost) then SubmitJobHandler r
  else if decide (Method r = MethodGet) then ListJobsHandler r
  else mret methodNotAllowed.

(** [jobResponse]. *)
Definition jobResponse (j : Job) : Json.json :=
  Json.JObj ([(str "id", Codec.jint (ID j))] ++
    (if decide (IdempotencyKey j = "") then []
     else [(str "idempotency_key", Codec.jstring (IdempotencyKey j))]) ++
    [(str "priority", Codec.jint (Priority j))] ++
    (if decide (NextRunAt j = time_zero) then []
     else [(str "run_at", Json.JStr (Json.quote (GoTime.Format false (located (NextRunAt j)) (NextRunAt j))))]) ++
    [(str "status", Codec.jstring (JStatus j)); (str "type", Codec.jstring (JType j))]).

(** ** [cancel.go] *)

Definition jstatus (status : string) : Json.json := Json.JObj [(str "status", Codec.jstring status)].

Definition CancelJobHandler (r : Request) : prog Response :=
  match GoStrings.Atoi (PathID r) with
  | None => mret (Error StatusBadRequest "invalid job id")
  | Some id =>
      e ← Engine.CancelJobWithContext id;
      match e with
      | Some e => msg ← errorBody e; mret (Error StatusConflict msg)
      | None => mret (respond StatusOK (Some (jstatus "cancelled")))
      end
  end.

(** ** [cron.go] *)

Record CreateCronJobRequest := mkCreate {
  CreateID : string;
  CreateSchedule : string;
  CreateType : string;
  CreatePriority : Z
}.

Definition create_fields : Codec.fields CreateCronJobRequest :=
  [(str "id", Codec.set_string (λ r x, mkCreate x (CreateSchedule r) (CreateType r) (CreatePriority r)));
   (str "schedule", Codec.set_string (λ r x, mkCreate (CreateID r) x (CreateType r) (CreatePriority r)));
   (str "type", Codec.set_string (λ r x, mkCreate (CreateID r) (CreateSchedule r) x (CreatePriority r)));
   (str "priority", Codec.set_int (λ r x, mkCreate (CreateID r) (CreateSchedule r) (CreateType r) x))].

Definition decodeCreate : list ascii → option CreateCronJobRequest :=
  decodeBody create_fields (mkCreate "" "" "" 0).

Definition idStatus (id status : string) : Json.json :=
  Json.JObj [(str "id", Codec.jstring id); (str "status", Codec.jstring status)].

Definition CreateCronJobHandler (r : Request) : prog Response :=
  match decodeCreate (Body r) with
  | None => mret (Error StatusBadRequest "Invalid JSON")
  | Some req =>
      let id := GoStrings.TrimSpace (CreateID req) in
      let schedule := GoStrings.TrimSpace (CreateSchedule req) in
      let ty := GoStrings.TrimSpace (CreateType req) in
      if decide (id = "") then mret (Error StatusBadRequest "id is required")
      else if decide (schedule = "") then mret (Error StatusBadRequest "schedule is required")
      else if decide (ty = "") then mret (Error StatusBadRequest "type is required")
      else if CreatePriority req <? 0 then mret (Error StatusBadRequest "priority must be >= 0")
      else
        e ← Engine.AddCronJob id schedule ty (CreatePriority req);
        match e with
        | Some e => msg ← errorBody e; mret (Error StatusBadRequest msg)
        | None => mret (respond StatusCreated (Some (idStatus id "created")))
        end
  end.

Definition ListCronJobsHandler (r : Request) : prog Response :=
  cs ← Engine.ListCronJobs;
  mret (respond StatusOK (Codec.list_json located false cs)).

Definition DeleteCronJobHandler (r : Request) : prog Response :=
  let id := GoStrings.TrimSpace (PathID r) in
  if decide (id = "") then mret (Error StatusBadRequest "id is required")
  else
    _ ← Engine.RemoveCronJob id;
    mret (respond StatusOK (Some (idStatus id "removed"))).

Definition CronJobsHandler (r : Request) : prog Response :=
  if decide (Method r = MethodPost) then CreateCronJobHandler r
  else if decide (Method r = MethodGet) then ListCronJobsHandler r
  else mret methodNotAllowed.

(** ** [cluster.go] *)

Definition jbool (b : bool) : Json.json := Json.JBool b.

Definition node_json (n : Manager.NodeSnapshot) : option Json.json :=
  t ← Codec.jtime located (Manager.NodeLastHeartbeat n);
  Some (Json.JObj
    [(str "id", Codec.jint (Manager.NodeID n)); (str "address", Codec.jstring (Manager.NodeAddress n));
     (str "alive", jbool (Manager.NodeAlive n)); (str "last_heartbeat", t);
     (str "topics", match Manager.NodeTopics n with
                    | [] => Json.JNull
                    | ts => Json.JArr (Codec.jstring <$> ts)
                    end)]).

Definition nodes_json (ns : list Manager.NodeSnapshot) : option Json.json :=
  Json.JArr <$> mapM node_json ns.

Definition Nodes (r : Request) : prog Response :=
  if decide (Method r ≠ MethodGet) then mret (WriteError StatusMethodNotAllowed "method not allowed")
  else
    ns ← call ANodes;
    mret (respond StatusOK (nodes_json ns)).

Record ClusterStatus := mkStatus {
  TotalNodes : Z;
  ActiveNodes : Z;
  DeadNodes : Z;
  TotalJobs : Z;
  PendingJobs : Z;
  CompletedJobs : Z;
  FailedJobs : Z;
  CancelledJobs : Z;
  LeaderNode : string;
  RaftTerm : Z
}.

Definition status_json (s : ClusterStatus) : Json.json :=
  Json.JObj
    [(str "total_nodes", Codec.jint (TotalNodes s)); (str "active_nodes", Codec.jint (ActiveNodes s));
     (str "dead_nodes", Codec.jint (DeadNodes s)); (str "total_jobs", Codec.jint (TotalJobs s));
     (str "pending_jobs", Codec.jint (PendingJobs s)); (str "completed_jobs", Codec.jint (CompletedJobs s));
     (str "failed_jobs", Codec.jint (FailedJobs s)); (str "cancelled_jobs", Codec.jint (CancelledJobs s));
     (str "leader_node", Codec.jstring (LeaderNode s)); (str "raft_term", Codec.jint (RaftTerm s))].

(** The two counting loops. *)
Fixpoint countNodes (ns : list Manager.NodeSnapshot) (active dead : Z) : Z * Z :=
  match ns with
  | [] => (active, dead)
  | n :: ns =>
      if Manager.NodeAlive n then countNodes ns (active + 1) dead
      else countNodes ns active (dead + 1)
  end.

Fixpoint countJobs (js : list Job) (pending completed failed cancelled : Z) : Z * Z * Z * Z :=
  match js with
  | [] => (pending, completed, failed, cancelled)
  | j :: js =>
      if decide (JStatus j = Pending ∨ JStatus j = Scheduled) then
        countJobs js (pending + 1) completed failed cancelled
      else if decide (JStatus j = Completed) then
        countJobs js pending (completed + 1) failed cancelled
      else if decide (JStatus j = Failed) then
        countJobs js pending completed (failed + 1) cancelled
      else if decide (JStatus j = Cancelled) then
        countJobs js pending completed failed (cancelled + 1)
      else countJobs js pending completed failed cancelled
  end.

(** The leader and the term [Status] reports. *)
Definition leaderInfo : prog (string * Z) :=
  rn ← call ARaftNode;
  if (rn : bool) then
    addr ← call ALeaderAddr;
    term ← call ALeaderTerm;
    mret (if decide (addr = "") then "node-1" else addr, term)
  else mret ("node-1", 1).

Definition clusterStatus : prog ClusterStatus :=
  ns ← call ANodes;
  let '(active, dead) := countNodes ns 0 0 in
  js ← Engine.Jobs;
  let '(pending, completed, failed, cancelled) := countJobs js 0 0 0 0 in
  li ← leaderInfo;
  mret (mkStatus (Z.of_nat (length ns)) active dead (Z.of_nat (length js))
          pending completed failed cancelled li.1 li.2).

Definition Status (r : Request) : prog Response :=
  if decide (Method r ≠ MethodGet) then mret (WriteError StatusMethodNotAllowed "method not allowed")
  else
    s ← clusterStatus;
    mret (respond StatusOK (Some (status_json s))).

Definition RaftStatus (nodeID : string) (r : Request) : prog Response :=
  rn ← call ARaftNode;
  info ← (if (rn : bool) then
            l ← call AIsLeader; t ← call ALeaderTerm; a ← call ALeaderAddr; mret (l, t, a)
          else mret (true, 1, "127.0.0.1:18088"));
  let '(isLeader, term, leaderAddr) := info in
  mret (respond StatusOK (Some (Json.JObj
    [(str "is_leader", jbool isLeader); (str "leader_addr", Codec.jstring leaderAddr);
     (str "node_id", Codec.jstring nodeID); (str "term", Codec.jint term)]))).

(** [Leases] encodes the lease manager, all of whose fields are unexported. *)
Definition Leases (r : Request) : prog Response :=
  mret (respond StatusOK (Some (Json.JObj []))).

(** The goroutine [FailoverSimulate] starts; it sleeps between the events. *)
Definition failoverScript : list (Events.EventType * string) :=
  [(Events.EventFailoverTriggered, "Simulated Leader Crash triggered: Leader node-1 terminated");
   (Events.EventLeaderChanged, "Raft election started across active peers");
   (Events.EventLeaderChanged, "New Raft Leader elected: node-2 (Term incremented)");
   (Events.EventQueueRebuilt, "Rebuilt scheduler queues from BoltDB status buckets (O(k) scan)");
   (Events.EventWorkerRegistered, "Active remote workers re-registered during 1s grace period");
   (Events.EventDispatchResumed,
    "Scheduler & Cron dispatch loops resumed cleanly (Failover duration: 1.2s)")].

Definition failoverSequence : prog unit :=
  for_each failoverScript (λ '(t, msg), call (ABroadcast t msg)).

Definition FailoverSimulate (r : Request) : prog Response :=
  mret (respond StatusOK (Some (Json.JObj
    [(str "message", Codec.jstring "Failover simulation started"); (str "simulated", jbool true)]))).

Definition NodeRoute (r : Request) : prog Response :=
  let path := GoStrings.TrimPrefix (Path r) "/cluster/nodes/" in
  if decide (path = "" ∨ path = Path r) then Nodes r
  else match GoStrings.Atoi path with
  | None => mret (WriteError StatusBadRequest "invalid node ID")
  | Some id =>
      if decide (Method r = MethodDelete) then
        _ ← call (ARemoveWorker id);
        _ ← call (ABroadcast Events.EventWorkerEvicted
              ("Worker " +:+ pretty id +:+ " evicted from cluster"));
        mret (respond StatusOK (Some (Json.JObj
          [(str "evicted", jbool true); (str "message", Codec.jstring "node evicted from cluster");
           (str "node_id", Codec.jint id)])))
      else mret (WriteError StatusMethodNotAllowed "method not allowed")
  end.

End Located.

End Handlers.
