(* ===== verification/Server.v ===== *)
(** * The HTTP server: [cmd/server/server.go], [internal/middleware], the event stream

    The routes of the control node with the roles they ask for, the
    authorization in front of them, the middleware around the multiplexer and
    the event stream of [internal/events/broadcaster.go].  Requests are served
    by [serve]; what a request without the right token can do is proved from
    the programs behind the routes. *)

From S2P Require Import Prelude Job Lease Store MemoryStore GoStrings Utf8 Json GoTime Codec Crypto Auth.
From S2P Require Import Metrics Queue Broker Events Consensus Cron Config Manager Machine Scheduler Engine.
From S2P Require Import Handlers.
From Stdlib Require Import Ascii.
Import Machine Handlers.
Local Open Scope Z_scope.

Module Server.

(** ** The multiplexer *)

(** [cleanPath]: the canonical form of a path, to which other requests are
    redirected. *)
Definition push_segment (acc : list (list ascii)) (seg : list ascii) : list (list ascii) :=
  if decide (seg = [] ∨ seg = str ".") then acc
  else if decide (seg = str "..") then tail acc else seg :: acc.

Definition join_segments (segs : list (list ascii)) : list ascii :=
  concat ((λ s, "/"%char :: s) <$> segs).

Definition cleanPath (p : string) : string :=
  let l := GoStrings.to_bytes p in
  let l := match l with
           | c :: _ => if decide (c = "/"%char) then l else "/"%char :: l
           | [] => ["/"%char]
           end in
  let np := match join_segments (reverse (foldl push_segment [] (GoStrings.split_on "/" l))) with
            | [] => ["/"%char]
            | np => np
            end in
  GoStrings.of_bytes
    (if decide (last l = Some "/"%char ∧ np ≠ ["/"%char]) then np ++ ["/"%char] else np).

Example clean_examples :
  cleanPath "/jobs//5/" = "/jobs/5/" ∧ cleanPath "/jobs/../cron" = "/cron" ∧ cleanPath "" = "/" ∧
  cleanPath "/jobs/5" = "/jobs/5".
Proof. vm_compute. done. Qed.

(** The last segment of a path below [prefix], if there is exactly one. *)
Definition segment (prefix path : string) : option string :=
  if GoStrings.HasPrefix path prefix then
    let rest := GoStrings.TrimPrefix path prefix in
    if decide (rest = "" ∨ "/"%char ∈ GoStrings.to_bytes rest) then None else Some rest
  else None.

(** The registered patterns. *)
Inductive route :=
  | RRedirect (path : string)
  | RUI
  | RUIFiles
  | RJobs
  | RGetJob (id : string)
  | RCancelJob (id : string)
  | RCron
  | RDeleteCron (id : string)
  | RClusterStatus
  | RClusterNodes
  | RClusterNode
  | RRaft
  | RFailover
  | RLeases
  | RMetrics
  | REvents
  | RRoot.

(** A pattern with the method GET also takes HEAD requests. *)
Definition isGet (method : string) : bool :=
  bool_decide (method = MethodGet) || bool_decide (method = "HEAD").

(** The most specific pattern for a method and a path; a request no other
    pattern takes goes to the pattern of the root. *)
Definition matchRoute (method path : string) : route :=
  if decide (cleanPath path ≠ path) then RRedirect (cleanPath path)
  else if decide (path = "/ui") then RUI
  else if GoStrings.HasPrefix path "/ui/" then RUIFiles
  else if decide (path = "/jobs") then RJobs
  else if decide (path = "/cron") then RCron
  else if decide (path = "/cluster/status") then RClusterStatus
  else if decide (path = "/cluster/nodes") then RClusterNodes
  else if GoStrings.HasPrefix path "/cluster/nodes/" then RClusterNode
  else if decide (path = "/cluster/raft") then RRaft
  else if decide (path = "/cluster/failover-simulate") then RFailover
  else if decide (path = "/metrics") then RMetrics
  else if decide (path = "/events") then REvents
  else match segment "/jobs/" path, segment "/cron/" path with
  | Some id, _ =>
      if isGet method then (if decide (id = "leases") then RLeases else RGetJob id)
      else if decide (method = MethodDelete) then RCancelJob id
      else RRoot
  | None, Some id => if decide (method = MethodDelete) then RDeleteCron id else RRoot
  | None, None => RRoot
  end.

Example routes :
  matchRoute "GET" "/jobs/7" = RGetJob "7" ∧ matchRoute "DELETE" "/jobs/7" = RCancelJob "7" ∧
  matchRoute "GET" "/jobs/leases" = RLeases ∧ matchRoute "DELETE" "/cron/nightly" = RDeleteCron "nightly" ∧
  matchRoute "DELETE" "/cluster/nodes/3" = RClusterNode ∧ matchRoute "PUT" "/jobs/7" = RRoot ∧
  matchRoute "GET" "/jobs/" = RRoot.
Proof. vm_compute. done. Qed.

(** ** Authorization *)

(** [http.StatusText] of the statuses the middleware sends. *)
Definition StatusText (code : Z) : string :=
  if decide (code = Auth.StatusUnauthorized) then "Unauthorized"
  else if decide (code = Auth.StatusForbidden) then "Forbidden" else "".

Definition writeAuthError (code : Z) (message : string) : Response :=
  respond code (Some (Json.JObj
    [(str "error", Codec.jstring (StatusText code)); (str "message", Codec.jstring message)])).

(** A handler behind [RequireRoles], which the server applies only when
    authorization is enabled. *)
Definition requireRoles (cfg : Config.Config) (roles : list string) (next : Request → prog Response)
    (r : Request) : prog Response :=
  if negb (Config.AuthEnabled cfg) then next r
  else
    now ← call ANow;
    match Auth.RequireRoles (Config.JWTSecret cfg) roles (Authorization r) now with
    | Auth.Reject code msg => mret (writeAuthError code msg)
    | Auth.Pass _ => next r
    end.

Definition requireSubmitter (cfg : Config.Config) := requireRoles cfg [Auth.RoleSubmitter; Auth.RoleAdmin].
Definition requireViewer (cfg : Config.Config) :=
  requireRoles cfg [Auth.RoleViewer; Auth.RoleSubmitter; Auth.RoleAdmin].
Definition requireAdmin (cfg : Config.Config) := requireRoles cfg [Auth.RoleAdmin].

(** ** Response writers and the event stream *)

(** The server's own writer can flush; the wrapper of the middleware has the
    methods of [http.ResponseWriter] only. *)
Inductive writer := Conn | Wrapped (w : writer).

Definition isFlusher (w : writer) : bool := match w with Conn => true | Wrapped _ => false end.

Definition event_name (t : Events.EventType) : string :=
  match t with
  | Events.EventWorkerRegistered => "WORKER_REGISTERED"
  | Events.EventWorkerEvicted => "WORKER_EVICTED"
  | Events.EventJobSubmitted => "JOB_SUBMITTED"
  | Events.EventLeaseGranted => "LEASE_GRANTED"
  | Events.EventLeaseReleased => "LEASE_RELEASED"
  | Events.EventLeaderChanged => "LEADER_CHANGED"
  | Events.EventQueueRebuilt => "QUEUE_REBUILT"
  | Events.EventDispatchResumed => "DISPATCH_RESUMED"
  | Events.EventFailoverTriggered => "FAILOVER_TRIGGERED"
  end.

Section Served.
Context (located : Time → Z) (nilJobs : bool).

Definition event_json (name message : string) (t : Time) : option Json.json :=
  ts ← Codec.jtime located t;
  Some (Json.JObj
    [(str "type", Codec.jstring name); (str "message", Codec.jstring message); (str "timestamp", ts)]).

(** One record of the stream; an event that cannot be encoded is skipped. *)
Definition record (j : option Json.json) : list ascii :=
  match j with
  | Some j => str "data: " ++ Json.print j ++ [newline; newline]
  | None => []
  end.

(** The loop of [HTTPHandler] over the next [n] events, until the client
    disconnects. *)
Fixpoint streamEvents (ch n : nat) : prog (list ascii) :=
  match n with
  | 0%nat => mret []
  | S n =>
      e ← call (AReceive ch);
      rest ← streamEvents ch n;
      mret (record (event_json (event_name (Events.EType e)) (Events.Message e) (Events.Timestamp e)) ++ rest)
  end.

(** [Broadcaster.HTTPHandler]; the assertion [w.( http.Flusher )] panics on a
    writer that cannot flush, after which the deferred [Unsubscribe] runs. *)
Definition HTTPHandler (n : nat) (w : writer) (r : Request) : prog Response :=
  ch ← call ASubscribe;
  now ← call ANow;
  let hello := record (event_json "CONNECTED"
    "Stream connected to Quorum Control Plane Event Broadcaster" now) in
  if isFlusher w then
    body ← streamEvents ch n;
    _ ← call (AUnsubscribe ch);
    mret (mkResponse StatusOK "text/event-stream" "" (hello ++ body))
  else
    _ ← call (AUnsubscribe ch);
    Panic.

(** ** Start-up *)

(** [main] on the engine it made: whether the process goes on. *)
Definition startUp : prog bool :=
  e ← Engine.Restore;
  match e with
  | Some _ => mret false
  | None => _ ← Engine.Start; mret true
  end.

(** ** Serving a request *)

Definition withPathID (r : Request) (id : string) : Request :=
  mkRequest (Method r) (Path r) id (Authorization r) (XRequestID r) (Body r).

(** [http.Redirect], with a body for GET only. *)
Definition html_escape (c : ascii) : list ascii :=
  if decide (c = "&"%char) then str "&amp;"
  else if decide (c = "<"%char) then str "&lt;"
  else if decide (c = ">"%char) then str "&gt;"
  else if decide (c = Json.dquote) then str "&#34;"
  else if decide (c = "'"%char) then str "&#39;" else [c].

Definition redirect (code : Z) (path : string) (r : Request) : Response :=
  let text := if decide (code = 301) then "Moved Permanently"
              else if decide (code = 302) then "Found" else "Temporary Redirect" in
  mkResponse code (if isGet (Method r) then "text/html; charset=utf-8" else "") path
    (if decide (Method r = MethodGet) then
       str "<a href=" ++ Json.dquote :: concat (html_escape <$> str path) ++ Json.dquote ::
       str ">" ++ str text ++ str "</a>." ++ [newline; newline]
     else []).

(** The embedded files of the dashboard and the page of the Prometheus library
    are not part of the model; the status of the multiplexer's own redirects
    (301, or 307) depends on the release of the standard library. *)
Context (ui_file : string → Response) (metrics_page : Response) (mux_redirect : Z).

(** The handlers [main] registers; [n] is the number of events a subscriber of
    the event stream waits for. *)
Definition dispatch (cfg : Config.Config) (n : nat) (w : writer) (r : Request) : prog Response :=
  match matchRoute (Method r) (Path r) with
  | RRedirect p => mret (redirect mux_redirect p r)
  | RUI => mret (redirect 301 "/ui/" r)
  | RUIFiles => mret (ui_file (GoStrings.TrimPrefix (Path r) "/ui/"))
  | RRoot =>
      if decide (Path r = "/") then mret (redirect 302 "/ui/" r)
      else mret (mkResponse StatusOK "application/json" ""
             (str "{" ++ Json.dquote :: str "service" ++ Json.dquote :: str ":" ++ Json.dquote ::
              str "quorum" ++ Json.dquote :: str "," ++ Json.dquote :: str "status" ++ Json.dquote ::
              str ":" ++ Json.dquote :: str "running" ++ Json.dquote :: str "}"))
  | RJobs =>
      if decide (Method r = MethodPost) then requireSubmitter cfg SubmitJobHandler r
      else if decide (Method r = MethodGet) then requireViewer cfg (ListJobsHandler located nilJobs) r
      else mret methodNotAllowed
  | RGetJob id => requireViewer cfg (GetJobHandler located) (withPathID r id)
  | RCancelJob id => requireSubmitter cfg CancelJobHandler (withPathID r id)
  | RCron =>
      if decide (Method r = MethodPost) then requireAdmin cfg CreateCronJobHandler r
      else if decide (Method r = MethodGet) then requireViewer cfg (ListCronJobsHandler located) r
      else mret methodNotAllowed
  | RDeleteCron id => requireAdmin cfg DeleteCronJobHandler (withPathID r id)
  | RClusterStatus => requireViewer cfg Status r
  | RClusterNodes => requireViewer cfg (Nodes located) r
  | RClusterNode =>
      if decide (Method r = MethodDelete) then requireAdmin cfg (NodeRoute located) r
      else requireViewer cfg (NodeRoute located) r
  | RRaft => requireViewer cfg (RaftStatus (Config.RaftNodeID cfg)) r
  | RFailover => requireAdmin cfg FailoverSimulate r
  | RLeases => requireViewer cfg Leases r
  | RMetrics => mret metrics_page
  | REvents => HTTPHandler n w r
  end.

(** The middleware: [Logging] and [Tracing] wrap the writer to see the status,
    [RequestID] takes the client's id or draws one. *)
Definition Logging (next : writer → Request → prog Response) (w : writer) (r : Request) : prog Response :=
  next (Wrapped w) r.

Definition Tracing (next : writer → Request → prog Response) (w : writer) (r : Request) : prog Response :=
  next (Wrapped w) r.

(** The response and the value of its [X-Request-ID] header; [drawn] is the
    random id. *)
Definition RequestID (drawn : string) (next : writer → Request → prog Response) (w : writer) (r : Request)
  : prog (string * Response) :=
  let id := if decide (XRequestID r = "") then drawn else XRequestID r in
  resp ← next w r;
  mret (id, resp).

(** The handler of the server, on a connection. *)
Definition serve (cfg : Config.Config) (n : nat) (drawn : string) (r : Request) : prog (string * Response) :=
  RequestID drawn (Tracing (Logging (dispatch cfg n))) Conn r.

End Served.

(** Whether a request goes to the event stream. *)
Definition streams (r : Request) : bool :=
  match matchRoute (Method r) (Path r) with REvents => true | _ => false end.

(** ** Programs that only look *)

Definition reads {X} (a : act X) : bool :=
  match a with
  | AGet _ | AList | AListCrons | ACronList | ANodes | ARaftNode | AIsLeader | ALeaderTerm
  | ALeaderAddr | ANow => true
  | _ => false
  end.

Fixpoint read_only {A} (p : prog A) : Prop :=
  match p with
  | Ret _ => True
  | Panic => False
  | Act a k => reads a = true ∧ ∀ x, read_only (k x)
  end.

Lemma read_only_bind {A B} (p : prog A) (f : A → prog B) :
  read_only p → (∀ x, read_only (f x)) → read_only (p ≫= f).
Proof.
  intros Hp Hf. change (p ≫= f) with (prog_bind f p).
  induction p as [x| |X a k IH]; simpl in *; [apply Hf|done|]. split; [apply Hp|].
  intros x. apply IH, Hp.
Qed.

Lemma reads_state `{GoRange} {T} `{Store.StoreOps T} env {X} (a : act X) (st : State T) x st' :
  reads a = true → do_act env a st = Some (x, st') → st' = st.
Proof. destruct a; intros Hr Hd; try done; cbn [do_act] in Hd; by simplify_eq. Qed.

Lemma read_only_run `{GoRange} {T} `{Store.StoreOps T} env {A} (p : prog A) (st : State T) :
  read_only p → (run env p st).2 = st.
Proof.
  revert st. induction p as [x| |X a k IH]; intros st Hp; [done..|]. destruct Hp as [Ha Hk]. cbn [run].
  destruct (do_act env a st) as [[x st']|] eqn:Hd; [|done].
  rewrite (reads_state env a st x st' Ha Hd). apply IH, Hk.
Qed.

Ltac looks :=
  repeat first
    [ apply read_only_bind; [|intros ?] | split; [reflexivity|intros ?] | exact I | progress case_match
    | progress case_decide ].

Section Views.
Context (located : Time → Z) (nilJobs : bool).
Implicit Types r : Request.

Lemma ListJobs_looks r : read_only (ListJobsHandler located nilJobs r).
Proof. unfold ListJobsHandler, Engine.Jobs. looks. Qed.

Lemma GetJob_looks r : read_only (GetJobHandler located r).
Proof. unfold GetJobHandler, Engine.GetJob. looks. Qed.

Lemma ListCronJobs_looks r : read_only (ListCronJobsHandler located r).
Proof. unfold ListCronJobsHandler, Engine.ListCronJobs. looks. Qed.

Lemma Nodes_looks r : read_only (Nodes located r).
Proof. unfold Nodes. looks. Qed.

Lemma Status_looks r : read_only (Status r).
Proof. unfold Status, clusterStatus, leaderInfo, Engine.Jobs. looks. Qed.

Lemma RaftStatus_looks id r : read_only (RaftStatus id r).
Proof. unfold RaftStatus. looks. Qed.

Lemma NodeRoute_looks r : Method r ≠ MethodDelete → read_only (NodeRoute located r).
Proof.
  intros Hm. unfold NodeRoute. cbv zeta. case_decide; [apply Nodes_looks|].
  destruct (GoStrings.Atoi _); [|exact I]. by rewrite decide_False.
Qed.

Lemma requireRoles_looks cfg roles next r :
  (∀ r, read_only (next r)) → read_only (requireRoles cfg roles next r).
Proof. intros Hn. unfold requireRoles. destruct (negb _); [apply Hn|]. looks. apply Hn. Qed.
End Views.

(** ** What a request may change *)

Section Protection.
Context `{GoRange} {T : Type} `{Store.StoreOps T}.
Context (located : Time → Z) (nilJobs : bool) (ui_file : string → Response) (metrics_page : Response)
  (mux_redirect : Z).
Implicit Types (st : State T) (r : Request).

(** The claims of the bearer token of a request. *)
Definition bearer (cfg : Config.Config) (now : Time) r : option Auth.Claims :=
  match Auth.Authenticate (Config.JWTSecret cfg) (Authorization r) now with
  | Auth.Pass c => Some c
  | Auth.Reject _ _ => None
  end.

Lemma run_requireRoles env cfg roles next r st :
  Config.AuthEnabled cfg = true →
  run env (requireRoles cfg roles next r) st =
    match Auth.RequireRoles (Config.JWTSecret cfg) roles (Authorization r) (clock st) with
    | Auth.Reject code msg => (Returned (writeAuthError code msg), st)
    | Auth.Pass _ => run env (next r) st
    end.
Proof.
  intros Ha. unfold requireRoles. rewrite Ha. cbn [negb]. run_simpl.
  by destruct (Auth.RequireRoles _ _ _ _).
Qed.

(** A handler for roles the bearer does not have is not run. *)
Lemma guarded env cfg roles next r st :
  Config.AuthEnabled cfg = true →
  (∀ c, bearer cfg (clock st) r = Some c → Auth.Role c ≠ Auth.RoleAdmin ∧ Auth.Role c ∉ roles) →
  (run env (requireRoles cfg roles next r) st).2 = st.
Proof.
  intros Ha Hb. rewrite run_requireRoles by done. unfold Auth.RequireRoles, bearer in *.
  destruct (Auth.Authenticate _ _ _) as [code msg|c]; [done|].
  destruct (Hb c eq_refl) as [H1 H2]. destruct (Auth.RoleSatisfies (Auth.Role c) roles) eqn:Hs; [|done].
  apply Auth.RoleSatisfies_spec in Hs. tauto.
Qed.

(** The event stream subscribes and unsubscribes. *)
Lemma run_events env n r st :
  ∃ b, run env (HTTPHandler located n (Wrapped (Wrapped Conn)) r) st = (Panicked, set_bus st b) ∧
    Events.subscribers b = delete (Events.nextChan (bus st)) (Events.subscribers (bus st)).
Proof.
  unfold HTTPHandler. run_simpl. cbn [isFlusher]. run_simpl. cbn [Events.Subscribe].
  eexists. split; [reflexivity|]. simpl. apply delete_insert_eq.
Qed.

(** C23. Without the token of a submitter or an admin nothing changes: when
    authorization is enabled, a request whose bearer token does not verify, or
    carries another role, leaves every component of the node as it was (up to
    the subscriptions of the event stream), whatever its method, path and
    body. *)
Theorem unauthorized_changes_nothing env cfg n drawn r st :
  Config.AuthEnabled cfg = true →
  (∀ c, bearer cfg (clock st) r = Some c →
     Auth.Role c ≠ Auth.RoleSubmitter ∧ Auth.Role c ≠ Auth.RoleAdmin) →
  ∃ b, (run env (serve located nilJobs ui_file metrics_page mux_redirect cfg n drawn r) st).2
         = set_bus st b.
Proof.
  intros Ha Hb.
  assert (Hsub : ∀ next id, (run env (requireSubmitter cfg next (withPathID r id)) st).2 = st).
  { intros next id. apply guarded; [done|]. intros c Hc. destruct (Hb c Hc). set_solver. }
  assert (Hadm : ∀ next id, (run env (requireAdmin cfg next (withPathID r id)) st).2 = st).
  { intros next id. apply guarded; [done|]. intros c Hc. destruct (Hb c Hc). set_solver. }
  assert (Hw : withPathID r (PathID r) = r) by (by destruct r).
  unfold serve, RequestID, Tracing, Logging. rewrite run_bind.
  assert (Hd : ∃ b, (run env (dispatch located nilJobs ui_file metrics_page mux_redirect cfg n
    (Wrapped (Wrapped Conn)) r) st).2 = set_bus st b).
  { assert (Hok : ∀ p : prog Response, (run env p st).2 = st → ∃ b, (run env p st).2 = set_bus st b).
    { intros p Hp. exists (bus st). rewrite Hp. by destruct st. }
    unfold dispatch. destruct (matchRoute (Method r) (Path r)); [apply Hok..| |apply Hok].
    - done.
    - done.
    - done.
    - case_decide; [rewrite <-Hw at 1; apply Hsub|]. case_decide; [|done].
      apply read_only_run, requireRoles_looks. intros ?. apply ListJobs_looks.
    - apply read_only_run, requireRoles_looks. intros ?. apply GetJob_looks.
    - apply Hsub.
    - case_decide; [rewrite <-Hw at 1; apply Hadm|]. case_decide; [|done].
      apply read_only_run, requireRoles_looks. intros ?. apply ListCronJobs_looks.
    - apply Hadm.
    - apply read_only_run, requireRoles_looks. intros ?. apply Status_looks.
    - apply read_only_run, requireRoles_looks. intros ?. apply Nodes_looks.
    - case_decide; [rewrite <-Hw at 1; apply Hadm|]. apply read_only_run. unfold requireViewer, requireRoles.
      destruct (negb _); [by apply NodeRoute_looks|]. looks. by apply NodeRoute_looks.
    - apply read_only_run, requireRoles_looks. intros ?. apply RaftStatus_looks.
    - rewrite <-Hw at 1. apply Hadm.
    - apply read_only_run, requireRoles_looks. done.
    - done.
    - destruct (run_events env n r st) as (b & -> & _). by exists b.
    - by case_decide. }
  destruct Hd as [b Hd]. exists b. destruct (run env _ st) as [[x| |] st'] eqn:E; simpl in *; done.
Qed.

(** The event stream never starts: behind the two middlewares the writer
    cannot flush, so every request for it panics after subscribing, and the
    deferred call takes the subscription back. *)
Theorem event_stream_panics env cfg n drawn r st :
  Path r = "/events" →
  ∃ b, run env (serve located nilJobs ui_file metrics_page mux_redirect cfg n drawn r) st
         = (Panicked, set_bus st b) ∧
    Events.subscribers b = delete (Events.nextChan (bus st)) (Events.subscribers (bus st)).
Proof.
  intros Hp. destruct (run_events env n r st) as (b & Hrun & Hb). exists b. split; [|done].
  unfold serve, RequestID, Tracing, Logging. rewrite run_bind. unfold dispatch.
  replace (matchRoute (Method r) (Path r)) with REvents; [by rewrite Hrun|].
  rewrite Hp. unfold matchRoute. vm_compute (cleanPath "/events"). rewrite decide_False by (by intros []).
  reflexivity.
Qed.
End Protection.

(** ** Witnesses *)
Section Witnesses.
#[local] Existing Instance canonical_range.

Definition secured : Config.Config :=
  Config.Default (λ k, if decide (k = "QUORUM_AUTH_ENABLED") then "true" else "").

Definition fresh_node : State MemoryStore.MemoryStore :=
  Engine.New secured MemoryStore.NewMemoryStore false Auth.noon.

Definition outside : Env :=
  mkEnv (λ _ _, None) (λ _, None) (λ _ _, None) false false 0 false (λ _, 0) (λ _, None) "1" "".

Definition page : Response := mkResponse 200 "text/plain" "" [].

(** A viewer who tries to cancel a job. *)
Definition viewer_token : string :=
  match Auth.GenerateToken (Config.JWTSecret secured) "eve" Auth.RoleViewer (3600 * Second) Auth.noon with
  | inl tok => tok
  | inr _ => ""
  end.

Definition viewer_cancel : Request :=
  mkRequest "DELETE" "/jobs/7" "" ("Bearer " +:+ viewer_token) "" [].

Lemma unauthorized_changes_nothing_witness :
  ∃ b, (run outside (serve (λ _, 0) false (λ _, page) page 301 secured 0 "id" viewer_cancel) fresh_node).2
         = set_bus fresh_node b.
Proof.
  assert (Ha : Config.AuthEnabled secured = true) by (vm_compute; reflexivity).
  assert (Hc : clock fresh_node = Auth.noon) by reflexivity.
  assert (Hv : bearer secured Auth.noon viewer_cancel =
    Some (Auth.mkClaims "eve" Auth.RoleViewer 1700000000 1700003600)) by (vm_compute; reflexivity).
  rewrite <-Hc in Hv.
  assert (Hr : ∀ c, bearer secured (clock fresh_node) viewer_cancel = Some c →
    Auth.Role c ≠ Auth.RoleSubmitter ∧ Auth.Role c ≠ Auth.RoleAdmin).
  { intros c E. rewrite Hv in E. injection E as <-. split; intros E'; discriminate E'. }
  pose proof (unauthorized_changes_nothing (λ _, 0) false (λ _, page) page 301 outside secured 0 "id"
    viewer_cancel fresh_node Ha Hr) as Hw.
  exact Hw.
Defined.

Lemma event_stream_panics_witness :
  ∃ b, run outside (serve (λ _, 0) false (λ _, page) page 301 secured 3 "id"
             (mkRequest "GET" "/events" "" "" "" [])) fresh_node = (Panicked, set_bus fresh_node b) ∧
    Events.subscribers b = delete (Events.nextChan (bus fresh_node)) (Events.subscribers (bus fresh_node)).
Proof.
  exact (event_stream_panics (λ _, 0) false (λ _, page) page 301 outside secured 3 "id"
    (mkRequest "GET" "/events" "" "" "" []) fresh_node eq_refl).
Defined.
End Witnesses.

End Server.
