(* ===== verification/Executor.v ===== *)
(** * Executors: [internal/executor/]

    The mock executor, the token-bucket limiter and the circuit breaker.  The
    breaker holds its mutex before and after the call of the wrapped executor
    but not during it, so a call is an entry and a settlement, and calls of
    several goroutines interleave between the two. *)

From S2P Require Import Prelude Job.
Local Open Scope Z_scope.

Module Executor.

(** ** [MockExecutor]; [cancelled] is whether the context ends during the
    100 ms the execution takes. *)
Definition MockExecute (cancelled : bool) (j : Job) : option exec_error :=
  if cancelled then Some ExecCanceled
  else if Z.rem (ID j) 2 =? 0 then Some (ExecFailed "simulated failure")
  else None.

(** ** [TokenBucketLimiter] *)
Record TokenBucketLimiter := mkBucket { tokens : nat; burst : nat }.

Definition NewTokenBucketLimiter (b : Z) : TokenBucketLimiter :=
  let n := Z.to_nat (if b <=? 0 then 1 else b) in mkBucket n n.

(** The period of the refill goroutine. *)
Definition refillInterval (rate : Z) : Duration :=
  let rate := if rate <=? 0 then 1 else rate in
  let interval := Z.quot Second rate in
  if interval <=? 0 then Millisecond else interval.

(** One tick of the refill goroutine: a non-blocking send. *)
Definition refill (l : TokenBucketLimiter) : TokenBucketLimiter :=
  if decide (tokens l < burst l)%nat then mkBucket (S (tokens l)) (burst l) else l.

(** [Acquire]: a receive, which blocks on an empty bucket. *)
Definition Acquire (l : TokenBucketLimiter) : option TokenBucketLimiter :=
  match tokens l with
  | O => None
  | S n => Some (mkBucket n (burst l))
  end.

(** ** [CircuitBreakerExecutor] *)
Inductive BreakerState := Closed | Open | HalfOpen.

#[export] Instance BreakerState_eq_dec : EqDecision BreakerState.
Proof. solve_decision. Defined.

Record CircuitBreaker := mkBreaker {
  state : BreakerState;
  failures : Z;
  failureThreshold : Z;
  resetTimeout : Duration;
  openedAt : Time;
  halfOpenTesting : bool
}.

Definition NewCircuitBreaker (threshold : Z) (reset : Duration) : CircuitBreaker :=
  mkBreaker Closed 0 threshold reset time_zero false.

(** The first critical section of [Execute]: [None] is [ErrCircuitOpen]. *)
Definition enter (c : CircuitBreaker) (now : Time) : option CircuitBreaker :=
  let trial := mkBreaker HalfOpen (failures c) (failureThreshold c) (resetTimeout c)
                 (openedAt c) true in
  match state c with
  | Open => if now - openedAt c <? resetTimeout c then None else Some trial
  | HalfOpen => if halfOpenTesting c then None else Some trial
  | Closed => Some c
  end.

(** The second critical section, with the wrapped executor's answer. *)
Definition settle (c : CircuitBreaker) (now : Time) (e : option exec_error) : CircuitBreaker :=
  match e with
  | None => mkBreaker Closed 0 (failureThreshold c) (resetTimeout c) (openedAt c) false
  | Some _ =>
      let f := failures c + 1 in
      if failureThreshold c <=? f
      then mkBreaker Open f (failureThreshold c) (resetTimeout c) now false
      else mkBreaker (state c) f (failureThreshold c) (resetTimeout c) (openedAt c) false
  end.

(** [Execute] without interference: started at [t0], answered at [t1]. *)
Definition Execute (next : Job → option exec_error) (c : CircuitBreaker) (t0 t1 : Time) (j : Job)
  : CircuitBreaker * option exec_error :=
  match enter c t0 with
  | None => (c, Some ExecCircuitOpen)
  | Some c => (settle c t1 (next j), next j)
  end.

(** ** Interleavings of the limiter's users with the refill goroutine *)
Inductive bucket_event := Refill | Take.

#[export] Instance bucket_event_eq_dec : EqDecision bucket_event.
Proof. solve_decision. Defined.

Fixpoint bucket_run (l : TokenBucketLimiter) (es : list bucket_event)
  : option TokenBucketLimiter :=
  match es with
  | [] => Some l
  | Refill :: es => bucket_run (refill l) es
  | Take :: es => Acquire l ≫= λ l, bucket_run l es
  end.

Definition count_events (e : bucket_event) (es : list bucket_event) : nat :=
  length (filter (λ x, x = e) es).

(** ** Interleavings of calls of the breaker

    The state is the breaker and the number of calls between their two
    critical sections. *)
Inductive breaker_step : CircuitBreaker * nat → CircuitBreaker * nat → Prop :=
  | step_reject c n now : enter c now = None → breaker_step (c, n) (c, n)
  | step_enter c n now c' : enter c now = Some c' → breaker_step (c, n) (c', S n)
  | step_settle c n now e : breaker_step (c, S n) (settle c now e, n).

(** A trial is running whenever the breaker is half open, and it got there
    with its failure count at the threshold. *)
Definition breaker_inv (c : CircuitBreaker) : Prop :=
  0 ≤ failures c ∧
  (state c = Closed → failures c < failureThreshold c ∨ failures c = 0) ∧
  (state c ≠ Closed → failureThreshold c ≤ failures c) ∧
  (state c = HalfOpen ↔ halfOpenTesting c = true).

Lemma breaker_inv_new threshold reset : breaker_inv (NewCircuitBreaker threshold reset).
Proof. unfold breaker_inv. simpl. split_and!; [lia|auto|congruence|split; congruence]. Qed.

Lemma breaker_inv_enter c now c' : breaker_inv c → enter c now = Some c' → breaker_inv c'.
Proof.
  unfold breaker_inv, enter. intros (H0 & H1 & H2 & H3) E.
  destruct (state c) eqn:Es.
  - simplify_eq. rewrite Es. split_and!; auto; tauto.
  - case_match; simplify_eq. simpl. split_and!; [done|congruence| |done].
    intros _. by apply H2.
  - destruct (halfOpenTesting c) eqn:Et; simplify_eq.
    destruct H3 as [H3 _]. by specialize (H3 eq_refl).
Qed.

Lemma breaker_inv_settle c now e : breaker_inv c → breaker_inv (settle c now e).
Proof.
  unfold breaker_inv, settle. intros (H0 & H1 & H2 & H3). destruct e as [e|]; simpl.
  2:{ split_and!; [lia|auto|congruence|split; congruence]. }
  destruct (Z.leb_spec (failureThreshold c) (failures c + 1)); simpl.
  - split_and!; [lia|congruence|lia|split; congruence].
  - split_and!; [lia|auto| |].
    + intros Hn. specialize (H2 Hn). lia.
    + split; [|congruence]. intros Hs. assert (state c ≠ Closed) as Hn by congruence.
      specialize (H2 Hn). lia.
Qed.

Lemma breaker_reachable_inv threshold reset c n :
  rtc breaker_step (NewCircuitBreaker threshold reset, 0%nat) (c, n) → breaker_inv c.
Proof.
  intros Hr. change c with (c, n).1. remember (c, n) as q eqn:Eq. clear Eq.
  assert (breaker_inv (NewCircuitBreaker threshold reset, 0%nat).1) as Hi
    by apply breaker_inv_new.
  revert Hi. induction Hr as [|x y z Hxy _ IH]; [done|]. intros Hi. apply IH.
  inversion Hxy; subst; simpl in *; eauto using breaker_inv_enter, breaker_inv_settle.
Qed.

(** A run of failing calls of a closed breaker that stays below the
    threshold counts them; reaching it opens the breaker. *)
Fixpoint fail_calls (next : Job → option exec_error) (c : CircuitBreaker)
    (calls : list (Time * Time * Job)) : CircuitBreaker :=
  match calls with
  | [] => c
  | (t0, t1, j) :: calls => fail_calls next (Execute next c t0 t1 j).1 calls
  end.

Lemma fail_calls_app next c l1 l2 :
  fail_calls next c (l1 ++ l2) = fail_calls next (fail_calls next c l1) l2.
Proof.
  revert c. induction l1 as [|[[t0 t1] j] l1 IH]; intros c; [done|]. apply IH.
Qed.

Lemma fail_calls_below next c calls :
  state c = Closed → (∀ j, is_Some (next j)) →
  failures c + Z.of_nat (length calls) < failureThreshold c →
  fail_calls next c calls =
    mkBreaker Closed (failures c + Z.of_nat (length calls)) (failureThreshold c) (resetTimeout c)
      (openedAt c) (if decide (calls = []) then halfOpenTesting c else false).
Proof.
  intros Hs Hf. revert c Hs. induction calls as [|[[t0 t1] j] calls IH]; intros c Hs Hlt.
  { simpl. rewrite Z.add_0_r. destruct c; simpl in *; by subst. }
  cbn [fail_calls]. unfold Execute, enter. rewrite Hs.
  destruct (Hf j) as [e He]. rewrite He. cbn [fst settle].
  cbn [length] in *. destruct (Z.leb_spec (failureThreshold c) (failures c + 1)); [lia|].
  rewrite IH; cbn [state failures failureThreshold resetTimeout openedAt halfOpenTesting];
    [|done|lia].
  f_equal; [lia|]. by destruct (decide (calls = [])).
Qed.

Lemma bucket_run_count l es l' :
  bucket_run l es = Some l' →
  (tokens l' + count_events Take es ≤ tokens l + count_events Refill es)%nat ∧
  burst l' = burst l ∧ (tokens l ≤ burst l → tokens l' ≤ burst l')%nat.
Proof.
  revert l. induction es as [|[] es IH]; intros l; cbn [bucket_run].
  - intros [= ->]. unfold count_events. cbn. lia.
  - intros Hb. apply IH in Hb. unfold count_events in *.
    rewrite !filter_cons. repeat (case_decide; try congruence).
    unfold refill in *. destruct (decide (tokens l < burst l)%nat); cbn in *; lia.
  - unfold Acquire. destruct (tokens l) as [|n] eqn:Et; [done|]. cbn [mbind option_bind].
    intros Hb. apply IH in Hb. unfold count_events in *.
    rewrite !filter_cons. repeat (case_decide; try congruence).
    cbn in *. lia.
Qed.

(** One trial at a time: however calls interleave, a half-open breaker
    rejects every further call until its trial is settled. *)
Theorem half_open_single_trial threshold reset c n now :
  rtc breaker_step (NewCircuitBreaker threshold reset, 0%nat) (c, n) →
  state c = HalfOpen → enter c now = None.
Proof.
  intros Hr Hs. destruct (breaker_reachable_inv _ _ _ _ Hr) as (_ & _ & _ & Ht).
  unfold enter. by rewrite Hs, (proj1 Ht Hs).
Qed.

(** A breaker of threshold one after a failure and the end of its pause. *)
Lemma half_open_single_trial_witness :
  enter (mkBreaker HalfOpen 1 1 100 5 true) 200 = None.
Proof.
  apply (half_open_single_trial 1 100 _ 1%nat); [|reflexivity].
  eapply rtc_l; [apply (step_enter _ 0 0); reflexivity|].
  eapply rtc_l; [apply (step_settle _ 0 5 (Some (ExecFailed "down")))|].
  eapply rtc_l; [apply (step_enter _ 0 105); vm_compute; reflexivity|].
  apply rtc_refl.
Defined.

(** Opening: after as many consecutive failures as the threshold the
    breaker is open, and until the reset timeout has passed since the last of
    them a call is rejected without reaching the wrapped executor. *)
Theorem breaker_opens next threshold reset calls t0 t1 j t :
  (∀ j, is_Some (next j)) → 0 < threshold →
  Z.of_nat (length calls) + 1 = threshold → t < t1 + reset →
  let c := fail_calls next (NewCircuitBreaker threshold reset) (calls ++ [(t0, t1, j)]) in
  state c = Open ∧ ∀ next' t' j', Execute next' c t t' j' = (c, Some ExecCircuitOpen).
Proof.
  intros Hf Hpos Hlen Ht c.
  assert (Hc : c = mkBreaker Open threshold threshold reset t1 false).
  { unfold c. rewrite fail_calls_app, (fail_calls_below next (NewCircuitBreaker threshold reset) calls);
      [|done|exact Hf|cbn [NewCircuitBreaker failures failureThreshold]; lia].
    cbn [NewCircuitBreaker failures failureThreshold resetTimeout openedAt halfOpenTesting].
    cbn [fail_calls]. unfold Execute. cbn [enter state].
    destruct (Hf j) as [e He]. rewrite He. cbn [settle failures failureThreshold fst].
    destruct (Z.leb_spec threshold (0 + Z.of_nat (length calls) + 1)); [|lia].
    cbn [resetTimeout]. f_equal. lia. }
  rewrite Hc. split; [done|]. intros next' t' j'. unfold Execute, enter. simpl.
  destruct (Z.ltb_spec (t - t1) reset); [done|lia].
Qed.

Lemma breaker_opens_witness :
  state (fail_calls (λ _, Some (ExecFailed "simulated failure")) (NewCircuitBreaker 2 100)
           ([(0, 1, NewJob 2 "a" 0)] ++ [(2, 3, NewJob 4 "b" 0)])) = Open.
Proof.
  refine (proj1 (breaker_opens (λ _, Some (ExecFailed "simulated failure")) 2 100
    [(0, 1, NewJob 2 "a" 0)] 2 3 (NewJob 4 "b" 0) 50 _ _ _ _)); [eauto|lia|reflexivity|lia].
Defined.

(** Rate limit: in any interleaving of executions with the refill
    goroutine, at most the burst plus the number of refills start, and the
    bucket never overfills. *)
Theorem rate_bound b es l :
  bucket_run (NewTokenBucketLimiter b) es = Some l →
  (count_events Take es ≤ Z.to_nat (Z.max 1 b) + count_events Refill es)%nat ∧
  (tokens l ≤ burst l)%nat.
Proof.
  intros Hr. destruct (bucket_run_count _ _ _ Hr) as (Hc & _ & Hb).
  unfold NewTokenBucketLimiter in *. cbn [tokens burst] in *.
  replace (Z.to_nat (Z.max 1 b)) with (Z.to_nat (if b <=? 0 then 1 else b))
    by (destruct (Z.leb_spec b 0); f_equal; lia).
  split; [lia|]. by apply Hb.
Qed.

Lemma rate_bound_witness :
  (count_events Take [Take; Take; Refill; Take] ≤
     Z.to_nat (Z.max 1 2) + count_events Refill [Take; Take; Refill; Take])%nat.
Proof.
  exact (proj1 (rate_bound 2 [Take; Take; Refill; Take] (mkBucket 0 2) eq_refl)).
Defined.

End Executor.
