(* ===== verification/Worker.v ===== *)
(** * Local workers: [internal/worker/worker.go]

    A local worker announces itself on the channel of idle workers and then
    waits for one job on its own, unbuffered channel.  Sending on the first and
    waiting on the second are two steps of its goroutine, and a [Submit] that
    comes between them is refused.  The pool of workers and the dispatching
    goroutine interleave step by step. *)

From S2P Require Import Prelude Job.
Local Open Scope Z_scope.

Module Worker.

(** Where the goroutine of [Start] is. *)
Inductive phase :=
  | Announcing             (** at [case w.Available <- w] *)
  | Announced              (** announced, not yet at the inner [select] *)
  | Receiving              (** at [case j := <-w.JobChannel] *)
  | Executing (j : Job)    (** in [w.Runner.Execute] *)
  | Stopped.

#[global] Instance phase_eq_dec : EqDecision phase.
Proof. solve_decision. Defined.

(** [Submit]: the send succeeds only when the worker is receiving.  [done] tells
    whether the caller's context is done, [pick] which of two ready cases the
    [select] takes. *)
Definition Submit (w : phase) (done pick : bool) (j : Job) : phase * err :=
  match w, done with
  | Receiving, false => (Executing j, None)
  | Receiving, true => if pick then (w, Some ErrContextCanceled) else (Executing j, None)
  | _, true => (w, Some ErrContextCanceled)
  | _, false => (w, Some ErrWorkerBusy)
  end.

(** ** The pool *)

(** The workers, the channel of idle ones with its capacity, and the workers the
    dispatcher has taken from it: [SelectWorker] takes several until one can
    handle the job. *)
Record pool := mkPool {
  workers : gmap Z phase;
  available : list Z;
  capacity : nat;
  taken : list Z
}.

Definition set_phase (p : pool) (w : Z) (ph : phase) : pool :=
  mkPool (<[w := ph]> (workers p)) (available p) (capacity p) (taken p).

(** The steps of [Start], and those of the dispatcher: it takes the first idle
    worker; it puts one back, unless the channel is full; it submits to one and
    forgets it whatever the answer. *)
Inductive step : pool → pool → Prop :=
  | step_announce p w :
      workers p !! w = Some Announcing → (length (available p) < capacity p)%nat →
      step p (mkPool (<[w := Announced]> (workers p)) (available p ++ [w]) (capacity p) (taken p))
  | step_receive p w : workers p !! w = Some Announced → step p (set_phase p w Receiving)
  | step_finish p w j : workers p !! w = Some (Executing j) → step p (set_phase p w Announcing)
  | step_stop p w ph :
      workers p !! w = Some ph → ph = Announcing ∨ ph = Receiving → step p (set_phase p w Stopped)
  | step_take p w rest :
      available p = w :: rest →
      step p (mkPool (workers p) rest (capacity p) (taken p ++ [w]))
  | step_putback p w l1 l2 :
      taken p = l1 ++ w :: l2 →
      step p (mkPool (workers p)
                (if decide (length (available p) < capacity p)%nat then available p ++ [w] else available p)
                (capacity p) (l1 ++ l2))
  | step_submit p w ph l1 l2 done pick j :
      taken p = l1 ++ w :: l2 → workers p !! w = Some ph →
      step p (mkPool (<[w := (Submit ph done pick j).1]> (workers p)) (available p) (capacity p) (l1 ++ l2)).

(** [NewWorker] for each of the ids; none has started. *)
Definition NewPool (ids : list Z) (cap : nat) : pool :=
  mkPool (list_to_map ((λ w, (w, Announcing)) <$> ids)) [] cap [].

Inductive reachable (ids : list Z) (cap : nat) : pool → Prop :=
  | reach_new : reachable ids cap (NewPool ids cap)
  | reach_step p p' : reachable ids cap p → step p p' → reachable ids cap p'.

(** ** The invariant *)

(** The workers that are announced, in the channel or with the dispatcher. *)
Definition offered (p : pool) : list Z := available p ++ taken p.

(** Each is offered once, and was announced since its last job. *)
Definition offered_ok (p : pool) : Prop :=
  NoDup (offered p) ∧
  ∀ w, w ∈ offered p → ∃ ph, workers p !! w = Some ph ∧ ph ∈ [Announced; Receiving; Stopped].

Lemma offered_update p w ph :
  offered_ok p → (w ∈ offered p → ph ∈ [Announced; Receiving; Stopped]) → offered_ok (set_phase p w ph).
Proof.
  intros [Hn Ho] Hw. split; [done|]. intros v Hv. cbn [workers set_phase].
  destruct (decide (v = w)) as [->|Hne]; [rewrite lookup_insert_eq; eauto|].
  rewrite lookup_insert_ne by done. by apply Ho.
Qed.

Lemma offered_phase p w ph :
  offered_ok p → workers p !! w = Some ph → ph ∉ [Announced; Receiving; Stopped] → w ∉ offered p.
Proof. intros [_ Ho] Hw Hph Hin. destruct (Ho w Hin) as (ph' & Hw' & ?). congruence. Qed.

(** Fewer offers of unchanged workers keep the invariant. *)
Lemma offered_sublist p p' w ph :
  offered_ok p → workers p' = <[w := ph]> (workers p) → w ∉ offered p' →
  offered p ≡ₚ w :: offered p' → offered_ok p'.
Proof.
  intros [Hn Ho] Hw Hni Hp. rewrite Hp in Hn. apply NoDup_cons in Hn as [_ Hn]. split; [done|].
  intros v Hv. rewrite Hw, lookup_insert_ne by (intros ->; done). apply Ho. rewrite Hp. by right.
Qed.

Lemma offered_remove p w l1 l2 :
  taken p = l1 ++ w :: l2 → offered p ≡ₚ w :: (available p ++ l1 ++ l2).
Proof. intros Ht. unfold offered. rewrite Ht, !app_assoc. symmetry. apply Permutation_middle. Qed.

Lemma step_offered p p' : offered_ok p → step p p' → offered_ok p'.
Proof.
  intros Hok Hs.
  destruct Hs as [p w Hw _|p w Hw|p w j Hw|p w ph Hw Hph|p w rest Ha|p w l1 l2 Ht|p w ph l1 l2 d k j Ht Hw].
  - assert (Hni : w ∉ offered p) by (eapply offered_phase; [done..|set_solver]).
    destruct Hok as [Hn Ho]. unfold offered_ok, offered in *. cbn [available taken workers] in *. split.
    + rewrite <-app_assoc, (Permutation_app_comm [w]), app_assoc. apply NoDup_app.
      split_and!; [done|set_solver|apply NoDup_singleton].
    + intros v Hv. destruct (decide (v = w)) as [->|Hne];
        [rewrite lookup_insert_eq; exists Announced; split; [done|set_solver]|].
      rewrite lookup_insert_ne by done. apply Ho. set_solver.
  - apply offered_update; [done|]. set_solver.
  - apply offered_update; [done|]. intros Hin. exfalso. revert Hin.
    eapply offered_phase; [done..|set_solver].
  - apply offered_update; [done|]. set_solver.
  - destruct Hok as [Hn Ho]. unfold offered_ok, offered in *. rewrite Ha in *.
    cbn [available taken workers app] in *.
    assert (Hp : rest ++ taken p ++ [w] ≡ₚ w :: rest ++ taken p)
      by (rewrite app_assoc; symmetry; apply Permutation_cons_append).
    split; [by rewrite Hp|]. intros v Hv. apply Ho. by rewrite <-Hp.
  - pose proof (offered_remove p w l1 l2 Ht) as Hp.
    destruct Hok as [Hn Ho]. unfold offered_ok. rewrite Hp in Hn. cbn [workers]. case_decide.
    + assert (Hq : available p ++ [w] ++ l1 ++ l2 ≡ₚ offered p) 
        by (rewrite Hp; symmetry; apply Permutation_middle).
      unfold offered at 1 2. cbn [available taken]. rewrite <-app_assoc. rewrite Hq, Hp. split; [done|].
      intros v Hv. apply Ho. by rewrite <-Hq.
    + apply NoDup_cons in Hn as [_ Hn]. split; [done|]. intros v Hv. apply Ho. rewrite Hp. by right.
  - pose proof (offered_remove p w l1 l2 Ht) as Hp.
    eapply (offered_sublist p _ w); [done|reflexivity| |exact Hp].
    destruct Hok as [Hn _]. rewrite Hp in Hn. by apply NoDup_cons in Hn as [? _].
Qed.

Lemma reachable_offered ids cap p : reachable ids cap p → offered_ok p.
Proof.
  induction 1 as [|p p' _ IH Hs]; [|by eapply step_offered].
  split; [constructor|]. by intros w ?%elem_of_nil.
Qed.

(** A worker the dispatcher has taken accepts the job, except in the window
    between its announcement and its wait (or when it has stopped): in every
    reachable pool no busy worker is offered, and none is offered twice. *)
Theorem taken_worker_accepts ids cap p w pick j :
  reachable ids cap p → w ∈ taken p →
  w ∉ available p ∧
  ∃ ph, workers p !! w = Some ph ∧
    (Submit ph false pick j = (Executing j, None) ∨
     (ph = Announced ∨ ph = Stopped) ∧ Submit ph false pick j = (ph, Some ErrWorkerBusy)).
Proof.
  intros Hr Ht. destruct (reachable_offered _ _ _ Hr) as [Hn Ho].
  unfold offered in *. apply NoDup_app in Hn as (_ & Hd & _).
  split; [set_solver|]. destruct (Ho w) as (ph & Hw & Hph); [set_solver|]. exists ph. split; [done|].
  rewrite !elem_of_cons, elem_of_nil in Hph. destruct_or! Hph; subst; simpl; auto.
Qed.

(** A worker that waits for a job and is not offered is never offered again. *)
Definition lost (w : Z) (p : pool) : Prop :=
  (workers p !! w = Some Receiving ∨ workers p !! w = Some Stopped) ∧ w ∉ offered p.

Lemma lost_step w p p' : lost w p → step p p' → lost w p'.
Proof.
  unfold lost, offered. intros [Hw Ho] Hs.
  destruct Hs as [p v Hv _|p v Hv|p v j Hv|p v ph Hv Hph|p v rest Ha|p v l1 l2 Ht|p v ph l1 l2 d k j Ht Hv];
    cbn [workers available taken set_phase] in *.
  - assert (v ≠ w) by (intros ->; destruct Hw; congruence). rewrite lookup_insert_ne by done. set_solver.
  - assert (v ≠ w) by (intros ->; destruct Hw; congruence). by rewrite lookup_insert_ne.
  - assert (v ≠ w) by (intros ->; destruct Hw; congruence). by rewrite lookup_insert_ne.
  - split; [|done]. destruct (decide (v = w)) as [->|]; [rewrite lookup_insert_eq; auto|].
    by rewrite lookup_insert_ne.
  - rewrite Ha in Ho. set_solver.
  - rewrite Ht in Ho. case_decide; set_solver.
  - rewrite Ht in Ho. assert (v ≠ w) by set_solver. rewrite lookup_insert_ne by done. set_solver.
Qed.

Lemma lost_forever w p p' : lost w p → rtc step p p' → lost w p'.
Proof. intros Hl Hs. induction Hs; [done|]. eauto using lost_step. Qed.

Lemma NewPool_workers ids cap w : w ∈ ids → workers (NewPool ids cap) !! w = Some Announcing.
Proof.
  intros Hw. cbn [workers NewPool]. induction ids as [|v ids IH]; [by apply elem_of_nil in Hw|].
  cbn. destruct (decide (v = w)) as [->|]; [by rewrite lookup_insert_eq|].
  rewrite lookup_insert_ne by done. apply IH. set_solver.
Qed.

(** A worker can be lost: when the dispatcher submits in the window, the
    refused worker goes on to wait for a job although it is no longer
    announced, and from then on, whatever happens, it is never offered and runs
    nothing again. *)
Theorem worker_lost ids cap w (j : Job) :
  w ∈ ids → (0 < cap)%nat →
  ∃ p, reachable ids cap p ∧ workers p !! w = Some Receiving ∧ ∀ p', rtc step p p' → lost w p'.
Proof.
  intros Hw Hc. pose proof (NewPool_workers ids cap w Hw) as H0.
  set (p1 := mkPool (<[w := Announced]> (workers (NewPool ids cap))) [w] cap []).
  set (p2 := mkPool (workers p1) [] cap [w]).
  set (p3 := mkPool (<[w := Announced]> (workers p1)) [] cap []).
  assert (R1 : reachable ids cap p1).
  { eapply reach_step; [constructor|]. by apply (step_announce (NewPool ids cap)). }
  assert (R2 : reachable ids cap p2) by (eapply reach_step; [exact R1|]; by apply (step_take p1 w)).
  assert (R3 : reachable ids cap p3).
  { eapply reach_step; [exact R2|]. apply (step_submit p2 w Announced [] [] false false j); [done|].
    cbn. apply lookup_insert_eq. }
  exists (set_phase p3 w Receiving). cbn [workers set_phase]. split_and!.
  - eapply reach_step; [exact R3|]. apply step_receive. cbn. apply lookup_insert_eq.
  - apply lookup_insert_eq.
  - intros p'. apply lost_forever. split; [left; apply lookup_insert_eq|]. apply not_elem_of_nil.
Qed.

(** ** Witnesses *)

Lemma worker_lost_witness : ∃ p, reachable [1; 2] 10 p ∧ workers p !! 2 = Some Receiving ∧
  ∀ p', rtc step p p' → lost 2 p'.
Proof. apply (worker_lost [1; 2] 10 2 zeroJob); [set_solver|lia]. Defined.

Lemma taken_worker_accepts_witness : ∃ p ph,
  reachable [1] 10 p ∧ workers p !! 1 = Some ph ∧ ph = Receiving ∧
  (Submit ph false true zeroJob = (Executing zeroJob, None) ∨
   (ph = Announced ∨ ph = Stopped) ∧ Submit ph false true zeroJob = (ph, Some ErrWorkerBusy)).
Proof.
  set (p0 := NewPool [1] 10).
  set (p1 := mkPool (<[1 := Announced]> (workers p0)) ([] ++ [1]) 10 []).
  set (p2 := set_phase p1 1 Receiving). set (p3 := mkPool (workers p2) [] 10 [1]).
  assert (R1 : reachable [1] 10 p1).
  { eapply reach_step; [constructor|]. apply (step_announce p0); [reflexivity|cbn; lia]. }
  assert (R2 : reachable [1] 10 p2) by (eapply reach_step; [exact R1|]; by apply step_receive).
  assert (R3 : reachable [1] 10 p3) by (eapply reach_step; [exact R2|]; by apply (step_take p2 1)).
  destruct (taken_worker_accepts [1] 10 p3 1 true zeroJob R3 ltac:(by left)) as (_ & ph & Hph & Hs).
  exists p3, ph. split; [exact R3|]. split; [exact Hph|]. split; [|exact Hs].
  vm_compute in Hph. by injection Hph as <-.
Defined.

End Worker.
