(* ===== verification/WorkerMain.v ===== *)
(** * The worker process: [cmd/worker/main.go], the registration of
    [internal/rpc/client/client.go]

    The settings a worker process takes from its environment, its execution
    pipeline, what it sends to the control node, and how the topics it was
    given decide which jobs reach it. *)

From S2P Require Import Prelude Job GoStrings Json Codec Broker Events Config Manager Machine Runner Rpc.
From S2P Require Import Executor.
From Stdlib Require Import Ascii.
Import Machine.
Local Open Scope Z_scope.

Module WorkerMain.

(** ** Settings *)

Record settings := mkSettings {
  WorkerID : Z;
  MetricsPort : Z;
  WorkerPort : Z;
  Topics : list string;
  WorkerAddr : string;
  ControllerAddr : string
}.

(** The pieces of [QUORUM_WORKER_TOPICS] that are not blank. *)
Fixpoint parseTopics (rawTopics : list string) : list string :=
  match rawTopics with
  | [] => []
  | t :: rawTopics =>
      let trimmed := GoStrings.TrimSpace t in
      if decide (trimmed ≠ "") then trimmed :: parseTopics rawTopics else parseTopics rawTopics
  end.

Definition topics (v : string) : list string :=
  if decide (v ≠ "") then
    match parseTopics (GoStrings.Split v ",") with
    | [] => ["*"]
    | parsed => parsed
    end
  else ["*"].

(** A number from a variable, if it is set; [None] when [main] exits because
    the text is no number. *)
Definition workerID (v : string) (cfg : Config.Config) : option Z :=
  if decide (v ≠ "") then GoStrings.Atoi v else Some (Config.WorkerID cfg).

Definition workerPort (v : string) (cfg : Config.Config) : option Z :=
  if decide (v ≠ "") then GoStrings.Atoi v else Some (Config.WorkerGRPCPort cfg).

(** The port of the metrics server keeps its default on a bad text. *)
Definition metricsPort (v : string) : Z :=
  if decide (v ≠ "") then default 9090 (GoStrings.Atoi v) else 9090.

Definition workerAddr (v : string) (port : Z) : string :=
  if decide (v ≠ "") then v else "localhost:" +:+ pretty port.

Definition controllerAddr (v : string) (cfg : Config.Config) : string :=
  if decide (v ≠ "") then v else "localhost:" +:+ pretty (Config.ControllerGRPCPort cfg).

(** What [main] starts its goroutines with. *)
Definition load (getenv : string → string) (cfg : Config.Config) : option settings :=
  id ← workerID (getenv "QUORUM_WORKER_ID") cfg;
  port ← workerPort (getenv "QUORUM_WORKER_PORT") cfg;
  Some (mkSettings id (metricsPort (getenv "QUORUM_METRICS_PORT")) port
    (topics (getenv "QUORUM_WORKER_TOPICS")) (workerAddr (getenv "QUORUM_WORKER_ADDR") port)
    (controllerAddr (getenv "QUORUM_CONTROLLER_ADDR") cfg)).

(** What the status page of the process says. *)
Definition statusPage (s : settings) : list ascii :=
  Json.print (Json.JObj
    [(Json.str "service", Codec.jstring "quorum-worker"); (Json.str "worker_id", Codec.jint (WorkerID s));
     (Json.str "status", Codec.jstring "running")]).

(** ** The execution pipeline *)

Record pipeline := mkPipeline {
  breaker : Executor.CircuitBreaker;
  limiter : Executor.TokenBucketLimiter
}.

Definition newPipeline (cfg : Config.Config) : pipeline :=
  mkPipeline
    (Executor.NewCircuitBreaker (Config.BreakerFailureThreshold cfg) (Config.BreakerResetTimeout cfg))
    (Executor.NewTokenBucketLimiter (Config.RateBurst cfg)).

(** [RateLimitedExecutor.Execute] over the mock executor; [None] while the
    bucket is empty and the call blocks. *)
Definition rateLimited (l : Executor.TokenBucketLimiter) (cancelled : bool) (j : Job)
  : option (Executor.TokenBucketLimiter * option exec_error) :=
  l ← Executor.Acquire l; Some (l, Executor.MockExecute cancelled j).

(** The whole pipeline: the breaker around the limiter. *)
Definition execute (p : pipeline) (t0 t1 : Time) (cancelled : bool) (j : Job)
  : option (pipeline * option exec_error) :=
  match Executor.enter (breaker p) t0 with
  | None => Some (p, Some ExecCircuitOpen)
  | Some b =>
      '(l, e) ← rateLimited (limiter p) cancelled j;
      Some (mkPipeline (Executor.settle b t1 e) l, e)
  end.

(** ** What the process sends *)

(** The registration and the heartbeats of [Client.Start], as the control node
    serves them. *)
Definition register (s : settings) : prog bool :=
  Rpc.RegisterWorker (wrap32 (WorkerID s)) (WorkerAddr s) (Topics s).

Definition heartbeat (s : settings) : prog bool := Rpc.Heartbeat (wrap32 (WorkerID s)).

(** The goroutine that forwards results: one report each, in order. *)
Definition forward (s : settings) (results : list Result) : list Rpc.ReportResultRequest :=
  Rpc.reportRequest (WorkerID s) <$> results.

(** ** Routing *)

Lemma elem_of_parseTopics t raw :
  t ∈ parseTopics raw ↔ t ≠ "" ∧ ∃ piece, piece ∈ raw ∧ GoStrings.TrimSpace piece = t.
Proof.
  induction raw as [|x raw IH]; [set_solver|]. cbn [parseTopics].
  case_decide as Hx; rewrite ?elem_of_cons, IH; set_solver.
Qed.

(** A piece of the variable names the topic [t]. *)
Definition names (v t : string) : Prop :=
  ∃ piece, piece ∈ GoStrings.Split v "," ∧ GoStrings.TrimSpace piece = t.

(** From the environment to the dispatcher: a worker process registered with
    the topics of [QUORUM_WORKER_TOPICS] is given exactly the jobs whose type is
    one of the trimmed, non-blank pieces, or every job when there is no such
    piece or one of them is a wildcard. *)
Theorem worker_topics b id v ty :
  Broker.CanHandle (Broker.RegisterWorker b id (topics v)) id ty = true ↔
    (∀ t, names v t → t = "") ∨ names v "*" ∨ names v "all" ∨ ty ≠ "" ∧ names v ty.
Proof.
  assert (Hin : ∀ t, t ∈ parseTopics (GoStrings.Split v ",") ↔ t ≠ "" ∧ names v t)
    by (intros t; apply elem_of_parseTopics).
  assert (Hcase : topics v = ["*"] ∧ (∀ t, names v t → t = "") ∨
    topics v = parseTopics (GoStrings.Split v ",") ∧ ∃ t, t ≠ "" ∧ names v t).
  { unfold topics. case_decide as Hv.
    - destruct (parseTopics _) as [|t ts] eqn:E; [left|right]; (split; [done|]).
      + intros t Ht. destruct (decide (t = "")); [done|]. exfalso. by apply (not_elem_of_nil t), Hin.
      + exists t. apply Hin. by left.
    - left. split; [done|]. subst v. intros t (piece & Hp & <-).
      by apply list_elem_of_singleton in Hp as ->. }
  rewrite Broker.CanHandle_registered. destruct Hcase as [[-> Hblank]|[-> (t0 & Ht0 & Hn0)]].
  - split; [by left|]. intros _. right. left. apply Exists_cons_hd. by left.
  - assert (Hne : parseTopics (GoStrings.Split v ",") ≠ []).
    { intros E. specialize (Hin t0). rewrite E in Hin. set_solver. }
    assert (Htrim : ∀ t, t ∈ parseTopics (GoStrings.Split v ",") → GoStrings.TrimSpace t = t).
    { intros t Ht. apply Hin in Ht as (_ & piece & _ & <-). apply GoStrings.TrimSpace_idem. }
    split.
    + intros [?|[Hw|Hm]]; [done| |].
      * apply Exists_exists in Hw as (t & Ht & Hw). unfold Broker.wildcard in Hw. rewrite Htrim in Hw by done.
        apply Hin in Ht as [Hnt Ht]. destruct Hw as [-> | [-> | ->]]; auto. done.
      * apply list_elem_of_fmap in Hm as (t & -> & Ht). rewrite Htrim by done. apply Hin in Ht. auto.
    + assert (Hwild : ∀ t, t ≠ "" → Broker.wildcard t → names v t → Exists Broker.wildcard (parseTopics (GoStrings.Split v ","))).
      { intros t Ht Hw Hnt. apply Exists_exists. exists t. split; [by apply Hin|done]. }
      intros [Hb|[Hs|[Ha|[Hty Hnt]]]].
      * by apply Hb in Hn0.
      * right. left. apply (Hwild "*"); [done|by left|done].
      * right. left. apply (Hwild "all"); [done|by right; left|done].
      * right. right. apply list_elem_of_fmap. exists ty. split; [|by apply Hin].
        symmetry. apply Htrim. by apply Hin.
Qed.

Example default_settings :
  load (λ _, "") (Config.Default (λ _, "")) =
  Some (mkSettings 1 9090 50052 ["*"] "localhost:50052" "localhost:50051").
Proof. vm_compute. reflexivity. Qed.

Example configured :
  load (λ k, if decide (k = "QUORUM_WORKER_ID") then "7" else
             if decide (k = "QUORUM_WORKER_TOPICS") then " email,, sms " else "") (Config.Default (λ _, "")) =
  Some (mkSettings 7 9090 50052 ["email"; "sms"] "localhost:50052" "localhost:50051").
Proof. vm_compute. reflexivity. Qed.

Example invalid_id : load (λ k, if decide (k = "QUORUM_WORKER_ID") then "seven" else "") (Config.Default (λ _, "")) = None.
Proof. vm_compute. reflexivity. Qed.

End WorkerMain.
