(* ===== verification/Invariant.v ===== *)
(** * The invariant of the control node, and a logic for its handlers

    [core] is what holds of the shared state between any two atomic calls of
    any goroutines; its ghost parameters record what the goroutines in flight
    hold in hand.  [wp] is the proof obligation of one handler: every call it
    makes keeps the invariant whatever the other goroutines hold, what it pushes
    on a queue it notifies the queue of, and it does not panic.  [System] composes handlers proved this way. *)

From S2P Require Import Prelude Job Lease Retry Dlq Store Heap Metrics Queue Broker Events.
From S2P Require Import Consensus Cron Manager Machine.
Import Machine.
Local Open Scope Z_scope.

Module Invariant.

(** The attributes of a job no handler changes. *)
Definition attr (j : Job) : string * Z * string := (JType j, Priority j, IdempotencyKey j).

Definition good_job (j : Job) : Prop :=
  0 ≤ RetryCount j ∧ in_int64 (RetryCount j) ∧ in_int64 (MaxRetries j).

(** A failure carries an error, whose text [resultLoop] reads. *)
Definition good_result (r : Result) : Prop := RSuccess r = true ∨ RError r ≠ None.

(** What a goroutine holds: ids it took out of the priority queue or whose
    lease it released ([hp]), ids it took out of the delay queue or is about to
    put there ([hs]), job ids it drew and has not stored yet ([res]), and the
    submission mutex, with the key it knows to be free ([lks]). *)
Record hand := Hand {
  hp : gset Z;
  hs : gset Z;
  res : list Z;
  lks : list (option string)
}.

Definition hand_op (h f : hand) : hand :=
  Hand (hp h ∪ hp f) (hs h ∪ hs f) (res h ++ res f) (lks h ++ lks f).
Infix "⋅" := hand_op (at level 50, left associativity).

Definition none : hand := Hand ∅ ∅ [] [].
Definition holdP (id : Z) : hand := Hand {[id]} ∅ [] [].
Definition holdS (id : Z) : hand := Hand ∅ {[id]} [] [].

Definition ghost := gmap Z (string * Z * string).

Section Inv.
Context `{GoRange} {S : Type} `{Store.ReliableStore S}.
Implicit Types st : State S.

Definition leased st (id : Z) : Prop := is_Some (Lease.leases (leases st) !! id).

Record core st (a : Store.Abs) (h : hand) : Prop := {
  c_raft : raft st = false;
  c_rel : Store.rel (store st) a;
  c_good id j : Store.jobs a !! id = Some j → good_job j ∧ known_status (JStatus j) = true;
  c_pend id j : Store.jobs a !! id = Some j → JStatus j = Pending →
    id ∈ Queue.items (pq st) ∨ leased st id ∨ id ∈ hp h;
  c_sched id j : Store.jobs a !! id = Some j → JStatus j = Scheduled →
    id ∈ Queue.items (dq st) ∨ id ∈ hs h;
  c_queued w id : id ∈ Queue.items (queue st w) → is_Some (Store.jobs a !! id);
  c_order : Queue.in_order (Queue.PriorityComparator (store st)) (pq st);
  c_next id : is_Some (Store.jobs a !! id) → id ≤ nextJobID st;
  c_next_range : in_int64 (nextJobID st);
  c_nodup : NoDup (res h);
  c_res id : id ∈ res h → Store.jobs a !! id = None ∧ id ≤ nextJobID st;
  c_lock : length (lks h) = if submitMu st then 1%nat else 0%nat;
  c_free key : Some key ∈ lks h → Store.idem a !! key = None;
  c_idem key id : Store.idem a !! key = Some id ↔
    key ≠ "" ∧ ∃ j, Store.jobs a !! id = Some j ∧ IdempotencyKey j = key;
  c_results r : r ∈ buf (results st) → good_result r;
  c_sent w j : (w, j) ∈ sent st →
    good_job j ∧ attr <$> Store.jobs a !! ID j = Some (attr j)
}.

(** The attributes of the stored jobs; they only grow. *)
Definition ghost_of (a : Store.Abs) : ghost := attr <$> Store.jobs a.

Definition inv st (G : ghost) (h : hand) : Prop := ∃ a, core st a h ∧ ghost_of a = G.

(** Ids of the store, and the lookups of the comparators. *)
Lemma core_ID st a h id j : core st a h → Store.jobs a !! id = Some j → ID j = id.
Proof. intros Hc. apply (Store.rel_wf _ _ (c_rel _ _ _ Hc)). Qed.

Lemma core_Get st a h id : core st a h → Store.Get (store st) id = Store.jobs a !! id.
Proof. intros Hc. apply Store.Get_spec, Hc. Qed.

(** *** Moving ids between hands *)

Lemma core_hand st a h h' :
  core st a h →
  (∀ id, id ∈ hp h → id ∈ hp h' ∨ id ∈ Queue.items (pq st) ∨ leased st id ∨
     ∀ j, Store.jobs a !! id = Some j → JStatus j ≠ Pending) →
  (∀ id, id ∈ hs h → id ∈ hs h' ∨ id ∈ Queue.items (dq st) ∨
     ∀ j, Store.jobs a !! id = Some j → JStatus j ≠ Scheduled) →
  res h' ≡ₚ res h → lks h' ≡ₚ lks h →
  core st a h'.
Proof.
  intros [] HP HQ HR HL. split; try done.
  - intros id j Hj Hst. destruct (c_pend0 id j Hj Hst) as [?|[?|Hin]]; [tauto..|].
    destruct (HP id Hin) as [?|[?|[?|Hn]]]; [tauto..|]. by destruct (Hn j Hj).
  - intros id j Hj Hst. destruct (c_sched0 id j Hj Hst) as [?|Hin]; [tauto|].
    destruct (HQ id Hin) as [?|[?|Hn]]; [tauto..|]. by destruct (Hn j Hj).
  - by rewrite HR.
  - intros id. rewrite HR. apply c_res0.
  - by rewrite HL.
  - intros key. rewrite HL. apply c_free0.
Qed.

(** A hand that covers more. *)
Lemma core_weaken st a h h' :
  core st a h → hp h ⊆ hp h' → hs h ⊆ hs h' → res h' ≡ₚ res h → lks h' ≡ₚ lks h →
  core st a h'.
Proof. intros Hc HP HQ HR HL. apply (core_hand st a h h' Hc); auto. Qed.


(** *** Calls that leave store, queues, leases and the submission lock alone *)

Definition same_core st st' : Prop :=
  raft st' = raft st ∧ store st' = store st ∧
  Queue.items (pq st') = Queue.items (pq st) ∧ Queue.items (dq st') = Queue.items (dq st) ∧
  leases st' = leases st ∧ nextJobID st' = nextJobID st ∧ submitMu st' = submitMu st ∧
  (∀ r, r ∈ buf (results st') → r ∈ buf (results st) ∨ good_result r) ∧
  sent st' = sent st.

Lemma core_same st st' a h : same_core st st' → core st a h → core st' a h.
Proof.
  intros (E1 & E2 & E3 & E4 & E5 & E6 & E7 & Er & E8) [].
  split; unfold leased, Queue.in_order in *;
    rewrite ?E1, ?E2, ?E3, ?E4, ?E5, ?E6, ?E7, ?E8; try done.
  - intros []; simpl; rewrite ?E3, ?E4; [apply (c_queued0 PQ)|apply (c_queued0 DQ)].
  - intros r [?|?]%Er; auto.
Qed.

(** *** Store writes *)

Lemma order_ext s s' q :
  (∀ id, id ∈ Queue.items q →
     Priority (Queue.lookup_job s' id) = Priority (Queue.lookup_job s id)) →
  Queue.in_order (Queue.PriorityComparator s) q → Queue.in_order (Queue.PriorityComparator s') q.
Proof.
  intros He. apply Queue.heap_ordered_ext. intros x y Hx Hy.
  unfold Queue.PriorityComparator. by rewrite !He.
Qed.

Lemma lookup_job_abs s a id :
  Store.rel s a → Queue.lookup_job s id = default zeroJob (Store.jobs a !! id).
Proof. intros Hr. unfold Queue.lookup_job. by rewrite (Store.Get_spec s a). Qed.

(** Contents that differ only in crons and dead letters. *)
Lemma core_aux st a a' h s' :
  core st a h → Store.rel s' a' → Store.jobs a' = Store.jobs a → Store.idem a' = Store.idem a →
  core (set_store st s') a' h.
Proof.
  intros Hc Hr Hj Hi. pose proof (c_rel _ _ _ Hc) as Hr0. destruct Hc.
  split; try done; simpl; rewrite ?Hj, ?Hi; try done.
  eapply order_ext; [|done]. intros k _.
  by rewrite (lookup_job_abs _ _ _ Hr), (lookup_job_abs _ _ _ Hr0), Hj.
Qed.

Lemma core_store st a h s' : core st a h → Store.rel s' a → core (set_store st s') a h.
Proof. intros. by eapply core_aux. Qed.

(** Overwriting a stored job with one of the same attributes. *)
Lemma core_put st a h s' id j old :
  core st a h → Store.jobs a !! id = Some old → attr j = attr old →
  good_job j → known_status (JStatus j) = true →
  (JStatus j = Pending → id ∈ hp h) → (JStatus j = Scheduled → id ∈ hs h) →
  Store.rel s' (Store.set_jobs a (<[id := j]> (Store.jobs a))) →
  core (set_store st s') (Store.set_jobs a (<[id := j]> (Store.jobs a))) h.
Proof.
  intros Hc Ho Ha Hg Hk HP HQ Hr. pose proof (c_rel _ _ _ Hc) as Hr0.
  assert (Hdom : ∀ k, is_Some (<[id := j]> (Store.jobs a) !! k) ↔ is_Some (Store.jobs a !! k)).
  { intros k. rewrite lookup_insert_is_Some. split; [|destruct (decide (id = k)); tauto].
    intros [<-|[_ ?]]; eauto. }
  assert (Hat : ∀ k, attr <$> <[id := j]> (Store.jobs a) !! k = attr <$> Store.jobs a !! k).
  { intros k. destruct (decide (id = k)) as [<-|].
    - rewrite lookup_insert_eq, Ho. simpl. congruence.
    - by rewrite lookup_insert_ne. }
  destruct Hc. split; try done; unfold leased in *; simpl.
  - intros k i [[<- <-]|[? ?]]%lookup_insert_Some; eauto.
  - intros k i [[<- <-]|[? ?]]%lookup_insert_Some; eauto.
  - intros k i [[<- <-]|[? ?]]%lookup_insert_Some; eauto.
  - intros w k Hk'. apply Hdom. destruct w; [apply (c_queued0 PQ)|apply (c_queued0 DQ)]; done.
  - eapply order_ext; [|done]. intros k _.
    rewrite (lookup_job_abs _ _ _ Hr), (lookup_job_abs _ _ _ Hr0). simpl.
    specialize (Hat k). destruct (_ !! k), (Store.jobs a !! k); simpl in *; unfold attr in *; congruence.
  - intros k. rewrite Hdom. apply c_next0.
  - intros k Hk'. destruct (c_res0 k Hk') as [Hn ?]. split; [|done].
    rewrite lookup_insert_ne; congruence.
  - intros key k. rewrite c_idem0. destruct (decide (id = k)) as [<-|].
    + rewrite lookup_insert_eq, Ho. unfold attr in Ha. naive_solver congruence.
    + by rewrite lookup_insert_ne.
  - intros w i Hin. rewrite Hat. eauto.
Qed.

(** Storing a job under an id drawn before. *)
Lemma core_add st a h h' s' j :
  core st a h → res h ≡ₚ ID j :: res h' →
  good_job j → known_status (JStatus j) = true →
  (IdempotencyKey j = "" ∧ lks h' = lks h ∨
   IdempotencyKey j ≠ "" ∧ lks h = [Some (IdempotencyKey j)] ∧ lks h' = [None]) →
  hp h ⊆ hp h' → hs h ⊆ hs h' →
  (JStatus j = Pending → ID j ∈ hp h') → (JStatus j = Scheduled → ID j ∈ hs h') →
  Store.rel s' (Store.abs_add Store.norm a j).1 →
  core (set_store st s') (Store.abs_add Store.norm a j).1 h'.
Proof.
  intros Hc Hres Hg Hk Hkey HP HQ HPj HQj Hr. pose proof (c_rel _ _ _ Hc) as Hr0.
  destruct (c_res _ _ _ Hc (ID j)) as [Hfresh Hle]; [rewrite Hres; left|].
  set (a' := (Store.abs_add Store.norm a j).1) in *.
  assert (Hjobs : Store.jobs a' = <[ID j := j]> (Store.jobs a)).
  { unfold a', Store.abs_add. rewrite Hfresh. case_decide; simpl; by rewrite Store.norm_job_id. }
  assert (Hidem : Store.idem a' = if decide (IdempotencyKey j = "") then Store.idem a
                                  else <[IdempotencyKey j := ID j]> (Store.idem a)).
  { unfold a', Store.abs_add. rewrite Hfresh. by case_decide. }
  clearbody a'. destruct Hc. split; try done; unfold leased in *; simpl; rewrite ?Hjobs.
  - intros k i [[<- <-]|[? ?]]%lookup_insert_Some; eauto.
  - intros k i [[<- <-]|[? ?]]%lookup_insert_Some; [tauto|]. intros Hst.
    destruct (c_pend0 k i) as [?|[?|?]]; auto.
  - intros k i [[<- <-]|[? ?]]%lookup_insert_Some; [tauto|]. intros Hst.
    destruct (c_sched0 k i) as [?|?]; auto.
  - intros w k Hin. apply lookup_insert_is_Some'. right.
    destruct w; [apply (c_queued0 PQ)|apply (c_queued0 DQ)]; done.
  - eapply order_ext; [|done]. intros k Hin. apply (c_queued0 PQ) in Hin as [i Hi].
    rewrite (lookup_job_abs _ _ _ Hr), (lookup_job_abs _ _ _ Hr0), Hjobs.
    rewrite lookup_insert_ne; congruence.
  - intros k [<-|[_ ?]]%lookup_insert_is_Some; auto.
  - rewrite Hres in c_nodup0. by apply NoDup_cons in c_nodup0 as [_ ?].
  - intros k Hin. assert (k ∈ res h) as Hin' by (rewrite Hres; by right).
    destruct (c_res0 k Hin') as [Hn ?]. split; [|done]. rewrite lookup_insert_ne; [done|].
    intros <-. rewrite Hres in c_nodup0. by apply NoDup_cons in c_nodup0 as [? _].
  - destruct Hkey as [[_ ->]|(_ & Hl & ->)]; [done|]. by rewrite Hl in c_lock0.
  - intros key Hin. rewrite Hidem. destruct Hkey as [[Hk0 Hl]|(_ & _ & Hl)]; rewrite Hl in Hin.
    + rewrite decide_True by done. auto.
    + apply list_elem_of_singleton in Hin. done.
  - intros key k. rewrite Hidem. destruct Hkey as [[Hk0 _]|(Hk0 & Hl & _)].
    + rewrite decide_True, c_idem0 by done. destruct (decide (ID j = k)) as [<-|].
      * rewrite lookup_insert_eq, Hfresh. naive_solver.
      * by rewrite lookup_insert_ne.
    + rewrite decide_False by done. assert (Store.idem a !! IdempotencyKey j = None) as Hfree.
      { apply c_free0. rewrite Hl. by left. }
      rewrite lookup_insert_Some, c_idem0. destruct (decide (ID j = k)) as [<-|].
      * rewrite lookup_insert_eq, Hfresh. naive_solver.
      * rewrite lookup_insert_ne by done. split; [naive_solver|].
        intros (Hne & i & Hi & Hik). right. split; [|by eauto].
        intros <-. assert (Store.idem a !! IdempotencyKey j = Some k) by (apply c_idem0; eauto).
        congruence.
  - intros w i Hin. destruct (c_sent0 w i Hin) as [? Hs]. split; [done|].
    rewrite lookup_insert_ne; [done|]. intros E. by rewrite <-E, Hfresh in Hs.
Qed.

(** *** Queues, leases, ids and the lock *)

Lemma queue_set st w q m : queue (set_queue st w q m) w = q.
Proof. by destruct w. Qed.

Lemma core_push st a h w id m :
  core st a h → is_Some (Store.jobs a !! id) →
  core (set_queue st w (Queue.Push (comparator st w) (queue st w) id) m) a h.
Proof.
  intros Hc Hid. pose proof (Queue.Push_items (comparator st w) (queue st w) id) as Hperm.
  destruct Hc. destruct w; cbn [queue comparator] in *.
  - split; try done; simpl.
    + intros k j Hj Hs. destruct (c_pend0 k j Hj Hs) as [Hin|?]; [|by right].
      left. rewrite Hperm. by right.
    + intros [] k; simpl; [|apply (c_queued0 DQ)]. rewrite Hperm.
      intros [->|Hin]%elem_of_cons; [done|by apply (c_queued0 PQ)].
    + by apply Queue.in_order_Push; [apply _|].
  - split; try done; simpl.
    + intros k j Hj Hs. destruct (c_sched0 k j Hj Hs) as [Hin|?]; [|by right].
      left. rewrite Hperm. by right.
    + intros [] k; simpl; [apply (c_queued0 PQ)|]. rewrite Hperm.
      intros [->|Hin]%elem_of_cons; [done|by apply (c_queued0 DQ)].
Qed.

(** Without interference, [Enqueue] is a push for the invariant. *)
Lemma core_enqueue st a h w id :
  core st a h → is_Some (Store.jobs a !! id) →
  let '(q, m) := Queue.Enqueue (comparator st w) (queue st w) (metrics st) id in
  core (set_queue st w q m) a h.
Proof.
  intros Hc Hid. pose proof (core_push st a h w id (metrics st) Hc Hid) as Hp. simpl.
  eapply core_same; [|exact Hp]. unfold same_core. destruct w; simpl; split_and!; auto.
Qed.

(** The hand after a [Dequeue] of queue [w] answered [mid]. *)
Definition take (w : which) (mid : option Z) (h : hand) : hand :=
  match mid, w with
  | None, _ => h
  | Some id, PQ => Hand ({[id]} ∪ hp h) (hs h) (res h) (lks h)
  | Some id, DQ => Hand (hp h) ({[id]} ∪ hs h) (res h) (lks h)
  end.

Lemma core_dequeue st a h w :
  core st a h →
  let '(mid, (q, m)) := Queue.Dequeue (comparator st w) (queue st w) (metrics st) in
  core (set_queue st w q m) a (take w mid h) ∧
  (∀ id, mid = Some id → is_Some (Store.jobs a !! id)).
Proof.
  intros Hc. destruct (Queue.items (queue st w)) as [|id rest] eqn:Ei.
  { rewrite Queue.Dequeue_empty by done. split; [|done]. simpl.
    apply (core_same st); [|done]. unfold same_core. destruct w; simpl; eauto 20. }
  destruct (Queue.Dequeue_cons (comparator st w) (queue st w) (metrics st) id rest Ei)
    as (rest' & Hd & Hperm & Hpop).
  rewrite Hd. split.
  2:{ intros ? [= <-]. apply (c_queued _ _ _ Hc w). rewrite Ei. by left. }
  assert (Horder : w = PQ → Queue.in_order (Queue.PriorityComparator (store st))
                              (Queue.mkQueue rest' (Queue.notify (queue st w)))).
  { intros ->. pose proof (c_order _ _ _ Hc) as Ho. unfold Queue.in_order in *.
    simpl in Ei. rewrite Ei in Ho. by apply (Heap.Pop_ordered _ id rest rest' Ho). }
  clear Hpop Hd. destruct Hc. destruct w; simpl in *.
  - split; try done; simpl; [| |by apply Horder].
    + intros k j Hj Hs. destruct (c_pend0 k j Hj Hs) as [Hin|[?|?]]; [|set_solver..].
      rewrite Ei in Hin. apply elem_of_cons in Hin as [->|Hin]; [set_solver|].
      left. by rewrite Hperm.
    + intros [] k; simpl; [|apply (c_queued0 DQ)]. rewrite Hperm. intros Hin.
      apply (c_queued0 PQ). simpl. rewrite Ei. by right.
  - split; try done; simpl.
    + intros k j Hj Hs. destruct (c_sched0 k j Hj Hs) as [Hin|?]; [|set_solver..].
      rewrite Ei in Hin. apply elem_of_cons in Hin as [->|Hin]; [set_solver|].
      left. by rewrite Hperm.
    + intros [] k; simpl; [apply (c_queued0 PQ)|]. rewrite Hperm. intros Hin.
      apply (c_queued0 DQ). simpl. rewrite Ei. by right.
Qed.

Lemma core_leases st a h h' lm :
  core st a h →
  (∀ id, leased st id → is_Some (Lease.leases lm !! id) ∨ id ∈ hp h') →
  hp h ⊆ hp h' → hs h' = hs h → res h' = res h → lks h' = lks h →
  core (set_leases st lm) a h'.
Proof.
  intros [] Hl HP HQ HR HL. split; try done; unfold leased in *; simpl;
    rewrite ?HQ, ?HR, ?HL; try done.
  intros id j Hj Hs. destruct (c_pend0 id j Hj Hs) as [?|[?|?]]; auto.
Qed.

Lemma core_nextID st a h :
  core st a h → nextJobID st < maxInt64 →
  wrap64 (nextJobID st + 1) = nextJobID st + 1 ∧
  core (set_nextJobID st (nextJobID st + 1)) a
    (Hand (hp h) (hs h) ((nextJobID st + 1) :: res h) (lks h)).
Proof.
  intros [] Hlt. assert (Hr : in_int64 (nextJobID st + 1)).
  { unfold in_int64 in *. lia. }
  split; [by apply wrap64_id|].
  assert (Hnew : Store.jobs a !! (nextJobID st + 1) = None).
  { apply eq_None_not_Some. intros Hs. apply c_next0 in Hs. lia. }
  split; try done; simpl.
  - intros id Hid. apply c_next0 in Hid. lia.
  - apply NoDup_cons. split; [|done]. intros Hin. apply c_res0 in Hin as [_ ?]. lia.
  - intros id [->|Hin]%elem_of_cons; [split; [done|lia]|].
    apply c_res0 in Hin as [? ?]. split; [done|lia].
Qed.

Lemma core_lock st a h b L :
  core st a h → length L = (if b : bool then 1%nat else 0%nat) →
  (∀ key, Some key ∈ L → Some key ∈ lks h ∨ Store.idem a !! key = None) →
  core (set_submitMu st b) a (Hand (hp h) (hs h) (res h) L).
Proof.
  intros [] HL Hk. split; try done; simpl.
  intros key Hin. destruct (Hk key Hin); auto.
Qed.

(** ** The obligation of a handler *)

(** The scheduler is not shutting down, and fewer than 2^63 - 1 ids were
    drawn. *)
Definition env_ok (env : Env) st : Prop := ctx_err env = false ∧ nextJobID st < maxInt64.

(** A program between its push on queue [w] and the end of its notification:
    its next call is the send, or the count before it. *)
Definition sends {A} (w : which) (p : prog A) : Prop :=
  match p with
  | Act a _ => match a with ANotify w' => w' = w | _ => False end
  | _ => False
  end.

Definition counting {A X} (a : act X) : (X → prog A) → which → Prop :=
  match a in act X return (X → prog A) → which → Prop with
  | ADepthInc => λ k w, sends w (k tt)
  | _ => λ _ _, False
  end.

Definition notifying {A} (w : which) (p : prog A) : Prop :=
  sends w p ∨ match p with Act a k => counting a k w | _ => False end.

(** What a program does right after a push. *)
Definition follow {A X} (a : act X) : (X → prog A) → Prop :=
  match a in act X return (X → prog A) → Prop with
  | APush w _ => λ k, match k tt with Act a k => counting a k w | _ => False end
  | _ => λ _, True
  end.

Lemma sends_bind {A B} w (p : prog A) (f : A → prog B) : sends w p → sends w (prog_bind f p).
Proof. by destruct p. Qed.

Lemma counting_bind {A B X} (a : act X) (k : X → prog A) (f : A → prog B) w :
  counting a k w → counting a (λ x, prog_bind f (k x)) w.
Proof. destruct a; try done. apply sends_bind. Qed.

Lemma follow_bind {A B X} (a : act X) (k : X → prog A) (f : A → prog B) :
  follow a k → follow a (λ x, prog_bind f (k x)).
Proof. destruct a; try done. simpl. destruct (k tt); try done. apply counting_bind. Qed.

(** From any state the others may have produced ([G ⊆ G'], any frame [f]),
    every call keeps the invariant for some new hand, and the program ends,
    without a panic, with a result and a hand that satisfy [Φ]. *)
Fixpoint wp {A} (p : prog A) (G : ghost) (h : hand) (Φ : A → ghost → hand → Prop) : Prop :=
  match p with
  | Ret x => Φ x G h
  | Panic => False
  | Act a k =>
      follow a k ∧
      ∀ env st G' f x st',
        env_ok env st → G ⊆ G' → inv st G' (h ⋅ f) → do_act env a st = Some (x, st') →
        ∃ G'' h', G' ⊆ G'' ∧ inv st' G'' (h' ⋅ f) ∧ wp (k x) G'' h' Φ
  end.

Lemma wp_bind {A B} (p : prog A) (q : A → prog B) G h Φ :
  wp p G h (λ x G h, wp (q x) G h Φ) → wp (p ≫= q) G h Φ.
Proof.
  change (p ≫= q) with (prog_bind q p).
  revert G h. induction p as [x| |X a k IH]; intros G h; [done..|].
  intros [Hf Hwp]. split; [by apply follow_bind|]. intros env st G' f x st' He HG Hi Hd.
  destruct (Hwp env st G' f x st' He HG Hi Hd) as (G'' & h' & ? & ? & ?). eauto 6.
Qed.

Lemma wp_mono {A} (p : prog A) G h (Φ Ψ : A → ghost → hand → Prop) :
  wp p G h Φ → (∀ x G' h', G ⊆ G' → Φ x G' h' → Ψ x G' h') → wp p G h Ψ.
Proof.
  revert G h. induction p as [x| |X a k IH]; intros G h; simpl; [auto..|].
  intros [Hf Hwp] HΦ. split; [done|]. intros env st G' f x st' He HG Hi Hd.
  destruct (Hwp env st G' f x st' He HG Hi Hd) as (G'' & h' & HG'' & Hi' & Hk).
  exists G'', h'. split_and!; [done..|]. eapply IH; [done|].
  intros y G3 h3 HG3. apply HΦ. by do 2 (etransitivity; [done|]).
Qed.

Lemma wp_for_each {A} (l : list A) (body : A → prog unit) G h (I : list A → hand → Prop) Φ :
  I l h →
  (∀ x l G' h, G ⊆ G' → I (x :: l) h → wp (body x) G' h (λ _ _ h', I l h')) →
  (∀ G' h, G ⊆ G' → I [] h → Φ tt G' h) →
  wp (for_each l body) G h Φ.
Proof.
  intros Hi Hbody HΦ. assert (G ⊆ G) as HG by done. revert Hi HG.
  generalize G at 2 3 as G1. revert h.
  induction l as [|x l IH]; intros h G1 Hi HG; simpl; [by apply HΦ|].
  apply wp_bind. eapply wp_mono; [by apply Hbody|]. simpl. intros _ G2 h2 HG2 HI2.
  apply IH; [done|]. by etransitivity.
Qed.

(** *** Rules for the calls *)
Section Rules.
Context {A : Type}.
Implicit Types (G : ghost) (h : hand) (Φ : A → ghost → hand → Prop).

(** The general step: the new abstract state and hand of a call. *)
Lemma wp_core {X} (a : act X) (k : X → prog A) G h Φ :
  follow a k →
  (∀ env st ab f x st', env_ok env st → G ⊆ ghost_of ab → core st ab (h ⋅ f) →
     do_act env a st = Some (x, st') →
     ∃ ab' h', ghost_of ab ⊆ ghost_of ab' ∧ core st' ab' (h' ⋅ f) ∧
       wp (k x) (ghost_of ab') h' Φ) →
  wp (Act a k) G h Φ.
Proof.
  intros Hf Hstep. split; [done|]. intros env st G' f x st' He HG (ab & Hc & <-) Hd.
  destruct (Hstep env st ab f x st' He HG Hc Hd) as (ab' & h' & ? & ? & ?).
  exists (ghost_of ab'), h'. split_and!; [done| |done]. by exists ab'.
Qed.

(** Calls that read, or write outside the invariant. *)
Definition pushes {X} (a : act X) : bool := match a with APush _ _ => true | _ => false end.

Definition neutral {X} (a : act X) : Prop :=
  pushes a = false ∧ ∀ env st x st', do_act env a st = Some (x, st') → same_core st st'.

Lemma follow_calm {X} (a : act X) (k : X → prog A) : pushes a = false → follow a k.
Proof. by destruct a. Qed.

Lemma wp_neutral {X} (a : act X) (k : X → prog A) G h Φ :
  neutral a → (∀ x G', G ⊆ G' → wp (k x) G' h Φ) → wp (Act a k) G h Φ.
Proof.
  intros [Hp Hn] Hk. apply wp_core; [by apply follow_calm|]. intros env st ab f x st' He HG Hc Hd.
  exists ab, h. split_and!; [done| |by apply Hk].
  eapply core_same; [by eapply Hn|done].
Qed.
Definition dropP (id : Z) h : hand := Hand (hp h ∖ {[id]}) (hs h) (res h) (lks h).
Definition dropS (id : Z) h : hand := Hand (hp h) (hs h ∖ {[id]}) (res h) (lks h).
Definition addP (X : gset Z) h : hand := Hand (X ∪ hp h) (hs h) (res h) (lks h).
Definition addS (X : gset Z) h : hand := Hand (hp h) (X ∪ hs h) (res h) (lks h).

(** Dropping one id for which there is a reason not to hold it. *)
Lemma core_dropP st a h f id :
  core st a (h ⋅ f) →
  (id ∈ Queue.items (pq st) ∨ leased st id ∨
   ∀ j, Store.jobs a !! id = Some j → JStatus j ≠ Pending) →
  core st a (dropP id h ⋅ f).
Proof.
  intros Hc Hr. apply (core_hand st a (h ⋅ f)); simpl; [done| |auto|done..].
  intros k Hk. destruct (decide (k = id)) as [->|]; [tauto|]. left. set_solver.
Qed.

Lemma core_dropS st a h f id :
  core st a (h ⋅ f) →
  (id ∈ Queue.items (dq st) ∨ ∀ j, Store.jobs a !! id = Some j → JStatus j ≠ Scheduled) →
  core st a (dropS id h ⋅ f).
Proof.
  intros Hc Hr. apply (core_hand st a (h ⋅ f)); simpl; [done|auto| |done..].
  intros k Hk. destruct (decide (k = id)) as [->|]; [tauto|]. left. set_solver.
Qed.

Lemma ghost_of_lookup a id : ghost_of a !! id = attr <$> Store.jobs a !! id.
Proof. apply lookup_fmap. Qed.

Lemma ghost_lookup G a id x :
  G ⊆ ghost_of a → G !! id = Some x → ∃ j, Store.jobs a !! id = Some j ∧ attr j = x.
Proof.
  intros HG Hx. eapply lookup_weaken in Hx; [|done].
  rewrite ghost_of_lookup in Hx. by apply fmap_Some in Hx as (j & ? & ->); eauto.
Qed.

Lemma ghost_put a id j old :
  Store.jobs a !! id = Some old → attr j = attr old →
  ghost_of (Store.set_jobs a (<[id := j]> (Store.jobs a))) = ghost_of a.
Proof.
  intros Ho Ha. apply map_eq. intros i. rewrite !ghost_of_lookup. simpl.
  destruct (decide (id = i)) as [<-|]; [|by rewrite lookup_insert_ne].
  rewrite lookup_insert_eq, Ho. simpl. congruence.
Qed.

(** What a handler learns from [Get]. *)
Definition got (G : ghost) (id : Z) (mj : option Job) : Prop :=
  match mj with
  | Some j => G !! id = Some (attr j) ∧ ID j = id ∧ good_job j ∧ known_status (JStatus j) = true
  | None => G !! id = None
  end.

Lemma core_got st a h id : core st a h → got (ghost_of a) id (Store.jobs a !! id).
Proof.
  intros Hc. pose proof (ghost_of_lookup a id) as HG.
  unfold got. destruct (Store.jobs a !! id) as [j|] eqn:Hj; [|done]. simpl in HG.
  pose proof (core_ID _ _ _ _ _ Hc Hj). destruct (c_good _ _ _ Hc _ _ Hj). auto.
Qed.

Lemma wp_CtxErr (k : bool → prog A) G h Φ :
  (∀ G', G ⊆ G' → wp (k false) G' h Φ) → wp (Act ACtxErr k) G h Φ.
Proof.
  intros Hk. apply wp_core; [exact I|]. intros env st ab f x st' [He _] HG Hc [= <- <-].
  rewrite He. exists ab, h. auto.
Qed.

Lemma wp_RaftNode (k : bool → prog A) G h Φ :
  (∀ G', G ⊆ G' → wp (k false) G' h Φ) → wp (Act ARaftNode k) G h Φ.
Proof.
  intros Hk. apply wp_core; [exact I|]. intros env st ab f x st' _ HG Hc [= <- <-].
  rewrite (c_raft _ _ _ Hc). exists ab, h. auto.
Qed.

Lemma wp_Get id (k : option Job → prog A) G h Φ :
  (∀ mj G', G ⊆ G' → got G' id mj → wp (k mj) G' h Φ) → wp (Act (AGet id) k) G h Φ.
Proof.
  intros Hk. apply wp_core; [exact I|]. intros env st ab f x st' _ HG Hc [= <- <-].
  rewrite (core_Get _ _ _ _ Hc). exists ab, h. split_and!; [done..|].
  apply Hk; [done|]. by eapply core_got.
Qed.

(** Reading a job that turns out not to be pending frees the hand of it. *)
Lemma wp_Get_drop id (k : option Job → prog A) G h Φ :
  (∀ mj G', G ⊆ G' → got G' id mj →
     wp (k mj) G' (if decide (JStatus <$> mj = Some Pending) then h else dropP id h) Φ) →
  wp (Act (AGet id) k) G h Φ.
Proof.
  intros Hk. apply wp_core; [exact I|]. intros env st ab f x st' _ HG Hc [= <- <-].
  rewrite (core_Get _ _ _ _ Hc). eexists ab, _. split_and!; [done| |].
  2:{ apply Hk; [done|]. by eapply core_got. }
  case_decide as Hd; [done|]. apply core_dropP; [done|]. right. right.
  intros j Hj Hs. apply Hd. rewrite Hj. simpl. by rewrite Hs.
Qed.

Lemma wp_Push w id (k : unit → prog A) G h Φ :
  follow (APush w id) k → is_Some (G !! id) →
  (∀ G', G ⊆ G' →
     wp (k tt) G' (match w with PQ => dropP id h | DQ => dropS id h end) Φ) →
  wp (Act (APush w id) k) G h Φ.
Proof.
  intros Hf [at_ Hid] Hk. apply wp_core; [done|]. intros env st ab f x st' _ HG Hc [= <- <-].
  destruct (ghost_lookup _ _ _ _ HG Hid) as (j & Hj & _).
  pose proof (core_push st ab (h ⋅ f) w id (metrics st) Hc (ltac:(eauto))) as Hc'.
  pose proof (Queue.Push_items (comparator st w) (queue st w) id) as Hperm.
  eexists ab, _. split_and!; [done| |by apply Hk].
  destruct w; cbn [queue] in *.
  - apply core_dropP; [done|]. left. cbn [set_queue pq]. rewrite Hperm, elem_of_cons. auto.
  - apply core_dropS; [done|]. left. cbn [set_queue dq]. rewrite Hperm, elem_of_cons. auto.
Qed.

Lemma wp_Dequeue w (k : option Z → prog A) G h Φ :
  (∀ mid G', G ⊆ G' → (∀ id, mid = Some id → is_Some (G' !! id)) →
     wp (k mid) G' (take w mid h) Φ) →
  wp (Act (ADequeue w) k) G h Φ.
Proof.
  intros Hk. apply wp_core; [exact I|]. intros env st ab f x st' _ HG Hc Hd.
  pose proof (core_dequeue st ab (h ⋅ f) w Hc) as Hc'. cbn [do_act] in Hd.
  destruct (Queue.Dequeue _ _ _) as [mid [q m]]. simplify_eq. destruct Hc' as [Hc' Hs].
  exists ab, (take w x h). split_and!; [done| |].
  - eapply core_weaken; [done|..]; destruct x, w; simpl; set_solver.
  - apply Hk; [done|]. intros id Hid. rewrite ghost_of_lookup, fmap_is_Some. auto.
Qed.
(** Writing a job back with a status other than pending: whatever the store
    answers, its job is not pending afterwards. *)
Lemma wp_Update j (k : err → prog A) G h Φ :
  G !! ID j = Some (attr j) → good_job j → JStatus j = Scheduled ∨ is_terminal (JStatus j) = true →
  (∀ e G', G ⊆ G' →
     wp (k e) G'
       (dropP (ID j) (if decide (JStatus j = Scheduled) then addS {[ID j]} h else h)) Φ) →
  wp (Act (AUpdate j) k) G h Φ.
Proof.
  intros HGj Hgood Hst Hk. apply wp_core; [exact I|]. intros env st ab f x st' _ HG Hc Hd.
  destruct (Store.reliable_Update (store st) ab j) as [_ Hr]; [by apply Hc|].
  cbn [do_act] in Hd. destruct (Store.Update (store st) j) as [s e]. simplify_eq. simpl in Hr.
  destruct (ghost_lookup _ _ _ _ HG HGj) as (old & Hold & Hattr).
  set (h2 := if decide (JStatus j = Scheduled) then addS {[ID j]} h else h) in *.
  assert (Hc2 : core st ab (h2 ⋅ f)).
  { eapply core_weaken; [done|..]; unfold h2; case_decide; simpl; set_solver. }
  assert (Hnp : JStatus j ≠ Pending).
  { intros E. rewrite E in Hst. destruct Hst; done. }
  unfold Store.abs_update in Hr. rewrite Hold in Hr.
  destruct (IsValidTransition (JStatus old) (JStatus j)) eqn:Hv; simpl in Hr.
  - unfold Store.abs_put in Hr. rewrite Store.norm_job_id in Hr.
    exists (Store.set_jobs ab (<[ID j := j]> (Store.jobs ab))), (dropP (ID j) h2).
    rewrite (ghost_put ab (ID j) j old); [|done|congruence]. split_and!; [done| |by apply Hk].
    apply core_dropP.
    + eapply core_put; try done.
      * apply known_status_spec. tauto.
      * intros E. unfold h2. rewrite decide_True by done. simpl. set_solver.
    + right. right. simpl. intros i. rewrite lookup_insert_eq. by intros [= <-].
  - exists ab, (dropP (ID j) h2). split_and!; [done| |by apply Hk].
    apply core_dropP.
    + apply (core_store st); done.
    + right. right. simpl. rewrite Hold. intros i [= <-] Hp.
      rewrite Hp in Hv. assert (IsValidTransition Pending (JStatus j) = true); [|congruence].
      rewrite IsValidTransition_spec. rewrite is_terminal_spec in Hst. tauto.
Qed.
(** Promoting a job: unless the store refuses it, the job is pending
    afterwards; if it does, the job was not scheduled. *)
Lemma wp_Promote j (k : err → prog A) G h Φ :
  G !! ID j = Some (attr j) → good_job j →
  (∀ G', G ⊆ G' → wp (k None) G' (addP {[ID j]} (dropS (ID j) h)) Φ) →
  (∀ e G', G ⊆ G' → wp (k (Some e)) G' (dropS (ID j) h) Φ) →
  wp (Act (AUpdate (with_status j Pending)) k) G h Φ.
Proof.
  intros HGj Hgood Hok Herr. apply wp_core; [exact I|]. intros env st ab f x st' _ HG Hc Hd.
  destruct (Store.reliable_Update (store st) ab (with_status j Pending)) as [He Hr]; [by apply Hc|].
  cbn [do_act] in Hd. destruct (Store.Update (store st) _) as [s e]. simplify_eq. simpl in He, Hr.
  destruct (ghost_lookup _ _ _ _ HG HGj) as (old & Hold & Hattr).
  unfold Store.abs_update in He, Hr. cbn [ID with_status JStatus] in He, Hr. rewrite Hold in He, Hr.
  destruct (IsValidTransition (JStatus old) Pending) eqn:Hv; cbn [fst snd] in He, Hr; subst x.
  - unfold Store.abs_put in Hr. rewrite Store.norm_job_id in Hr. cbn [ID with_status] in Hr.
    fold (with_status j Pending) in Hr.
    exists (Store.set_jobs ab (<[ID j := with_status j Pending]> (Store.jobs ab))),
      (dropS (ID j) (addP {[ID j]} h)).
    rewrite (ghost_put ab (ID j) _ old); [|done|by rewrite Hattr]. split_and!; [done| |by apply Hok].
    apply core_dropS; [|right; intros i; simpl; rewrite lookup_insert_eq; by intros [= <-]].
    eapply core_put; try done; [|intros _; simpl; set_solver].
    eapply core_weaken; [done|simpl; set_solver..].
  - exists ab, (dropS (ID j) h). split_and!; [done| |by apply Herr].
    apply core_dropS; [by apply (core_store st)|]. right. rewrite Hold. intros i [= <-] E.
    by rewrite E in Hv.
Qed.

Lemma wp_Cancel id (k : err → prog A) G h Φ :
  (∀ e G', G ⊆ G' → wp (k e) G' h Φ) → wp (Act (ACancel id) k) G h Φ.
Proof.
  intros Hk. apply wp_core; [exact I|]. intros env st ab f x st' _ HG Hc Hd.
  destruct (Store.reliable_Cancel (store st) ab id) as [_ Hr]; [by apply Hc|].
  cbn [do_act] in Hd. destruct (Store.Cancel (store st) id) as [s e]. simplify_eq. simpl in Hr.
  unfold Store.abs_cancel in Hr. destruct (Store.jobs ab !! id) as [j|] eqn:Hj; simpl in Hr.
  2:{ exists ab, h. split_and!; [done|by apply (core_store st)|by apply Hk]. }
  destruct (is_terminal (JStatus j)) eqn:Ht; simpl in Hr.
  { exists ab, h. split_and!; [done|by apply (core_store st)|by apply Hk]. }
  eexists (Store.set_jobs ab (<[id := with_status j Cancelled]> (Store.jobs ab))), h.
  rewrite (ghost_put ab id _ j) by done. split_and!; [done| |by apply Hk].
  eapply core_put; try done. by destruct (c_good _ _ _ Hc _ _ Hj).
Qed.

Lemma wp_AddDLQ j (k : err → prog A) G h Φ :
  (∀ e G', G ⊆ G' → wp (k e) G' h Φ) → wp (Act (AAddDLQ j) k) G h Φ.
Proof.
  intros Hk. apply wp_core; [exact I|]. intros env st ab f x st' _ HG Hc Hd.
  pose proof (Store.AddDLQ_spec (store st) ab j (c_rel _ _ _ Hc) (Store.storable_all j)) as Hr.
  cbn [do_act] in Hd. destruct (Store.AddDLQ (store st) j) as [s e]. simplify_eq. simpl in Hr.
  destruct Hr as [[_ Hr]|[_ Hr]]; eexists _, h;
    (split_and!; [|by eapply core_aux|by apply Hk]); done.
Qed.

Lemma wp_AddCron c (k : err → prog A) G h Φ :
  (∀ e G', G ⊆ G' → wp (k e) G' h Φ) → wp (Act (AAddCron c) k) G h Φ.
Proof.
  intros Hk. apply wp_core; [exact I|]. intros env st ab f x st' _ HG Hc Hd.
  pose proof (Store.AddCron_spec (store st) ab c (c_rel _ _ _ Hc) (Store.storable_cron_all c)) as Hr.
  cbn [do_act] in Hd. destruct (Store.AddCron (store st) c) as [s e]. simplify_eq. simpl in Hr.
  destruct Hr as [[_ Hr]|[_ Hr]]; eexists _, h;
    (split_and!; [|by eapply core_aux|by apply Hk]); done.
Qed.

Lemma wp_DeleteCron id (k : bool * err → prog A) G h Φ :
  (∀ e G', G ⊆ G' → wp (k e) G' h Φ) → wp (Act (ADeleteCron id) k) G h Φ.
Proof.
  intros Hk. apply wp_core; [exact I|]. intros env st ab f x st' _ HG Hc Hd.
  pose proof (Store.DeleteCron_spec (store st) ab id (c_rel _ _ _ Hc)) as Hr.
  cbn [do_act] in Hd. destruct (Store.DeleteCron (store st) id) as [s e]. simplify_eq. simpl in Hr.
  unfold Store.abs_deleteCron in Hr.
  destruct (Store.crons ab !! id); destruct Hr as [[_ Hr]|[_ Hr]]; eexists _, h;
    (split_and!; [|by eapply core_aux|by apply Hk]); done.
Qed.

Lemma wp_Acquire id w t n (k : unit → prog A) G h Φ :
  (∀ G', G ⊆ G' → wp (k tt) G' (dropP id h) Φ) → wp (Act (ALeaseAcquire id w t n) k) G h Φ.
Proof.
  intros Hk. apply wp_core; [exact I|]. intros env st ab f x st' _ HG Hc [= <- <-].
  eexists ab, _. split_and!; [done| |by apply Hk]. apply core_dropP.
  - eapply core_leases; try done. unfold leased, Lease.Acquire. simpl.
    intros i Hi. left. apply lookup_insert_is_Some'. by right.
  - right. left. unfold leased, Lease.Acquire. simpl. rewrite lookup_insert_eq. eauto.
Qed.

Lemma wp_Release id (k : unit → prog A) G h Φ :
  (∀ G', G ⊆ G' → wp (k tt) G' (addP {[id]} h) Φ) → wp (Act (ALeaseRelease id) k) G h Φ.
Proof.
  intros Hk. apply wp_core; [exact I|]. intros env st ab f x st' _ HG Hc [= <- <-].
  eexists ab, _. split_and!; [done| |by apply Hk].
  eapply core_leases; try done; simpl; [|set_solver].
  unfold leased, Lease.Release. simpl. intros i Hi.
  destruct (decide (i = id)) as [->|]; [right; set_solver|left]. by rewrite lookup_delete_ne.
Qed.

Lemma wp_ReleaseByWorker w (k : list Z → prog A) G h Φ :
  (∀ ids G', G ⊆ G' → wp (k ids) G' (addP (list_to_set ids) h) Φ) →
  wp (Act (AReleaseByWorker w) k) G h Φ.
Proof.
  intros Hk. apply wp_core; [exact I|]. intros env st ab f x st' _ HG Hc Hd. cbn [do_act] in Hd.
  destruct (Lease.ReleaseByWorker (leases st) w) as [lm ids] eqn:E. simplify_eq.
  eexists ab, _. split_and!; [done| |by apply Hk].
  eapply core_leases; try done; simpl; [|set_solver].
  intros i [l Hl]. rewrite (Lease.ReleaseByWorker_leases _ _ _ _ i E), Hl.
  destruct (Lease.ReleaseByWorker_ids _ _ _ _ E) as [_ Hids].
  case_decide; [right|left; eauto]. apply elem_of_union_l, elem_of_union_l, elem_of_list_to_set.
  apply Hids. eauto.
Qed.

Lemma wp_NextID (k : Z → prog A) G h Φ :
  (∀ id G', G ⊆ G' → wp (k id) G' (Hand (hp h) (hs h) (id :: res h) (lks h)) Φ) →
  wp (Act ANextID k) G h Φ.
Proof.
  intros Hk. apply wp_core; [exact I|]. intros env st ab f x st' [_ Hlt] HG Hc Hd.
  destruct (core_nextID st ab (h ⋅ f) Hc Hlt) as [Hw Hc'].
  cbn [do_act] in Hd. rewrite Hw in Hd. simplify_eq.
  eexists ab, _. split_and!; [done| |by apply Hk]. exact Hc'.
Qed.
(** Storing a fresh job always succeeds. *)
Lemma wp_Add j R L (k : err → prog A) G h Φ :
  res h = ID j :: R → good_job j → JStatus j = Pending ∨ JStatus j = Scheduled →
  (IdempotencyKey j = "" ∧ L = lks h ∨
   IdempotencyKey j ≠ "" ∧ lks h = [Some (IdempotencyKey j)] ∧ L = [None]) →
  (∀ G', G ⊆ G' → G' !! ID j = Some (attr j) →
     wp (k None) G'
       (if decide (JStatus j = Pending) then Hand ({[ID j]} ∪ hp h) (hs h) R L
        else Hand (hp h) ({[ID j]} ∪ hs h) R L) Φ) →
  wp (Act (AAdd j) k) G h Φ.
Proof.
  intros HR Hgood Hst HL Hk. apply wp_core; [exact I|]. intros env st ab f x st' _ HG Hc Hd.
  destruct (c_res _ _ _ Hc (ID j)) as [Hfresh _]; [simpl; rewrite HR; by left|].
  destruct (Store.reliable_Add (store st) ab j) as [He Hr]; [by apply Hc|done|].
  cbn [do_act] in Hd. destruct (Store.Add (store st) j) as [s e]. simpl in *. simplify_eq.
  set (h' := if decide (JStatus j = Pending) then Hand ({[ID j]} ∪ hp h) (hs h) R L
             else Hand (hp h) ({[ID j]} ∪ hs h) R L) in *.
  assert (Hh : res h' = R ∧ lks h' = L) by (unfold h'; by case_decide).
  destruct Hh as [HhR HhL].
  assert (Hlf : IdempotencyKey j ≠ "" → lks f = []).
  { intros Hne. destruct HL as [[? _]|(_ & HL & _)]; [done|].
    pose proof (c_lock _ _ _ Hc) as Hl. simpl in Hl. rewrite HL in Hl. simpl in Hl.
    destruct (lks f); [done|]. simpl in Hl. by destruct (submitMu st). }
  assert (Hjobs : Store.jobs (Store.abs_add Store.norm ab j).1 = <[ID j := j]> (Store.jobs ab)).
  { unfold Store.abs_add. rewrite Hfresh. case_decide; simpl; by rewrite Store.norm_job_id. }
  exists (Store.abs_add Store.norm ab j).1, h'. split_and!.
  - apply map_subseteq_spec. intros i y. rewrite !ghost_of_lookup, Hjobs.
    intros Hy. rewrite lookup_insert_ne; [done|]. intros <-. by rewrite Hfresh in Hy.
  - apply (core_add st ab (h ⋅ f)); simpl; try done.
    + by rewrite HR, HhR.
    + apply known_status_spec. tauto.
    + rewrite HhL. destruct HL as [[? ->]|(Hne & -> & ->)]; [by left|right].
      by rewrite Hlf.
    + unfold h'. case_decide; simpl; set_solver.
    + unfold h'. case_decide; simpl; set_solver.
    + intros E. unfold h'. rewrite decide_True by done. simpl. set_solver.
    + intros E. unfold h'. rewrite decide_False by (rewrite E; done). simpl. set_solver.
  - apply Hk; [|by rewrite ghost_of_lookup, Hjobs, lookup_insert_eq].
    etransitivity; [done|]. apply map_subseteq_spec. intros i y. rewrite !ghost_of_lookup, Hjobs.
    intros Hy. rewrite lookup_insert_ne; [done|]. intros <-. by rewrite Hfresh in Hy.
Qed.

Lemma wp_Lock (k : unit → prog A) G h Φ :
  lks h = [] → (∀ G', G ⊆ G' → wp (k tt) G' (Hand (hp h) (hs h) (res h) [None]) Φ) →
  wp (Act ALock k) G h Φ.
Proof.
  intros HL Hk. apply wp_core; [exact I|]. intros env st ab f x st' _ HG Hc Hd. cbn [do_act] in Hd.
  destruct (submitMu st) eqn:Hm; simplify_eq.
  pose proof (c_lock _ _ _ Hc) as Hl. simpl in Hl. rewrite HL, Hm in Hl. simpl in Hl.
  eexists ab, _. split_and!; [done| |by apply Hk].
  apply (core_lock st ab (h ⋅ f)); [done|simpl; lia|].
  simpl. intros key [?|?]%elem_of_cons; [done|]. left. apply elem_of_app. by right.
Qed.

Lemma wp_Unlock l (k : unit → prog A) G h Φ :
  lks h = [l] → (∀ G', G ⊆ G' → wp (k tt) G' (Hand (hp h) (hs h) (res h) []) Φ) →
  wp (Act AUnlock k) G h Φ.
Proof.
  intros HL Hk. apply wp_core; [exact I|]. intros env st ab f x st' _ HG Hc [= <- <-].
  pose proof (c_lock _ _ _ Hc) as Hl. simpl in Hl. rewrite HL in Hl. simpl in Hl.
  eexists ab, _. split_and!; [done| |by apply Hk].
  apply (core_lock st ab (h ⋅ f)); [done|destruct (submitMu st); simpl; lia|].
  simpl. intros key ?. left. apply elem_of_app. by right.
Qed.

(** Under the lock, a key that is not found stays free. *)
Lemma wp_Find key (k : option Job → prog A) G h Φ :
  lks h = [None] → key ≠ "" →
  (∀ mj G', G ⊆ G' → (∀ j, mj = Some j → IdempotencyKey j = key) →
     wp (k mj) G'
       (Hand (hp h) (hs h) (res h) [match mj with None => Some key | Some _ => None end]) Φ) →
  wp (Act (AFind key) k) G h Φ.
Proof.
  intros HL Hne Hk. apply wp_core; [exact I|]. intros env st ab f x st' _ HG Hc [= <- <-].
  rewrite (Store.Find_spec _ ab) by apply Hc.
  assert (Hfind : ∀ i, Store.idem ab !! key = Some i →
    ∃ j, Store.jobs ab !! i = Some j ∧ IdempotencyKey j = key).
  { intros i Hi. by apply (c_idem _ _ _ Hc) in Hi as [_ ?]. }
  unfold Store.abs_find. rewrite decide_False by done.
  eexists ab, _. split_and!; [done| |apply Hk; [done|]].
  - destruct Hc. split; try done; simpl in *.
    + by rewrite HL in c_lock0.
    + intros key' [E|?]%elem_of_cons; [|apply c_free0, elem_of_app; by right].
      destruct (Store.idem ab !! key) as [i|] eqn:Hi; simpl in E; [|by injection E as ->].
      destruct (Hfind i eq_refl) as (j & Hj & _). by rewrite Hj in E.
  - intros j Hj. apply bind_Some in Hj as (i & Hi & Hj).
    destruct (Hfind i Hi) as (j' & Hj' & Hkey). congruence.
Qed.

Lemma wp_Submit w j (k : err → prog A) G h Φ :
  G !! ID j = Some (attr j) → good_job j →
  (∀ e G', G ⊆ G' → wp (k e) G' h Φ) → wp (Act (ASubmit w j) k) G h Φ.
Proof.
  intros HGj Hgood Hk. apply wp_core; [exact I|]. intros env st ab f x st' _ HG Hc Hd.
  exists ab, h. split_and!; [done| |by apply Hk]. cbn [do_act] in Hd.
  destruct (submit env w j); simplify_eq; [done|].
  destruct (ghost_lookup _ _ _ _ HG HGj) as (j' & Hj' & Ha).
  destruct Hc. split; try done. simpl.
  intros w' i [?|Hin]%elem_of_app; [eauto|].
  apply list_elem_of_singleton in Hin as [= -> ->]. rewrite Hj'. simpl. by rewrite Ha.
Qed.

Lemma wp_SendResult r (k : unit → prog A) G h Φ :
  good_result r → (∀ G', G ⊆ G' → wp (k tt) G' h Φ) → wp (Act (ASendResult r) k) G h Φ.
Proof.
  intros Hr Hk. apply wp_neutral; [|intros []; apply Hk]. split; [done|].
  intros env st x st' [= _ <-]. unfold same_core. simpl. split_and!; try done.
  intros r'. unfold try_send. case_decide; simpl; [|auto].
  intros [?|?%list_elem_of_singleton]%elem_of_app; [by left|right; by subst].
Qed.

Lemma wp_ForwardResult r (k : bool → prog A) G h Φ :
  good_result r → (∀ b G', G ⊆ G' → wp (k b) G' h Φ) → wp (Act (AForwardResult r) k) G h Φ.
Proof.
  intros Hr Hk. apply wp_neutral; [|intros b; apply Hk]. split; [done|].
  intros env st x st' Hd. cbn [do_act] in Hd. unfold same_core.
  destruct (req_done env); simplify_eq; [split_and!; auto|].
  unfold try_send in Hd. case_decide; simplify_eq. simpl. split_and!; try done.
  intros r' [?|?%list_elem_of_singleton]%elem_of_app; [by left|right; by subst].
Qed.
End Rules.

End Inv.

(** Discharges [neutral a] for a given call. *)
Ltac solve_neutral :=
  let Hd := fresh "Hd" in
  split; [reflexivity|]; intros ? ? ? ? Hd; cbn [do_act] in Hd; unfold with_manager in Hd;
  repeat case_match; simplify_eq;
  unfold same_core; simpl; split_and!; auto.

End Invariant.
