(* ===== verification/HandlerProofs.v ===== *)
(** * Every handler meets its obligation

    The handlers of the scheduler, the engine, the local workers, the worker
    protocol and the HTTP server, proved with the rules of [Invariant]: each keeps the invariant of
    the control node at every call, ends with nothing in hand and never
    panics. *)

From S2P Require Import Prelude Job Lease Retry Dlq Store Heap Metrics Queue Broker Events.
From S2P Require Import GoStrings GoTime Auth Config Consensus Cron Manager Machine Scheduler Runner Rpc.
From S2P Require Import Engine Handlers Server Invariant.
Import Machine Invariant.
Local Open Scope Z_scope.

Module HandlerProofs.

Section Handlers.
Context `{GoRange} {S : Type} `{Store.ReliableStore S}.

Arguments wp : simpl never.

(** Bringing a program to the form of its first call. *)
Ltac wp_simpl := cbn [mbind prog_mbind prog_bind call mret prog_ret].
Ltac wp_pure :=
  apply wp_neutral; [solve_neutral|];
  let x := fresh "x" in let G := fresh "Gn" in let HG := fresh "HGn" in
  intros x G HG; try (match type of x with unit => destruct x end); wp_simpl.

Lemma hand_eq h h' :
  hp h = hp h' → hs h = hs h' → res h = res h' → lks h = lks h' → h = h'.
Proof. destruct h, h'. simpl. congruence. Qed.

Ltac hand := apply hand_eq; simpl; set_solver.

(** [G ⊆ G'] along the steps of a proof. *)
Ltac sub :=
  first [ done
        | match goal with HG : ?G ⊆ ?G1 |- ?G ⊆ _ => transitivity G1; [exact HG|]; solve [sub] end ].
Ltac known := first [ eapply lookup_weaken; [eassumption|sub]
                    | eapply lookup_weaken_is_Some; [eauto|sub] ].

Lemma wp_Enqueue id w G h (Φ : unit → ghost → hand → Prop) :
  is_Some (G !! id) →
  (∀ G', G ⊆ G' → Φ tt G' (match w with PQ => dropP id h | DQ => dropS id h end)) →
  wp (Enqueue w id) G h Φ.
Proof.
  intros Hid HΦ. unfold Enqueue. wp_simpl. apply wp_Push; [done|known|]. intros G1 HG1.
  wp_pure. apply wp_neutral; [destruct w; solve_neutral|]. intros [] G3 HG3. apply HΦ. sub.
Qed.

Lemma wp_enqueueJob id w G h (Φ : unit → ghost → hand → Prop) :
  is_Some (G !! id) →
  (∀ G', G ⊆ G' → Φ tt G' (match w with PQ => dropP id h | DQ => dropS id h end)) →
  wp (Scheduler.enqueueJob id w) G h Φ.
Proof.
  intros Hid HΦ. unfold Scheduler.enqueueJob. wp_simpl.
  apply wp_Get. intros mj G1 HG1 _. wp_simpl.
  apply wp_Enqueue; [known|]. intros G2 HG2. apply HΦ. sub.
Qed.

Lemma wp_Dispatch j G h (Φ : bool → ghost → hand → Prop) :
  G !! ID j = Some (attr j) → good_job j → dropP (ID j) h = none →
  (∀ b G', G ⊆ G' → Φ b G' none) →
  wp (Scheduler.Dispatch j) G h Φ.
Proof.
  intros HGj Hgood Hh HΦ. unfold Scheduler.Dispatch. wp_simpl.
  apply wp_CtxErr. intros G1 HG1. wp_simpl. wp_pure.
  assert (Hrequeue : ∀ G' h', G ⊆ G' → dropP (ID j) h' = none →
    wp (Scheduler.enqueueJob (ID j) PQ ≫= λ _, mret false) G' h' Φ).
  { intros G' h' HG' Hh'. apply wp_bind, wp_enqueueJob; [known|]. intros G2 HG2.
    rewrite Hh'. apply HΦ. sub. }
  destruct x as [w|]; [|by apply Hrequeue; [sub|]].
  wp_pure. apply wp_Acquire. intros G3 HG3. rewrite Hh. wp_pure.
  apply wp_Submit; [known|done|]. intros e G5 HG5. destruct e as [e|].
  - apply wp_Release. intros G6 HG6. apply Hrequeue; [sub|hand].
  - apply HΦ. sub.
Qed.

Lemma wp_dispatchTurn G (Φ : Scheduler.turn → ghost → hand → Prop) :
  (∀ t G', G ⊆ G' → Φ t G' none) → wp Scheduler.dispatchTurn G none Φ.
Proof.
  intros HΦ. unfold Scheduler.dispatchTurn. wp_simpl.
  apply wp_Dequeue. intros mid G1 HG1 Hid. destruct mid as [id|]; [|by apply HΦ].
  specialize (Hid id eq_refl). replace (take PQ (Some id) none) with (holdP id) by hand.
  wp_simpl. apply wp_Get_drop. intros mj G2 HG2 Hgot.
  destruct mj as [j|]; wp_simpl.
  2:{ simpl. replace (dropP id (holdP id)) with none by hand. apply HΦ. sub. }
  destruct Hgot as (HGj & <- & Hgood & Hk).
  set (h := if decide _ then _ else _). assert (dropP (ID j) h = none) as Hh.
  { unfold h. case_decide; hand. }
  destruct (is_terminal (JStatus j)) eqn:Ht.
  { unfold h. rewrite decide_False.
    - replace (dropP (ID j) (holdP (ID j))) with none by hand. apply HΦ. sub.
    - intros [= E]. by rewrite E in Ht. }
  apply wp_bind, wp_Dispatch; [done..|]. intros b G3 HG3. destruct b; [apply HΦ; sub|].
  wp_simpl. apply wp_CtxErr. intros G4 HG4. apply HΦ. sub.
Qed.

Lemma wp_recoverWorker w G (Φ : unit → ghost → hand → Prop) :
  (∀ G', G ⊆ G' → Φ tt G' none) → wp (Scheduler.recoverWorker w) G none Φ.
Proof.
  intros HΦ. unfold Scheduler.recoverWorker. wp_simpl.
  apply wp_ReleaseByWorker. intros ids G1 HG1.
  apply (wp_for_each _ _ _ _ (λ ids h, h = Hand (hp h) ∅ [] [] ∧ hp h ⊆ list_to_set ids)).
  { split; [hand|simpl; set_solver]. }
  2:{ intros G2 h2 HG2 [-> Hh]. replace (Hand (hp h2) ∅ [] []) with none by hand.
      apply HΦ. sub. }
  intros id l G2 h HG2 [-> Hh]. unfold Scheduler.recoverJob. wp_simpl. apply wp_Get_drop. intros mj G3 HG3 Hgot.
  assert (Hdrop : ∀ h', h' = Hand (hp h') ∅ [] [] → hp h' ⊆ list_to_set (id :: l) →
    dropP id h' = Hand (hp (dropP id h')) ∅ [] [] ∧ hp (dropP id h') ⊆ list_to_set l).
  { intros h' -> Hh'. split; [hand|]. simpl in *. set_solver. }
  destruct mj as [j|]; [|by apply Hdrop].
  set (h1 := if decide _ then _ else _). destruct (decide (JStatus j = Pending)) as [Hp|Hn].
  - destruct Hgot as (HGj & <- & _). apply wp_enqueueJob; [eauto|]. intros G4 HG4.
    unfold h1. rewrite decide_True by (simpl; congruence). by apply Hdrop.
  - unfold h1. rewrite decide_False by (simpl; congruence). by apply Hdrop.
Qed.

(** A job after a failed attempt that is to be retried stays well formed, and
    its backoff is defined. *)
Lemma retry_good j :
  good_job j → Retry.ShouldRetry j = true →
  wrap64 (RetryCount j + 1) = RetryCount j + 1 ∧ 0 ≤ RetryCount j + 1 ∧
  in_int64 (RetryCount j + 1).
Proof.
  unfold good_job, Retry.ShouldRetry, in_int64. rewrite Z.ltb_lt. intros (? & ? & ?) ?.
  split; [|lia]. apply wrap64_id. unfold in_int64. lia.
Qed.

Lemma wp_handleResult r G (Φ : unit → ghost → hand → Prop) :
  good_result r → (∀ G', G ⊆ G' → Φ tt G' none) → wp (Scheduler.handleResult r) G none Φ.
Proof.
  intros Hr HΦ. unfold Scheduler.handleResult. wp_simpl.
  apply wp_Get. intros mj G1 HG1 Hgot. destruct mj as [j|]; [|by apply HΦ].
  destruct Hgot as (HGj & HID & Hgood & Hk). wp_simpl. wp_pure.
  destruct (Scheduler.stale r x); [apply HΦ; sub|].
  apply wp_Release. intros G2 HG2. rewrite <-HID in *.
  assert (HGj2 : G2 !! ID j = Some (attr j)) by known.
  replace (addP {[ID j]} none) with (holdP (ID j)) by hand.
  destruct (RSuccess r) eqn:Hs.
  { apply wp_Update; [done|done|by right|]. intros e G3 HG3. simpl. wp_simpl. wp_pure.
    replace (dropP (ID j) (holdP (ID j))) with none by hand. apply HΦ. sub. }
  destruct Hr as [?|Hr]; [congruence|]. destruct (RError r) as [msg|]; [|done].
  destruct (Retry.ShouldRetry j) eqn:Hretry.
  - destruct (retry_good j Hgood Hretry) as (Hw & Hpos & Hin). wp_simpl. rewrite Hw. wp_pure.
    destruct (Retry.NextRetryTime _ _ _) as [t|] eqn:Ht.
    2:{ exfalso. revert Ht. apply not_eq_None_Some, Retry.NextRetryTime_defined. simpl. lia. }
    wp_simpl. apply wp_Update; [known| |by left|]. { destruct Hgood as (? & ? & ?). by split. }
    intros e G4 HG4. cbn [JStatus with_nextRunAt with_lastError with_status with_retry].
    rewrite decide_True by done. wp_simpl. apply wp_enqueueJob; [known|]. intros G5 HG5.
    replace (dropS _ _) with none by hand. apply HΦ. sub.
  - apply wp_Update; [done|done|by right|]. intros e G3 HG3. simpl. wp_simpl.
    apply wp_AddDLQ. intros e' G4 HG4. wp_simpl. wp_pure.
    replace (dropP (ID j) (holdP (ID j))) with none by hand. apply HΦ. sub.
Qed.

(** Storing a job and queueing it in the queue its status asks for. *)
Lemma wp_addJob j q L L' G h (Φ : err → ghost → hand → Prop) :
  h = Hand ∅ ∅ [ID j] L → good_job j →
  JStatus j = Pending ∧ q = PQ ∨ JStatus j = Scheduled ∧ q = DQ →
  (IdempotencyKey j = "" ∧ L' = L ∨
   IdempotencyKey j ≠ "" ∧ L = [Some (IdempotencyKey j)] ∧ L' = [None]) →
  (∀ G', G ⊆ G' → Φ None G' (Hand ∅ ∅ [] L')) →
  wp (Engine.addJob j q) G h Φ.
Proof.
  intros -> Hgood Hq HL HΦ. unfold Engine.addJob. wp_simpl.
  apply wp_RaftNode. intros G1 HG1. wp_simpl.
  apply (wp_Add j [] L'); [done|done|tauto|done|]. intros G2 HG2 HGj.
  apply wp_bind, wp_Enqueue; [eauto|]. intros G3 HG3.
  destruct Hq as [[Hst ->]|[Hst ->]].
  - rewrite decide_True by done. replace (dropP _ _) with (Hand ∅ ∅ [] L') by hand. apply HΦ. sub.
  - rewrite decide_False by (rewrite Hst; done).
    replace (dropS _ _) with (Hand ∅ ∅ [] L') by hand. apply HΦ. sub.
Qed.

Lemma NewJob_good id ty p : good_job (NewJob id ty p).
Proof. unfold good_job, in_int64. simpl. split; [done|]. done. Qed.

Lemma wp_SubmitJob ty p G (Φ : Job * err → ghost → hand → Prop) :
  (∀ r G', G ⊆ G' → Φ r G' none) → wp (Engine.SubmitJobWithContext ty p) G none Φ.
Proof.
  intros HΦ. unfold Engine.SubmitJobWithContext. wp_simpl.
  apply wp_NextID. intros id G1 HG1. wp_simpl. apply wp_bind.
  apply (wp_addJob _ _ [] []); [done|apply NewJob_good|by left|by left|].
  intros G2 HG2. wp_simpl. wp_pure. wp_pure. apply HΦ. sub.
Qed.

Lemma wp_SubmitJobAt ty p t G (Φ : Job * err → ghost → hand → Prop) :
  (∀ r G', G ⊆ G' → Φ r G' none) → wp (Engine.SubmitJobAtWithContext ty p t) G none Φ.
Proof.
  intros HΦ. unfold Engine.SubmitJobAtWithContext. wp_simpl.
  apply wp_NextID. intros id G1 HG1. wp_simpl. apply wp_bind.
  apply (wp_addJob _ _ [] []); [done|apply NewJob_good|by right|by left|].
  intros G2 HG2. wp_simpl. apply HΦ. sub.
Qed.

Lemma wp_SubmitJobIdempotent key ty p G (Φ : Job * bool * err → ghost → hand → Prop) :
  (∀ r G', G ⊆ G' → Φ r G' none) → wp (Engine.SubmitJobIdempotent key ty p) G none Φ.
Proof.
  intros HΦ. unfold Engine.SubmitJobIdempotent. case_decide as Hkey.
  { apply wp_bind, wp_SubmitJob. intros r G1 HG1. apply HΦ. sub. }
  wp_simpl. apply wp_Lock; [done|]. intros G1 HG1. apply wp_bind.
  assert (Hend : ∀ r G', G ⊆ G' →
    wp (_ ← call AUnlock; mret r) G' (Hand ∅ ∅ [] [None]) Φ).
  { intros r G' HG'. wp_simpl. eapply wp_Unlock; [done|]. intros G2 HG2. apply HΦ. sub. }
  unfold Engine.findOrCreate. wp_simpl. apply wp_Find; [done|done|].
  intros mj G2 HG2 _. destruct mj as [j|]; [apply Hend; sub|]. wp_simpl.
  apply wp_NextID. intros id G3 HG3. wp_simpl. apply wp_bind.
  apply (wp_addJob _ _ [Some key] [None]); [done|apply NewJob_good|by left|by right|].
  intros G4 HG4. wp_simpl. wp_pure. wp_pure. apply Hend. sub.
Qed.

Lemma wp_cronTurn G (Φ : unit → ghost → hand → Prop) :
  (∀ G', G ⊆ G' → Φ tt G' none) → wp Engine.cronTurn G none Φ.
Proof.
  intros HΦ. unfold Engine.cronTurn. wp_simpl. wp_pure.
  apply (wp_for_each _ _ _ _ (λ _ h, h = none)); [done| |intros G2 h HG2 ->; apply HΦ; sub].
  intros c l G2 h HG2 ->. apply wp_bind, wp_SubmitJob. intros r G3 HG3. done.
Qed.

Lemma wp_Execute w j G (Φ : unit → ghost → hand → Prop) :
  G !! ID j = Some (attr j) → good_job j → (∀ G', G ⊆ G' → Φ tt G' none) →
  wp (Runner.Execute true w j) G none Φ.
Proof.
  intros HGj Hgood HΦ. unfold Runner.Execute, Runner.updateStore, Runner.sendResult.
  wp_simpl. wp_pure. wp_pure.
  destruct x as [[]|]; wp_simpl;
    (apply wp_Update; [known|done|by right|]); intros e G1 HG1; simpl; wp_pure;
    (apply wp_SendResult; [by (left + right)|]); intros G2 HG2; wp_simpl; wp_pure;
    (replace (dropP _ _) with none by hand); apply HΦ; sub.
Qed.

Lemma wp_ReportResult req G (Φ : bool → ghost → hand → Prop) :
  (∀ b G', G ⊆ G' → Φ b G' none) → wp (Rpc.ReportResult req) G none Φ.
Proof.
  intros HΦ. unfold Rpc.ReportResult. wp_simpl.
  apply wp_ForwardResult.
  { unfold good_result. simpl. destruct (Rpc.PSuccess req); [by left|by right]. }
  intros b G1 HG1. destruct b; [|apply HΦ; sub]. wp_simpl. wp_pure.
  destruct x; wp_simpl; [wp_pure|]; apply HΦ; sub.
Qed.

Lemma wp_CancelJob id G (Φ : err → ghost → hand → Prop) :
  (∀ e G', G ⊆ G' → Φ e G' none) → wp (Engine.CancelJobWithContext id) G none Φ.
Proof.
  intros HΦ. unfold Engine.CancelJobWithContext. wp_simpl.
  apply wp_RaftNode. intros G1 HG1. wp_simpl. apply wp_Cancel. intros e G2 HG2.
  destruct e; wp_simpl; [|wp_pure]; apply HΦ; sub.
Qed.

Lemma wp_AddCronJob id sch ty p G (Φ : err → ghost → hand → Prop) :
  (∀ e G', G ⊆ G' → Φ e G' none) → wp (Engine.AddCronJob id sch ty p) G none Φ.
Proof.
  intros HΦ. unfold Engine.AddCronJob. wp_simpl.
  apply wp_RaftNode. intros G1 HG1. wp_simpl. apply wp_AddCron. intros e G2 HG2.
  destruct e; wp_simpl; [|wp_pure]; apply HΦ; sub.
Qed.

Lemma wp_RemoveCronJob id G (Φ : unit → ghost → hand → Prop) :
  (∀ G', G ⊆ G' → Φ tt G' none) → wp (Engine.RemoveCronJob id) G none Φ.
Proof.
  intros HΦ. unfold Engine.RemoveCronJob. wp_simpl.
  apply wp_RaftNode. intros G1 HG1. wp_simpl. apply wp_DeleteCron. intros e G2 HG2.
  wp_simpl. wp_pure. apply HΦ. sub.
Qed.

Lemma wp_RegisterWorker w addr ts G (Φ : bool → ghost → hand → Prop) :
  (∀ b G', G ⊆ G' → Φ b G' none) → wp (Rpc.RegisterWorker w addr ts) G none Φ.
Proof.
  intros HΦ. unfold Rpc.RegisterWorker. wp_simpl. wp_pure.
  destruct x; wp_simpl; [apply HΦ; sub|]. wp_pure. wp_pure. wp_pure. apply HΦ. sub.
Qed.

Lemma wp_Heartbeat w G (Φ : bool → ghost → hand → Prop) :
  (∀ b G', G ⊆ G' → Φ b G' none) → wp (Rpc.Heartbeat w) G none Φ.
Proof. intros HΦ. unfold Rpc.Heartbeat. wp_simpl. wp_pure. apply HΦ. sub. Qed.

(** *** The HTTP server *)

(** What the requests promise: they run to the end, with nothing in hand. *)
Definition settles {A} (p : prog A) : Prop :=
  ∀ G (Φ : A → ghost → hand → Prop), (∀ x G', G ⊆ G' → Φ x G' none) → wp p G none Φ.

Lemma settles_read_only {A} (p : prog A) : Server.read_only p → settles p.
Proof.
  intros Hp G Φ. revert G Hp. induction p as [x| |X a k IH]; intros G Hp HΦ; [by apply HΦ|done|].
  destruct Hp as [Ha Hk]. apply wp_neutral.
  - split; [by destruct a|]. intros env st x st' Hd.
    rewrite (Server.reads_state env a st x st' Ha Hd). unfold same_core. split_and!; auto.
  - intros x G' HG'. apply IH; [apply Hk|]. intros y G2 HG2. apply HΦ. sub.
Qed.

Lemma settles_bind {A B} (p : prog A) (q : A → prog B) :
  settles p → (∀ x, settles (q x)) → settles (p ≫= q).
Proof.
  intros Hp Hq G Φ HΦ. apply wp_bind, Hp. intros x G1 HG1. apply Hq. intros y G2 HG2. apply HΦ. sub.
Qed.

Lemma settles_call {X} (a : act X) : neutral a → settles (call a).
Proof. intros Ha G Φ HΦ. by apply wp_neutral. Qed.

Lemma settles_ret {A} (x : A) : settles (mret x).
Proof. by apply settles_read_only. Qed.

Lemma settles_requireRoles cfg roles next r :
  settles (next r) → settles (Server.requireRoles cfg roles next r).
Proof.
  intros Hn. unfold Server.requireRoles. case_match; [done|].
  apply settles_bind; [apply settles_call; solve_neutral|]. intros now.
  case_match; [apply settles_ret|done].
Qed.

Lemma settles_errorBody e : settles (Handlers.errorBody e).
Proof. apply settles_read_only. unfold Handlers.errorBody. Server.looks. Qed.

Ltac settles :=
  repeat first
    [ apply settles_ret | apply settles_errorBody | apply settles_call; solve_neutral
    | intros ? ?;
      first [ apply wp_SubmitJobIdempotent | apply wp_SubmitJobAt | apply wp_CancelJob
            | apply wp_AddCronJob
            | intros HΦ; apply wp_RemoveCronJob; intros; apply HΦ; done ]
    | apply settles_bind; [|intros ?] | progress case_decide | progress case_match ].

Lemma settles_SubmitJobHandler r : settles (Handlers.SubmitJobHandler r).
Proof. unfold Handlers.SubmitJobHandler, Handlers.submitScheduled, Handlers.submitNow. settles. Qed.

Lemma settles_CancelJobHandler r : settles (Handlers.CancelJobHandler r).
Proof. unfold Handlers.CancelJobHandler. settles. Qed.

Lemma settles_CreateCronJobHandler r : settles (Handlers.CreateCronJobHandler r).
Proof. unfold Handlers.CreateCronJobHandler. cbv zeta. settles. Qed.

Lemma settles_DeleteCronJobHandler r : settles (Handlers.DeleteCronJobHandler r).
Proof. unfold Handlers.DeleteCronJobHandler. cbv zeta. settles. Qed.

Lemma settles_NodeRoute located r : settles (Handlers.NodeRoute located r).
Proof.
  unfold Handlers.NodeRoute. cbv zeta. case_decide; [apply settles_read_only, Server.Nodes_looks|]. settles.
Qed.

(** Every request but those of the event stream. *)
Lemma settles_serve located nilJobs ui page code cfg n drawn r :
  Server.streams r = false → settles (Server.serve located nilJobs ui page code cfg n drawn r).
Proof.
  intros Hr. unfold Server.streams in Hr.
  unfold Server.serve, Server.RequestID, Server.Tracing, Server.Logging.
  apply settles_bind; [|intros ?; apply settles_ret]. unfold Server.dispatch.
  destruct (Server.matchRoute _ _); repeat case_decide;
    first [ done | apply settles_ret
          | apply settles_requireRoles;
            first [ apply settles_SubmitJobHandler | apply settles_CancelJobHandler
                  | apply settles_CreateCronJobHandler | apply settles_DeleteCronJobHandler
                  | apply settles_NodeRoute | apply settles_ret
                  | apply settles_read_only;
                    first [ apply Server.ListJobs_looks | apply Server.GetJob_looks
                          | apply Server.ListCronJobs_looks | apply Server.Nodes_looks
                          | apply Server.Status_looks | apply Server.RaftStatus_looks ] ] ].
Qed.

(** A goroutine up to a panic, from which the server of [net/http] recovers. *)
Fixpoint recovering {A} (p : prog A) : prog (option A) :=
  match p with
  | Ret x => Ret (Some x)
  | Panic => Ret None
  | Act a k => Act a (λ x, recovering (k x))
  end.

(** The event stream panics with nothing in hand. *)
Lemma wp_stream located nilJobs ui page code cfg n drawn r {B} (q : string * Handlers.Response → prog B) G
    (Φ : option B → ghost → hand → Prop) :
  Server.streams r = true → (∀ x G', G ⊆ G' → Φ x G' none) →
  wp (recovering (Server.serve located nilJobs ui page code cfg n drawn r ≫= q)) G none Φ.
Proof.
  intros Hr HΦ. unfold Server.streams in Hr.
  unfold Server.serve, Server.RequestID, Server.Tracing, Server.Logging, Server.dispatch.
  destruct (Server.matchRoute _ _); try done. unfold Server.HTTPHandler. cbn [Server.isFlusher].
  cbn [mbind prog_mbind prog_bind call recovering]. wp_pure. wp_pure. wp_pure. apply HΦ. sub.
Qed.

(** The goroutine of the failover demonstration. *)
Lemma wp_failoverSequence G (Φ : unit → ghost → hand → Prop) :
  (∀ G', G ⊆ G' → Φ tt G' none) → wp Handlers.failoverSequence G none Φ.
Proof.
  intros HΦ. unfold Handlers.failoverSequence.
  apply (wp_for_each _ _ _ _ (λ _ h, h = none)); [done| |intros G2 h HG2 ->; apply HΦ; sub].
  intros [t msg] l G2 h HG2 ->. by apply wp_neutral; [solve_neutral|].
Qed.

(** *** The delay loop *)

(** The rest of a promotion, once an id is out of the delay queue. *)
Lemma wp_promote j G h (Φ : Scheduler.turn → ghost → hand → Prop) :
  G !! ID j = Some (attr j) → good_job j → dropS (ID j) h = none →
  (∀ t G', G ⊆ G' → Φ t G' none) →
  wp (e ← call (AUpdate (with_status j Pending));
      match e with
      | Some _ => mret Scheduler.Continue
      | None => _ ← Scheduler.enqueueJob (ID j) PQ; mret Scheduler.Continue
      end) G h Φ.
Proof.
  intros HGj Hgood Hh HΦ. wp_simpl. apply wp_Promote; [done..| |]; rewrite Hh.
  - intros G1 HG1. apply wp_bind, wp_enqueueJob; [known|]. intros G2 HG2.
    replace (dropP _ _) with none by hand. apply HΦ. sub.
  - intros e G1 HG1. apply HΦ. sub.
Qed.

End Handlers.
End HandlerProofs.
