(* ===== verification/System.v ===== *)
(** * The running control node

    A standalone node: the dispatch loop, the delay loop, and the goroutines of
    requests, results, recoveries, cron ticks, workers and the monitor.
    Goroutines interleave call by call, each call in an environment of its own;
    the node may crash at any point and start again over its store.  The
    theorems hold in every reachable configuration. *)

From S2P Require Import Prelude Job Lease Retry Dlq Store Heap Metrics Queue Broker Events.
From S2P Require Import Config Consensus Cron Manager Machine Scheduler Runner Rpc Engine.
From S2P Require Import Handlers Server Invariant HandlerProofs MemoryStore.
Import Machine Invariant HandlerProofs.
Local Open Scope Z_scope.

Module System.

(** The dispatch loop: waiting on the queue's notification, between two turns of
    its inner loop, inside one, or returned. *)
Inductive dispatcher :=
  | Waiting
  | Ready
  | Draining (p : prog Scheduler.turn)
  | Stopped.

Definition after_turn (t : Scheduler.turn) : dispatcher :=
  match t with
  | Scheduler.Break => Waiting
  | Scheduler.Continue => Ready
  | Scheduler.Return => Stopped
  end.

(** The delay loop: at the top of its loop, inside a turn of it or of
    [ProcessDelayedJobs], or in its select, with the instant its timer fires
    at.  The id its last [Peek] answered is kept for the theorems only. *)
Inductive delayer :=
  | AtTop
  | Busy (peeked : option Z) (p : prog Scheduler.next)
  | Asleep (timer : option Time).

Definition goes_on (now : Time) (n : Scheduler.next) : delayer :=
  match n with
  | Scheduler.Look => AtTop
  | Scheduler.Promote => Busy None Scheduler.delayPromote
  | Scheduler.Sleep timer => Asleep ((λ d, now + d) <$> timer)
  end.

Definition noted {X} (a : act X) : X → option Z → option Z :=
  match a in act X return X → option Z → option Z with
  | APeek DQ => λ x _, x
  | _ => λ _ pk, pk
  end.

(** The id a [Dequeue] of the delay queue took out although the last [Peek]
    had answered another one. *)
Definition astray {X} (a : act X) : X → option Z → gset Z :=
  match a in act X return X → option Z → gset Z with
  | ADequeue DQ => λ x pk,
      match x with
      | Some id => if decide (pk = Some id) then ∅ else {[id]}
      | None => ∅
      end
  | _ => λ _ _, ∅
  end.

(** A goroutine of a handler, with the request it serves if it serves one. *)
Inductive origin := Background | Serving (r : Handlers.Request).
Record goroutine := Go { origin_of : origin; body : prog unit }.

Definition fire {A} (p : prog A) : prog unit := _ ← p; mret tt.

Section Sys.
Context `{GoRange} {T : Type} `{Store.ReliableStore T}.
Implicit Types st : State T.

(** Starting a goroutine: the state before, the goroutine, the state after.  A
    job a worker accepted may be run by the local runner; a report may carry
    anything a client sends.  Results, dead workers and cron ticks are each
    handled by one goroutine in turn; here any number may be in flight. *)
Inductive spawn st : goroutine → State T → Prop :=
  | SpSubmit ty p : spawn st (Go Background (fire (Engine.SubmitJobWithContext ty p))) st
  | SpSubmitAt ty p t : spawn st (Go Background (fire (Engine.SubmitJobAtWithContext ty p t))) st
  | SpIdempotent key ty p : spawn st (Go Background (fire (Engine.SubmitJobIdempotent key ty p))) st
  | SpCancel id : spawn st (Go Background (fire (Engine.CancelJobWithContext id))) st
  | SpAddCron id sch ty p : spawn st (Go Background (fire (Engine.AddCronJob id sch ty p))) st
  | SpRemoveCron id : spawn st (Go Background (Engine.RemoveCronJob id)) st
  | SpCron : spawn st (Go Background Engine.cronTurn) st
  | SpResult r c : try_recv (results st) = Some (r, c) →
      spawn st (Go Background (Scheduler.handleResult r)) (set_results st c)
  | SpRecover w c : try_recv (Manager.DeadWorkers (manager st)) = Some (w, c) →
      spawn st (Go Background (Scheduler.recoverWorker w))
        (set_manager st (Manager.set_DeadWorkers (manager st) c))
  | SpExecute w j : (w, j) ∈ sent st → spawn st (Go Background (Runner.Execute true (WID w) j)) st
  | SpReport req : spawn st (Go Background (fire (Rpc.ReportResult req))) st
  | SpRegister w addr ts : spawn st (Go Background (fire (Rpc.RegisterWorker w addr ts))) st
  | SpHeartbeat w : spawn st (Go Background (fire (Rpc.Heartbeat w))) st
  | SpAvailable w : spawn st (Go Background (call (AMakeAvailable w))) st
  | SpRemoveWorker w : spawn st (Go Background (call (ARemoveWorker w))) st
  | SpMonitor d : spawn st (Go Background (call (AMonitorTick d))) st
  | SpHttp located nilJobs ui page code cfg n drawn r :
      spawn st (Go (Serving r) (fire (Server.serve located nilJobs ui page code cfg n drawn r))) st
  | SpFailover : spawn st (Go Background Handlers.failoverSequence) st.

Record config := mkSys {
  shared : State T;
  disp : dispatcher;
  delay : delayer;
  threads : list goroutine;
  swept : gset Z   (** the ids that went astray since the start *)
}.

(** The start of the process over a store: [New], [Restore] and [Start].  The
    goroutines of the loops and the servers come after it, so nothing
    interferes with it; the workers and the monitor, which [Start] launches
    before its rebuild, touch neither the store nor the queues. *)
Definition started (env : Env) (cfg : Config.Config) (s : T) (now : Time) st' : Prop :=
  run env Server.startUp (Engine.New cfg s false now) = (Returned true, st').

(** No goroutine is inside a handler. *)
Definition resting st : config := mkSys st Waiting AtTop [] ∅.

Inductive step : config → config → Prop :=
  | step_spawn st d q ts sw g st' :
      spawn st g st' → step (mkSys st d q ts sw) (mkSys st' d q (g :: ts) sw)
  | step_call env st d q ts1 ts2 sw o X (a : act X) k x st' :
      env_ok env st → do_act env a st = Some (x, st') →
      step (mkSys st d q (ts1 ++ Go o (Act a k) :: ts2) sw)
           (mkSys st' d q (ts1 ++ Go o (k x) :: ts2) sw)
  | step_exit st d q ts1 ts2 sw o :
      step (mkSys st d q (ts1 ++ Go o (Ret tt) :: ts2) sw) (mkSys st d q (ts1 ++ ts2) sw)
  | step_recover st d q ts1 ts2 sw r :   (** [net/http] recovers from a handler's panic *)
      step (mkSys st d q (ts1 ++ Go (Serving r) Panic :: ts2) sw) (mkSys st d q (ts1 ++ ts2) sw)
  | step_wake st q ts sw pq' :
      Queue.Wait (pq st) = Some pq' →
      step (mkSys st Waiting q ts sw) (mkSys (set_queue st PQ pq' (metrics st)) Ready q ts sw)
  | step_turn st q ts sw :
      step (mkSys st Ready q ts sw) (mkSys st (Draining Scheduler.dispatchTurn) q ts sw)
  | step_dispatch env st q ts sw X (a : act X) k x st' :
      env_ok env st → do_act env a st = Some (x, st') →
      step (mkSys st (Draining (Act a k)) q ts sw) (mkSys st' (Draining (k x)) q ts sw)
  | step_turned st q ts sw t :
      step (mkSys st (Draining (Ret t)) q ts sw) (mkSys st (after_turn t) q ts sw)
  | step_look st d ts sw :
      step (mkSys st d AtTop ts sw) (mkSys st d (Busy None Scheduler.delayLook) ts sw)
  | step_delay env st d pk ts sw X (a : act X) k x st' :
      env_ok env st → do_act env a st = Some (x, st') →
      step (mkSys st d (Busy pk (Act a k)) ts sw)
           (mkSys st' d (Busy (noted a x pk) (k x)) ts (astray a x pk ∪ sw))
  | step_delayed st d pk ts sw n :
      step (mkSys st d (Busy pk (Ret n)) ts sw) (mkSys st d (goes_on (clock st) n) ts sw)
  | step_notified st d mt ts sw dq' :
      Queue.Wait (dq st) = Some dq' →
      step (mkSys st d (Asleep mt) ts sw) (mkSys (set_queue st DQ dq' (metrics st)) d AtTop ts sw)
  | step_timer st d t ts sw :
      t ≤ clock st →
      step (mkSys st d (Asleep (Some t)) ts sw) (mkSys st d (Busy None Scheduler.delayPromote) ts sw)
  | step_clock st d q ts sw t :
      clock st ≤ t → step (mkSys st d q ts sw) (mkSys (set_clock st t) d q ts sw)
  | step_crash env cfg st d q ts sw st' :
      started env cfg (store st) (clock st) st' → step (mkSys st d q ts sw) (resting st').

(** A node that starts on an empty store. *)
Inductive reachable : config → Prop :=
  | reach_start env cfg s now st : Store.rel s Store.empty → started env cfg s now st →
      reachable (resting st)
  | reach_next c c' : reachable c → step c c' → reachable c'.

(** ** The invariant of a configuration *)

Definition ends_idle {A} (_ : A) (_ : ghost) (h : hand) : Prop := h = none.

(** Ids nobody looks after. *)
Definition lost (X : gset Z) : hand := Hand ∅ X [] [].

(** The obligation of the delay loop: as [wp], but an id that goes astray
    leaves its hand. *)
Fixpoint delay_wp {A} (p : prog A) (pk : option Z) (G : ghost) (h : hand) : Prop :=
  match p with
  | Ret _ => h = none
  | Panic => False
  | Act a k =>
      follow a k ∧
      ∀ env st G' f x st',
        env_ok env st → G ⊆ G' → inv st G' (h ⋅ f) → do_act env a st = Some (x, st') →
        ∃ G'' h', G' ⊆ G'' ∧ inv st' G'' (h' ⋅ (lost (astray a x pk) ⋅ f)) ∧
          delay_wp (k x) (noted a x pk) G'' h'
  end.

Definition disp_ok (d : dispatcher) (G : ghost) (h : hand) : Prop :=
  match d with
  | Draining p => wp p G h ends_idle
  | _ => h = none
  end.

Definition delay_ok (q : delayer) (G : ghost) (h : hand) : Prop :=
  match q with
  | Busy pk p => delay_wp p pk G h
  | _ => h = none
  end.

(** The event stream panics; every other goroutine runs to its end. *)
Definition go_ok (G : ghost) (g : goroutine) (h : hand) : Prop :=
  match origin_of g with
  | Serving r => if Server.streams r then wp (recovering (body g)) G h ends_idle
                 else wp (body g) G h ends_idle
  | Background => wp (body g) G h ends_idle
  end.

Definition all_hands (l : list hand) : hand := foldr hand_op none l.

Definition pool_ok (c : config) : Prop :=
  ∃ G hd hq l, disp_ok (disp c) G hd ∧ delay_ok (delay c) G hq ∧ Forall2 (go_ok G) (threads c) l ∧
               inv (shared c) G (all_hands (hd :: hq :: lost (swept c) :: l)).

Lemma inv_equiv st G h h' :
  inv st G h → hp h ⊆ hp h' → hs h ⊆ hs h' → res h' ≡ₚ res h → lks h' ≡ₚ lks h → inv st G h'.
Proof. intros (a & Hc & HG) HP HS HR HL. exists a. split; [|done]. by eapply core_weaken. Qed.

(** The order of the hands does not matter. *)
Lemma all_hands_perm l l' :
  l ≡ₚ l' →
  hp (all_hands l) = hp (all_hands l') ∧ hs (all_hands l) = hs (all_hands l') ∧
  res (all_hands l) ≡ₚ res (all_hands l') ∧ lks (all_hands l) ≡ₚ lks (all_hands l').
Proof.
  induction 1 as [|h l l' _ (E1 & E2 & E3 & E4)|h h' l|l l' l'' _ (E1 & E2 & E3 & E4) _ (F1 & F2 & F3 & F4)].
  - done.
  - simpl. rewrite E1, E2, E3, E4. done.
  - simpl. split_and!; [set_solver +|set_solver +| |]; apply Permutation_app_swap_app.
  - rewrite E1, E2, E3, E4. done.
Qed.

Lemma inv_perm st G l l' : l ≡ₚ l' → inv st G (all_hands l) → inv st G (all_hands l').
Proof.
  intros (E1 & E2 & E3 & E4)%all_hands_perm Hi. eapply inv_equiv; [done|by rewrite E1|by rewrite E2|done..].
Qed.

Lemma wp_later {A} (p : prog A) G G' h : G ⊆ G' → wp p G h ends_idle → wp p G' h ends_idle.
Proof.
  destruct p as [x| |X a k]; [done..|]. intros HG [Hf Hwp]. split; [done|].
  intros env st G1 f x st' He HG1. apply Hwp; [done|]. by etransitivity.
Qed.

Lemma delay_later q G G' h : G ⊆ G' → delay_ok q G h → delay_ok q G' h.
Proof.
  destruct q as [|pk p|]; [done| |done]. intros HG. destruct p as [x| |X a k]; [done..|].
  intros [Hf Hwp]. split; [done|]. intros env st G1 f x st' He HG1. apply Hwp; [done|]. by etransitivity.
Qed.

Lemma go_later G G' g h : G ⊆ G' → go_ok G g h → go_ok G' g h.
Proof.
  intros HG. unfold go_ok. destruct (origin_of g) as [|r]; [by apply wp_later|].
  destruct (Server.streams r); by apply wp_later.
Qed.

Lemma all_later (ts : list goroutine) l G G' :
  G ⊆ G' → Forall2 (go_ok G) ts l → Forall2 (go_ok G') ts l.
Proof. intros HG HF. eapply Forall2_impl; [done|]. intros p h. by apply go_later. Qed.

Lemma disp_later d G G' h : G ⊆ G' → disp_ok d G h → disp_ok d G' h.
Proof. destruct d; simpl; [done|done|apply wp_later|done]. Qed.

(** *** The delay loop meets its obligation *)

Lemma delay_of_wp {A} (p : prog A) pk G h : wp p G h ends_idle → delay_wp p pk G h.
Proof.
  revert pk G h. induction p as [x| |X a k IH]; intros pk G h; [done..|].
  intros [Hf Hwp]. split; [done|]. intros env st G' f x st' He HG Hi Hd.
  destruct (Hwp env st G' f x st' He HG Hi Hd) as (G'' & h' & HG'' & Hi' & Hk).
  exists G'', h'. split_and!; [done| |by apply IH].
  eapply inv_equiv; [exact Hi'|simpl; set_solver +|simpl; set_solver +|done|done].
Qed.

(** A call of the loop that takes nothing out of the delay queue. *)
Lemma delay_act {A X} (a : act X) (k : X → prog A) pk G :
  neutral a →
  (∀ x G', G ⊆ G' →
     (∀ env st ab f st', do_act env a st = Some (x, st') → core st ab f → ghost_of ab = G' →
        delay_wp (k x) (noted a x pk) G' none)) →
  delay_wp (Act a k) pk G none.
Proof.
  intros [Hp Hn] Hk. split; [by apply follow_calm|]. intros env st G' f x st' He HG Hi Hd.
  pose proof Hi as (ab & Hc & HG'). exists G', none. split_and!; [done| |by eapply Hk].
  exists ab. split; [|done]. eapply core_weaken; [eapply core_same; [by eapply Hn|exact Hc]|..];
    simpl; [set_solver +..|done|done].
Qed.

Lemma delay_Peek {A} (k : option Z → prog A) pk G :
  (∀ mid G', G ⊆ G' → (∀ id, mid = Some id → is_Some (G' !! id)) → delay_wp (k mid) mid G' none) →
  delay_wp (Act (APeek DQ) k) pk G none.
Proof.
  intros Hk. apply delay_act; [solve_neutral|]. intros x G' HG env st ab f st' [= <- <-] Hc <-.
  apply Hk; [done|]. intros id Hid. rewrite ghost_of_lookup, fmap_is_Some.
  apply (c_queued _ _ _ Hc DQ). unfold Queue.Peek in Hid. simpl in *.
  destruct (Queue.items (dq st)); simplify_eq/=. by left.
Qed.

(** Jobs are never deleted, so the job of a queued id is found. *)
Lemma delay_Get {A} id (k : option Job → prog A) pk G :
  is_Some (G !! id) →
  (∀ j G', G ⊆ G' → got G' id (Some j) → delay_wp (k (Some j)) pk G' none) →
  delay_wp (Act (AGet id) k) pk G none.
Proof.
  intros [at_ Hid] Hk. apply delay_act; [solve_neutral|]. intros x G' HG env st ab f st' [= <- <-] Hc <-.
  destruct (ghost_lookup _ _ _ _ HG Hid) as (j & Hj & _). pose proof (core_got _ _ _ id Hc) as Hg.
  rewrite (core_Get _ _ _ _ Hc), Hj in *. by apply Hk.
Qed.

Lemma delay_Now {A} (k : Time → prog A) pk G :
  (∀ t G', G ⊆ G' → delay_wp (k t) pk G' none) → delay_wp (Act ANow k) pk G none.
Proof. intros Hk. apply delay_act; [solve_neutral|]. intros t G' HG _ _ _ _ _ _ _ _. by apply Hk. Qed.

(** [Dequeue] after a [Peek] that answered [id]. *)
Lemma delay_Dequeue {A} id (k : option Z → prog A) G :
  (∀ mid G' h, G ⊆ G' → dropS id h = none → delay_wp (k mid) (Some id) G' h) →
  delay_wp (Act (ADequeue DQ) k) (Some id) G none.
Proof.
  intros Hk. split; [exact I|]. intros env st G' f x st' _ HG (ab & Hc & HG') Hd.
  pose proof (core_dequeue st ab _ DQ Hc) as Hc'. cbn [do_act queue] in Hd, Hc'.
  destruct (Queue.Dequeue _ _ _) as [mid [q m]]. simplify_eq. destruct Hc' as [Hc' _].
  destruct (decide (x = Some id)) as [->|Hne].
  - exists (ghost_of ab), (holdS id). split_and!; [done| |apply Hk; [done|apply hand_eq; simpl; set_solver]].
    exists ab. split; [|done]. eapply core_weaken; [exact Hc'|simpl; set_solver +..|done|done].
  - exists (ghost_of ab), none. split_and!; [done| |apply Hk; [done|apply hand_eq; simpl; set_solver]].
    exists ab. split; [|done]. destruct x as [y|]; simpl; [rewrite decide_False by congruence|];
      (eapply core_weaken; [exact Hc'|simpl; set_solver +..|done|done]).
Qed.

Lemma delay_look_ok G : delay_wp Scheduler.delayLook None G none.
Proof.
  unfold Scheduler.delayLook. cbn [mbind prog_mbind prog_bind call mret prog_ret].
  apply delay_Peek. intros [id|] G1 HG1 Hid; [|done].
  apply delay_Get; [auto|]. intros j G2 HG2 _. apply delay_Now. intros t G3 HG3.
  by destruct (_ <=? _).
Qed.

Lemma delay_promote_ok G : delay_wp Scheduler.delayPromote None G none.
Proof.
  unfold Scheduler.delayPromote, Scheduler.delayedTurn.
  cbn [mbind prog_mbind prog_bind call mret prog_ret].
  apply delay_Peek. intros [id|] G1 HG1 Hid; [|done]. cbn [prog_bind].
  apply delay_Get; [auto|]. intros j G2 HG2 (HGj & <- & Hgood & _). cbn [prog_bind].
  apply delay_Now. intros t G3 HG3. destruct (_ <? _); [done|]. cbn [prog_bind].
  apply delay_Dequeue. intros mid G4 h HG4 Hh. apply delay_of_wp.
  refine (wp_bind (e ← call (AUpdate (with_status j Pending));
      match e with
      | Some _ => mret Scheduler.Continue
      | None => _ ← Scheduler.enqueueJob (ID j) PQ; mret Scheduler.Continue
      end) _ G4 h ends_idle _).
  apply wp_promote; [|done|done|done]. do 2 (eapply lookup_weaken; [|done]). done.
Qed.

(** *** Goroutines start with their obligation met *)

Lemma fire_ok {A} (p : prog A) G :
  (∀ Φ : A → ghost → hand → Prop, (∀ x G', G ⊆ G' → Φ x G' none) → wp p G none Φ) →
  wp (fire p) G none ends_idle.
Proof. intros Hp. apply wp_bind, Hp. done. Qed.

Lemma spawn_ok st g st' G h :
  spawn st g st' → inv st G h → go_ok G g none ∧ inv st' G h.
Proof.
  intros Hsp Hi. destruct Hsp; unfold go_ok; cbn [origin_of body].
  - split; [|done]. apply fire_ok. intros Φ. apply wp_SubmitJob.
  - split; [|done]. apply fire_ok. intros Φ. apply wp_SubmitJobAt.
  - split; [|done]. apply fire_ok. intros Φ. apply wp_SubmitJobIdempotent.
  - split; [|done]. apply fire_ok. intros Φ. apply wp_CancelJob.
  - split; [|done]. apply fire_ok. intros Φ. apply wp_AddCronJob.
  - split; [|done]. by apply wp_RemoveCronJob.
  - split; [|done]. by apply wp_cronTurn.
  - unfold try_recv in *. destruct (results st) as [[|r' rs] k] eqn:Er; simplify_eq/=. destruct Hi as (a & Hc & HG).
    split.
    + apply wp_handleResult; [|done]. apply (c_results _ _ _ Hc). rewrite Er. by left.
    + exists a. split; [|done]. eapply core_same; [|done]. unfold same_core. simpl.
      split_and!; try done. rewrite Er. intros q Hq. left. by right.
  - destruct Hi as (a & Hc & HG). split; [by apply wp_recoverWorker|].
    exists a. split; [|done]. eapply core_same; [|done]. unfold same_core. simpl. split_and!; auto.
  - split; [|done]. destruct Hi as (a & Hc & <-). destruct (c_sent _ _ _ Hc w j) as [Hg Ha]; [done|].
    apply wp_Execute; [by rewrite ghost_of_lookup|done|done].
  - split; [|done]. apply fire_ok. intros Φ. apply wp_ReportResult.
  - split; [|done]. apply fire_ok. intros Φ. apply wp_RegisterWorker.
  - split; [|done]. apply fire_ok. intros Φ. apply wp_Heartbeat.
  - split; [|done]. apply wp_neutral; [solve_neutral|done].
  - split; [|done]. apply wp_neutral; [solve_neutral|done].
  - split; [|done]. apply wp_neutral; [solve_neutral|done].
  - split; [|done]. destruct (Server.streams r) eqn:Hr; [by apply wp_stream|].
    apply fire_ok. intros Φ. by apply settles_serve.
  - split; [|done]. by apply wp_failoverSequence.
Qed.

(** *** Recovery *)

(** What a running node keeps true of the contents of its store. *)
Definition sound (a : Store.Abs) : Prop :=
  (∀ id j, Store.jobs a !! id = Some j →
     good_job j ∧ known_status (JStatus j) = true ∧ id ≤ maxInt64) ∧
  (∀ key id, Store.idem a !! key = Some id ↔
     key ≠ "" ∧ ∃ j, Store.jobs a !! id = Some j ∧ IdempotencyKey j = key).

Lemma core_sound st a h : core st a h → sound a.
Proof.
  intros Hc. split; [|apply Hc]. intros id j Hj. destruct (c_good _ _ _ Hc id j Hj).
  split_and!; [done..|]. pose proof (c_next _ _ _ Hc id (ltac:(eauto))).
  pose proof (c_next_range _ _ _ Hc) as [_ ?]. lia.
Qed.

Lemma maxID_from js m :
  let r := foldl (λ m j, if m <? ID j then ID j else m) m js in
  m ≤ r ∧ (∀ j, j ∈ js → ID j ≤ r) ∧ (r = m ∨ ∃ j, j ∈ js ∧ ID j = r).
Proof.
  revert m. induction js as [|j js IH]; intros m; simpl.
  { split_and!; [lia|set_solver|by left]. }
  specialize (IH (if m <? ID j then ID j else m)). simpl in IH. destruct IH as (H1' & H2' & H3').
  set (r := foldl _ _ _) in *. destruct (Z.ltb_spec m (ID j)).
  - split_and!; [lia| |].
    + intros i [->|?]%elem_of_cons; [lia|auto].
    + right. destruct H3' as [->|(i & ? & ?)]; [exists j; set_solver|exists i; set_solver].
  - split_and!; [lia| |].
    + intros i [->|?]%elem_of_cons; [lia|auto].
    + destruct H3' as [->|(i & ? & ?)]; [by left|right; exists i; set_solver].
Qed.

(** Every id of the store in hand, queues still empty. *)
Lemma core_boot cfg s now a n :
  Store.rel s a → sound a → in_int64 n → (∀ id, is_Some (Store.jobs a !! id) → id ≤ n) →
  core (set_nextJobID (Engine.New cfg s false now) n) a
    (Hand (dom (Store.jobs a)) (dom (Store.jobs a)) [] []).
Proof.
  intros Hr [Hg Hi] Hn Hle.
  assert (Hdom : ∀ id j, Store.jobs a !! id = Some j → id ∈ dom (Store.jobs a)).
  { intros id j Hj. apply elem_of_dom. eauto. }
  split; simpl; try done.
  - intros id j Hj. by destruct (Hg id j Hj) as (? & ? & _).
  - eauto.
  - eauto.
  - intros [] id; simpl; by intros ?%elem_of_nil.
  - unfold Queue.in_order. apply Heap.Init_ordered, _.
  - constructor.
  - by intros id ?%elem_of_nil.
  - by intros key ?%elem_of_nil.
  - by intros r ?%elem_of_nil.
  - by intros w j ?%elem_of_nil.
Qed.

(** Queueing a list of stored jobs. *)
Lemma enqueue_all env js w st a h :
  core st a h → (∀ j, j ∈ js → is_Some (Store.jobs a !! ID j)) →
  ∃ st', run env (for_each js (λ j, Scheduler.enqueueJob (ID j) w)) st = (Returned tt, st') ∧
    core st' a h ∧ store st' = store st ∧
    Queue.items (queue st' w) ≡ₚ (ID <$> js) ++ Queue.items (queue st w) ∧
    (∀ w', w' ≠ w → queue st' w' = queue st w').
Proof.
  revert st. induction js as [|j js IH]; intros st Hc Hjs.
  { exists st. auto. }
  cbn [for_each]. rewrite run_bind. unfold Scheduler.enqueueJob at 1.
  rewrite run_act. cbn [do_act]. rewrite run_Enqueue.
  pose proof (core_enqueue st a h w (ID j) Hc (Hjs j ltac:(by left))) as Hc1.
  pose proof (Queue.Enqueue_items (comparator st w) (queue st w) (metrics st) (ID j)) as Hperm.
  destruct (Queue.Enqueue _ _ _ _) as [q m]. cbn [fst snd] in *.
  destruct (IH (set_queue st w q m) Hc1) as (st' & Hrun & Hc' & Hst & Hq & Hother).
  { intros i Hi. apply Hjs. by right. }
  exists st'. split_and!; [done|done| | |].
  - rewrite Hst. by destruct w.
  - rewrite Hq. rewrite queue_set, Hperm. simpl. by rewrite Permutation_middle.
  - intros w' Hne. rewrite Hother by done. by destruct w, w'.
Qed.
Lemma byStatus_list s a x :
  Store.rel s a → known_status x = true →
  ∃ l, Store.ListByStatus s x = (l, None) ∧ l ≡ₚ Store.abs_byStatus a x.
Proof.
  intros Hr Hx. pose proof (Store.ListByStatus_total s a x Hr) as Ht.
  destruct (Store.ListByStatus s x) as [l e] eqn:El. simpl in Ht. subst e.
  exists l. split; [done|]. by eapply Store.ListByStatus_spec.
Qed.

Lemma byStatus_ID s a x j :
  Store.rel s a → j ∈ Store.abs_byStatus a x ↔ Store.jobs a !! ID j = Some j ∧ JStatus j = x.
Proof.
  intros Hr. rewrite Store.elem_of_abs_byStatus. split; [|eauto].
  intros (id & Hj & Hx). by rewrite (proj1 (Store.rel_wf _ _ Hr) _ _ Hj).
Qed.

Lemma byStatus_NoDup s a x : Store.rel s a → NoDup (ID <$> Store.abs_byStatus a x).
Proof.
  intros Hr. unfold Store.abs_byStatus. rewrite <-list_fmap_compose.
  rewrite (list_fmap_ext _ fst).
  - apply (sublist_NoDup _ (map_to_list (Store.jobs a)).*1); [apply NoDup_fst_map_to_list|].
    apply fmap_sublist, sublist_filter.
  - intros i [id j] Hi%list_elem_of_lookup_2%list_elem_of_filter. destruct Hi as [_ Hi].
    apply elem_of_map_to_list in Hi. simpl. by apply (proj1 (Store.rel_wf _ _ Hr)).
Qed.

Lemma byStatus_ids s a x id :
  Store.rel s a →
  id ∈ (ID <$> Store.abs_byStatus a x) ↔ ∃ j, Store.Get s id = Some j ∧ JStatus j = x.
Proof.
  intros Hr. rewrite list_elem_of_fmap, (Store.Get_spec _ _ _ Hr). split.
  - intros (j & -> & Hj). apply (byStatus_ID _ _ _ _ Hr) in Hj. eauto.
  - intros (j & Hj & Hx). exists j. rewrite (byStatus_ID _ _ _ _ Hr).
    by rewrite (proj1 (Store.rel_wf _ _ Hr) _ _ Hj).
Qed.

(** Rebuilding the queues in a state whose hand covers the whole store. *)
Lemma rebuild_core env st a h :
  core st a h → res h = [] → lks h = [] →
  ∃ st', run env Scheduler.RebuildQueuesFromStore st = (Returned None, st') ∧ core st' a none ∧
    store st' = store st ∧
    Queue.items (pq st') ≡ₚ (ID <$> Store.abs_byStatus a Pending) ++ Queue.items (pq st) ∧
    Queue.items (dq st') ≡ₚ (ID <$> Store.abs_byStatus a Scheduled) ++ Queue.items (dq st).
Proof.
  intros Hc HR HL. pose proof (c_rel _ _ _ Hc) as Hr.
  destruct (byStatus_list (store st) a Pending Hr eq_refl) as (lp & Elp & Hlp).
  destruct (byStatus_list (store st) a Scheduled Hr eq_refl) as (ls & Els & Hls).
  assert (Hstored : ∀ x l, l ≡ₚ Store.abs_byStatus a x →
    ∀ j, j ∈ l → is_Some (Store.jobs a !! ID j)).
  { intros x l Hl j. rewrite Hl, (byStatus_ID _ _ _ _ Hr). intros [? _]. eauto. }
  unfold Scheduler.RebuildQueuesFromStore. rewrite run_act. cbn [do_act]. rewrite Elp, run_bind.
  destruct (enqueue_all env lp PQ st a h Hc (Hstored _ _ Hlp)) as (st1 & -> & Hc1 & Es1 & Hq1 & Ho1).
  rewrite run_act. cbn [do_act]. rewrite Es1, Els, run_bind.
  destruct (enqueue_all env ls DQ st1 a h Hc1 (Hstored _ _ Hls)) as (st2 & -> & Hc2 & Es2 & Hq2 & Ho2).
  rewrite run_act. cbn [do_act]. eexists. split; [reflexivity|].
  specialize (Ho1 DQ ltac:(done)). specialize (Ho2 PQ ltac:(done)). simpl in *.
  assert (Hpq : Queue.items (pq st2) ≡ₚ
    (ID <$> Store.abs_byStatus a Pending) ++ Queue.items (pq st)) by by rewrite Ho2, Hq1, Hlp.
  assert (Hdq : Queue.items (dq st2) ≡ₚ
    (ID <$> Store.abs_byStatus a Scheduled) ++ Queue.items (dq st)) by by rewrite Hq2, Hls, Ho1.
  split_and!; [|simpl; congruence|done..]. eapply core_same; [by unfold same_core; simpl; split_and!; auto|].
  eapply core_hand; [exact Hc2| | |by rewrite HR|by rewrite HL].
  - intros id _. destruct (Store.jobs a !! id) as [j|] eqn:Hj; [|by right; right; right].
    destruct (decide (JStatus j = Pending)) as [Hp|]; [|right; right; right; congruence].
    right. left. simpl. rewrite Hpq, elem_of_app. left. apply list_elem_of_fmap. exists j.
    rewrite (byStatus_ID _ _ _ _ Hr). pose proof (core_ID _ _ _ _ _ Hc Hj) as <-. by split_and!.
  - intros id _. destruct (Store.jobs a !! id) as [j|] eqn:Hj; [|by right; right].
    destruct (decide (JStatus j = Scheduled)) as [Hp|]; [|right; right; congruence].
    right. left. simpl. rewrite Hdq, elem_of_app. left. apply list_elem_of_fmap. exists j.
    rewrite (byStatus_ID _ _ _ _ Hr). pose proof (core_ID _ _ _ _ _ Hc Hj) as <-. by split_and!.
Qed.

(** [Restore] brings any sound contents back under the invariant. *)
Lemma restore_core env cfg s now a :
  Store.rel s a → sound a →
  ∃ st', run env Engine.Restore (Engine.New cfg s false now) = (Returned None, st') ∧
    core st' a none ∧ store st' = s ∧
    Queue.items (pq st') ≡ₚ ID <$> Store.abs_byStatus a Pending ∧
    Queue.items (dq st') ≡ₚ ID <$> Store.abs_byStatus a Scheduled.
Proof.
  intros Hr Hs. unfold Engine.Restore. rewrite run_act. cbn [do_act].
  set (js := Store.List _). rewrite run_act. cbn [do_act].
  pose proof (maxID_from js 0) as (H0' & Hmax & Hwit). fold (Engine.maxID js) in *.
  assert (Hjs : ∀ id j, Store.jobs a !! id = Some j → j ∈ js ∧ ID j = id).
  { intros id j Hj. split; [|by apply (proj1 (Store.rel_wf _ _ Hr))]. unfold js. simpl.
    rewrite (Store.List_spec _ _ Hr), list_elem_of_fmap. exists (id, j).
    by rewrite elem_of_map_to_list. }
  assert (Hn : in_int64 (Engine.maxID js)).
  { unfold in_int64. split; [unfold minInt64; lia|].
    destruct Hwit as [->|(j & Hj & <-)]; [done|]. unfold js in Hj. simpl in Hj.
    rewrite (Store.List_spec _ _ Hr), list_elem_of_fmap in Hj.
    destruct Hj as ([id i] & -> & Hi). apply elem_of_map_to_list in Hi. simpl.
    destruct Hs as [Hg _]. destruct (Hg id i Hi) as (_ & _ & ?).
    by rewrite (proj1 (Store.rel_wf _ _ Hr) _ _ Hi). }
  destruct (rebuild_core env _ a _ (core_boot cfg s now a (Engine.maxID js) Hr Hs Hn
    ltac:(intros id [j Hj]; destruct (Hjs id j Hj) as [? <-]; by apply Hmax)) eq_refl eq_refl)
    as (st' & Hrun & Hc & Hst & Hp & Hd).
  exists st'. split_and!; [done|done|done| |].
  - rewrite Hp. simpl. by rewrite app_nil_r.
  - rewrite Hd. simpl. by rewrite app_nil_r.
Qed.

(** The start of the process: [Restore] and [Start] both rebuild the queues. *)
Lemma start_core env cfg s now a :
  Store.rel s a → sound a →
  ∃ st', started env cfg s now st' ∧ core st' a none ∧ store st' = s ∧
    Queue.items (pq st') ≡ₚ (ID <$> Store.abs_byStatus a Pending) ++ (ID <$> Store.abs_byStatus a Pending) ∧
    Queue.items (dq st') ≡ₚ (ID <$> Store.abs_byStatus a Scheduled) ++ (ID <$> Store.abs_byStatus a Scheduled).
Proof.
  intros Hr Hs. destruct (restore_core env cfg s now a Hr Hs) as (st1 & Hrun1 & Hc1 & Es1 & Hp1 & Hd1).
  destruct (rebuild_core env st1 a none Hc1 eq_refl eq_refl) as (st2 & Hrun2 & Hc2 & Es2 & Hp2 & Hd2).
  exists st2. rewrite Hp2, Hd2, Hp1, Hd1. split_and!; [|done|congruence|done..].
  unfold started, Server.startUp. rewrite run_bind, Hrun1. unfold Engine.Start. rewrite run_bind, run_act.
  cbn [do_act]. rewrite (c_raft _ _ _ Hc1), run_bind. by rewrite Hrun2.
Qed.
(** *** Every step keeps the invariant *)

Lemma inv_same st st' G h : same_core st st' → inv st G h → inv st' G h.
Proof. intros Hs (a & Hc & HG). exists a. split; [by eapply core_same|done]. Qed.

Lemma inv_wake st w q G h :
  Queue.Wait (queue st w) = Some q → inv st G h → inv (set_queue st w q (metrics st)) G h.
Proof.
  unfold Queue.Wait. destruct (Queue.notify _); [|done]. intros [= <-]. apply inv_same.
  unfold same_core. destruct w; simpl; split_and!; auto.
Qed.

(** One call of the goroutine whose hand comes first. *)
Lemma wp_call {A X} (a : act X) (k : X → prog A) env st G h f x st' Φ :
  wp (Act a k) G h Φ → env_ok env st → inv st G (h ⋅ f) → do_act env a st = Some (x, st') →
  ∃ G' h', G ⊆ G' ∧ inv st' G' (h' ⋅ f) ∧ wp (k x) G' h' Φ.
Proof. intros [_ Hwp] He Hi Hd. by apply (Hwp env st G f x st'). Qed.

Lemma go_call {X} o (a : act X) k env st G h f x st' :
  go_ok G (Go o (Act a k)) h → env_ok env st → inv st G (h ⋅ f) → do_act env a st = Some (x, st') →
  ∃ G' h', G ⊆ G' ∧ inv st' G' (h' ⋅ f) ∧ go_ok G' (Go o (k x)) h'.
Proof.
  unfold go_ok. cbn [origin_of body]. destruct o as [|r]; [by apply wp_call|].
  destruct (Server.streams r); [|by apply wp_call]. cbn [recovering]. by apply (wp_call a (λ x, recovering (k x))).
Qed.

(** A goroutine that ended or panicked has nothing in hand. *)
Lemma go_over G o p h : go_ok G (Go o p) h → p = Ret tt ∨ p = Panic → h = none.
Proof.
  unfold go_ok. cbn [origin_of body]. intros Hg Hp.
  destruct o as [|r]; [|destruct (Server.streams r)]; destruct Hp as [-> | ->]; done.
Qed.

Lemma drop_hand st G hs l1 l2 :
  inv st G (all_hands (hs ++ l1 ++ none :: l2)) → inv st G (all_hands (hs ++ l1 ++ l2)).
Proof.
  intros Hi. assert (Hp : hs ++ l1 ++ none :: l2 ≡ₚ none :: hs ++ l1 ++ l2) by solve_Permutation.
  apply (inv_perm _ _ _ _ Hp) in Hi. eapply inv_equiv; [exact Hi|simpl; set_solver +..|done|done].
Qed.

Lemma pool_exit st d q ts1 ts2 sw o p :
  p = Ret tt ∨ p = Panic → pool_ok (mkSys st d q (ts1 ++ Go o p :: ts2) sw) →
  pool_ok (mkSys st d q (ts1 ++ ts2) sw).
Proof.
  intros Hp (G & hd & hq & l & Hd & Hq & Hts & Hi). cbn [shared disp delay threads swept] in *.
  apply Forall2_app_inv_l in Hts as (l1 & l' & Ht1 & Ht2 & ->).
  apply Forall2_cons_inv_l in Ht2 as (h & l2 & Hg & Ht2 & ->).
  rewrite (go_over _ _ _ _ Hg Hp) in Hi.
  exists G, hd, hq, (l1 ++ l2). split_and!; [done|done|by apply Forall2_app|].
  by apply (drop_hand _ _ [hd; hq; lost sw]).
Qed.

Lemma pool_call env st d q ts1 ts2 sw o X (a : act X) k x st' :
  env_ok env st → do_act env a st = Some (x, st') →
  pool_ok (mkSys st d q (ts1 ++ Go o (Act a k) :: ts2) sw) →
  pool_ok (mkSys st' d q (ts1 ++ Go o (k x) :: ts2) sw).
Proof.
  intros He Ha (G & hd & hq & l & Hd & Hq & Hts & Hi). cbn [shared disp delay threads swept] in *.
  apply Forall2_app_inv_l in Hts as (l1 & l' & Ht1 & Ht2 & ->).
  apply Forall2_cons_inv_l in Ht2 as (h & l2 & Hg & Ht2 & ->).
  assert (Hp : ∀ h, hd :: hq :: lost sw :: l1 ++ h :: l2 ≡ₚ h :: hd :: hq :: lost sw :: l1 ++ l2)
    by (intros ?; solve_Permutation).
  apply (inv_perm _ _ _ _ (Hp h)) in Hi.
  destruct (go_call o a k env st G h _ x st' Hg He Hi Ha) as (G' & h' & HG & Hi' & Hg').
  exists G', hd, hq, (l1 ++ h' :: l2). split_and!; [by eapply disp_later|by eapply delay_later| |].
  - apply Forall2_app; [by eapply all_later|]. constructor; [done|by eapply all_later].
  - by apply (inv_perm _ _ _ _ (symmetry (Hp h'))).
Qed.

Lemma pool_delay env st d pk ts sw X (a : act X) k x st' :
  env_ok env st → do_act env a st = Some (x, st') →
  pool_ok (mkSys st d (Busy pk (Act a k)) ts sw) →
  pool_ok (mkSys st' d (Busy (noted a x pk) (k x)) ts (astray a x pk ∪ sw)).
Proof.
  intros He Ha (G & hd & hq & l & Hd & [_ Hq] & Hts & Hi). cbn [shared disp delay threads swept] in *.
  apply (inv_perm _ _ _ (hq :: hd :: lost sw :: l)) in Hi; [|by constructor].
  destruct (Hq env st G _ x st' He ltac:(done) Hi Ha) as (G' & h' & HG & Hi' & Hk).
  exists G', hd, h', l. split_and!; [by eapply disp_later|done|by eapply all_later|].
  apply (inv_perm _ _ (h' :: hd :: lost (astray a x pk ∪ sw) :: l)); [by constructor|].
  eapply inv_equiv; [exact Hi'|simpl; set_solver +..|done|done].
Qed.

Lemma pool_started env cfg st st' d q ts sw :
  started env cfg (store st) (clock st) st' → pool_ok (mkSys st d q ts sw) → pool_ok (resting st').
Proof.
  intros Hst (G & hd & hq & l & _ & _ & _ & a & Hc & _). cbn [shared] in *.
  destruct (start_core env cfg (store st) (clock st) a (c_rel _ _ _ Hc) (core_sound _ _ _ Hc))
    as (st2 & Hrun & Hc2 & _).
  unfold started in *. rewrite Hrun in Hst. simplify_eq.
  exists (ghost_of a), none, none, []. split_and!; [done|done|constructor|]. exists a. split; [|done].
  by eapply core_weaken.
Qed.

Lemma step_ok c c' : step c c' → pool_ok c → pool_ok c'.
Proof.
  destruct 1 as [st d q ts sw g st' Hsp|env st d q ts1 ts2 sw o X a k x st' He Ha|st d q ts1 ts2 sw o
    |st d q ts1 ts2 sw r|st q ts sw pq' Hq|st q ts sw|env st q ts sw X a k x st' He Ha|st q ts sw t
    |st d ts sw|env st d pk ts sw X a k x st' He Ha|st d pk ts sw n|st d mt ts sw dq' Hq
    |st d t ts sw Ht|st d q ts sw t Ht|env cfg st d q ts sw st' Hst].
  2: by apply (pool_call env).
  2: apply pool_exit; by left.
  2: apply pool_exit; by right.
  7: by apply (pool_delay env).
  11: by apply (pool_started env cfg).
  all: intros (G & hd & hq & l & Hd & Hdl & Hts & Hi);
    cbn [shared disp delay threads swept disp_ok delay_ok] in *.
  - destruct (spawn_ok _ _ _ _ _ Hsp Hi) as [Hp Hi'].
    exists G, hd, hq, (none :: l). split_and!; [done|done|by constructor|].
    eapply inv_equiv; [exact Hi'|simpl; set_solver +..|done|done].
  - exists G, hd, hq, l. split_and!; [done..|by apply (inv_wake _ PQ)].
  - exists G, hd, hq, l. subst hd. split_and!; [|done..]. by apply wp_dispatchTurn.
  - destruct (wp_call a k env st G hd _ x st' ends_idle Hd He Hi Ha) as (G' & h' & HG & Hi' & Hk).
    exists G', h', hq, l. split_and!; [done|by eapply delay_later|by eapply all_later|done].
  - change (hd = none) in Hd. subst hd. exists G, none, hq, l. split_and!; [|done..]. by destruct t.
  - exists G, hd, hq, l. subst hq. split_and!; [done|apply delay_look_ok|done..].
  - change (hq = none) in Hdl. subst hq. exists G, hd, none, l. split_and!; [done| |done..].
    destruct n; [done|apply delay_promote_ok|done].
  - exists G, hd, hq, l. split_and!; [done..|by apply (inv_wake _ DQ)].
  - exists G, hd, hq, l. subst hq. split_and!; [done|apply delay_promote_ok|done..].
  - exists G, hd, hq, l. split_and!; [done..|]. eapply inv_same; [|done].
    unfold same_core. simpl. split_and!; auto.
Qed.

Lemma empty_sound : sound Store.empty.
Proof.
  split; simpl.
  - intros id j. by rewrite lookup_empty.
  - intros key id. rewrite lookup_empty. split; [done|]. intros (_ & j & Hj & _).
    by rewrite lookup_empty in Hj.
Qed.

Lemma reachable_ok c : reachable c → pool_ok c.
Proof.
  induction 1 as [env cfg s now st Hr Hst|c c' _ IH Hs]; [|by eapply step_ok].
  destruct (start_core env cfg s now _ Hr empty_sound) as (st2 & Hrun & Hc & _).
  unfold started in *. rewrite Hrun in Hst. simplify_eq.
  exists (ghost_of Store.empty), none, none, []. split_and!; [done|done|constructor|].
  exists Store.empty. split; [|done]. by eapply core_weaken.
Qed.
(** ** What holds in every reachable configuration *)

Lemma reachable_core c : reachable c → ∃ a h, core (shared c) a h.
Proof. intros (G & hd & hq & l & _ & _ & _ & a & Hc & _)%reachable_ok. eauto. Qed.

(** The delay loop is between two turns. *)
Definition at_rest (q : delayer) : Prop := match q with Busy _ _ => False | _ => True end.

(** C1. No job is lost but by the race of the delay loop: in every reachable
    configuration of a standalone node in which no goroutine is inside a
    handler, a pending job of the store is in the priority queue or leased to a
    worker, and a scheduled job is in the delay queue, unless the delay loop
    took it out in place of the job it had peeked. *)
Theorem no_job_lost c id j :
  reachable c → threads c = [] → disp c = Waiting ∨ disp c = Ready → at_rest (delay c) →
  Store.Get (store (shared c)) id = Some j →
  (JStatus j = Pending →
     id ∈ Queue.items (pq (shared c)) ∨
     is_Some (Lease.Get (leases (shared c)) id)) ∧
  (JStatus j = Scheduled → id ∈ Queue.items (dq (shared c)) ∨ id ∈ swept c).
Proof.
  intros Hc Ht Hd Hq Hj. destruct (reachable_ok c Hc) as (G & hd & hq & l & Hdisp & Hdl & Hl & a & Hcore & _).
  rewrite Ht in Hl. apply Forall2_nil_inv_l in Hl as ->.
  assert (hd = none) as -> by (destruct Hd as [E|E]; rewrite E in Hdisp; done).
  assert (hq = none) as -> by (destruct (delay c); done).
  rewrite (core_Get _ _ _ _ Hcore) in Hj. split.
  - intros Hp. destruct (c_pend _ _ _ Hcore id j Hj Hp) as [?|[?|Hin]]; [by left|by right|].
    simpl in Hin. set_solver.
  - intros Hs. destruct (c_sched _ _ _ Hcore id j Hj Hs) as [?|Hin]; [by left|right].
    simpl in Hin. set_solver.
Qed.


(** C4. Dispatch follows priorities: in every reachable configuration the id
    the dispatch loop would take next belongs to a stored job whose priority
    is at least that of every queued job, although the store changes under the
    heap. *)
Theorem dequeue_highest c id q m :
  reachable c →
  Queue.Dequeue (comparator (shared c) PQ) (pq (shared c)) (metrics (shared c)) = (Some id, (q, m)) →
  is_Some (Store.Get (store (shared c)) id) ∧
  ∀ id', id' ∈ Queue.items q →
    Priority (Queue.lookup_job (store (shared c)) id') ≤
    Priority (Queue.lookup_job (store (shared c)) id).
Proof.
  intros Hc Hd. destruct (reachable_core c Hc) as (a & h & Hcore).
  pose proof (core_dequeue _ _ _ PQ Hcore) as Hdq. cbn [queue] in Hdq. rewrite Hd in Hdq.
  destruct Hdq as [_ Hst]. rewrite (core_Get _ _ _ _ Hcore). split; [by apply Hst|].
  eapply Queue.Dequeue_minimal; [apply Hcore|done].
Qed.

(** C5. A non-empty idempotency key names at most one job, however the
    submissions that carry it interleave. *)
Theorem idempotency_unique c id1 id2 j1 j2 :
  reachable c →
  Store.Get (store (shared c)) id1 = Some j1 → Store.Get (store (shared c)) id2 = Some j2 →
  IdempotencyKey j1 = IdempotencyKey j2 → IdempotencyKey j1 ≠ "" → id1 = id2.
Proof.
  intros Hc H1' H2' Hk Hne. destruct (reachable_core c Hc) as (a & h & Hcore).
  rewrite !(core_Get _ _ _ _ Hcore) in *.
  assert (Store.idem a !! IdempotencyKey j1 = Some id1) by (apply (c_idem _ _ _ Hcore); eauto).
  assert (Store.idem a !! IdempotencyKey j1 = Some id2) by (apply (c_idem _ _ _ Hcore); eauto).
  congruence.
Qed.

(** C3. Crash recovery: whatever goroutines were in flight, the process starts
    again over the store, which it leaves as it is; the priority queue then
    holds exactly the pending jobs and the delay queue exactly the scheduled
    ones, each of them twice, since both [Restore] and [Start] rebuild the
    queues; the next ids are above every stored one. *)
Theorem crash_recovery c env cfg now :
  reachable c →
  ∃ st' ps ss,
    run env Server.startUp (Engine.New cfg (store (shared c)) false now) = (Returned true, st') ∧
    store st' = store (shared c) ∧
    NoDup ps ∧ (∀ id, id ∈ ps ↔ ∃ j, Store.Get (store (shared c)) id = Some j ∧ JStatus j = Pending) ∧
    NoDup ss ∧ (∀ id, id ∈ ss ↔ ∃ j, Store.Get (store (shared c)) id = Some j ∧ JStatus j = Scheduled) ∧
    Queue.items (pq st') ≡ₚ ps ++ ps ∧ Queue.items (dq st') ≡ₚ ss ++ ss ∧
    (∀ id, is_Some (Store.Get (store (shared c)) id) → id ≤ nextJobID st').
Proof.
  intros Hc. destruct (reachable_core c Hc) as (a & h & Hcore). pose proof (c_rel _ _ _ Hcore) as Hr.
  destruct (start_core env cfg _ now a Hr (core_sound _ _ _ Hcore)) as (st' & Hrun & Hc' & Hst & Hp & Hd).
  exists st', (ID <$> Store.abs_byStatus a Pending), (ID <$> Store.abs_byStatus a Scheduled).
  split_and!; [done|done| | | | |done|done|].
  - by eapply byStatus_NoDup.
  - intros id. by eapply byStatus_ids.
  - by eapply byStatus_NoDup.
  - intros id. by eapply byStatus_ids.
  - intros id. rewrite (core_Get _ _ _ _ Hcore). apply Hc'.
Qed.
(** *** Building runs: a goroutine that runs alone *)

Fixpoint bounded (env : Env) {A} (p : prog A) st : Prop :=
  match p with
  | Act a k =>
      env_ok env st ∧
      match do_act env a st with Some (x, st') => bounded env (k x) st' | None => True end
  | _ => True
  end.

Lemma reachable_alone env o p st st' d q ts sw :
  reachable (mkSys st d q (Go o p :: ts) sw) → bounded env p st → run env p st = (Returned tt, st') →
  reachable (mkSys st' d q ts sw).
Proof.
  revert st. induction p as [[]| |X a k IH]; intros st Hc Hb Hrun; simpl in *; [|done|].
  - simplify_eq. eapply reach_next; [done|]. apply (step_exit _ _ _ []).
  - destruct Hb as [He Hb]. destruct (do_act env a st) as [[x st1]|] eqn:Ha; [|done].
    eapply (IH x); [|done..]. eapply reach_next; [done|]. by eapply (step_call _ _ _ _ []).
Qed.

Lemma reachable_run env p st d q ts sw :
  reachable (mkSys st d q ts sw) → spawn st (Go Background p) st → bounded env p st →
  (run env p st).1 = Returned tt → reachable (mkSys (run env p st).2 d q ts sw).
Proof.
  intros Hc Hsp Hb Hret. destruct (run env p st) as [o st2] eqn:Hrun. simpl in *. subst o.
  eapply reachable_alone; [|done..]. eapply reach_next; [done|by constructor].
Qed.

(** One step of the delay loop, where it has one to make by itself. *)
Definition delay_step (env : Env) (c : config) : config :=
  let '(mkSys st d q ts sw) := c in
  match q with
  | AtTop => mkSys st d (Busy None Scheduler.delayLook) ts sw
  | Busy pk (Ret n) => mkSys st d (goes_on (clock st) n) ts sw
  | Busy pk (Act a k) =>
      if decide (ctx_err env = false ∧ nextJobID st < maxInt64) then
        match do_act env a st with
        | Some (x, st') => mkSys st' d (Busy (noted a x pk) (k x)) ts (astray a x pk ∪ sw)
        | None => c
        end
      else c
  | _ => c
  end.

Fixpoint delay_steps (env : Env) (n : nat) (c : config) : config :=
  match n with
  | 0%nat => c
  | Datatypes.S n => delay_steps env n (delay_step env c)
  end.

Lemma reachable_delay env n c : reachable c → reachable (delay_steps env n c).
Proof.
  revert c. induction n as [|n IH]; intros [st d q ts sw] Hc; [done|]. apply IH. clear IH.
  destruct q as [|pk [x| |X a k]|t]; cbn [delay_step]; [..|done].
  - eapply reach_next; [done|constructor].
  - eapply reach_next; [done|constructor].
  - done.
  - case_decide as He; [|done]. destruct (do_act env a st) as [[x st']|] eqn:Ha; [|done].
    eapply reach_next; [done|]. by eapply step_delay.
Qed.
End Sys.

(** ** A run of a node with the in-memory store *)
#[local] Existing Instance canonical_range.

Definition quiet : Env :=
  mkEnv (λ _ _, None) (λ _, None) (λ _ _, None) false false 0 false (λ _, 0) (λ _, None) "1" "".

Definition boot : State MemoryStore.MemoryStore :=
  (run quiet Server.startUp
     (Engine.New (Config.Default (λ _, "")) MemoryStore.NewMemoryStore false 1000)).2.

Definition demo1 : State MemoryStore.MemoryStore :=
  (run quiet (fire (Engine.SubmitJobIdempotent "k1" "email" 5)) boot).2.
Definition demo2 : State MemoryStore.MemoryStore :=
  (run quiet (fire (Engine.SubmitJobWithContext "sms" 9)) demo1).2.
Definition demo3 : State MemoryStore.MemoryStore :=
  (run quiet (fire (Engine.SubmitJobAtWithContext "report" 1 5000)) demo2).2.

Definition node : config := resting demo3.

Lemma demo_reachable : reachable node.
Proof.
  apply (reachable_run quiet _ demo2); [|constructor|vm_compute; repeat split|by vm_compute].
  apply (reachable_run quiet _ demo1); [|constructor|vm_compute; repeat split|by vm_compute].
  apply (reachable_run quiet _ boot); [|constructor|vm_compute; repeat split|by vm_compute].
  eapply (reach_start quiet (Config.Default (λ _, "")) MemoryStore.NewMemoryStore 1000);
    [split; [apply MemoryStore.inv_new|done]|]. unfold started. by vm_compute.
Qed.

Lemma demo_rel : Store.rel (store demo3) (MemoryStore.abs (store demo3)).
Proof.
  destruct (reachable_core _ demo_reachable) as (a & h & Hcore).
  destruct (c_rel _ _ _ Hcore) as [Hi _]. by split.
Qed.

Lemma demo_sound : sound (MemoryStore.abs (store demo3)).
Proof.
  destruct (reachable_core _ demo_reachable) as (a & h & Hcore).
  destruct (c_rel _ _ _ Hcore) as [_ ->]. exact (core_sound _ _ _ Hcore).
Qed.

(** The configuration above has a pending job in the priority queue and a
    scheduled one in the delay queue. *)
Lemma no_job_lost_witness :
  (3 ∈ Queue.items (dq demo3) ∨ 3 ∈ swept node) ∧
  (1 ∈ Queue.items (pq demo3) ∨ is_Some (Lease.Get (leases demo3) 1)).
Proof.
  split.
  - refine (proj2 (no_job_lost node 3 _ demo_reachable eq_refl (or_introl eq_refl) I _) _);
      [vm_compute; reflexivity|vm_compute; reflexivity].
  - refine (proj1 (no_job_lost node 1 _ demo_reachable eq_refl (or_introl eq_refl) I _) _);
      [vm_compute; reflexivity|vm_compute; reflexivity].
Defined.

(** A request for the jobs and one for the event stream, neither of which has
    run yet. *)
Definition request (path : string) : Handlers.Request := Handlers.mkRequest "GET" path "" "" "" [].
Definition serving (path : string) : goroutine :=
  Go (Serving (request path))
    (fire (Server.serve (λ _, 0) false (λ _, Server.page) Server.page 301 (Config.Default (λ _, "")) 0 "id"
             (request path))).
Definition busy : config := mkSys demo3 Waiting AtTop [serving "/jobs"; serving "/events"] ∅.

Lemma busy_reachable : reachable busy.
Proof. do 2 (eapply reach_next; [|apply step_spawn, SpHttp]). exact demo_reachable. Qed.


Lemma dequeue_highest_witness :
  Priority (Queue.lookup_job (store demo3) 1) ≤ Priority (Queue.lookup_job (store demo3) 2).
Proof.
  refine (proj2 (dequeue_highest node 2 _ _ demo_reachable _) 1 _);
    [vm_compute; reflexivity|by left].
Defined.

Lemma idempotency_unique_witness :
  ∃ j, Store.Get (store demo3) 1 = Some j ∧ IdempotencyKey j = "k1" ∧
    ∀ id', Store.Get (store demo3) id' = Some j → 1 = id'.
Proof.
  eexists. split; [vm_compute; reflexivity|]. split; [reflexivity|]. intros id' Hid'.
  refine (idempotency_unique node 1 id' _ _ demo_reachable _ Hid' _ _);
    [vm_compute; reflexivity|reflexivity|by vm_compute].
Defined.

Lemma crash_recovery_witness :
  ∃ st', run quiet Server.startUp
           (Engine.New (Config.Default (λ _, "")) (store demo3) false 2000) = (Returned true, st') ∧
    1 ∈ Queue.items (pq st') ∧ 3 ∈ Queue.items (dq st').
Proof.
  destruct (crash_recovery node quiet (Config.Default (λ _, "")) 2000 demo_reachable)
    as (st' & ps & ss & Hrun & _ & _ & Hps & _ & Hss & Hp & Hd & _).
  exists st'. split; [exact Hrun|]. rewrite Hp, Hd, !elem_of_app, Hps, Hss.
  split; left; eexists; (split; [vm_compute; reflexivity|reflexivity]).
Defined.

(** ** The race of the delay loop *)

(** The clock has passed the time of job 3, the delay loop has looked and is
    about to take the job out of the delay queue ... *)
Definition due_node : config := delay_steps quiet 8 (resting (set_clock demo3 6000)).

(** ... when a submission for an earlier instant is queued. *)
Definition overtaken : config :=
  mkSys (run quiet (fire (Engine.SubmitJobAtWithContext "late" 1 4000)) (shared due_node)).2
    (disp due_node) (delay due_node) (threads due_node) (swept due_node).

Definition race_end : config := delay_steps quiet 40 overtaken.

Lemma race_reachable : reachable race_end.
Proof.
  apply reachable_delay. unfold overtaken.
  apply reachable_run; [|constructor|vm_compute; repeat split|by vm_compute].
  assert (R : reachable due_node).
  { apply reachable_delay. eapply reach_next; [exact demo_reachable|]. apply step_clock. by vm_compute. }
  revert R. generalize due_node. by intros [].
Qed.

(** [Peek] and [Dequeue] of the delay loop are two critical sections: an entry
    that overtakes the head in between is taken out in its place, and its job
    stays scheduled in the store while no queue holds it. *)
Theorem delay_race_drops_job :
  reachable race_end ∧ threads race_end = [] ∧ delay race_end = Asleep None ∧
  JStatus <$> Store.Get (store (shared race_end)) 4 = Some Scheduled ∧
  Queue.items (dq (shared race_end)) = [] ∧ 4 ∉ Queue.items (pq (shared race_end)) ∧
  Lease.Get (leases (shared race_end)) 4 = None ∧ swept race_end = {[4]}.
Proof.
  split; [exact race_reachable|]. split; [by vm_compute|]. split; [by vm_compute|].
  split; [by vm_compute|]. split; [by vm_compute|]. split; [by vm_compute; set_solver|].
  split; [by vm_compute|]. by vm_compute.
Qed.
End System.
