(* ===== verification/Wakeup.v ===== *)
(** * Notifications

    A goroutine that queues a job releases the mutex of the queue before it
    sends the notification.  Whatever it is that the others do in between, a
    loop that waits on a queue with jobs in it finds the notification, or a
    goroutine is about to send it. *)

From S2P Require Import Prelude Job Lease Dlq Store Heap Metrics Queue Broker Events.
From S2P Require Import Config Consensus Cron Manager Machine Scheduler Runner Rpc Engine Server.
From S2P Require Import Invariant HandlerProofs System.
Import Machine Invariant HandlerProofs System.
Local Open Scope Z_scope.

Module Wakeup.

Section Facts.
Context `{GoRange} {T : Type} `{Store.StoreOps T}.
Implicit Types st : State T.

(** Jobs in queue [w] come with a notification. *)
Definition queue_ready (w : which) st : Prop :=
  Queue.items (queue st w) = [] ∨ Queue.notify (queue st w) = true.

Lemma ready_same w st st' : pq st' = pq st → dq st' = dq st → queue_ready w st → queue_ready w st'.
Proof. unfold queue_ready. intros E1 E2. destruct w; simpl; [by rewrite E1|by rewrite E2]. Qed.

Lemma propose_queues env st c e st' : propose env st c = (e, st') → pq st' = pq st ∧ dq st' = dq st.
Proof. unfold propose. intros Hp. repeat case_match; by simplify_eq. Qed.

(** Dequeueing leaves the notification where it is. *)
Lemma ready_dequeue w w' cmp st :
  queue_ready w st →
  queue_ready w (set_queue st w' (Queue.Dequeue cmp (queue st w') (metrics st)).2.1
                                 (Queue.Dequeue cmp (queue st w') (metrics st)).2.2).
Proof.
  unfold queue_ready. intros Hr. destruct (decide (w = w')) as [->|Hne]; [|by destruct w, w'].
  rewrite queue_set. destruct (Queue.items (queue st w')) as [|x l] eqn:E.
  - rewrite Queue.Dequeue_empty by done. by left.
  - destruct (Queue.Dequeue_cons cmp (queue st w') (metrics st) x l E) as (r & -> & _).
    destruct Hr; [done|by right].
Qed.

(** One call of a program: a push leaves it about to notify. *)
Lemma ready_call {A X} env w (a : act X) (k : X → prog A) st x st' :
  do_act env a st = Some (x, st') → follow a k → queue_ready w st ∨ notifying w (Act a k) →
  queue_ready w st' ∨ notifying w (k x).
Proof.
  intros Hd Hf Hr. revert k Hf Hr. destruct a; intros k Hf Hr; cbn [do_act] in Hd; unfold with_manager in Hd;
    try (left; destruct Hr as [Hr|[[]|[]]]; repeat case_match; simplify_eq; by eapply ready_same).
  - simplify_eq. destruct Hr as [Hr|[[]|[]]]. destruct (decide (w = q)) as [->|Hne].
    + right. right. simpl in Hf. by destruct (k tt).
    + left. by destruct w, q.
  - simplify_eq. destruct Hr as [Hr|[[]|Hs]]; [left; by eapply ready_same|]. right. by left.
  - simplify_eq. left. destruct (decide (w = q)) as [->|Hne].
    + right. by rewrite queue_set.
    + destruct Hr as [Hr|[Hs|[]]]; [by destruct w, q|]. simpl in Hs. congruence.
  - left. destruct Hr as [Hr|[[]|[]]]. pose proof (ready_dequeue w q (comparator st q) st Hr) as Hq.
    destruct (Queue.Dequeue _ _ _) as [mid [q' m']]. by simplify_eq.
  - left. destruct Hr as [Hr|[[]|[]]]. destruct (propose env st c) as [e st2] eqn:Hp. simplify_eq.
    apply propose_queues in Hp as [? ?]. by eapply ready_same.
Qed.

(** ** Programs that run alone *)

Fixpoint polite {A} (p : prog A) : Prop :=
  match p with
  | Act a k => follow a k ∧ ∀ x, polite (k x)
  | _ => True
  end.

Lemma polite_bind {A B} (p : prog A) (f : A → prog B) :
  polite p → (∀ x, polite (f x)) → polite (p ≫= f).
Proof.
  intros Hp Hf. change (p ≫= f) with (prog_bind f p).
  induction p as [x| |X a k IH]; simpl in *; [apply Hf|done|]. destruct Hp as [Ha Hk].
  split; [by apply follow_bind|]. intros x. by apply IH.
Qed.

Lemma polite_for_each {A} (l : list A) (f : A → prog unit) : (∀ x, polite (f x)) → polite (for_each l f).
Proof. intros Hf. induction l as [|x l IH]; [done|]. by apply polite_bind. Qed.

Lemma polite_call {X} (a : act X) : pushes a = false → polite (call a).
Proof. intros Ha. split; [by apply follow_calm|done]. Qed.

Lemma polite_run {A} env w (p : prog A) st x st' :
  polite p → queue_ready w st ∨ notifying w p → run env p st = (Returned x, st') → queue_ready w st'.
Proof.
  revert st. induction p as [y| |X a k IH]; intros st Hp Hr Hrun; cbn [run] in Hrun; [|done|].
  - simplify_eq. by destruct Hr as [?|[[]|[]]].
  - destruct Hp as [Hf Hk]. destruct (do_act env a st) as [[y st1]|] eqn:Hd; [|done].
    eapply IH; [apply Hk| |exact Hrun]. by eapply ready_call.
Qed.

Lemma polite_rebuild : polite Scheduler.RebuildQueuesFromStore.
Proof.
  assert (Hq : ∀ w (j : Job), polite (Scheduler.enqueueJob (ID j) w)) by (by intros w j).
  unfold Scheduler.RebuildQueuesFromStore. apply polite_bind; [by apply polite_call|]. intros [js [e|]]; [done|].
  apply polite_bind; [by apply polite_for_each|]. intros _.
  apply polite_bind; [by apply polite_call|]. intros [js' [e|]]; [done|].
  apply polite_bind; [by apply polite_for_each|]. done.
Qed.

Lemma polite_startUp : polite Server.startUp.
Proof.
  unfold Server.startUp, Engine.Restore, Engine.Start.
  apply polite_bind; [do 2 (apply polite_bind; [by apply polite_call|intros ?]); apply polite_rebuild|].
  intros [e|]; [done|]. apply polite_bind; [|done]. apply polite_bind; [by apply polite_call|].
  intros []; [done|]. apply polite_bind; [apply polite_rebuild|done].
Qed.
End Facts.

(** ** Along the runs of the node *)
Section Runs.
Context `{GoRange} {T : Type} `{Store.ReliableStore T}.
Implicit Types c : config (T := T).

(** Some goroutine is between its push on queue [w] and its notification. *)
Definition on_the_way (w : which) c : Prop :=
  (∃ g, g ∈ threads c ∧ notifying w (body g)) ∨
  match disp c with Draining p => notifying w p | _ => False end ∨
  match delay c with Busy _ p => notifying w p | _ => False end.

Definition ready (w : which) c : Prop := queue_ready w (shared c) ∨ on_the_way w c.

(** A program that never ends with [bad]. *)
Fixpoint never {A} (bad : A) (p : prog A) : Prop :=
  match p with
  | Ret t => t ≠ bad
  | Panic => True
  | Act a k => ∀ x, never bad (k x)
  end.

(** A program that ends with [bad] only right after finding queue [w] empty. *)
Definition looks_at {A X} (w : which) (bad : A) (a : act X) : (X → prog A) → Prop :=
  match a in act X return (X → prog A) → Prop with
  | ADequeue w' | APeek w' => λ k,
      (∀ id, never bad (k (Some id))) ∧ (w' = w ∧ k None = Ret bad ∨ never bad (k None))
  | _ => λ k, ∀ x, never bad (k x)
  end.

Definition only_if_empty {A} (w : which) (bad : A) (p : prog A) : Prop :=
  match p with
  | Ret t => t ≠ bad
  | Panic => True
  | Act a k => looks_at w bad a k
  end.

Lemma never_bind {A B} (bad : B) (p : prog A) (f : A → prog B) :
  (∀ x, never bad (f x)) → never bad (p ≫= f).
Proof.
  intros Hf. change (p ≫= f) with (prog_bind f p).
  induction p as [x| |X a k IH]; simpl; [apply Hf|done|apply IH].
Qed.

Lemma never_only {A} w (bad : A) p : never bad p → only_if_empty w bad p.
Proof. destruct p as [t| |X a k]; [done..|]. simpl. destruct a; simpl; auto. Qed.

Lemma dispatchTurn_empty : only_if_empty PQ Scheduler.Break Scheduler.dispatchTurn.
Proof.
  unfold Scheduler.dispatchTurn. cbn [mbind prog_mbind prog_bind call only_if_empty looks_at].
  split; [|by left]. intros id. cbn [never]. intros [j|]; [|done]. case_match; [done|].
  apply never_bind. intros [|]; [done|]. intros []; done.
Qed.

Lemma delayLook_empty : only_if_empty DQ (Scheduler.Sleep None) Scheduler.delayLook.
Proof.
  unfold Scheduler.delayLook. cbn [mbind prog_mbind prog_bind call only_if_empty looks_at].
  split; [|by left]. intros id. cbn [never]. intros [j|]; [|done]. intros t. by case_match.
Qed.

Lemma delayPromote_never : never (Scheduler.Sleep None) Scheduler.delayPromote.
Proof. apply never_bind. by intros []. Qed.

Lemma empty_step {A X} env w (bad : A) (a : act X) k (st : State T) x st' :
  looks_at w bad a k → do_act env a st = Some (x, st') →
  never bad (k x) ∨ k x = Ret bad ∧ queue_ready w st'.
Proof.
  revert k x. destruct a; intros k x Hk Hd; try (left; apply Hk); destruct Hk as [Hs Hn];
    (destruct x as [id|]; [left; apply Hs|]); (destruct Hn as [[-> Hn]|?]; [right|by left]);
    (split; [done|left]); cbn [do_act] in Hd.
  - destruct (Queue.items (queue st w)) as [|y l] eqn:E.
    + rewrite Queue.Dequeue_empty in Hd by done. injection Hd as <-. by rewrite queue_set.
    + destruct (Queue.Dequeue_cons (comparator st w) (queue st w) (metrics st) y l E) as (r & Hr & _).
      by rewrite Hr in Hd.
  - injection Hd as Hd <-. unfold Queue.Peek in Hd. by destruct (Queue.items (queue st w)).
Qed.

(** What holds of the two loops. *)
Definition wake_ok c : Prop :=
  match disp c with
  | Waiting => ready PQ c
  | Draining p => only_if_empty PQ Scheduler.Break p ∨ p = Ret Scheduler.Break ∧ ready PQ c
  | _ => True
  end ∧
  match delay c with
  | Asleep None => ready DQ c
  | Busy _ p => only_if_empty DQ (Scheduler.Sleep None) p ∨ p = Ret (Scheduler.Sleep None) ∧ ready DQ c
  | _ => True
  end.

(** Steps after which both queues are as ready as before. *)
Lemma wake_mono c c' :
  disp c' = disp c → delay c' = delay c → (∀ w, ready w c → ready w c') → wake_ok c → wake_ok c'.
Proof.
  unfold wake_ok. intros -> -> Hr [Hd Hq]. split.
  - destruct (disp c); auto. destruct Hd as [?|[? ?]]; auto.
  - destruct (delay c) as [|pk p|[t|]]; auto. destruct Hq as [?|[? ?]]; auto.
Qed.

Lemma spawn_queues (st : State T) g st' : spawn st g st' → pq st' = pq st ∧ dq st' = dq st.
Proof. by destruct 1. Qed.

Lemma started_ready env cfg (s : T) now st w : started env cfg s now st → queue_ready w st.
Proof.
  intros Hst. unfold started in Hst. eapply polite_run; [apply polite_startUp| |exact Hst].
  left. left. by destruct w.
Qed.

(** A call of one goroutine. *)
Lemma ready_step {A X} env w c c' (a : act X) (k : X → prog A) x :
  do_act env a (shared c) = Some (x, shared c') → follow a k →
  (on_the_way w c → notifying w (Act a k) ∨ on_the_way w c') →
  (notifying w (k x) → on_the_way w c') → ready w c → ready w c'.
Proof.
  intros Hd Hf Hc Hk Hr. assert (Hor : (queue_ready w (shared c) ∨ notifying w (Act a k)) ∨ on_the_way w c').
  { destruct Hr as [Hr|Hr]; [by left; left|]. destruct (Hc Hr); [left; by right|by right]. }
  destruct Hor as [Hor|Hw]; [|by right].
  destruct (ready_call env w a k _ _ _ Hd Hf Hor); [by left|right; auto].
Qed.

(** What [pool_ok] knows about the next call of each goroutine. *)
Lemma follow_recovering {A X} (a : act X) (k : X → prog A) : follow a (λ x, recovering (k x)) → follow a k.
Proof.
  destruct a; try done. simpl. destruct (k tt) as [| |Y b k']; try done. simpl. destruct b; try done.
  simpl. by destruct (k' tt).
Qed.

Lemma go_follow {X} G o (a : act X) k h : go_ok (T := T) G (Go o (Act a k)) h → follow a k.
Proof.
  unfold go_ok. cbn [origin_of body]. destruct o as [|r]; [by intros [? _]|].
  destruct (Server.streams r); intros [Hf _]; [by apply follow_recovering|done].
Qed.

Lemma pool_follow st d q ts1 ts2 sw o X (a : act X) k :
  pool_ok (T := T) (mkSys st d q (ts1 ++ Go o (Act a k) :: ts2) sw) → follow a k.
Proof.
  intros (G & hd & hq & l & _ & _ & Hts & _). cbn [threads] in Hts.
  apply Forall2_app_inv_l in Hts as (l1 & l' & _ & Ht2 & _).
  apply Forall2_cons_inv_l in Ht2 as (h & l2 & Hg & _). by eapply go_follow.
Qed.

Lemma wake_call env st d q ts1 ts2 sw o X (a : act X) k x st' :
  do_act env a st = Some (x, st') → pool_ok (mkSys st d q (ts1 ++ Go o (Act a k) :: ts2) sw) →
  wake_ok (mkSys st d q (ts1 ++ Go o (Act a k) :: ts2) sw) →
  wake_ok (mkSys st' d q (ts1 ++ Go o (k x) :: ts2) sw).
Proof.
  intros Ha Hp. apply wake_mono; [done..|]. intros w.
  eapply ready_step; [exact Ha|by eapply pool_follow| |]; unfold on_the_way; cbn [threads disp delay].
  - intros [(g & Hg & Hn)|?]; [|by right; right].
    apply elem_of_app in Hg as [Hg|[->|Hg]%elem_of_cons]; [right; left|by left|right; left];
      exists g; set_solver.
  - intros Hn. left. exists (Go o (k x)). set_solver.
Qed.

Lemma wake_exit (st : State T) d q ts1 ts2 sw o p :
  p = Ret tt ∨ p = Panic → wake_ok (mkSys st d q (ts1 ++ Go o p :: ts2) sw) →
  wake_ok (mkSys st d q (ts1 ++ ts2) sw).
Proof.
  intros Hp. apply wake_mono; [done..|]. intros w [?|[(g & Hg & Hn)|?]]; [by left| |by right; right].
  right. left. exists g. split; [|done]. cbn [threads] in *.
  apply elem_of_app in Hg as [Hg|[->|Hg]%elem_of_cons]; [set_solver| |set_solver].
  destruct Hp as [-> | ->]; by destruct Hn as [[]|[]].
Qed.

Lemma wake_dispatch env st q ts sw X (a : act X) k x st' :
  do_act env a st = Some (x, st') → pool_ok (mkSys st (Draining (Act a k)) q ts sw) →
  wake_ok (mkSys st (Draining (Act a k)) q ts sw) → wake_ok (mkSys st' (Draining (k x)) q ts sw).
Proof.
  intros Ha (G & hd & hq & l & [Hf _] & _) [Hd Hq].
  assert (Hr : ∀ w, ready w (mkSys st (Draining (Act a k)) q ts sw) → ready w (mkSys st' (Draining (k x)) q ts sw)).
  { intros w. eapply ready_step; [exact Ha|exact Hf| |]; unfold on_the_way; cbn [threads disp delay]; tauto. }
  cbn [disp delay] in *. split; cbn [disp delay shared].
  - destruct Hd as [Hd|[? _]]; [|done].
    destruct (empty_step _ _ _ _ _ _ _ _ Hd Ha) as [?|[? ?]]; [left; by apply never_only|right; split; [done|by left]].
  - destruct q as [|pk p|[t|]]; auto. destruct Hq as [?|[? ?]]; auto.
Qed.

Lemma wake_delay env st d pk ts sw X (a : act X) k x st' sw' pk' :
  do_act env a st = Some (x, st') → pool_ok (mkSys st d (Busy pk (Act a k)) ts sw) →
  wake_ok (mkSys st d (Busy pk (Act a k)) ts sw) → wake_ok (mkSys st' d (Busy pk' (k x)) ts sw').
Proof.
  intros Ha (G & hd & hq & l & _ & [Hf _] & _) [Hd Hq].
  assert (Hr : ∀ w, ready w (mkSys st d (Busy pk (Act a k)) ts sw) → ready w (mkSys st' d (Busy pk' (k x)) ts sw')).
  { intros w. eapply ready_step; [exact Ha|exact Hf| |]; unfold on_the_way; cbn [threads disp delay]; tauto. }
  cbn [disp delay] in *. split; cbn [disp delay shared].
  - destruct d; auto. destruct Hd as [?|[? ?]]; auto.
  - destruct Hq as [Hq|[? _]]; [|done].
    destruct (empty_step _ _ _ _ _ _ _ _ Hq Ha) as [?|[? ?]]; [left; by apply never_only|right; split; [done|by left]].
Qed.

(** Readiness where only the state of one loop changes. *)
Lemma ready_disp w st d d' q ts sw :
  ready w (mkSys (T := T) st d q ts sw) → match d with Draining p => ¬ notifying w p | _ => True end →
  ready w (mkSys st d' q ts sw).
Proof.
  intros [Hr|[Hr|[Hr|Hr]]] Hd; [by left|right; by left| |right; by right; right].
  cbn [disp] in Hr. destruct d; tauto.
Qed.

Lemma ready_delay w st d q q' ts sw :
  ready w (mkSys (T := T) st d q ts sw) → match q with Busy _ p => ¬ notifying w p | _ => True end →
  ready w (mkSys st d q' ts sw).
Proof.
  intros [Hr|[Hr|[Hr|Hr]]] Hq; [by left|right; by left|right; by right; left|].
  cbn [delay] in Hr. destruct q; tauto.
Qed.

Lemma not_notifying {A} w (x : A) : ¬ notifying w (Ret x).
Proof. by intros [[]|[]]. Qed.

Lemma wake_step c c' : pool_ok c → step c c' → wake_ok c → wake_ok c'.
Proof.
  intros Hpool Hstep. destruct Hstep as [st d q ts sw g st' Hsp|env st d q ts1 ts2 sw o X a k x st' He Ha
    |st d q ts1 ts2 sw o|st d q ts1 ts2 sw r|st q ts sw pq' Hw|st q ts sw|env st q ts sw X a k x st' He Ha
    |st q ts sw t|st d ts sw|env st d pk ts sw X a k x st' He Ha|st d pk ts sw n|st d mt ts sw dq' Hw
    |st d t ts sw Ht|st d q ts sw t Ht|env cfg st d q ts sw st' Hst].
  - apply wake_mono; [done..|]. apply spawn_queues in Hsp as [E1 E2].
    intros w [Hr|[(g' & Hg & Hn)|Hr]]; [left; by eapply ready_same|right; left; exists g'; set_solver|by right; right].
  - by eapply wake_call.
  - apply wake_exit. by left.
  - apply wake_exit. by right.
  - intros [_ Hq]. split; [done|]. cbn [disp delay] in *. unfold Queue.Wait in Hw.
    destruct (Queue.notify (pq st)); [|done]. injection Hw as <-.
    assert (Hr : ready DQ (mkSys st Waiting q ts sw) →
      ready DQ (mkSys (set_queue st PQ (Queue.mkQueue (Queue.items (pq st)) false) (metrics st)) Ready q ts sw))
      by (intros [?|?]; [by left|by right]).
    destruct q as [|pk p|[t|]]; [done| |done|by apply Hr].
    destruct Hq as [?|[? ?]]; [by left|right; split; [done|by apply Hr]].
  - intros [_ Hq]. split; [left; apply dispatchTurn_empty|]. cbn [disp delay] in *.
    destruct q as [|pk p|[t|]]; [done| |done|by eapply ready_disp].
    destruct Hq as [?|[? ?]]; [by left|right; split; [done|by eapply ready_disp]].
  - by eapply wake_dispatch.
  - intros [Hd Hq]. cbn [disp delay] in *.
    assert (Hr : ∀ w, ready w (mkSys st (Draining (Ret t)) q ts sw) → ready w (mkSys st (after_turn t) q ts sw))
      by (intros w Hr; eapply ready_disp; [exact Hr|apply not_notifying]).
    split; cbn [disp delay].
    + destruct t; [|done..]. destruct Hd as [?|[_ ?]]; [done|]. by apply Hr.
    + destruct q as [|pk p|[t'|]]; auto. destruct Hq as [?|[? ?]]; auto.
  - intros [Hd _]. cbn [disp delay] in *. split; [|left; apply delayLook_empty]. cbn [disp].
    destruct d; [by eapply ready_delay|done| |done].
    destruct Hd as [?|[? ?]]; [by left|right; split; [done|by eapply ready_delay]].
  - by eapply wake_delay.
  - intros [Hd Hq]. cbn [disp delay] in *.
    assert (Hr : ∀ w, ready w (mkSys st d (Busy pk (Ret n)) ts sw) → ready w (mkSys st d (goes_on (clock st) n) ts sw))
      by (intros w Hr; eapply ready_delay; [exact Hr|apply not_notifying]).
    split; cbn [disp delay].
    + destruct d; auto. destruct Hd as [?|[? ?]]; auto.
    + destruct n as [| |[d'|]]; [done|left; apply never_only, delayPromote_never|done|].
      destruct Hq as [?|[_ ?]]; [done|]. by apply Hr.
  - intros [Hd _]. split; [|done]. cbn [disp delay] in *. unfold Queue.Wait in Hw.
    destruct (Queue.notify (dq st)); [|done]. injection Hw as <-.
    assert (Hr : ready PQ (mkSys st d (Asleep mt) ts sw) →
      ready PQ (mkSys (set_queue st DQ (Queue.mkQueue (Queue.items (dq st)) false) (metrics st)) d AtTop ts sw)).
    { intros Hr. eapply ready_delay in Hr; [|done]. destruct Hr as [?|?]; [by left|by right]. }
    destruct d; [by apply Hr|done| |done].
    destruct Hd as [?|[? ?]]; [by left|right; split; [done|by apply Hr]].
  - intros [Hd _]. cbn [disp delay] in *. split; [|left; apply never_only, delayPromote_never]. cbn [disp].
    destruct d; [by eapply ready_delay|done| |done].
    destruct Hd as [?|[? ?]]; [by left|right; split; [done|by eapply ready_delay]].
  - apply wake_mono; [done..|]. intros w [?|?]; [left; by eapply ready_same|by right].
  - intros _. split; [|done]. left. by eapply started_ready.
Qed.

Lemma reachable_wake c : reachable c → wake_ok c.
Proof.
  induction 1 as [env cfg s now st _ Hst|c c' Hc IH Hs].
  - split; [|done]. left. by eapply started_ready.
  - eapply wake_step; [by apply reachable_ok|done..].
Qed.

(** C6. No wake-up is lost: whenever the dispatch loop waits for the
    notification of the priority queue and the queue holds a job, the
    notification is there or a goroutine is between its push and its send; the
    same holds of the delay loop when it waits without a timer. *)
Theorem no_lost_wakeup c :
  reachable c →
  (disp c = Waiting → Queue.items (pq (shared c)) ≠ [] →
     (∃ q, Queue.Wait (pq (shared c)) = Some q) ∨ on_the_way PQ c) ∧
  (delay c = Asleep None → Queue.items (dq (shared c)) ≠ [] →
     (∃ q, Queue.Wait (dq (shared c)) = Some q) ∨ on_the_way DQ c).
Proof.
  intros [Hd Hq]%reachable_wake. unfold Queue.Wait. split; intros E Hne.
  - rewrite E in Hd. destruct Hd as [[?|Hn]|?]; [done| |by right]. left. simpl in Hn. rewrite Hn. eauto.
  - rewrite E in Hq. destruct Hq as [[?|Hn]|?]; [done| |by right]. left. simpl in Hn. rewrite Hn. eauto.
Qed.
End Runs.

#[local] Existing Instance canonical_range.

(** Where no goroutine is inside a handler, the notification is there. *)
Lemma no_lost_wakeup_witness : ∃ q, Queue.Wait (pq demo3) = Some q.
Proof.
  destruct (proj1 (no_lost_wakeup node demo_reachable) eq_refl) as [Hq|[(g & Hg & _)|[[]|[]]]];
    [by vm_compute|exact Hq|by apply elem_of_nil in Hg].
Defined.
End Wakeup.
