(* ===== verification/SchedulerSpec.v ===== *)
(** * What each scheduler handler does

    The functional behaviour of the handlers of [Scheduler] and [Runner] on
    every branch, run without interference on any reliable store: which job is
    written, which queue it enters, what happens to its lease. *)

From S2P Require Import Prelude Job Lease Retry Dlq Store Heap Metrics Queue Broker Events.
From S2P Require Import Config Manager Machine Scheduler Runner Invariant MemoryStore System.
Import Machine.
Local Open Scope Z_scope.

Module SchedulerSpec.

Section Spec.
Context `{GoRange} {T : Type} `{Store.ReliableStore T}.
Implicit Types (st : State T) (a : Store.Abs).

(** Writing a job whose transition is legal. *)
Lemma update_valid (s : T) a j old :
  Store.rel s a → Store.jobs a !! ID j = Some old →
  IsValidTransition (JStatus old) (JStatus j) = true →
  ∃ s', Store.Update s j = (s', None) ∧
        Store.rel s' (Store.set_jobs a (<[ID j := j]> (Store.jobs a))).
Proof.
  intros Hr Ho Hv. destruct (Store.reliable_Update s a j Hr) as [He Hr'].
  unfold Store.abs_update in *. rewrite Ho, Hv in *. destruct (Store.Update s j) as [s' e].
  simpl in *. subst e. exists s'. split; [done|].
  unfold Store.abs_put in Hr'. by rewrite Store.norm_job_id in Hr'.
Qed.

(** Writing a job whose transition the store refuses. *)
Lemma update_refused (s : T) a j old :
  Store.rel s a → Store.jobs a !! ID j = Some old →
  IsValidTransition (JStatus old) (JStatus j) = false →
  ∃ s' e, Store.Update s j = (s', Some e) ∧ Store.rel s' a.
Proof.
  intros Hr Ho Hv. destruct (Store.reliable_Update s a j Hr) as [He Hr'].
  unfold Store.abs_update in *. rewrite Ho, Hv in *. destruct (Store.Update s j) as [s' e].
  simpl in *. subst e. eauto.
Qed.

Lemma run_enqueueJob env id w st :
  ∃ q m, run env (Scheduler.enqueueJob id w) st = (Returned tt, set_queue st w q m) ∧
         Queue.items q ≡ₚ id :: Queue.items (queue st w).
Proof.
  unfold Scheduler.enqueueJob. rewrite run_act. cbn [do_act]. rewrite run_Enqueue.
  pose proof (Queue.Enqueue_items (comparator st w) (queue st w) (metrics st) id) as Hp.
  destruct (Queue.Enqueue _ _ _ _) as [q m]. cbn [fst snd] in *. by exists q, m.
Qed.

(** Queueing a list of jobs. *)
Lemma run_enqueue_all env js w st :
  ∃ st', run env (for_each js (λ j, Scheduler.enqueueJob (ID j) w)) st = (Returned tt, st') ∧
    store st' = store st ∧ nextJobID st' = nextJobID st ∧
    Queue.items (queue st' w) ≡ₚ (ID <$> js) ++ Queue.items (queue st w) ∧
    (∀ w', w' ≠ w → queue st' w' = queue st w').
Proof.
  revert st. induction js as [|j js IH]; intros st; [by exists st|].
  destruct (run_enqueueJob env (ID j) w st) as (q & m & Hrun & Hq).
  destruct (IH (set_queue st w q m)) as (st' & Hrun' & Hst & Hn & Hq' & Ho).
  exists st'. cbn [for_each]. rewrite run_bind, Hrun.
  split_and!; [done|by rewrite Hst; destruct w|by rewrite Hn; destruct w| |].
  - rewrite Hq'. destruct w; cbn [queue set_queue pq dq] in *; rewrite Hq; simpl; by rewrite Permutation_middle.
  - intros w' Hne. rewrite Ho by done. by destruct w, w'.
Qed.

(** Rebuilding the queues adds the listed jobs to them. *)
Lemma run_rebuild env st lp ls :
  Store.ListByStatus (store st) Pending = (lp, None) →
  Store.ListByStatus (store st) Scheduled = (ls, None) →
  ∃ st', run env Scheduler.RebuildQueuesFromStore st = (Returned None, st') ∧
    store st' = store st ∧ nextJobID st' = nextJobID st ∧
    Queue.items (pq st') ≡ₚ (ID <$> lp) ++ Queue.items (pq st) ∧
    Queue.items (dq st') ≡ₚ (ID <$> ls) ++ Queue.items (dq st).
Proof.
  intros Hlp Hls. unfold Scheduler.RebuildQueuesFromStore. rewrite run_act. cbn [do_act]. rewrite Hlp, run_bind.
  destruct (run_enqueue_all env lp PQ st) as (st1 & -> & Es1 & En1 & Hq1 & Ho1).
  rewrite run_act. cbn [do_act]. rewrite Es1, Hls, run_bind.
  destruct (run_enqueue_all env ls DQ st1) as (st2 & -> & Es2 & En2 & Hq2 & Ho2).
  run_simpl. eexists. split; [reflexivity|]. cbn [store nextJobID pq dq set_bus].
  specialize (Ho1 DQ ltac:(done)). specialize (Ho2 PQ ltac:(done)). cbn [queue] in *.
  split_and!; [congruence|congruence|by rewrite Ho2, Hq1|by rewrite Hq2, Ho1].
Qed.

(** The delay queue is a heap for the due times in the store. *)
Definition delay_ordered st : Prop :=
  Queue.in_order (Queue.DelayComparator (store st)) (dq st).

Lemma delay_ordered_ext (s s' : T) q :
  (∀ id, NextRunAt (Queue.lookup_job s' id) = NextRunAt (Queue.lookup_job s id)) →
  Queue.in_order (Queue.DelayComparator s) q → Queue.in_order (Queue.DelayComparator s') q.
Proof.
  intros He. apply Queue.heap_ordered_ext. intros x y _ _.
  unfold Queue.DelayComparator. by rewrite !He.
Qed.

Lemma lookup_job_rel (s : T) a id :
  Store.rel s a → Queue.lookup_job s id = default zeroJob (Store.jobs a !! id).
Proof. intros Hr. unfold Queue.lookup_job. by rewrite (Store.Get_spec s a). Qed.

(** What a result handler leaves alone. *)
Definition same_workers st st' : Prop :=
  manager st' = manager st ∧ useBroker st' = useBroker st ∧ results st' = results st ∧ sent st' = sent st.

Definition same_but_results st st' : Prop :=
  same_workers st st' ∧ clock st' = clock st ∧ nextJobID st' = nextJobID st ∧ pq st' = pq st.

(** A success: the lease is released and the job is completed; the queues
    and the dead-letter queue are not touched. *)
Theorem result_success env st a r j :
  Store.rel (store st) a → Store.jobs a !! RJobID r = Some j →
  Scheduler.stale r (Lease.Get (leases st) (RJobID r)) = false →
  RSuccess r = true → JStatus j = Pending →
  ∃ st', run env (Scheduler.handleResult r) st = (Returned tt, st') ∧
    Store.rel (store st')
      (Store.set_jobs a (<[RJobID r := with_status j Completed]> (Store.jobs a))) ∧
    Lease.Get (leases st') (RJobID r) = None ∧
    dq st' = dq st ∧ dead st' = dead st ∧ clock st' = clock st ∧ same_but_results st st'.
Proof.
  intros Hr Hj Hs Hok Hp. pose proof (proj1 (Store.rel_wf _ _ Hr) _ _ Hj) as HID.
  destruct (update_valid (store st) a (with_status j Completed) j) as (s' & Hu & Hr'); [done| | |].
  { simpl. by rewrite HID. } { by rewrite Hp. }
  unfold Scheduler.handleResult. run_simpl. rewrite (Store.Get_spec _ _ _ Hr), Hj. run_simpl.
  rewrite Hs, Hok. run_simpl. simpl. rewrite Hu. eexists. split; [reflexivity|].
  simpl in *. rewrite HID in Hr'. unfold same_but_results, same_workers, Lease.Get. simpl.
  split_and!; try done. apply lookup_delete_eq.
Qed.

(** The job a failed attempt is retried as. *)
Definition retried (j : Job) (msg : string) (now : Time) : Job :=
  with_nextRunAt
    (with_lastError (with_status (with_retry j (RetryCount j + 1)) Scheduled) msg)
    (now + Z.min Minute (2 ^ (RetryCount j + 1) * Second)).

(** Writing a job's due time keeps the heap of a delay queue it is not in. *)
Lemma delay_ordered_write (s s' : T) a j q :
  Store.rel s a → Store.rel s' (Store.set_jobs a (<[ID j := j]> (Store.jobs a))) → ID j ∉ Queue.items q →
  Queue.in_order (Queue.DelayComparator s) q → Queue.in_order (Queue.DelayComparator s') q.
Proof.
  intros Hr Hr' Hn. apply Queue.heap_ordered_ext. intros x y Hx Hy.
  assert (Hsame : ∀ z, z ∈ Queue.items q → Queue.lookup_job s' z = Queue.lookup_job s z).
  { intros z Hz. rewrite (lookup_job_rel _ _ _ Hr), (lookup_job_rel _ _ _ Hr'). simpl.
    rewrite lookup_insert_ne; [done|]. by intros <-. }
  unfold Queue.DelayComparator. by rewrite !Hsame.
Qed.

Lemma run_retry env st a r j msg :
  Store.rel (store st) a → Store.jobs a !! RJobID r = Some j →
  Scheduler.stale r (Lease.Get (leases st) (RJobID r)) = false →
  RSuccess r = false → RError r = Some msg → JStatus j = Pending →
  0 ≤ RetryCount j < MaxRetries j → RetryCount j ≤ 32 →
  ∃ st', run env (Scheduler.handleResult r) st = (Returned tt, st') ∧
    Store.rel (store st')
      (Store.set_jobs a (<[RJobID r := retried j msg (clock st)]> (Store.jobs a))) ∧
    Queue.items (dq st') ≡ₚ RJobID r :: Queue.items (dq st) ∧
    Lease.Get (leases st') (RJobID r) = None ∧ dead st' = dead st ∧ same_but_results st st' ∧
    clock st' = clock st ∧
    (delay_ordered st → RJobID r ∉ Queue.items (dq st) → delay_ordered st').
Proof.
  intros Hr Hj Hs Hok Hmsg Hp Hrc Hle. pose proof (proj1 (Store.rel_wf _ _ Hr) _ _ Hj) as HID.
  destruct (update_valid (store st) a (retried j msg (clock st)) j) as (s' & Hu & Hr'); [done| | |].
  { simpl. by rewrite HID. } { by rewrite Hp. }
  unfold Scheduler.handleResult. run_simpl. rewrite (Store.Get_spec _ _ _ Hr), Hj. run_simpl.
  rewrite Hs, Hok. run_simpl. unfold Retry.ShouldRetry.
  destruct (Z.ltb_spec (RetryCount j) (MaxRetries j)); [|lia]. rewrite Hmsg. run_simpl.
  rewrite wrap64_id by (unfold in_int64, minInt64, maxInt64; lia).
  unfold Retry.NextRetryTime. rewrite Retry.Backoff_exact by (simpl; lia).
  change (Z.min Scheduler.maxBackoff (2 ^ RetryCount _ * Second))
    with (Z.min Minute (2 ^ (RetryCount j + 1) * Second)).
  run_simpl. fold (retried j msg (clock st)). cbn [store clock set_leases].
  change (clock (set_leases st _)) with (clock st). fold (retried j msg (clock st)).
  rewrite Hu. cbn [ID with_lastError with_status with_retry].
  set (st1 := set_store (set_leases st (Lease.Release (leases st) (RJobID r))) s').
  unfold Scheduler.enqueueJob. rewrite run_act. cbn [do_act]. rewrite run_Enqueue.
  pose proof (Queue.Enqueue_items (comparator st1 DQ) (queue st1 DQ) (metrics st1) (ID j)) as Hq.
  pose proof (Queue.in_order_Enqueue (Queue.DelayComparator s') (dq st) (metrics st) (ID j)) as Ho.
  change (Queue.Enqueue (comparator st1 DQ) (queue st1 DQ) (metrics st1) (ID j))
    with (Queue.Enqueue (Queue.DelayComparator s') (dq st) (metrics st) (ID j)) in *.
  destruct (Queue.Enqueue _ _ _ _) as [q m]. cbn [fst snd] in *.
  eexists. split; [reflexivity|]. simpl in *. rewrite HID in *.
  unfold same_but_results, same_workers, Lease.Get. simpl. split_and!; try done; [apply lookup_delete_eq|].
  intros Hord Hn. apply Ho. eapply (delay_ordered_write _ _ _ (retried j msg (clock st))); [exact Hr| | |exact Hord];
    simpl; by rewrite HID.
Qed.


Lemma run_exhausted env st a r j msg :
  Store.rel (store st) a → Store.jobs a !! RJobID r = Some j →
  Scheduler.stale r (Lease.Get (leases st) (RJobID r)) = false →
  RSuccess r = false → RError r = Some msg → JStatus j = Pending →
  MaxRetries j ≤ RetryCount j →
  let dead_job := with_lastError (with_status j Failed) msg in
  ∃ st', run env (Scheduler.handleResult r) st = (Returned tt, st') ∧
    Store.Get (store st') (RJobID r) = Some dead_job ∧
    (∀ l, Store.ListDLQ (store st') = (l, None) → dead_job ∈ l) ∧
    Dlq.Get (dead st') (RJobID r) = Some dead_job ∧
    Lease.Get (leases st') (RJobID r) = None ∧ dq st' = dq st ∧ same_but_results st st'.
Proof.
  intros Hr Hj Hs Hok Hmsg Hp Hrc dj. pose proof (proj1 (Store.rel_wf _ _ Hr) _ _ Hj) as HID.
  destruct (update_valid (store st) a dj j) as (s' & Hu & Hr'); [done| | |].
  { simpl. by rewrite HID. } { by rewrite Hp. }
  set (a' := Store.set_jobs a (<[ID dj := dj]> (Store.jobs a))) in *.
  assert (Hdlq : (Store.AddDLQ s' dj).2 = None ∧
    Store.rel (Store.AddDLQ s' dj).1 (Store.abs_addDLQ Store.norm a' dj).1).
  { destruct (Store.AddDLQ_spec s' _ dj Hr' (Store.storable_all dj)) as [?|[He _]]; [done|].
    by destruct (Store.AddDLQ_total _ _ _ Hr' He). }
  unfold Scheduler.handleResult. run_simpl. rewrite (Store.Get_spec _ _ _ Hr), Hj. run_simpl.
  rewrite Hs, Hok. run_simpl. unfold Retry.ShouldRetry.
  destruct (Z.ltb_spec (RetryCount j) (MaxRetries j)); [lia|]. rewrite Hmsg. run_simpl.
  fold dj. change (store (set_leases st _)) with (store st). rewrite Hu.
  change (store (set_store _ s')) with s'.
  destruct (Store.AddDLQ s' dj) as [s2 e2]. destruct Hdlq as [_ Hr2]. simpl in Hr2.
  eexists. split; [reflexivity|]. simpl. rewrite (Store.Get_spec _ _ _ Hr2). simpl.
  rewrite HID, lookup_insert_eq. unfold same_but_results, same_workers, Lease.Get, Dlq.Get, Dlq.Add. simpl.
  rewrite HID, lookup_insert_eq, lookup_delete_eq. split_and!; try done.
  intros l Hl. apply (Store.ListDLQ_spec _ _ _ Hr2) in Hl. rewrite Hl. simpl.
  rewrite list_elem_of_fmap. exists (ID dj, dj). split; [done|]. apply elem_of_map_to_list.
  simpl. by rewrite Store.norm_job_id, lookup_insert_eq.
Qed.

(** C17. A failure of a pending job with no retry left, reported for its current
    attempt: the job is failed with its error, and a dead letter is kept in the
    store and in memory; no queue is touched. *)
Theorem result_exhausted env st a r j msg :
  Store.rel (store st) a → Store.jobs a !! RJobID r = Some j →
  Scheduler.stale r (Lease.Get (leases st) (RJobID r)) = false →
  RSuccess r = false → RError r = Some msg → JStatus j = Pending →
  MaxRetries j ≤ RetryCount j →
  let dead_job := with_lastError (with_status j Failed) msg in
  ∃ st', run env (Scheduler.handleResult r) st = (Returned tt, st') ∧
    Store.Get (store st') (RJobID r) = Some dead_job ∧
    (∀ l, Store.ListDLQ (store st') = (l, None) → dead_job ∈ l) ∧
    Dlq.Get (dead st') (RJobID r) = Some dead_job ∧
    Lease.Get (leases st') (RJobID r) = None ∧ dq st' = dq st ∧ same_but_results st st'.
Proof. apply run_exhausted. Qed.

(** The outcome of selecting a worker for a job. *)
Definition selected st (j : Job) : option WorkerClient := (selectWorker st (JType j)).1.
Definition after_select st (j : Job) : State T :=
  set_manager st (Manager.set_Available (manager st) (selectWorker st (JType j)).2).

(** The attempt number the next lease of a job carries. *)
Definition next_attempt st (id : Z) : Z :=
  match Lease.Get (leases st) id with
  | Some l => wrap64 (Lease.Attempt l + 1)
  | None => 1
  end.


(** *** Recovery of a dead worker's jobs *)

(** Everything but the priority queue (and its gauge). *)
Definition only_pq st st' : Prop :=
  store st' = store st ∧ dq st' = dq st ∧ leases st' = leases st ∧ sent st' = sent st ∧
  manager st' = manager st ∧ dead st' = dead st ∧ nextJobID st' = nextJobID st.

(** The stored jobs that are pending. *)
Definition pending st (id : Z) : Prop :=
  ∃ j, Store.Get (store st) id = Some j ∧ JStatus j = Pending.

Lemma recover_loop env ids st :
  ∃ st' l, run env (for_each ids Scheduler.recoverJob) st = (Returned tt, st') ∧
    only_pq st st' ∧ Queue.items (pq st') ≡ₚ l ++ Queue.items (pq st) ∧
    sublist l ids ∧ ∀ id, id ∈ l ↔ id ∈ ids ∧ pending st id.
Proof.
  revert st. induction ids as [|id ids IH]; intros st.
  { exists st, []. split_and!; try done. intros id. set_solver. }
  cbn [for_each]. rewrite run_bind. unfold Scheduler.recoverJob at 1. run_simpl.
  assert (Hskip : ¬ pending st id → ∃ st' l, run env (for_each ids Scheduler.recoverJob) st = (Returned tt, st') ∧
    only_pq st st' ∧ Queue.items (pq st') ≡ₚ l ++ Queue.items (pq st) ∧
    sublist l (id :: ids) ∧ ∀ i, i ∈ l ↔ i ∈ id :: ids ∧ pending st i).
  { intros Hn. destruct (IH st) as (st' & l & Hrun & Ho & Hp & Hs & Hl).
    exists st', l. split_and!; try done; [by apply sublist_cons|].
    intros i. rewrite Hl, elem_of_cons. naive_solver. }
  destruct (Store.Get (store st) id) as [j|] eqn:Hj.
  2:{ run_simpl. apply Hskip. intros (j & ? & _). congruence. }
  destruct (decide (JStatus j = Pending)) as [Hp|Hn].
  2:{ run_simpl. apply Hskip. intros (j' & ? & ?). congruence. }
  destruct (run_enqueueJob env id PQ st) as (q & m & -> & Hq).
  destruct (IH (set_queue st PQ q m)) as (st' & l & -> & Ho & Hperm & Hs & Hl).
  exists st', (id :: l). split_and!; [done|done| |by apply sublist_skip|].
  - rewrite Hperm. simpl in *. rewrite Hq. by rewrite Permutation_middle.
  - intros i. rewrite !elem_of_cons, Hl. change (pending (set_queue st PQ q m) i) with (pending st i).
    split; [|tauto]. intros [->|?]; [|tauto]. split; [by left|]. by exists j.
Qed.

(** C19. Failover: handling a dead worker releases exactly its leases and puts
    exactly its still pending jobs back into the priority queue, each once. *)
Theorem recover_requeues env st w :
  ∃ st' ids, run env (Scheduler.recoverWorker w) st = (Returned tt, st') ∧
    Queue.items (pq st') ≡ₚ ids ++ Queue.items (pq st) ∧ NoDup ids ∧
    (∀ id, id ∈ ids ↔
       (∃ l, Lease.Get (leases st) id = Some l ∧ Lease.WorkerID l = w) ∧ pending st id) ∧
    (∀ id, Lease.Get (leases st') id =
       match Lease.Get (leases st) id with
       | Some l => if decide (Lease.WorkerID l = w) then None else Some l
       | None => None
       end) ∧
    store st' = store st ∧ dq st' = dq st ∧ sent st' = sent st.
Proof.
  unfold Scheduler.recoverWorker. rewrite run_act. cbn [do_act].
  destruct (Lease.ReleaseByWorker (leases st) w) as [lm ids] eqn:E.
  destruct (Lease.ReleaseByWorker_ids _ _ _ _ E) as [Hnd Hids].
  destruct (recover_loop env ids (set_leases st lm)) as (st' & l & Hrun & Ho & Hp & Hs & Hl).
  exists st', l. destruct Ho as (Hst & Hdq & Hle & Hse & _). simpl in *.
  split_and!; try done.
  - by eapply sublist_NoDup.
  - intros id. rewrite Hl, Hids. done.
  - intros id. rewrite Hle. apply (Lease.ReleaseByWorker_leases _ _ _ _ id E).
Qed.

(** Finished jobs are not run again: when the next queued job is completed,
    failed or cancelled, a turn of the dispatch loop discards it without a
    lease and without contacting a worker. *)
Theorem terminal_not_dispatched env st id j :
  Queue.Peek (pq st) = Some id → Store.Get (store st) id = Some j →
  is_terminal (JStatus j) = true →
  ∃ st', run env Scheduler.dispatchTurn st = (Returned Scheduler.Continue, st') ∧
    Queue.items (pq st) ≡ₚ id :: Queue.items (pq st') ∧ sent st' = sent st ∧
    leases st' = leases st ∧ manager st' = manager st ∧ store st' = store st.
Proof.
  intros Hp Hj Ht. unfold Scheduler.dispatchTurn. rewrite run_act. cbn [do_act].
  unfold Queue.Peek in Hp. cbn [queue].
  destruct (Queue.items (pq st)) as [|x rest] eqn:Ei; simplify_eq/=.
  destruct (Queue.Dequeue_cons (Queue.PriorityComparator (store st)) (pq st) (metrics st) id rest Ei)
    as (r & -> & Hr & _).
  run_simpl. cbn [store set_queue]. rewrite Hj, Ht.
  eexists. split; [reflexivity|]. simpl. by rewrite Hr.
Qed.

(** *** The delay loop *)

(** The head of an ordered delay queue is due first. *)
Lemma delay_head st id rest :
  delay_ordered st → Queue.items (dq st) = id :: rest →
  ∀ id', id' ∈ Queue.items (dq st) →
    NextRunAt (Queue.lookup_job (store st) id) ≤ NextRunAt (Queue.lookup_job (store st) id').
Proof.
  unfold delay_ordered, Queue.in_order. intros Ho Ei id' Hin. rewrite Ei in *.
  apply list_elem_of_lookup in Hin as [k Hk].
  pose proof (Heap.root_minimal (Queue.DelayComparator (store st)) (id :: rest) k Ho
    ltac:(by apply lookup_lt_Some in Hk)) as Hle.
  rewrite (list_lookup_total_correct _ _ _ Hk) in Hle. simpl in Hle.
  unfold Heap.le, Queue.DelayComparator in Hle. by apply Z.ltb_ge in Hle.
Qed.

(** The contents after promoting the job [id]. *)
Definition promoted a (id : Z) : Store.Abs :=
  match Store.jobs a !! id with
  | Some j => if IsValidTransition (JStatus j) Pending
              then Store.set_jobs a (<[id := with_status j Pending]> (Store.jobs a)) else a
  | None => a
  end.

Definition promotable a (id : Z) : Prop :=
  ∃ j, Store.jobs a !! id = Some j ∧ IsValidTransition (JStatus j) Pending = true.

(** One turn: stop at a job that is not due, or take the head out. *)
Lemma delayed_turn env st a :
  Store.rel (store st) a →
  (run env Scheduler.delayedTurn st = (Returned Scheduler.Return, st) ∧
   ∀ id, Queue.Peek (dq st) = Some id → clock st < NextRunAt (Queue.lookup_job (store st) id)) ∨
  ∃ id rest st', Queue.items (dq st) = id :: rest ∧
    run env Scheduler.delayedTurn st = (Returned Scheduler.Continue, st') ∧
    (∀ j, Store.jobs a !! id = Some j → NextRunAt j ≤ clock st) ∧
    Store.rel (store st') (promoted a id) ∧ (delay_ordered st → delay_ordered st') ∧ clock st' = clock st ∧
    Queue.items (dq st') ≡ₚ rest ∧
    (∀ x, x ∈ Queue.items (pq st) → x ∈ Queue.items (pq st')) ∧
    (promotable a id → id ∈ Queue.items (pq st')).
Proof.
  intros Hr. unfold Queue.Peek. destruct (Queue.items (dq st)) as [|id rest] eqn:Ei.
  { left. split; [|done]. unfold Scheduler.delayedTurn. run_simpl.
    unfold Queue.Peek. cbn [queue]. by rewrite Ei. }
  pose proof (Queue.in_order_Dequeue (Queue.DelayComparator (store st)) (dq st) (metrics st)) as Ho1.
  destruct (Queue.Dequeue_cons (Queue.DelayComparator (store st)) (dq st) (metrics st) id rest Ei)
    as (r & Hd & Hperm & _). rewrite Hd in Ho1. simpl in Ho1.
  unfold Scheduler.delayedTurn. run_simpl. unfold Queue.Peek. cbn [queue]. rewrite Ei. cbn [head].
  run_simpl. rewrite (Store.Get_spec _ _ _ Hr).
  destruct (Store.jobs a !! id) as [j|] eqn:Hj; run_simpl.
  2:{ right. cbn [queue comparator]. rewrite Hd. eexists id, rest, _.
      split; [done|]. split; [reflexivity|]. unfold promoted, promotable. rewrite Hj. simpl.
      split_and!; try done. by intros (j & ? & _). }
  destruct (Z.ltb_spec (clock st) (NextRunAt j)) as [Hlt|Hle].
  { left. split; [done|]. intros id' [= <-]. by rewrite (lookup_job_rel _ _ id Hr), Hj. }
  right. run_simpl. cbn [queue comparator]. rewrite Hd. cbn [store set_queue].
  pose proof (proj1 (Store.rel_wf _ _ Hr) _ _ Hj) as HID.
  assert (Hdue : ∀ i, Some j = Some i → NextRunAt i ≤ clock st) by (by intros i [= <-]).
  destruct (IsValidTransition (JStatus j) Pending) eqn:Hv.
  - destruct (update_valid (store st) a (with_status j Pending) j) as (s' & Hu & Hr'); [done| |done|].
    { simpl. by rewrite HID. }
    rewrite Hu. run_simpl. rewrite run_bind.
    edestruct (run_enqueueJob env id PQ) as (q & m & -> & Hq). simpl in Hq, Hr'. rewrite HID in Hr'.
    eexists id, rest, _. split; [done|]. split; [reflexivity|].
    unfold delay_ordered, promoted, promotable. rewrite Hj, Hv. simpl.
    split_and!; try done.
    + intros Ho. eapply delay_ordered_ext; [|exact (Ho1 Ho)]. intros i.
      rewrite (lookup_job_rel _ _ i Hr'), (lookup_job_rel _ _ i Hr). simpl.
      destruct (decide (id = i)) as [<-|]; [by rewrite lookup_insert_eq, Hj|by rewrite lookup_insert_ne].
    + intros x Hx. rewrite Hq. by right.
    + intros _. rewrite Hq. by left.
  - destruct (update_refused (store st) a (with_status j Pending) j) as (s' & e & Hu & Hr');
      [done|simpl; by rewrite HID|done|].
    rewrite Hu. eexists id, rest, _. split; [done|]. split; [reflexivity|].
    unfold delay_ordered, promoted, promotable. rewrite Hj, Hv. simpl.
    split_and!; try done.
    + intros Ho. eapply delay_ordered_ext; [|exact (Ho1 Ho)]. intros i.
      by rewrite (lookup_job_rel _ _ i Hr'), (lookup_job_rel _ _ i Hr).
    + intros (j' & ? & ?). congruence.
Qed.

Lemma promoted_keeps a id i j :
  Store.jobs a !! i = Some j → JStatus j = Pending ∨ i ≠ id →
  Store.jobs (promoted a id) !! i = Some j.
Proof.
  intros Hj Hor. unfold promoted. destruct (Store.jobs a !! id) as [k|] eqn:Hk; [|done].
  destruct (IsValidTransition (JStatus k) Pending); [|done]. simpl.
  destruct (decide (i = id)) as [->|]; [|by rewrite lookup_insert_ne].
  destruct Hor as [Hp|]; [|done]. rewrite lookup_insert_eq. simplify_eq.
  destruct j. simpl in *. by subst.
Qed.

(** All turns of [ProcessDelayedJobs], with what it does to pending jobs and to
    the priority queue along the way. *)
Lemma process_delayed env fuel st a :
  Store.rel (store st) a → (length (Queue.items (dq st)) < fuel)%nat →
  ∃ st' a', run env (Scheduler.ProcessDelayedJobs fuel) st = (Returned tt, st') ∧
    Store.rel (store st') a' ∧
    (∀ id, Queue.Peek (dq st') = Some id → clock st < NextRunAt (Queue.lookup_job (store st') id)) ∧
    (∀ x, x ∈ Queue.items (pq st) → x ∈ Queue.items (pq st')) ∧
    (∀ i j, Store.jobs a !! i = Some j → JStatus j = Pending → Store.jobs a' !! i = Some j) ∧
    (∀ i j, i ∈ Queue.items (dq st) → Store.jobs a !! i = Some j → JStatus j = Scheduled →
       i ∈ Queue.items (dq st') ∧ Store.jobs a' !! i = Some j ∨
       NextRunAt j ≤ clock st ∧ Store.jobs a' !! i = Some (with_status j Pending) ∧
       i ∈ Queue.items (pq st')) ∧
    (delay_ordered st → delay_ordered st') ∧ clock st' = clock st.
Proof.
  revert st a. induction fuel as [|fuel IH]; intros st a Hr Hf; [lia|].
  cbn [Scheduler.ProcessDelayedJobs]. rewrite run_bind.
  destruct (delayed_turn env st a Hr)
    as [[-> Hnot]|(id & rest & st1 & Ei & -> & Hd & Hr1 & Ho1 & Hc1 & Hq1 & Hpq & Hprom)].
  { exists st, a. split_and!; try done. auto. }
  destruct (IH st1 (promoted a id) Hr1) as (st' & a' & Hrun & Hr' & Hnot & Hpq' & Hpend & Hdue & Hord' & Hclk').
  { apply Permutation_length in Hq1. rewrite Ei in Hf. simpl in Hf. lia. }
  rewrite Hc1 in *. exists st', a'. split_and!; try done; [..|auto].
  - intros x Hx. by apply Hpq', Hpq.
  - intros i j Hj Hp. apply Hpend; [|done]. apply promoted_keeps; auto.
  - intros i j Hin Hj Hs. destruct (decide (i = id)) as [->|Hne].
    + right. assert (Hv : IsValidTransition (JStatus j) Pending = true) by (by rewrite Hs).
      split; [by apply Hd|]. split; [|apply Hpq', Hprom; by exists j]. apply Hpend; [|done].
      unfold promoted. rewrite Hj, Hv. simpl. by rewrite lookup_insert_eq.
    + apply Hdue; [|by apply promoted_keeps; auto|done].
      rewrite Hq1. rewrite Ei in Hin. set_solver.
Qed.

(** C20. Promotion of delayed jobs, run to its end without interruption: one
    more turn than queued entries is enough for [ProcessDelayedJobs] to end; of
    the queued scheduled jobs each is still queued and unchanged, or was due, is
    pending and is in the priority queue; the next entry is not due.  If the
    delay queue was in heap order, no entry at all is due afterwards, so every
    due job was promoted. *)
Theorem delayed_jobs_promoted env st a :
  Store.rel (store st) a →
  ∃ st', run env (Scheduler.ProcessDelayedJobs (S (length (Queue.items (dq st))))) st
           = (Returned tt, st') ∧
    (∀ id, Queue.Peek (dq st') = Some id → clock st < NextRunAt (Queue.lookup_job (store st') id)) ∧
    (∀ i j, i ∈ Queue.items (dq st) → Store.Get (store st) i = Some j → JStatus j = Scheduled →
       i ∈ Queue.items (dq st') ∧ Store.Get (store st') i = Some j ∨
       NextRunAt j ≤ clock st ∧ Store.Get (store st') i = Some (with_status j Pending) ∧
       i ∈ Queue.items (pq st')) ∧
    (delay_ordered st →
     ∀ id, id ∈ Queue.items (dq st') → clock st < NextRunAt (Queue.lookup_job (store st') id)).
Proof.
  intros Hr.
  destruct (process_delayed env (S (length (Queue.items (dq st)))) st a Hr ltac:(lia))
    as (st' & a' & Hrun & Hr' & Hnot & _ & _ & Hdue & Hord & _).
  exists st'. split_and!; [done..| |].
  - intros i j Hin Hj Hs. rewrite (Store.Get_spec _ _ _ Hr) in Hj.
    rewrite !(Store.Get_spec _ _ _ Hr'). by apply Hdue.
  - intros Ho id Hin. unfold Queue.Peek in Hnot.
    destruct (Queue.items (dq st')) as [|x rest] eqn:Ei; [by apply elem_of_nil in Hin|].
    pose proof (delay_head st' x rest (Hord Ho) Ei id) as Hmin. rewrite Ei in Hmin.
    specialize (Hmin Hin). specialize (Hnot x eq_refl). lia.
Qed.

(** *** An execution on a local worker *)

(** The job and the result an execution leaves. *)
Definition finished (j : Job) (e : option exec_error) : Job :=
  match e with
  | None => with_status j Completed
  | Some ExecCanceled => with_status j Cancelled
  | Some e => with_lastError (with_status j Failed) (exec_text e)
  end.

Definition reported (j : Job) (e : option exec_error) : Result :=
  mkResult (ID j) (bool_decide (e = None)) (exec_text <$> e) 0.

Lemma local_execute env st a w j :
  Store.rel (store st) a → Store.jobs a !! ID j = Some j → JStatus j = Pending →
  ∃ st', run env (Runner.Execute true w j) st = (Returned tt, st') ∧
    Store.rel (store st') (Store.set_jobs a (<[ID j := finished j (execute env j)]> (Store.jobs a))) ∧
    dead st' = dead st ∧ leases st' = leases st ∧
    results st' = (try_send (results st) (reported j (execute env j))).1.
Proof.
  intros Hr Hj Hp.
  destruct (update_valid (store st) a (finished j (execute env j)) j) as (s' & Hu & Hr'); [done|..].
  { by destruct (execute env j) as [[]|]. }
  { rewrite Hp. by destruct (execute env j) as [[]|]. }
  assert (HID : ID (finished j (execute env j)) = ID j) by (by destruct (execute env j) as [[]|]).
  rewrite HID in Hr'. unfold Runner.Execute, Runner.updateStore, Runner.sendResult. run_simpl.
  destruct (execute env j) as [[| |m]|]; cbn [finished] in Hu; run_simpl; cbn [exec_text store set_tasks] in *;
    rewrite Hu; run_simpl; (eexists; split; [reflexivity|]); done.
Qed.

(** A failure reported for a job that is failed already. *)
Lemma failed_result_refused env st a r j msg :
  Store.rel (store st) a → Store.jobs a !! RJobID r = Some j → JStatus j = Failed →
  Scheduler.stale r (Lease.Get (leases st) (RJobID r)) = false →
  RSuccess r = false → RError r = Some msg →
  Invariant.good_job j → RetryCount j < MaxRetries j →
  ∃ st', run env (Scheduler.handleResult r) st = (Returned tt, st') ∧
    Store.rel (store st') a ∧ dead st' = dead st.
Proof.
  intros Hr Hj Hf Hs Hok Hmsg Hg Hlt. pose proof (proj1 (Store.rel_wf _ _ Hr) _ _ Hj) as HID.
  unfold Scheduler.handleResult. run_simpl. rewrite (Store.Get_spec _ _ _ Hr), Hj. run_simpl.
  rewrite Hs, Hok. run_simpl. unfold Retry.ShouldRetry.
  destruct (Z.ltb_spec (RetryCount j) (MaxRetries j)); [|lia]. rewrite Hmsg. run_simpl.
  set (j1 := with_lastError _ _). cbn [clock set_leases].
  destruct (Retry.NextRetryTime_defined j1 Scheduler.maxBackoff (clock st)) as [t Ht].
  { unfold j1. simpl. destruct Hg as (? & ? & [_ ?]).
    rewrite wrap64_id; [lia|]. unfold in_int64, minInt64 in *. lia. }
  rewrite Ht. run_simpl. cbn [store set_leases].
  destruct (update_refused (store st) a (with_nextRunAt j1 t) j) as (s' & e & Hu & Hr');
    [done|simpl; by rewrite HID|by rewrite Hf|].
  rewrite Hu. edestruct (run_enqueueJob env (ID j1) DQ) as (q & m & -> & _).
  eexists. split; [reflexivity|]. done.
Qed.

(** C40. A job that fails on a local worker is not retried: the runner has
    already written the terminal status when the result arrives, so the retry
    the result handler prepares is refused by the store; the job stays failed
    with retries left and no dead letter. *)
Theorem local_failure_not_retried env st a w j msg :
  Store.rel (store st) a → Store.jobs a !! ID j = Some j → JStatus j = Pending →
  Invariant.good_job j → RetryCount j < MaxRetries j →
  execute env j = Some (ExecFailed msg) →
  ∃ st1 st2, run env (Runner.Execute true w j) st = (Returned tt, st1) ∧
    run env (Scheduler.handleResult (mkResult (ID j) false (Some msg) 0)) st1 = (Returned tt, st2) ∧
    Store.Get (store st2) (ID j) = Some (with_lastError (with_status j Failed) msg) ∧
    dead st2 = dead st.
Proof.
  intros Hr Hj Hp Hg Hlt Hex.
  destruct (local_execute env st a w j Hr Hj Hp) as (st1 & Hrun1 & Hr1 & Hd1 & _). rewrite Hex in Hr1.
  destruct (failed_result_refused env st1 _ (mkResult (ID j) false (Some msg) 0)
    (with_lastError (with_status j Failed) msg) msg Hr1) as (st2 & Hrun2 & Hr2 & Hd2); try done.
  { apply lookup_insert_eq. }
  { unfold Scheduler.stale. by destruct (Lease.Get _ _). }
  exists st1, st2. split_and!; [done..| |congruence].
  rewrite (Store.Get_spec _ _ _ Hr2). apply lookup_insert_eq.
Qed.

End Spec.

(** ** The handlers at work, on a node with the in-memory store

    Job 1 ("email", key "k1") and job 2 ("sms") are pending, job 3 ("report")
    is scheduled for the time 5000; [leased] has dispatched job 2 to an idle
    local worker. *)
#[local] Existing Instance canonical_range.

Definition idle : State MemoryStore.MemoryStore :=
  (run System.quiet (call (AMakeAvailable (LocalWorker 1))) System.demo3).2.
Definition leased : State MemoryStore.MemoryStore :=
  (run System.quiet Scheduler.dispatchTurn idle).2.

Lemma leased_rel : Store.rel (store leased) (MemoryStore.abs (store leased)).
Proof. change (store leased) with (store System.demo3). exact System.demo_rel. Qed.

Lemma result_success_witness :
  ∃ st', run System.quiet (Scheduler.handleResult (mkResult 2 true None 1)) leased
           = (Returned tt, st') ∧ Lease.Get (leases st') 2 = None.
Proof.
  edestruct (result_success System.quiet leased (MemoryStore.abs (store leased))
    (mkResult 2 true None 1)) as (st' & Hrun & _ & Hl & _);
    [exact leased_rel|vm_compute; reflexivity..|].
  exists st'. by split.
Defined.


(** The same job with its retries used up. *)
Definition tired : Job := with_retry (NewJob 1 "email" 5) 3.
Definition tired_store : MemoryStore.MemoryStore :=
  (MemoryStore.Add MemoryStore.NewMemoryStore tired).1.

Lemma result_exhausted_witness :
  ∃ st', run System.quiet (Scheduler.handleResult (mkResult 1 false (Some "boom") 0))
             (set_store System.boot tired_store) = (Returned tt, st') ∧
    Dlq.Get (dead st') 1 = Some (with_lastError (with_status tired Failed) "boom").
Proof.
  edestruct (result_exhausted System.quiet (set_store System.boot tired_store)
    (MemoryStore.abs tired_store) (mkResult 1 false (Some "boom") 0))
    as (st' & Hrun & _ & _ & Hd & _);
    [|vm_compute; reflexivity..|vm_compute; congruence|exists st'; by split].
  split; [|reflexivity].
  exact (proj2 (proj2 (MemoryStore.exec_all_refines _ [Store.OAdd tired] MemoryStore.inv_new))).
Defined.


Lemma recover_requeues_witness :
  ∃ st' ids, run System.quiet (Scheduler.recoverWorker 1) leased = (Returned tt, st') ∧
    Queue.items (pq st') ≡ₚ ids ++ [1] ∧ 2 ∈ ids.
Proof.
  destruct (recover_requeues System.quiet leased 1) as (st' & ids & Hrun & Hp & _ & Hids & _).
  assert (Hq : Queue.items (pq leased) = [1]) by (vm_compute; reflexivity). rewrite Hq in Hp.
  exists st', ids. split; [exact Hrun|]. split; [exact Hp|]. apply Hids.
  split; eexists; (split; [vm_compute; reflexivity|reflexivity]).
Defined.

(** Job 2 is completed while it is still queued. *)
Definition overtaken : State MemoryStore.MemoryStore :=
  (run System.quiet (call (AUpdate (with_status (NewJob 2 "sms" 9) Completed))) idle).2.

Lemma terminal_not_dispatched_witness :
  ∃ st', run System.quiet Scheduler.dispatchTurn overtaken = (Returned Scheduler.Continue, st') ∧
    sent st' = [] ∧ leases st' = leases overtaken.
Proof.
  edestruct (terminal_not_dispatched System.quiet overtaken 2)
    as (st' & Hrun & _ & Hs & Hl & _); [vm_compute; reflexivity..|].
  exists st'. split; [exact Hrun|]. split; [exact Hs|exact Hl].
Defined.

Definition later : State MemoryStore.MemoryStore := set_clock System.demo3 6000.

Lemma later_rel : Store.rel (store later) (MemoryStore.abs (store later)).
Proof.
  assert (Hs : ∀ (st : State MemoryStore.MemoryStore) t, store (set_clock st t) = store st) by done.
  unfold later. rewrite Hs. exact System.demo_rel.
Qed.

Lemma later_ordered : delay_ordered later.
Proof.
  unfold delay_ordered, Queue.in_order.
  assert (Queue.items (dq later) = [3]) as -> by (vm_compute; reflexivity).
  exact (Heap.Init_ordered (Queue.DelayComparator (store later)) [3]).
Qed.

Lemma delayed_jobs_promoted_witness :
  ∃ st', run System.quiet (Scheduler.ProcessDelayedJobs 2) later = (Returned tt, st') ∧
    3 ∈ Queue.items (pq st').
Proof.
  destruct (delayed_jobs_promoted System.quiet later _ later_rel) as (st' & Hrun & _ & Hdue & Hord).
  assert (Hq : Queue.items (dq later) = [3]) by (vm_compute; reflexivity).
  rewrite Hq in Hrun, Hdue. exists st'. split; [exact Hrun|].
  edestruct (Hdue 3) as [[Hin Hg]|(_ & _ & Hp)];
    [by left|vm_compute; reflexivity|vm_compute; reflexivity| |exact Hp].
  pose proof (Hord later_ordered 3 Hin) as Hlt. unfold Queue.lookup_job in Hlt. rewrite Hg in Hlt.
  vm_compute in Hlt. discriminate Hlt.
Defined.

Definition failing : Env :=
  mkEnv (λ _ _, None) (λ _, Some (ExecFailed "boom")) (λ _ _, None) false false 0 false (λ _, 0) (λ _, None) "1" "".

Lemma local_failure_not_retried_witness :
  ∃ st1 st2, run failing (Runner.Execute true 1 (NewJob 2 "sms" 9)) leased = (Returned tt, st1) ∧
    run failing (Scheduler.handleResult (mkResult 2 false (Some "boom") 0)) st1 = (Returned tt, st2) ∧
    Store.Get (store st2) 2 = Some (with_lastError (with_status (NewJob 2 "sms" 9) Failed) "boom").
Proof.
  destruct (local_failure_not_retried failing leased _ 1 (NewJob 2 "sms" 9) "boom" leased_rel)
    as (st1 & st2 & Hr1 & Hr2 & Hg & _); [vm_compute; reflexivity|reflexivity| |done|reflexivity|].
  - vm_compute. split_and!; congruence.
  - exists st1, st2. split_and!; [exact Hr1|exact Hr2|exact Hg].
Defined.
End SchedulerSpec.
