(* ===== verification/EngineSpec.v ===== *)
(** * What the engine's operations do

    Submissions with and without an idempotency key, on a standalone and on a
    Raft node, and the round trip of a job through a worker process. *)

From S2P Require Import Prelude Job Lease Dlq Store MemoryStore Metrics Queue Broker Events Config.
From S2P Require Import Utf8 Codec Consensus Cron Manager Machine Scheduler Runner Rpc Engine Server.
From S2P Require Import Invariant HandlerProofs System SchedulerSpec.
Import Machine Invariant System.
Local Open Scope Z_scope.

Module EngineSpec.

Section Spec.
Context `{GoRange} {T : Type} `{Store.ReliableStore T}.
Implicit Types (st : State T) (a : Store.Abs).

(** Storing a fresh job on a standalone node. *)
Lemma run_addJob env st a j w :
  raft st = false → Store.rel (store st) a → Store.jobs a !! ID j = None →
  ∃ s' q m, run env (Engine.addJob j w) st = (Returned None, set_queue (set_store st s') w q m) ∧
    Store.rel s' (Store.abs_add Store.norm a j).1 ∧
    Queue.items q ≡ₚ ID j :: Queue.items (queue st w).
Proof.
  intros Hraft Hr Hf. destruct (Store.reliable_Add (store st) a j Hr Hf) as [He Hr'].
  unfold Engine.addJob. run_simpl. rewrite Hraft. run_simpl.
  destruct (Store.Add (store st) j) as [s' e]. simpl in He, Hr'. subst e. run_simpl.
  rewrite run_bind, run_Enqueue.
  pose proof (Queue.Enqueue_items (comparator (set_store st s') w) (queue (set_store st s') w)
    (metrics (set_store st s')) (ID j)) as Hp.
  destruct (Queue.Enqueue _ _ _ _) as [q m]. cbn [fst snd] in *. exists s', q, m.
  split_and!; [done|done|]. rewrite Hp. by destruct w.
Qed.

Lemma jobs_added a j :
  Store.jobs a !! ID j = None →
  Store.jobs (Store.abs_add Store.norm a j).1 = <[ID j := Store.norm_job Store.norm j]> (Store.jobs a).
Proof. intros Hf. unfold Store.abs_add. rewrite Hf. by case_decide. Qed.

Lemma get_added s a j :
  Store.jobs a !! ID j = None → Store.rel s (Store.abs_add Store.norm a j).1 →
  Store.Get s (ID j) = Some (Store.norm_job Store.norm j).
Proof.
  intros Hf Hr. rewrite (Store.Get_spec _ _ _ Hr), jobs_added by done. apply lookup_insert_eq.
Qed.

Lemma find_added a j :
  Store.jobs a !! ID j = None → IdempotencyKey j ≠ "" →
  Store.abs_find (Store.abs_add Store.norm a j).1 (IdempotencyKey j) = Some j.
Proof.
  intros Hf Hk. unfold Store.abs_find, Store.abs_add. rewrite Hf, !decide_False by done.
  simpl. rewrite lookup_insert_eq. simpl. rewrite lookup_insert_eq. by rewrite Store.norm_job_id.
Qed.

(** A submission under a key that no job has, or under none, stores and queues
    one job. *)
Lemma submit_new env st a key ty p :
  raft st = false → submitMu st = false → Store.rel (store st) a →
  key = "" ∨ Store.idem a !! key = None →
  in_int64 (nextJobID st + 1) → Store.jobs a !! (nextJobID st + 1) = None →
  let j := with_key (NewJob (nextJobID st + 1) ty p) key in
  ∃ st1, run env (Engine.SubmitJobIdempotent key ty p) st = (Returned (j, false, None), st1) ∧
    Store.rel (store st1) (Store.abs_add Store.norm a j).1 ∧
    Queue.items (pq st1) ≡ₚ ID j :: Queue.items (pq st) ∧ dq st1 = dq st ∧
    submitMu st1 = false ∧ clock st1 = clock st ∧ nextJobID st1 = nextJobID st + 1 ∧
    SchedulerSpec.same_workers st st1.
Proof.
  intros Hraft Hmu Hr Hk Hn Hf j. unfold Engine.SubmitJobIdempotent. case_decide as Hkey.
  - unfold Engine.SubmitJobWithContext. run_simpl. rewrite wrap64_id by done. rewrite !run_bind.
    replace (NewJob (nextJobID st + 1) ty p) with j by (unfold j; by rewrite Hkey).
    set (stl := set_nextJobID st (nextJobID st + 1)).
    destruct (run_addJob env stl a j PQ Hraft Hr Hf) as (s' & q & m & -> & Hr' & Hq).
    run_simpl. eexists. split; [reflexivity|]. done.
  - destruct Hk as [|Hi]; [done|]. run_simpl. rewrite Hmu. run_simpl. rewrite run_bind.
    unfold Engine.findOrCreate. run_simpl.
    cbn [store set_submitMu]. rewrite (Store.Find_spec _ _ key Hr).
    unfold Store.abs_find. rewrite decide_False, Hi by done. cbn [mbind option_bind]. run_simpl.
    cbn [nextJobID set_submitMu]. rewrite wrap64_id by done. rewrite run_bind. fold j.
    set (stl := set_nextJobID (set_submitMu st true) (nextJobID st + 1)).
    destruct (run_addJob env stl a j PQ Hraft Hr Hf) as (s' & q & m & -> & Hr' & Hq).
    run_simpl. eexists. split; [reflexivity|]. done.
Qed.

(** A submission under the key of a job answers with that job and leaves the
    node as it was. *)
Lemma submit_duplicate env st a key ty p j :
  submitMu st = false → Store.rel (store st) a → key ≠ "" → Store.abs_find a key = Some j →
  run env (Engine.SubmitJobIdempotent key ty p) st = (Returned (j, true, None), st).
Proof.
  intros Hmu Hr Hk Hj. unfold Engine.SubmitJobIdempotent. rewrite decide_False by done.
  run_simpl. rewrite Hmu. run_simpl. rewrite run_bind. unfold Engine.findOrCreate. run_simpl.
  cbn [store set_submitMu]. rewrite (Store.Find_spec _ _ key Hr), Hj. run_simpl.
  f_equal. destruct st; simpl in *; by subst.
Qed.

(** Idempotent submission: the first submission with a key stores and
    queues one job and releases the lock; a repeated one, whatever its type
    and priority, answers with that job as a duplicate and changes nothing. *)
Theorem idempotent_submission env st a key ty p ty' p' :
  raft st = false → submitMu st = false → Store.rel (store st) a →
  key ≠ "" → Store.idem a !! key = None →
  in_int64 (nextJobID st + 1) → Store.jobs a !! (nextJobID st + 1) = None →
  let j := with_key (NewJob (nextJobID st + 1) ty p) key in
  ∃ st1,
    run env (Engine.SubmitJobIdempotent key ty p) st = (Returned (j, false, None), st1) ∧
    Store.Get (store st1) (ID j) = Some j ∧
    Queue.items (pq st1) ≡ₚ ID j :: Queue.items (pq st) ∧ submitMu st1 = false ∧
    run env (Engine.SubmitJobIdempotent key ty' p') st1 = (Returned (j, true, None), st1).
Proof.
  intros Hraft Hmu Hr Hk Hi Hn Hf j.
  destruct (submit_new env st a key ty p Hraft Hmu Hr (or_intror Hi) Hn Hf)
    as (st1 & Hrun & Hr1 & Hq & _ & Hm & _). exists st1. split_and!; [done| |done|done|].
  - by rewrite (get_added _ a j Hf Hr1), Store.norm_job_id.
  - eapply submit_duplicate; [done|done|done|]. by apply (find_added a j).
Qed.

(** A clean new job: its type is valid UTF-8 and its numbers fit. *)
Lemma clean_NewJob id ty p :
  Utf8.Sanitize ty = ty → Codec.clean (NewJob id ty p) = NewJob id ty p.
Proof.
  intros Hty. unfold Codec.clean, NewJob. simpl. unfold Store.norm_job. simpl. rewrite Hty. done.
Qed.

(** The leader applies the command it proposed. *)
Lemma apply_proposed {S} `{Store.StoreOps S} (s : S) m off c data :
  Codec.zones_ok off → Consensus.command_ok c → Codec.Marshal off c = Some data →
  Consensus.Apply s m data = Consensus.applyCommand s m (Consensus.clean_command c).
Proof.
  intros Hz Hok Hd. assert (Hin : Codec.in_range c) by exact Hok. unfold Consensus.Apply.
  by rewrite (Codec.Unmarshal_Marshal off c data Hz Hin Hd).
Qed.

Lemma marshal_add off j :
  Codec.zones_ok off → NextRunAt j = time_zero →
  ∃ data, Codec.Marshal off (Consensus.ProposeAddJob j) = Some data.
Proof.
  intros Hz Ht. destruct (Codec.jtime_zero off Hz) as [v Hv].
  unfold Codec.Marshal. cbn [Codec.encode Consensus.Command_struct].
  unfold Consensus.command_json. cbn [Codec.encode Codec.Job_struct Codec.CronJob_struct
    Consensus.CJob Consensus.CCron Consensus.ProposeAddJob].
  unfold Codec.job_json, Codec.cron_json. rewrite Ht.
  change (NextRun Codec.zeroCron) with time_zero. rewrite Hv. by eexists.
Qed.

(** On a Raft node a submission is acknowledged, and stored by the
    committed command, but never queued: after it the job is pending and in
    neither queue of the leader. *)
Theorem raft_submission_not_queued env st a ty p :
  raft st = true → leader env = true → (∀ data, raft_apply env data = None) →
  Codec.zones_ok (located env) → Utf8.Sanitize ty = ty → in_int64 p →
  Store.rel (store st) a → in_int64 (nextJobID st + 1) →
  Store.jobs a !! (nextJobID st + 1) = None →
  let j := NewJob (nextJobID st + 1) ty p in
  ∃ st', run env (Engine.SubmitJobWithContext ty p) st = (Returned (j, None), st') ∧
    Store.Get (store st') (ID j) = Some j ∧ JStatus j = Pending ∧
    pq st' = pq st ∧ dq st' = dq st ∧ leases st' = leases st.
Proof.
  intros Hraft Hlead Happ Hz Hty Hp Hr Hn Hf j.
  destruct (Store.reliable_Add (store st) a j Hr Hf) as [He Hr'].
  destruct (marshal_add (located env) j Hz eq_refl) as [data Hd].
  unfold Engine.SubmitJobWithContext, Engine.addJob. run_simpl. rewrite wrap64_id by done. fold j.
  cbn [raft set_nextJobID]. rewrite Hraft. run_simpl. unfold propose. rewrite Hlead, Hd, Happ.
  cbn [negb]. rewrite (apply_proposed _ _ _ _ _ Hz) with (2 := Hd)
    by (split_and!; done || by vm_compute).
  unfold Consensus.applyCommand, Consensus.clean_command.
  cbn [store metrics set_nextJobID Consensus.CType Consensus.CJob Consensus.ProposeAddJob].
  rewrite decide_True by done. unfold j at 1. rewrite clean_NewJob by done. fold j.
  destruct (Store.Add (store st) j) as [s' e]. simpl in He, Hr'. subst e. run_simpl.
  pose proof (get_added s' a j Hf Hr') as Hget. rewrite Store.norm_job_id in Hget.
  eexists. split; [reflexivity|]. split; [exact Hget|done].
Qed.

(** ** Through a worker process *)

(** What the runner of a worker process reports about a job. *)
Definition outcome_of env (j : Job) : Result :=
  match execute env j with
  | None => mkResult (ID j) true None 0
  | Some e => mkResult (ID j) false (Some (exec_text e)) 0
  end.

Lemma worker_executes env st req :
  (length (buf (results st)) < cap (results st))%nat →
  ∃ st', run env (Rpc.ExecutionSubmitJob req) st = (Returned tt, st') ∧
    results st' = Chan (buf (results st) ++ [outcome_of env (Rpc.receivedJob req)])
                       (cap (results st)) ∧
    store st' = store st.
Proof.
  intros Hroom. unfold Rpc.ExecutionSubmitJob, Runner.Execute, Runner.updateStore,
    Runner.sendResult, outcome_of. run_simpl.
  destruct (execute env _) as [[]|]; run_simpl; eexists; (split; [reflexivity|]); simpl;
    rewrite (try_send_room (results st)) by done; done.
Qed.

Lemma report_carries cid env j :
  Rpc.reportedResult (Rpc.reportRequest cid (outcome_of env j)) = outcome_of env j.
Proof. unfold outcome_of. by destruct (execute env j). Qed.


End Spec.

(** ** On a node with the in-memory store *)
#[local] Existing Instance canonical_range.

Lemma demo3_nextJobID : nextJobID demo3 = 3.
Proof. vm_compute. reflexivity. Qed.

Lemma idempotent_submission_witness :
  ∃ st1 j, run quiet (Engine.SubmitJobIdempotent "k9" "email" 5) demo3
                 = (Returned (j, false, None), st1) ∧
    run quiet (Engine.SubmitJobIdempotent "k9" "sms" 7) st1 = (Returned (j, true, None), st1) ∧
    ID j = 4.
Proof.
  destruct (idempotent_submission quiet demo3 (MemoryStore.abs (store demo3)) "k9" "email" 5 "sms" 7)
    as (st1 & Hr1 & _ & _ & _ & Hr2);
    [vm_compute; reflexivity|vm_compute; reflexivity|exact demo_rel|done|vm_compute; reflexivity|
     vm_compute; split; congruence|vm_compute; reflexivity|].
  rewrite demo3_nextJobID in Hr1, Hr2.
  exists st1. eexists. split; [exact Hr1|]. split; [exact Hr2|reflexivity].
Defined.

(** A node that leads its cluster and whose log entries decode to the commands
    they encode. *)
Definition leading : Env :=
  mkEnv (λ _ _, None) (λ _, None) (λ _ _, None) false false 0 true (λ _, 0) (λ _, None) "1" "".
Definition raft_boot : State MemoryStore.MemoryStore :=
  Engine.New (Config.Default (λ _, "")) MemoryStore.NewMemoryStore true 1000.

Lemma raft_submission_not_queued_witness :
  ∃ st', run leading (Engine.SubmitJobWithContext "email" 5) raft_boot
           = (Returned (NewJob 1 "email" 5, None), st') ∧
    Store.Get (store st') 1 = Some (NewJob 1 "email" 5) ∧ Queue.items (pq st') = [].
Proof.
  destruct (raft_submission_not_queued leading raft_boot (MemoryStore.abs MemoryStore.NewMemoryStore)
    "email" 5) as (st' & Hrun & Hg & _ & Hp & _);
    [vm_compute; reflexivity|reflexivity|reflexivity|intros t; done|vm_compute; reflexivity|
     vm_compute; split; congruence| |vm_compute; split; congruence|vm_compute; reflexivity|].
  - assert (store raft_boot = MemoryStore.NewMemoryStore) as -> by (vm_compute; reflexivity).
    split; [apply MemoryStore.inv_new|reflexivity].
  - assert (Hn : nextJobID raft_boot = 0) by (vm_compute; reflexivity).
    assert (Hq : Queue.items (pq raft_boot) = []) by (vm_compute; reflexivity).
    rewrite Hn in Hrun, Hg. exists st'. rewrite Hp. split; [exact Hrun|]. split; [exact Hg|exact Hq].
Defined.


End EngineSpec.
