(* ===== verification/ServerSpec.v ===== *)
(** * What the HTTP server answers

    The requests of [Server], run against the engine on a standalone node:
    every response is well typed; submissions are validated, idempotent and
    readable afterwards; scheduled submissions wait in the delay queue;
    cancellation and the cluster's counters agree with the store. *)

From S2P Require Import Prelude Job Lease Dlq Store MemoryStore GoStrings Utf8 Json GoTime Codec Auth.
From S2P Require Import Metrics Queue Broker Events Config Consensus Cron Manager Machine Scheduler.
From S2P Require Import Engine Handlers Server Invariant HandlerProofs System EngineSpec.
From Stdlib Require Import Ascii.
Import Machine Handlers Server Invariant System.
Local Open Scope Z_scope.

Module ServerSpec.

(** ** Responses are well typed *)

(** Whatever the calls of a program answer, it does not panic and its result
    satisfies [P]. *)
Fixpoint returns {A} (P : A → Prop) (p : prog A) : Prop :=
  match p with
  | Ret x => P x
  | Panic => False
  | Act a k => ∀ x, returns P (k x)
  end.

Definition safe {A} (p : prog A) : Prop := returns (λ _, True) p.

Lemma returns_bind {A B} (P : B → Prop) (p : prog A) (f : A → prog B) :
  safe p → (∀ x, returns P (f x)) → returns P (p ≫= f).
Proof.
  unfold safe. intros Hp Hf. change (p ≫= f) with (prog_bind f p).
  induction p as [x| |X a k IH]; simpl in *; [apply Hf|done|]. intros x. apply IH, Hp.
Qed.

Lemma returns_then {A B} (P : A → Prop) (Q : B → Prop) (p : prog A) (f : A → prog B) :
  returns P p → (∀ x, P x → returns Q (f x)) → returns Q (p ≫= f).
Proof.
  intros Hp Hf. change (p ≫= f) with (prog_bind f p).
  induction p as [x| |X a k IH]; simpl in *; [by apply Hf|done|auto].
Qed.

(** A status [WriteHeader] accepts, and under a JSON content type a body that
    is a JSON value, or empty when the value could not be encoded. *)
Definition well_typed (resp : Response) : Prop :=
  100 ≤ StatusCode resp ≤ 999 ∧
  (ContentType resp = "application/json" →
   Content resp = [] ∨ is_Some (Json.parse (Content resp))).

Lemma parse_line v :
  Json.wf Json.maxNestingDepth v → Json.parse (Json.print v ++ [newline]) = Some v.
Proof.
  intros Hv. unfold Json.parse. rewrite Json.first_value_print; [done|done|].
  split; [done|]. by apply (bool_decide_unpack _).
Qed.

Lemma respond_typed code v :
  100 ≤ code ≤ 999 → (∀ j, v = Some j → Json.wf Json.maxNestingDepth j) → well_typed (respond code v).
Proof.
  intros Hc Hv. split; [done|]. intros _. destruct v as [j|]; [|by left]. right. simpl.
  rewrite parse_line by auto. eauto.
Qed.

Lemma Error_typed code msg : 100 ≤ code ≤ 999 → well_typed (Error code msg).
Proof. done. Qed.

(** An object the handlers build. *)
Ltac wf_response :=
  let j := fresh "j" in
  apply respond_typed; [done|intros j [= <-]]; cbn [Json.wf foldr fst snd app];
  split_and!;
  first [ done | apply Codec.wf_jint | apply Codec.wf_jstring | apply Json.passes_quote
        | unfold Json.maxNestingDepth; lia ].

(** The programs a handler calls do not panic. *)
Ltac safe :=
  repeat first
    [ exact I | apply returns_bind; [|intros ?] | progress case_decide | progress case_match
    | progress cbn [safe returns call mret prog_ret] | intros ? ].

Lemma safe_engine :
  (∀ key ty p, safe (Engine.SubmitJobIdempotent key ty p)) ∧
  (∀ ty p t, safe (Engine.SubmitJobAtWithContext ty p t)) ∧
  (∀ id, safe (Engine.CancelJobWithContext id)) ∧
  (∀ id sch ty p, safe (Engine.AddCronJob id sch ty p)) ∧
  (∀ id, safe (Engine.RemoveCronJob id)) ∧ safe Engine.ListCronJobs ∧ (∀ e, safe (errorBody e)).
Proof.
  unfold Engine.SubmitJobIdempotent, Engine.findOrCreate, Engine.SubmitJobAtWithContext,
    Engine.SubmitJobWithContext, Engine.CancelJobWithContext, Engine.AddCronJob, Engine.RemoveCronJob,
    Engine.ListCronJobs, Engine.addJob, Enqueue, errorBody, safe.
  split_and!; intros; safe.
Qed.

Ltac typed :=
  repeat first
    [ by apply Error_typed
    | apply returns_bind; [first [by apply safe_engine|by safe]|intros ?]
    | progress case_decide | progress case_match
    | progress cbn [returns mret prog_ret] ].

Section Typed.
Context (located : Time → Z) (nilJobs : bool) (ui_file : string → Response) (metrics_page : Response)
  (mux_redirect : Z).
Implicit Types r : Request.

Lemma jstrings_wf d ss : foldr (λ x Q, Json.wf d x ∧ Q) True (Codec.jstring <$> ss).
Proof. induction ss as [|s ss IH]; [done|]. split; [apply Codec.wf_jstring|exact IH]. Qed.

Lemma node_wf nd v : node_json located nd = Some v → Json.wf (Json.maxNestingDepth - 1) v.
Proof.
  intros (t & Ht & [= <-])%bind_Some. cbn [Json.wf foldr fst snd].
  split_and!;
    first [ done | apply Codec.wf_jint | apply Codec.wf_jstring | by eapply Codec.wf_jtime
          | unfold Json.maxNestingDepth; lia | idtac ].
  destruct (Manager.NodeTopics nd) as [|s ts]; [done|]. split; [by vm_compute|].
  exact (jstrings_wf _ (s :: ts)).
Qed.

Lemma nodes_wf ns v : nodes_json located ns = Some v → Json.wf Json.maxNestingDepth v.
Proof.
  intros (js & Hjs & ->)%fmap_Some. apply mapM_Some in Hjs. split; [done|].
  induction Hjs as [|nd j ns js Hn _ IH]; [done|]. split; [by eapply node_wf|exact IH].
Qed.

Lemma Nodes_typed r : returns well_typed (Nodes located r).
Proof.
  unfold Nodes, WriteError. typed; [wf_response|].
  apply respond_typed; [done|]. apply nodes_wf.
Qed.

Lemma SubmitJobHandler_typed r : returns well_typed (SubmitJobHandler r).
Proof.
  unfold SubmitJobHandler, submitScheduled, submitNow, scheduledResponse, submittedResponse.
  typed; wf_response.
Qed.

Lemma ListJobs_typed r : returns well_typed (ListJobsHandler located nilJobs r).
Proof.
  unfold ListJobsHandler. typed. apply respond_typed; [done|]. apply Codec.list_json_wf.
Qed.

Lemma GetJob_typed r : returns well_typed (GetJobHandler located r).
Proof.
  unfold GetJobHandler. typed. apply respond_typed; [done|]. apply Codec.encode_printable.
Qed.

Lemma Cancel_typed r : returns well_typed (CancelJobHandler r).
Proof. unfold CancelJobHandler. typed. wf_response. Qed.

Lemma CreateCron_typed r : returns well_typed (CreateCronJobHandler r).
Proof. unfold CreateCronJobHandler, idStatus. cbv zeta. typed. wf_response. Qed.

Lemma ListCrons_typed r : returns well_typed (ListCronJobsHandler located r).
Proof.
  unfold ListCronJobsHandler. typed. apply respond_typed; [done|]. apply Codec.list_json_wf.
Qed.

Lemma DeleteCron_typed r : returns well_typed (DeleteCronJobHandler r).
Proof. unfold DeleteCronJobHandler, idStatus. cbv zeta. typed. wf_response. Qed.

Lemma Status_typed r : returns well_typed (Status r).
Proof. unfold Status, status_json, WriteError. typed; wf_response. Qed.

Lemma RaftStatus_typed id r : returns well_typed (RaftStatus id r).
Proof. unfold RaftStatus. typed. wf_response. Qed.

Lemma NodeRoute_typed r : returns well_typed (NodeRoute located r).
Proof.
  unfold NodeRoute, WriteError. cbv zeta. case_decide; [apply Nodes_typed|]. typed; wf_response.
Qed.

Lemma requireRoles_typed cfg roles next r :
  returns well_typed (next r) → returns well_typed (requireRoles cfg roles next r).
Proof.
  intros Hn. unfold requireRoles. case_match; [done|]. apply returns_bind; [done|]. intros now.
  destruct (Auth.RequireRoles _ _ _ _) as [code msg|] eqn:E; [|done]. unfold writeAuthError.
  apply Auth.RequireRoles_status in E. cbn [returns mret prog_ret].
  apply respond_typed; [by destruct E as [-> | ->]|intros j [= <-]]. cbn [Json.wf foldr fst snd].
  split_and!; first [done|apply Codec.wf_jstring].
Qed.

Lemma Leases_typed r : returns well_typed (Leases r).
Proof. cbn [returns Leases mret prog_ret]. wf_response. Qed.

Lemma Failover_typed r : returns well_typed (FailoverSimulate r).
Proof. cbn [returns FailoverSimulate mret prog_ret]. wf_response. Qed.

Lemma redirect_typed code p r : 100 ≤ code ≤ 999 → well_typed (redirect code p r).
Proof. intros Hc. split; [done|]. simpl. by case_match. Qed.

Hypothesis ui_typed : ∀ p, well_typed (ui_file p).
Hypothesis metrics_typed : well_typed metrics_page.
Hypothesis redirect_code : mux_redirect = 301 ∨ mux_redirect = 307.

End Typed.

(** ** The path of a job *)

(** A segment of digits. *)
Definition numeric (x : string) : Prop :=
  str x ≠ [] ∧ Forall (λ c, is_Some (GoStrings.digit c)) (str x).

Lemma numeric_Itoa z : 0 ≤ z → numeric (GoStrings.Itoa z).
Proof.
  intros Hz. destruct (GoStrings.Itoa_bytes z) as (ds & Hn & Hb). unfold numeric. rewrite Hb.
  destruct (Z.ltb_spec z 0); [lia|]. destruct Hn as [H1 H2 _ _]. done.
Qed.

Lemma numeric_notin x c : numeric x → GoStrings.digit c = None → c ∉ str x.
Proof.
  intros [_ Hx] Hc Hin. rewrite Forall_forall in Hx. destruct (Hx _ Hin) as [d Hd]. congruence.
Qed.

Lemma cleanPath_job x : numeric x → cleanPath ("/jobs/" +:+ x) = "/jobs/" +:+ x.
Proof.
  intros Hx. pose proof (numeric_notin x "/"%char Hx eq_refl) as Hs.
  pose proof (numeric_notin x "."%char Hx eq_refl) as Hd. destruct Hx as [Hne _].
  assert (Hsplit : GoStrings.split_on "/" ("/"%char :: str "jobs" ++ "/"%char :: str x)
                   = [[]; str "jobs"; str x]).
  { change ("/"%char :: str "jobs" ++ "/"%char :: str x) with
      ([] ++ "/"%char :: str "jobs" ++ "/"%char :: str x).
    rewrite GoStrings.split_app by (by apply not_elem_of_nil).
    rewrite GoStrings.split_app by (by apply (bool_decide_unpack _)).
    by rewrite GoStrings.split_plain. }
  unfold cleanPath. rewrite GoStrings.to_bytes_append.
  change (str "/jobs/" ++ str x) with ("/"%char :: str "jobs" ++ "/"%char :: str x).
  cbv beta iota zeta. destruct (decide ("/"%char = "/"%char)) as [_|]; [|done]. rewrite Hsplit.
  assert (Hf : foldl push_segment [] [[]; str "jobs"; str x] = [str x; str "jobs"]).
  { cbn [foldl]. unfold push_segment at 3. rewrite decide_True by (by left).
    unfold push_segment at 2. rewrite !decide_False by (by vm_compute; naive_solver).
    unfold push_segment. rewrite !decide_False; [done|..].
    - intros E. apply Hd. rewrite E. by apply (bool_decide_unpack _).
    - intros [E|E]; [done|]. apply Hd. rewrite E. by apply (bool_decide_unpack _). }
  rewrite Hf. change (join_segments (reverse [str x; str "jobs"])) with
    ("/"%char :: str "jobs" ++ "/"%char :: str x ++ []). rewrite app_nil_r.
  rewrite decide_False.
  - change ("/"%char :: str "jobs" ++ "/"%char :: str x) with (str ("/jobs/" +:+ x)).
    apply Codec.of_bytes_str.
  - intros [E _]. destruct (exists_last Hne) as (l & c & Hc). rewrite Hc in E, Hs.
    change ("/"%char :: str "jobs" ++ "/"%char :: l ++ [c]) with
      (("/"%char :: str "jobs" ++ "/"%char :: l) ++ [c]) in E.
    rewrite last_snoc in E. injection E as ->. set_solver.
Qed.

Lemma segment_job x : numeric x → segment "/jobs/" ("/jobs/" +:+ x) = Some x.
Proof.
  intros Hx. pose proof (numeric_notin x "/"%char Hx eq_refl) as Hs.
  assert (Hp : GoStrings.HasPrefix ("/jobs/" +:+ x) "/jobs/" = true) by reflexivity.
  unfold segment, GoStrings.TrimPrefix. rewrite Hp.
  assert (Hdrop : drop (length (str "/jobs/")) (str ("/jobs/" +:+ x)) = str x) by reflexivity.
  rewrite Hdrop, Codec.of_bytes_str. rewrite decide_False; [done|].
  intros [->|?]; [|done]. by destruct Hx.
Qed.

(** Two prefixes of one path. *)
Lemma prefix_clash path p q :
  GoStrings.HasPrefix path p = true → GoStrings.HasPrefix path q = true →
  firstn (length (str q)) (str p) = firstn (length (str p)) (str q).
Proof.
  unfold GoStrings.HasPrefix, GoStrings.has_prefix. rewrite !bool_decide_eq_true. intros Hp Hq.
  transitivity (firstn (length (str q)) (firstn (length (str p)) (str path))); [by rewrite Hp|].
  rewrite take_take, Nat.min_comm, <-take_take. by rewrite Hq.
Qed.

Lemma segment_prefix prefix path id :
  segment prefix path = Some id → GoStrings.HasPrefix path prefix = true.
Proof. unfold segment. by destruct (GoStrings.HasPrefix path prefix). Qed.

(** A path below [p] is none of the others. *)
Ltac other_paths Hp :=
  repeat first
    [ rewrite decide_False by (intros ->; vm_compute in Hp; discriminate Hp)
    | match goal with
      | |- context [GoStrings.HasPrefix ?path ?q] =>
          let E := fresh in
          destruct (GoStrings.HasPrefix path q) eqn:E;
          [exfalso; apply (prefix_clash path _ q Hp) in E; vm_compute in E; discriminate E|]
      end ].

Lemma matchRoute_jobs_segment m path id :
  cleanPath path = path → segment "/jobs/" path = Some id →
  matchRoute m path =
    if isGet m then (if decide (id = "leases") then RLeases else RGetJob id)
    else if decide (m = MethodDelete) then RCancelJob id else RRoot.
Proof.
  intros Hc Hs. pose proof (segment_prefix _ _ _ Hs) as Hp. unfold matchRoute. rewrite Hc.
  rewrite decide_False by (by intros []). other_paths Hp. by rewrite Hs.
Qed.

Lemma matchRoute_cron_segment m path id :
  cleanPath path = path → segment "/cron/" path = Some id →
  matchRoute m path = if decide (m = MethodDelete) then RDeleteCron id else RRoot.
Proof.
  intros Hc Hs. pose proof (segment_prefix _ _ _ Hs) as Hp.
  assert (Hj : segment "/jobs/" path = None).
  { unfold segment at 1. other_paths Hp. done. }
  unfold matchRoute. rewrite Hc, Hj, Hs. rewrite decide_False by (by intros []). by other_paths Hp.
Qed.

Lemma matchRoute_node m path id :
  cleanPath path = path → segment "/cluster/nodes/" path = Some id → matchRoute m path = RClusterNode.
Proof.
  intros Hc Hs. pose proof (segment_prefix _ _ _ Hs) as Hp. unfold matchRoute. rewrite Hc.
  rewrite decide_False by (by intros []). rewrite Hp. by other_paths Hp.
Qed.

Lemma matchRoute_job m x : numeric x →
  matchRoute m ("/jobs/" +:+ x) =
    if isGet m then RGetJob x else if decide (m = MethodDelete) then RCancelJob x else RRoot.
Proof.
  intros Hx. rewrite (matchRoute_jobs_segment m _ x) by (by apply cleanPath_job || by apply segment_job).
  rewrite (decide_False (P := x = "leases")); [done|].
  intros ->. destruct Hx as [_ Hx]. apply Forall_inv in Hx. by destruct Hx.
Qed.

(** ** Who may do what *)

(** The table of [docs/api.md]: the roles each protected endpoint asks for. *)
Definition viewers : list string := [Auth.RoleViewer; Auth.RoleSubmitter; Auth.RoleAdmin].
Definition submitters : list string := [Auth.RoleSubmitter; Auth.RoleAdmin].
Definition admins : list string := [Auth.RoleAdmin].

Definition documented (m path : string) : option (list string) :=
  if decide (m = MethodGet) then
    if decide (path ∈ ["/jobs"; "/cron"; "/cluster/status"; "/cluster/nodes"; "/cluster/raft"])
    then Some viewers else (λ _, viewers) <$> segment "/jobs/" path
  else if decide (m = MethodPost) then
    if decide (path = "/jobs") then Some submitters
    else if decide (path ∈ ["/cron"; "/cluster/failover-simulate"]) then Some admins else None
  else if decide (m = MethodDelete) then
    match segment "/jobs/" path with
    | Some _ => Some submitters
    | None => if decide (is_Some (segment "/cron/" path) ∨ is_Some (segment "/cluster/nodes/" path))
              then Some admins else None
    end
  else None.

(** The same server with authorization switched off. *)
Definition unprotected (c : Config.Config) : Config.Config :=
  Config.mkConfig (Config.WorkerCount c) (Config.WorkerID c) (Config.HeartbeatTimeout c)
    (Config.MaxRetries c) (Config.MaxBackoff c) (Config.ResultBuffer c) (Config.WorkerExecutionTimeout c)
    (Config.DelayQueuePollInterval c) (Config.RateLimit c) (Config.RateBurst c)
    (Config.BreakerFailureThreshold c) (Config.BreakerResetTimeout c) (Config.ControllerGRPCPort c)
    (Config.WorkerGRPCPort c) (Config.StorageType c) (Config.StoragePath c) (Config.RaftEnabled c)
    (Config.RaftNodeID c) (Config.RaftAddr c) (Config.RaftDataDir c) (Config.JWTSecret c) false.

Section Access.
Context `{GoRange} {T : Type} `{Store.StoreOps T}.
Context (located : Time → Z) (nilJobs : bool) (ui_file : string → Response) (metrics_page : Response)
  (mux_redirect : Z).
Implicit Types (st : State T) (r : Request).
#[local] Abbreviation dispatch := (dispatch located nilJobs ui_file metrics_page mux_redirect).
#[local] Abbreviation serve := (serve located nilJobs ui_file metrics_page mux_redirect).

(** A documented endpoint is registered behind exactly its roles. *)
Lemma dispatch_documented r roles cfg n w :
  cleanPath (Path r) = Path r → documented (Method r) (Path r) = Some roles →
  ∃ next r', Authorization r' = Authorization r ∧
    dispatch cfg n w r = requireRoles cfg roles next r' ∧ dispatch (unprotected cfg) n w r = next r'.
Proof.
  intros Hc Hd. unfold documented in Hd. unfold Server.dispatch.
  destruct (decide (Method r = MethodGet)) as [Hm|].
  { rewrite Hm in *. case_decide as Hp.
    - simplify_eq. repeat (apply elem_of_cons in Hp as [Hp|Hp]); [..|by apply not_elem_of_nil in Hp];
        rewrite Hp; eexists _, r; split_and!; reflexivity.
    - destruct (segment "/jobs/" (Path r)) as [id|] eqn:Hs; simplify_eq/=.
      rewrite (matchRoute_jobs_segment _ _ _ Hc Hs). change (isGet MethodGet) with true. cbv beta iota.
      case_decide; [eexists _, r|eexists _, (withPathID r id)]; split_and!; reflexivity. }
  destruct (decide (Method r = MethodPost)) as [Hm|].
  { rewrite Hm in *. destruct (decide (Path r = "/jobs")) as [Hp|]; simplify_eq.
    - rewrite Hp. eexists _, r; split_and!; reflexivity.
    - destruct (decide (Path r ∈ _)) as [Hp|]; simplify_eq.
      repeat (apply elem_of_cons in Hp as [Hp|Hp]); [..|by apply not_elem_of_nil in Hp];
        rewrite Hp; eexists _, r; split_and!; reflexivity. }
  destruct (decide (Method r = MethodDelete)) as [Hm|]; [|done]. rewrite Hm in *.
  destruct (segment "/jobs/" (Path r)) as [id|] eqn:Hs; simplify_eq.
  { rewrite (matchRoute_jobs_segment _ _ _ Hc Hs). eexists _, (withPathID r id); split_and!; reflexivity. }
  destruct (decide (is_Some _ ∨ is_Some _)) as [[[id Hs']|[id Hs']]|]; simplify_eq.
  - rewrite (matchRoute_cron_segment _ _ _ Hc Hs'). eexists _, (withPathID r id); split_and!; reflexivity.
  - rewrite (matchRoute_node _ _ _ Hc Hs'). eexists _, r; split_and!; reflexivity.
Qed.

Lemma documented_admin m path roles : documented m path = Some roles → Auth.RoleAdmin ∈ roles.
Proof.
  unfold documented. intros Hd. repeat case_match; simplify_option_eq; apply (bool_decide_unpack _); done.
Qed.

Lemma Authenticate_status secret hdr now code msg :
  Auth.Authenticate secret hdr now = Auth.Reject code msg → code = 401.
Proof. unfold Auth.Authenticate. intros Ha. repeat case_match; simplify_eq; reflexivity. Qed.

(** C22. The server enforces the documented table: on an endpoint of it, a
    request without a valid token is answered 401, one whose role the table
    does not list 403, both with the node unchanged, and one whose role it lists
    is served exactly as if authorization were switched off. *)
Theorem access_matrix env cfg n drawn r roles st :
  Config.AuthEnabled cfg = true → cleanPath (Path r) = Path r →
  documented (Method r) (Path r) = Some roles →
  match bearer cfg (clock st) r with
  | None => ∃ id msg, run env (serve cfg n drawn r) st = (Returned (id, writeAuthError 401 msg), st)
  | Some c =>
      if decide (Auth.Role c ∈ roles) then
        run env (serve cfg n drawn r) st = run env (serve (unprotected cfg) n drawn r) st
      else ∃ id msg, run env (serve cfg n drawn r) st = (Returned (id, writeAuthError 403 msg), st)
  end.
Proof.
  intros Ha Hc Hd. pose proof (documented_admin _ _ _ Hd) as Hadm.
  destruct (dispatch_documented r roles cfg n (Wrapped (Wrapped Conn)) Hc Hd) as (next & r' & Hr & H1 & H2).
  unfold Server.serve, RequestID, Tracing, Logging. rewrite !run_bind, H1, H2.
  rewrite run_requireRoles by done. rewrite Hr. unfold bearer, Auth.RequireRoles.
  destruct (Auth.Authenticate _ _ _) as [code msg|c] eqn:Hau.
  { apply Authenticate_status in Hau as ->. eexists _, _. reflexivity. }
  destruct (Auth.RoleSatisfies (Auth.Role c) roles) eqn:Hs; cbn [negb].
  - apply Auth.RoleSatisfies_spec in Hs. rewrite decide_True; [done|].
    destruct Hs as [-> | ?]; done.
  - rewrite decide_False; [by eexists _, _|].
    intros Hin. assert (Ht : Auth.RoleSatisfies (Auth.Role c) roles = true)
      by (apply Auth.RoleSatisfies_spec; by right). congruence.
Qed.
End Access.

(** ** Admission *)

Section Requests.
Context `{GoRange} {T : Type} `{Store.ReliableStore T}.
Context (located : Time → Z) (nilJobs : bool) (ui_file : string → Response) (metrics_page : Response)
  (mux_redirect : Z).
Implicit Types (st : State T) (a : Store.Abs) (r : Request).

#[local] Abbreviation serve := (serve located nilJobs ui_file metrics_page mux_redirect).

(** The request passes the authorization in front of a route. *)
Definition admitted (cfg : Config.Config) (roles : list string) (now : Time) r : bool :=
  negb (Config.AuthEnabled cfg) ||
  match Auth.RequireRoles (Config.JWTSecret cfg) roles (Authorization r) now with
  | Auth.Pass _ => true
  | Auth.Reject _ _ => false
  end.

Lemma run_admitted env cfg roles next r st :
  admitted cfg roles (clock st) r = true →
  run env (requireRoles cfg roles next r) st = run env (next r) st.
Proof.
  unfold admitted. destruct (Config.AuthEnabled cfg) eqn:Ha; simpl.
  - rewrite run_requireRoles by done. by destruct (Auth.RequireRoles _ _ _ _).
  - intros _. unfold requireRoles. by rewrite Ha.
Qed.

(** The id a response carries. *)
Definition response_id (drawn : string) r : string :=
  if decide (XRequestID r = "") then drawn else XRequestID r.

Lemma run_serve env cfg n drawn r st p st' resp :
  dispatch located nilJobs ui_file metrics_page mux_redirect cfg n (Wrapped (Wrapped Conn)) r = p →
  run env p st = (Returned resp, st') →
  run env (serve cfg n drawn r) st = (Returned (response_id drawn r, resp), st').
Proof.
  intros <- Hrun. unfold Server.serve, RequestID, Tracing, Logging. rewrite run_bind, Hrun. done.
Qed.

(** ** Submissions *)

Definition submission r : Prop := Method r = MethodPost ∧ Path r = "/jobs".

(** A request to run a job at once, and one to run it later. *)
Definition immediate r (req : SubmitJobRequest) : Prop :=
  submission r ∧ decodeSubmit (Body r) = Some req ∧
  ReqType req ≠ "" ∧ 0 ≤ ReqPriority req ∧ GoStrings.TrimSpace (ReqRunAt req) = "".

Definition postponed r (req : SubmitJobRequest) (runAt : Time) (zone : Z) : Prop :=
  submission r ∧ decodeSubmit (Body r) = Some req ∧
  ReqType req ≠ "" ∧ 0 ≤ ReqPriority req ∧ GoStrings.TrimSpace (ReqRunAt req) ≠ "" ∧
  GoTime.Parse (str (ReqRunAt req)) = Some (runAt, zone).

Lemma matchRoute_jobs m : matchRoute m "/jobs" = RJobs.
Proof. unfold matchRoute. vm_compute (cleanPath "/jobs"). rewrite decide_False by (by intros []). reflexivity. Qed.

Lemma run_submission env cfg n drawn r st resp st' :
  submission r → admitted cfg submitters (clock st) r = true →
  run env (SubmitJobHandler r) st = (Returned resp, st') →
  run env (serve cfg n drawn r) st = (Returned (response_id drawn r, resp), st').
Proof.
  intros [Hm Hp] Ha Hrun. eapply run_serve; [reflexivity|]. unfold dispatch.
  rewrite Hp, matchRoute_jobs, decide_True by done. unfold requireSubmitter.
  by rewrite run_admitted.
Qed.

Lemma run_immediate env cfg n drawn r req st j (dup : bool) st' :
  immediate r req → admitted cfg submitters (clock st) r = true →
  run env (Engine.SubmitJobIdempotent (ReqKey req) (ReqType req) (ReqPriority req)) st =
    (Returned (j, dup, None), st') →
  run env (serve cfg n drawn r) st =
    (Returned (response_id drawn r,
       respond (if dup then StatusOK else StatusCreated) (Some (submittedResponse j))), st').
Proof.
  intros (Hs & Hd & Ht & Hp & Hw) Ha Hrun. apply run_submission; [done..|].
  unfold SubmitJobHandler. destruct Hs as [Hm _]. rewrite Hm, Hd.
  rewrite decide_False by (by intros []). rewrite decide_False by done.
  destruct (Z.ltb_spec (ReqPriority req) 0); [lia|]. rewrite Hw, decide_False by (by intros []).
  unfold submitNow. rewrite run_bind, Hrun. done.
Qed.

Lemma run_postponed env cfg n drawn r req runAt zone st a :
  postponed r req runAt zone → admitted cfg submitters (clock st) r = true → clock st < runAt →
  raft st = false → Store.rel (store st) a →
  in_int64 (nextJobID st + 1) → Store.jobs a !! (nextJobID st + 1) = None →
  let j := with_nextRunAt (with_status (NewJob (nextJobID st + 1) (ReqType req) (ReqPriority req))
             Scheduled) runAt in
  ∃ st1,
    run env (serve cfg n drawn r) st =
      (Returned (response_id drawn r,
         respond StatusCreated (Some (scheduledResponse (ID j) (GoTime.Format false zone runAt)))), st1) ∧
    Store.rel (store st1) (Store.abs_add Store.norm a j).1 ∧
    Queue.items (dq st1) ≡ₚ ID j :: Queue.items (dq st) ∧ pq st1 = pq st ∧
    raft st1 = false ∧ clock st1 = clock st ∧ nextJobID st1 = nextJobID st + 1.
Proof.
  intros (Hs & Hd & Ht & Hp & Hw & Hz) Ha Hc Hraft Hr Hn Hf j.
  set (stl := set_nextJobID st (nextJobID st + 1)).
  destruct (EngineSpec.run_addJob env stl a j DQ Hraft Hr Hf) as (s' & q & m & Hadd & Hr' & Hq).
  eexists. split.
  - apply run_submission; [done..|]. unfold SubmitJobHandler. destruct Hs as [Hm _].
    rewrite Hm, Hd. rewrite decide_False by (by intros []). rewrite decide_False by done.
    destruct (Z.ltb_spec (ReqPriority req) 0); [lia|]. rewrite decide_True by done.
    unfold submitScheduled. rewrite Hz. run_simpl.
    destruct (Z.ltb_spec (clock st) runAt); [|lia]. cbn [negb].
    unfold Engine.SubmitJobAtWithContext. run_simpl. rewrite wrap64_id by done.
    fold j stl. rewrite !run_bind, Hadd. run_simpl. reflexivity.
  - done.
Qed.

(** C26. Idempotency on the wire, for submissions without [run_at] on a
    standalone node whose store works, whose next id is free and on which no
    other submission is in progress: the first POST with a key is answered 201 and stores and queues
    one job; a repeated one, with any type and priority, is answered 200 with
    the same body and leaves the node exactly as it was. *)
Theorem http_idempotent env cfg n drawn drawn' r r' req req' st a :
  raft st = false → submitMu st = false → Store.rel (store st) a →
  immediate r req → admitted cfg submitters (clock st) r = true →
  immediate r' req' → admitted cfg submitters (clock st) r' = true →
  ReqKey req ≠ "" → ReqKey req' = ReqKey req → Store.idem a !! ReqKey req = None →
  in_int64 (nextJobID st + 1) → Store.jobs a !! (nextJobID st + 1) = None →
  let j := with_key (NewJob (nextJobID st + 1) (ReqType req) (ReqPriority req)) (ReqKey req) in
  let body := Some (submittedResponse j) in
  ∃ st1,
    run env (serve cfg n drawn r) st =
      (Returned (response_id drawn r, respond StatusCreated body), st1) ∧
    Store.Get (store st1) (ID j) = Some j ∧
    Queue.items (pq st1) ≡ₚ ID j :: Queue.items (pq st) ∧
    run env (serve cfg n drawn' r') st1 =
      (Returned (response_id drawn' r', respond StatusOK body), st1).
Proof.
  intros Hraft Hmu Hr Hi Ha Hi' Ha' Hk Hk' Hnew Hn Hf j body.
  destruct (EngineSpec.submit_new env st a (ReqKey req) (ReqType req) (ReqPriority req) Hraft Hmu Hr
    (or_intror Hnew) Hn Hf) as (st1 & Hrun & Hr1 & Hq & _ & Hm1 & Hc1 & _).
  exists st1. split_and!; [|by rewrite (EngineSpec.get_added _ a j Hf Hr1), Store.norm_job_id|done|].
  - by apply (run_immediate env cfg n drawn r req st j false).
  - apply (run_immediate env cfg n drawn' r' req' st1 j true); [done|by rewrite Hc1|].
    rewrite Hk'. eapply EngineSpec.submit_duplicate; [done|done|done|]. by apply (EngineSpec.find_added a j).
Qed.

(** Reading a stored job that never waited. *)
Lemma run_get env cfg n drawn r st j :
  Codec.zones_ok located → Codec.ints_ok j → 0 ≤ ID j → NextRunAt j = time_zero →
  Store.Get (store st) (ID j) = Some j →
  Method r = MethodGet → Path r = "/jobs/" +:+ GoStrings.Itoa (ID j) →
  admitted cfg viewers (clock st) r = true →
  ∃ body, run env (serve cfg n drawn r) st =
      (Returned (response_id drawn r, mkResponse StatusOK "application/json" "" body), st) ∧
    Codec.Decode body = Some (Codec.clean j).
Proof.
  intros Hz Hi Hpos Ht Hget Hm Hpath Ha. destruct (Codec.jtime_zero located Hz) as [t Htz].
  assert (Hv : is_Some (Codec.encode located j)).
  { cbn [Codec.encode Codec.Job_struct]. unfold Codec.job_json. rewrite Ht, Htz. eauto. }
  destruct Hv as [v Hv]. exists (Json.print v ++ [newline]). split.
  - apply run_serve with (p := requireViewer cfg (GetJobHandler located)
      (withPathID r (GoStrings.Itoa (ID j)))).
    + unfold dispatch. rewrite Hpath, matchRoute_job by (apply numeric_Itoa; lia). by rewrite Hm.
    + unfold requireViewer. rewrite run_admitted by done.
      unfold GetJobHandler. cbn [PathID withPathID]. rewrite GoStrings.Atoi_Itoa by apply Hi.
      unfold Engine.GetJob. run_simpl. rewrite Hget. unfold respond. by rewrite Hv.
  - apply (Codec.Decode_Marshal located); [done|exact Hi|by unfold Codec.Marshal; rewrite Hv|].
    split; [done|]. by apply (bool_decide_unpack _).
Qed.

(** A submitted job can be read back: after a POST without [run_at] the
    server answers a GET for the id with 200 and a body that decodes to the
    job, pending, with the type and the priority that were sent. *)
Theorem http_submit_get env cfg n drawn drawn' r r' req st a :
  Codec.zones_ok located → raft st = false → submitMu st = false → Store.rel (store st) a →
  immediate r req → admitted cfg submitters (clock st) r = true →
  ReqKey req = "" ∨ Store.idem a !! ReqKey req = None → in_int64 (ReqPriority req) →
  0 ≤ nextJobID st → in_int64 (nextJobID st + 1) → Store.jobs a !! (nextJobID st + 1) = None →
  Method r' = MethodGet → Path r' = "/jobs/" +:+ GoStrings.Itoa (nextJobID st + 1) →
  admitted cfg viewers (clock st) r' = true →
  let j := with_key (NewJob (nextJobID st + 1) (ReqType req) (ReqPriority req)) (ReqKey req) in
  ∃ st1 body,
    run env (serve cfg n drawn r) st =
      (Returned (response_id drawn r, respond StatusCreated (Some (submittedResponse j))), st1) ∧
    run env (serve cfg n drawn' r') st1 =
      (Returned (response_id drawn' r', mkResponse StatusOK "application/json" "" body), st1) ∧
    Codec.Decode body = Some (Codec.clean j).
Proof.
  intros Hz Hraft Hmu Hr Hi Ha Hk Hp Hpos Hn Hf Hm Hpath Ha' j.
  destruct (EngineSpec.submit_new env st a (ReqKey req) (ReqType req) (ReqPriority req) Hraft Hmu Hr
    Hk Hn Hf) as (st1 & Hrun & Hr1 & Hq & _ & _ & Hc1 & _). fold j in Hrun, Hr1.
  pose proof (EngineSpec.get_added _ a j Hf Hr1) as Hget. rewrite Store.norm_job_id in Hget.
  assert (Hints : Codec.ints_ok j) by (split_and!; [done|done|by vm_compute..]).
  assert (Hpos' : 0 ≤ ID j) by (change (0 ≤ nextJobID st + 1); lia). rewrite <-Hc1 in Ha'.
  destruct (run_get env cfg n drawn' r' st1 j Hz Hints Hpos' eq_refl Hget Hm Hpath Ha') as (body & Hbody & Hdec).
  exists st1, body. split_and!; [|done|done]. by apply (run_immediate env cfg n drawn r req st j false).
Qed.

(** A submission for later waits in the delay queue: a POST with a future
    [run_at] is answered 201 and stores one job, scheduled for the instant the
    text denotes, which enters the delay queue and not the priority queue. *)
Theorem http_scheduled env cfg n drawn r req runAt zone st a :
  postponed r req runAt zone → admitted cfg submitters (clock st) r = true → clock st < runAt →
  raft st = false → Store.rel (store st) a →
  in_int64 (nextJobID st + 1) → Store.jobs a !! (nextJobID st + 1) = None →
  ∃ st1 j,
    run env (serve cfg n drawn r) st =
      (Returned (response_id drawn r,
         respond StatusCreated (Some (scheduledResponse (ID j) (GoTime.Format false zone runAt)))), st1) ∧
    Store.Get (store st1) (nextJobID st + 1) = Some j ∧
    JType j = ReqType req ∧ Priority j = ReqPriority req ∧ JStatus j = Scheduled ∧ NextRunAt j = runAt ∧
    Queue.items (dq st1) ≡ₚ nextJobID st + 1 :: Queue.items (dq st) ∧ pq st1 = pq st.
Proof.
  intros Hp Ha Hc Hraft Hr Hn Hf.
  destruct (run_postponed env cfg n drawn r req runAt zone st a Hp Ha Hc Hraft Hr Hn Hf)
    as (st1 & Hrun & Hr1 & Hq & Hpq & _). set (j := with_nextRunAt _ _) in *.
  exists st1, j. split; [exact Hrun|]. split; [|done].
  by rewrite <-(Store.norm_job_id j), <-(EngineSpec.get_added _ a j Hf Hr1).
Qed.

(** A key does not protect a scheduled submission: two requests with a
    future [run_at] and one idempotency key are both answered 201 and leave two
    jobs, neither of which carries the key. *)
Theorem scheduled_not_idempotent env cfg n drawn drawn' r req runAt zone st a :
  postponed r req runAt zone → admitted cfg submitters (clock st) r = true → clock st < runAt →
  raft st = false → Store.rel (store st) a → in_int64 (nextJobID st + 2) → 0 ≤ nextJobID st →
  Store.jobs a !! (nextJobID st + 1) = None → Store.jobs a !! (nextJobID st + 2) = None →
  ∃ resp1 resp2 st1 st2 j1 j2,
    run env (serve cfg n drawn r) st = (Returned (response_id drawn r, resp1), st1) ∧
    run env (serve cfg n drawn' r) st1 = (Returned (response_id drawn' r, resp2), st2) ∧
    StatusCode resp1 = StatusCreated ∧ StatusCode resp2 = StatusCreated ∧
    Store.Get (store st2) (nextJobID st + 1) = Some j1 ∧ IdempotencyKey j1 = "" ∧
    Store.Get (store st2) (nextJobID st + 2) = Some j2 ∧ IdempotencyKey j2 = "".
Proof.
  intros Hp Ha Hc Hraft Hr Hn Hpos Hf1 Hf2.
  assert (Hn1 : in_int64 (nextJobID st + 1)) by (unfold in_int64, minInt64 in *; lia).
  destruct (run_postponed env cfg n drawn r req runAt zone st a Hp Ha Hc Hraft Hr Hn1 Hf1)
    as (st1 & Hrun1 & Hr1 & _ & _ & Hraft1 & Hc1 & Hn2).
  set (j1 := with_nextRunAt _ _) in *. set (a1 := (Store.abs_add Store.norm a j1).1) in *.
  assert (E2 : nextJobID st1 + 1 = nextJobID st + 2) by lia.
  pose proof (EngineSpec.jobs_added a j1 Hf1) as Hj1. fold a1 in Hj1.
  change (ID j1) with (nextJobID st + 1) in Hj1.
  assert (Hnew : Store.jobs a1 !! (nextJobID st1 + 1) = None)
    by (by rewrite E2, Hj1, lookup_insert_ne by lia).
  destruct (run_postponed env cfg n drawn' r req runAt zone st1 a1 Hp) as (st2 & Hrun2 & Hr2 & _);
    [by rewrite Hc1|by rewrite Hc1|done|done|by rewrite E2|done|].
  set (j2 := with_nextRunAt (with_status (NewJob (nextJobID st1 + 1) _ _) _) _) in *.
  pose proof (EngineSpec.jobs_added a1 j2 Hnew) as Hj2.
  change (ID j2) with (nextJobID st1 + 1) in Hj2. rewrite E2 in Hj2.
  eexists _, _, st1, st2, j1, j2.
  split_and!; [exact Hrun1|exact Hrun2|done|done| |done| |done]; rewrite (Store.Get_spec _ _ _ Hr2), Hj2.
  - by rewrite lookup_insert_ne, Hj1, lookup_insert_eq, Store.norm_job_id by lia.
  - by rewrite lookup_insert_eq, Store.norm_job_id.
Qed.

(** What the server accepts as a submission. *)
Definition valid_submission (now : Time) (body : list ascii) : bool :=
  match decodeSubmit body with
  | None => false
  | Some req =>
      negb (bool_decide (ReqType req = "")) && (0 <=? ReqPriority req) &&
      (bool_decide (GoStrings.TrimSpace (ReqRunAt req) = "") ||
       match GoTime.Parse (str (ReqRunAt req)) with
       | Some (runAt, _) => now <? runAt
       | None => false
       end)
  end.

Lemma invalid_refused env r st :
  Method r = MethodPost → valid_submission (clock st) (Body r) = false →
  ∃ msg, run env (SubmitJobHandler r) st = (Returned (Error StatusBadRequest msg), st).
Proof.
  intros Hm. unfold valid_submission, SubmitJobHandler.
  rewrite Hm. rewrite decide_False by (by intros []).
  destruct (decodeSubmit (Body r)) as [req|]; [|by eexists].
  case_decide as Ht; [by eexists|]. rewrite bool_decide_false by done. cbn [negb andb].
  rewrite Z.leb_antisym. destruct (ReqPriority req <? 0); [by eexists|]. cbn [negb andb].
  case_decide as Hw; [rewrite bool_decide_false by done; cbn [orb]|].
  - unfold submitScheduled. destruct (GoTime.Parse _) as [[t z]|]; [|by eexists].
    intros Hc. run_simpl. rewrite Hc. by eexists.
  - intros Hf. by rewrite bool_decide_true in Hf.
Qed.

Lemma valid_cases r st :
  submission r → valid_submission (clock st) (Body r) = true →
  (∃ req, immediate r req) ∨ ∃ req t z, postponed r req t z ∧ clock st < t.
Proof.
  intros Hs. unfold valid_submission, immediate, postponed.
  destruct (decodeSubmit (Body r)) as [req|]; [|done].
  rewrite !andb_true_iff, negb_true_iff, bool_decide_eq_false, orb_true_iff, bool_decide_eq_true, Z.leb_le.
  intros [[Ht Hp] Hw]. destruct (decide (GoStrings.TrimSpace (ReqRunAt req) = "")) as [E|E].
  - left. exists req. auto.
  - right. destruct Hw as [?|Hw]; [done|]. destruct (GoTime.Parse _) as [[t z]|] eqn:Hz; [|done].
    exists req, t, z. apply Z.ltb_lt in Hw. auto 10.
Qed.

(** C27. Validation: on every node, a POST to [/jobs] whose body is not JSON, or
    has no type, a negative priority or a [run_at] that is not in the future, is
    answered 400 and nothing changes; every other one is answered 201, or 200
    when its key names a stored job, on a standalone node whose store works,
    whose recorded keys all name stored jobs, whose next id is free and on which
    no other submission is in progress. *)
Theorem http_validation env cfg n drawn r st :
  submission r → admitted cfg submitters (clock st) r = true →
  (valid_submission (clock st) (Body r) = false →
   ∃ resp, run env (serve cfg n drawn r) st = (Returned (response_id drawn r, resp), st) ∧
     StatusCode resp = StatusBadRequest) ∧
  (valid_submission (clock st) (Body r) = true → ∀ a,
   raft st = false → submitMu st = false → Store.rel (store st) a →
   (∀ key id, Store.idem a !! key = Some id → is_Some (Store.jobs a !! id)) →
   in_int64 (nextJobID st + 1) → Store.jobs a !! (nextJobID st + 1) = None →
   ∃ resp st1, run env (serve cfg n drawn r) st = (Returned (response_id drawn r, resp), st1) ∧
     (StatusCode resp = StatusCreated ∧ nextJobID st1 = nextJobID st + 1 ∨
      StatusCode resp = StatusOK ∧ st1 = st)).
Proof.
  intros Hs Ha. split.
  { intros Hv. destruct (invalid_refused env r st (proj1 Hs) Hv) as [msg Hrun].
    eexists _. split; [by eapply run_submission|]. done. }
  intros Hv a Hraft Hmu Hr Hidem Hn Hf.
  destruct (valid_cases r st Hs Hv) as [[req Hi]|(req & t & z & Hp & Hc)].
  - destruct (Store.abs_find a (ReqKey req)) as [j|] eqn:Hj.
    + exists (respond StatusOK (Some (submittedResponse j))), st. split; [|by right].
      apply (run_immediate env cfg n drawn r req st j true); [done..|].
      eapply EngineSpec.submit_duplicate; [done|done| |done].
      intros E. unfold Store.abs_find in Hj. by rewrite decide_True in Hj.
    + destruct (EngineSpec.submit_new env st a (ReqKey req) (ReqType req) (ReqPriority req) Hraft Hmu Hr)
        as (st1 & Hrun & _ & _ & _ & _ & _ & Hn1 & _); [|done..|].
      { unfold Store.abs_find in Hj. case_decide; [by left|]. right.
        destruct (Store.idem a !! ReqKey req) as [id|] eqn:E; [|done]. simpl in Hj.
        destruct (Hidem _ _ E) as [? E']. congruence. }
      eexists _, st1. split; [by eapply (run_immediate _ _ _ _ _ _ _ _ false)|]. by left.
  - destruct (run_postponed env cfg n drawn r req t z st a Hp Ha Hc Hraft Hr Hn Hf)
      as (st1 & Hrun & _ & _ & _ & _ & _ & Hn1). eexists _, st1. split; [exact Hrun|]. by left.
Qed.

(** ** Cancellation *)

(** C29. Cancellation on the wire, on a standalone node whose store works: a
    DELETE for a job that is not finished is answered 200 and makes the job
    cancelled; for a finished or an unknown job the answer is 409 and the
    store's contents stay. *)
Theorem http_cancel env cfg n drawn r id st a :
  raft st = false → Store.rel (store st) a → 0 ≤ id → in_int64 id →
  Method r = MethodDelete → Path r = "/jobs/" +:+ GoStrings.Itoa id →
  admitted cfg submitters (clock st) r = true →
  ∃ resp st1,
    run env (serve cfg n drawn r) st = (Returned (response_id drawn r, resp), st1) ∧
    match Store.jobs a !! id with
    | Some j =>
        if is_terminal (JStatus j) then
          resp = Error StatusConflict ("job already in terminal status " +:+ JStatus j) ∧
          Store.rel (store st1) a
        else resp = respond StatusOK (Some (jstatus "cancelled")) ∧
          Store.rel (store st1) (Store.set_jobs a (<[id := with_status j Cancelled]> (Store.jobs a)))
    | None => resp = Error StatusConflict "job not found" ∧ Store.rel (store st1) a
    end.
Proof.
  intros Hraft Hr Hpos Hid Hm Hp Ha.
  destruct (Store.reliable_Cancel (store st) a id Hr) as [He Hr1].
  assert (Hrun : ∀ resp st1, run env (CancelJobHandler (withPathID r (GoStrings.Itoa id))) st =
    (Returned resp, st1) → run env (serve cfg n drawn r) st = (Returned (response_id drawn r, resp), st1)).
  { intros resp st1 Hrun. eapply run_serve; [reflexivity|]. unfold dispatch.
    rewrite Hp, matchRoute_job, Hm by (by apply numeric_Itoa).
    change (isGet MethodDelete) with false. cbv iota. rewrite decide_True by done. unfold requireSubmitter. rewrite run_admitted by done. exact Hrun. }
  unfold CancelJobHandler in Hrun. cbn [PathID withPathID] in Hrun.
  rewrite GoStrings.Atoi_Itoa in Hrun by done. unfold Engine.CancelJobWithContext in Hrun.
  destruct (Store.Cancel (store st) id) as [s' e] eqn:Ec. cbn [fst snd] in He, Hr1.
  unfold Store.abs_cancel in He, Hr1.
  destruct (Store.jobs a !! id) as [j|]; [destruct (is_terminal (JStatus j))|];
    cbn [fst snd] in He, Hr1; subst e; eexists _, _;
    (split; [apply Hrun; run_simpl; rewrite Hraft; run_simpl; rewrite Ec; run_simpl; reflexivity|done]).
Qed.

(** ** The counters of the cluster *)

(** The number of jobs with a status. *)
Definition having (x : string) (js : list Job) : Z :=
  Z.of_nat (length (filter (λ j, JStatus j = x) js)).

Lemma having_cons x j js :
  having x (j :: js) = (if decide (JStatus j = x) then 1 else 0) + having x js.
Proof. unfold having. rewrite filter_cons. case_decide; simpl; lia. Qed.

Ltac clash :=
  match goal with E1 : JStatus ?j = _, E2 : JStatus ?j = _ |- _ => rewrite E1 in E2; discriminate E2 end.

Lemma countJobs_having js p c f k :
  countJobs js p c f k =
    (p + having Pending js + having Scheduled js, c + having Completed js,
     f + having Failed js, k + having Cancelled js).
Proof.
  revert p c f k. induction js as [|j js IH]; intros p c f k.
  { unfold having. simpl. by rewrite !Z.add_0_r. }
  cbn [countJobs]. rewrite !having_cons.
  repeat case_decide; destruct_or?; try clash; try tauto; rewrite IH; repeat apply (f_equal2 pair); lia.
Qed.

Lemma having_total js :
  Forall (λ j, known_status (JStatus j) = true) js →
  having Pending js + having Scheduled js + having Completed js + having Failed js +
  having Cancelled js = Z.of_nat (length js).
Proof.
  induction 1 as [|j js Hj _ IH]; [done|]. rewrite !having_cons. cbn [length].
  rewrite Nat2Z.inj_succ, <-IH. rewrite known_status_spec, is_terminal_spec in Hj.
  destruct_or! Hj; repeat case_decide; try clash; try done; lia.
Qed.

Lemma countNodes_total ns x y :
  (countNodes ns x y).1 + (countNodes ns x y).2 = x + y + Z.of_nat (length ns).
Proof.
  revert x y. induction ns as [|nd ns IH]; intros x y; cbn [countNodes length]; [simpl; lia|].
  destruct (Manager.NodeAlive nd); rewrite IH; lia.
Qed.

(** The cluster's counters are exact: in every reachable configuration a
    GET of [/cluster/status] is answered with the number of jobs per status
    (pending and scheduled ones together), which add up to all jobs, and with
    the live and the dead workers, which add up to the registered ones. *)
Theorem cluster_status_exact env cfg n drawn r c :
  reachable c → Method r = MethodGet → Path r = "/cluster/status" →
  admitted cfg viewers (clock (shared c)) r = true →
  let js := Store.List (store (shared c)) in
  ∃ s,
    run env (serve cfg n drawn r) (shared c) =
      (Returned (response_id drawn r, respond StatusOK (Some (status_json s))), shared c) ∧
    PendingJobs s = having Pending js + having Scheduled js ∧ CompletedJobs s = having Completed js ∧
    FailedJobs s = having Failed js ∧ CancelledJobs s = having Cancelled js ∧
    TotalJobs s = PendingJobs s + CompletedJobs s + FailedJobs s + CancelledJobs s ∧
    TotalNodes s = ActiveNodes s + DeadNodes s.
Proof.
  intros Hc Hm Hp Ha js. destruct (reachable_core c Hc) as (a & h & Hcore).
  set (ns := Manager.Nodes (manager (shared c))).
  exists (mkStatus (Z.of_nat (length ns)) (countNodes ns 0 0).1 (countNodes ns 0 0).2
    (Z.of_nat (length js)) (having Pending js + having Scheduled js) (having Completed js)
    (having Failed js) (having Cancelled js) "node-1" 1).
  split.
  - eapply run_serve; [reflexivity|]. unfold dispatch. rewrite Hp.
    change (matchRoute (Method r) "/cluster/status") with RClusterStatus.
    unfold requireViewer. rewrite run_admitted by done. unfold Status.
    rewrite decide_False by (by rewrite Hm; intros []). unfold clusterStatus, leaderInfo, Engine.Jobs.
    rewrite run_bind. run_simpl. fold ns. destruct (countNodes ns 0 0) as [x y]. run_simpl. fold js.
    rewrite countJobs_having. run_simpl. rewrite (c_raft _ _ _ Hcore). run_simpl. done.
  - cbn [PendingJobs CompletedJobs FailedJobs CancelledJobs TotalJobs TotalNodes ActiveNodes DeadNodes].
    split_and!; [done..| |by rewrite countNodes_total].
    rewrite <-having_total; [lia|]. unfold js. rewrite (Store.List_spec _ _ (c_rel _ _ _ Hcore)).
    apply Forall_forall. intros j ([id j'] & -> & Hj%elem_of_map_to_list)%list_elem_of_fmap.
    by apply (c_good _ _ _ Hcore id).
Qed.
End Requests.

(** ** On a node with the in-memory store *)
Section Witnesses.
#[local] Existing Instance canonical_range.

Definition open_cfg : Config.Config := Config.Default (λ _, "").
Definition utc : Time → Z := λ _, 0.
Definition mem := MemoryStore.abs (store demo3).

Definition demo_body (ty : string) (p : Z) (more : list (list ascii * Json.json)) : list ascii :=
  Json.print (Json.JObj ((str "type", Codec.jstring ty) :: (str "priority", Codec.jint p) :: more)).

Definition post_job (ty : string) (p : Z) (more : list (list ascii * Json.json)) : Request :=
  mkRequest "POST" "/jobs" "" "" "" (demo_body ty p more).

Definition keyed (ty : string) (p : Z) : Request :=
  post_job ty p [(str "idempotency_key", Codec.jstring "k9")].
Definition tomorrow : Request :=
  post_job "report" 1 [(str "run_at", Codec.jstring "2026-01-02T03:04:05Z");
                       (str "idempotency_key", Codec.jstring "k9")].

#[local] Abbreviation answer := (serve utc false (λ _, page) page 301 open_cfg 0).

Lemma keyed_immediate ty p :
  decodeSubmit (demo_body ty p [(str "idempotency_key", Codec.jstring "k9")]) = Some (mkSubmit ty p "" "k9") →
  ty ≠ "" → 0 ≤ p → immediate (keyed ty p) (mkSubmit ty p "" "k9").
Proof. intros Hd Ht Hp. split_and!; done. Qed.


Lemma http_idempotent_witness :
  ∃ st1 body, run quiet (answer "a" (keyed "email" 5)) demo3
                = (Returned ("a", respond 201 (Some body)), st1) ∧
    run quiet (answer "b" (keyed "sms" 7)) st1 = (Returned ("b", respond 200 (Some body)), st1).
Proof.
  destruct (http_idempotent utc false (λ _, page) page 301 quiet open_cfg 0 "a" "b"
    (keyed "email" 5) (keyed "sms" 7) (mkSubmit "email" 5 "" "k9") (mkSubmit "sms" 7 "" "k9") demo3 mem)
    as (st1 & H1 & _ & _ & H2);
    [vm_compute; reflexivity|vm_compute; reflexivity|exact demo_rel|
     apply keyed_immediate; [vm_compute; reflexivity|done|done]|reflexivity|
     apply keyed_immediate; [vm_compute; reflexivity|done|done]|reflexivity|
     done|done|vm_compute; reflexivity|vm_compute; split; congruence|vm_compute; reflexivity|].
  eexists st1, _. split; [exact H1|exact H2].
Defined.

(** The index of the node every request below starts from. *)
Lemma demo3_idem key id : Store.idem mem !! key = Some id → is_Some (Store.jobs mem !! id).
Proof. intros Hk. destruct (proj2 demo_sound key id) as [Hi _]. destruct (Hi Hk) as (_ & j & Hj & _). eauto. Qed.

Lemma http_submit_get_witness :
  ∃ st1 body,
    run quiet (answer "b" (mkRequest "GET" "/jobs/4" "" "" "" [])) st1 =
      (Returned ("b", mkResponse 200 "application/json" "" body), st1) ∧
    Codec.Decode body = Some (Codec.clean (with_key (NewJob 4 "email" 5) "k9")).
Proof.
  destruct (http_submit_get utc false (λ _, page) page 301 quiet open_cfg 0 "a" "b"
    (keyed "email" 5) (mkRequest "GET" "/jobs/4" "" "" "" []) (mkSubmit "email" 5 "" "k9") demo3 mem)
    as (st1 & body & _ & H1 & H2);
    [intros t; done|vm_compute; reflexivity|vm_compute; reflexivity|exact demo_rel|
     apply keyed_immediate; [vm_compute; reflexivity|done|done]|reflexivity|
     right; vm_compute; reflexivity|vm_compute; split; congruence|vm_compute; congruence|
     vm_compute; split; congruence|vm_compute; reflexivity|reflexivity|vm_compute; reflexivity|
     reflexivity|].
  rewrite EngineSpec.demo3_nextJobID in H2. exists st1, body. split; [exact H1|exact H2].
Defined.

(** The instant of the demonstration, 2026-01-02T03:04:05Z. *)
Definition instant : Time := (62135596800 + 1767323045) * Second.

Lemma tomorrow_postponed :
  postponed tomorrow (mkSubmit "report" 1 "2026-01-02T03:04:05Z" "k9") instant 0.
Proof. split_and!; first [done|vm_compute; reflexivity|vm_compute; congruence]. Qed.

Lemma http_scheduled_witness :
  ∃ st1 j, run quiet (answer "a" tomorrow) demo3 =
      (Returned ("a", respond 201 (Some (scheduledResponse (ID j) (str "2026-01-02T03:04:05Z")))), st1) ∧
    Store.Get (store st1) 4 = Some j ∧ NextRunAt j = instant ∧
    Queue.items (dq st1) ≡ₚ 4 :: Queue.items (dq demo3).
Proof.
  destruct (http_scheduled utc false (λ _, page) page 301 quiet open_cfg 0 "a" tomorrow _ _ _ demo3 mem
    tomorrow_postponed) as (st1 & j & H1 & H2 & _ & _ & _ & H3 & H4 & _);
    [reflexivity|vm_compute; reflexivity|vm_compute; reflexivity|exact demo_rel|
     vm_compute; split; congruence|vm_compute; reflexivity|].
  assert (Hf : GoTime.Format false 0 instant = str "2026-01-02T03:04:05Z") by (vm_compute; reflexivity).
  rewrite Hf in H1. rewrite EngineSpec.demo3_nextJobID in H2, H4. exists st1, j.
  split; [exact H1|]. split; [exact H2|]. split; [exact H3|exact H4].
Defined.

Lemma scheduled_not_idempotent_witness :
  ∃ st1 st2 r1 r2 j1 j2, run quiet (answer "a" tomorrow) demo3 = (Returned ("a", r1), st1) ∧
    run quiet (answer "b" tomorrow) st1 = (Returned ("b", r2), st2) ∧
    Store.Get (store st2) 4 = Some j1 ∧ Store.Get (store st2) 5 = Some j2.
Proof.
  destruct (scheduled_not_idempotent utc false (λ _, page) page 301 quiet open_cfg 0 "a" "b" tomorrow
    _ _ _ demo3 mem tomorrow_postponed) as (r1 & r2 & st1 & st2 & j1 & j2 & H1 & H2 & _ & _ & H3 & _ & H4 & _);
    [reflexivity|vm_compute; reflexivity|vm_compute; reflexivity|exact demo_rel|
     vm_compute; split; congruence|vm_compute; congruence|vm_compute; reflexivity|vm_compute; reflexivity|].
  rewrite EngineSpec.demo3_nextJobID in H3, H4. exists st1, st2, r1, r2, j1, j2.
  split; [exact H1|]. split; [exact H2|]. split; [exact H3|exact H4].
Defined.

Lemma http_validation_witness :
  (∃ resp, run quiet (answer "a" (post_job "" 5 [])) demo3 = (Returned ("a", resp), demo3) ∧
     StatusCode resp = 400) ∧
  ∃ resp st1, run quiet (answer "a" (post_job "sms" 5 [])) demo3 = (Returned ("a", resp), st1) ∧
    (StatusCode resp = 201 ∨ StatusCode resp = 200).
Proof.
  split.
  - refine (proj1 (http_validation utc false (λ _, page) page 301 quiet open_cfg 0 "a" (post_job "" 5 [])
      demo3 _ _) _); [done|reflexivity|vm_compute; reflexivity].
  - destruct (proj2 (http_validation utc false (λ _, page) page 301 quiet open_cfg 0 "a" (post_job "sms" 5 [])
      demo3 (conj eq_refl eq_refl) eq_refl) ltac:(vm_compute; reflexivity) mem) as (resp & st1 & Hrun & Hor);
      [vm_compute; reflexivity|vm_compute; reflexivity|exact demo_rel|exact demo3_idem|
       vm_compute; split; congruence|vm_compute; reflexivity|].
    exists resp, st1. split; [exact Hrun|]. destruct Hor as [[? _]|[? _]]; [by left|by right].
Defined.

Lemma http_cancel_witness :
  ∃ st1, run quiet (answer "a" (mkRequest "DELETE" "/jobs/2" "" "" "" [])) demo3 =
    (Returned ("a", respond 200 (Some (jstatus "cancelled"))), st1).
Proof.
  destruct (http_cancel utc false (λ _, page) page 301 quiet open_cfg 0 "a"
    (mkRequest "DELETE" "/jobs/2" "" "" "" []) 2 demo3 mem) as (resp & st1 & H1 & H2);
    [vm_compute; reflexivity|exact demo_rel|lia|vm_compute; split; congruence|reflexivity|
     vm_compute; reflexivity|reflexivity|].
  assert (Hj : Store.jobs mem !! 2 = Some (NewJob 2 "sms" 9)) by (vm_compute; reflexivity).
  rewrite Hj in H2. destruct H2 as [-> _]. exists st1. exact H1.
Defined.

Lemma access_matrix_witness :
  ∃ id msg, run outside (serve utc false (λ _, page) page 301 secured 0 "a" viewer_cancel) fresh_node =
    (Returned (id, writeAuthError 403 msg), fresh_node).
Proof.
  assert (Ha : Config.AuthEnabled secured = true) by (vm_compute; reflexivity).
  assert (Hp : cleanPath (Path viewer_cancel) = Path viewer_cancel) by (vm_compute; reflexivity).
  assert (Hd : documented (Method viewer_cancel) (Path viewer_cancel) = Some submitters)
    by (vm_compute; reflexivity).
  assert (Hv : bearer secured (clock fresh_node) viewer_cancel =
    Some (Auth.mkClaims "eve" Auth.RoleViewer 1700000000 1700003600)).
  { change (clock fresh_node) with Auth.noon. vm_compute. reflexivity. }
  pose proof (access_matrix utc false (λ _, page) page 301 outside secured 0 "a" viewer_cancel submitters
    fresh_node Ha Hp Hd) as Hw.
  rewrite Hv, decide_False in Hw by (by apply (bool_decide_unpack _)). exact Hw.
Defined.

Lemma cluster_status_exact_witness :
  ∃ s, run quiet (answer "a" (mkRequest "GET" "/cluster/status" "" "" "" [])) demo3 =
      (Returned ("a", respond 200 (Some (status_json s))), demo3) ∧
    TotalJobs s = PendingJobs s + CompletedJobs s + FailedJobs s + CancelledJobs s.
Proof.
  destruct (cluster_status_exact utc false (λ _, page) page 301 quiet open_cfg 0 "a"
    (mkRequest "GET" "/cluster/status" "" "" "" []) node demo_reachable)
    as (s & H1 & _ & _ & _ & _ & H2 & _); [reflexivity|reflexivity|reflexivity|].
  exists s. split; [exact H1|exact H2].
Defined.
End Witnesses.

End ServerSpec.
