(* ===== verification/Cluster.v ===== *)
(** * A cluster of control nodes: [internal/consensus/], [internal/engine/engine.go]

    Several nodes over one replicated log.  The Raft library is outside the
    repository; what the program relies on is its documented contract: entries
    are committed in one order, every node's state machine is given them in that
    order, and a node that is behind may be given a snapshot instead.  The steps
    below are that contract, with the program's own [Propose], [Apply],
    [Snapshot] and [Restore] in them. *)

From S2P Require Import Prelude Job Store MemoryStore Metrics Utf8 Json Queue Codec Consensus Cron.
From S2P Require Import Config Events Lease Manager Machine Scheduler Engine SchedulerSpec EngineSpec System.
From Stdlib Require Import Ascii.
Import Machine.

Module Cluster.

Section Replicas.
Context `{GoRange} {T : Type} `{Store.ReliableStore T} `{!Store.StrictStore T}.

(** A node and the number of log entries its state machine was given.  [clean]
    is kept for the theorems only: the store was written by nothing but log
    entries and a snapshot of a clean node that it was given while empty. *)
Record Node := mkNode {
  state : State T;
  applied : nat;
  clean : bool
}.

Record Cluster := mkCluster {
  log : list (list ascii);
  nodes : gmap Z Node
}.

(** The library hands the next entry to a node's state machine. *)
Definition applyEntry (nd : Node) (data : list ascii) : Node :=
  let '(s, m, _) := Consensus.Apply (store (state nd)) (metrics (state nd)) data in
  mkNode (set_metrics (set_store (state nd) s) m) (S (applied nd)) (clean nd).

(** Proposals go through the log. *)
Definition proposes {X} (a : act X) : bool := match a with APropose _ => true | _ => false end.

Inductive step : Cluster → Cluster → Prop :=
  (** The leader has applied everything before; its proposal is committed. *)
  | step_propose env l ns i nd c e st' data :
      ns !! i = Some nd → applied nd = length l →
      leader env = true → Codec.zones_ok (located env) → Consensus.command_ok c →
      Codec.Marshal (located env) c = Some data → raft_apply env data = None →
      propose env (state nd) c = (e, st') →
      step (mkCluster l ns)
        (mkCluster (l ++ [data]) (<[i := mkNode st' (S (applied nd)) (clean nd)]> ns))
  (** A proposal is committed that its proposer is yet to apply, or never
      learns of. *)
  | step_commit off l ns c data :
      Codec.zones_ok off → Consensus.command_ok c → Codec.Marshal off c = Some data →
      step (mkCluster l ns) (mkCluster (l ++ [data]) ns)
  | step_apply l ns i nd data :
      ns !! i = Some nd → l !! applied nd = Some data →
      step (mkCluster l ns) (mkCluster l (<[i := applyEntry nd data]> ns))
  (** A node that is behind is given the snapshot of another one, which is added
      to whatever it has. *)
  | step_install l ns i k nd ndk off isnil data s' e b :
      ns !! i = Some nd → ns !! k = Some ndk → applied nd ≤ applied ndk → Codec.zones_ok off →
      Consensus.Persist off isnil (Consensus.Snapshot (store (state ndk))) = Some data →
      Consensus.Restore (store (state nd)) data = (s', e) →
      (b = true → clean ndk = true ∧ Store.rel (store (state nd)) Store.empty) →
      step (mkCluster l ns)
        (mkCluster l (<[i := mkNode (set_store (state nd) s') (applied ndk) b]> ns))
  | step_join l ns i st :
      ns !! i = None → Store.rel (store st) Store.empty →
      step (mkCluster l ns) (mkCluster l (<[i := mkNode st 0 true]> ns))
  | step_leave l ns i : step (mkCluster l ns) (mkCluster l (delete i ns))
  (** Any other call of any goroutine of a node, the writes of its scheduler and
      its local workers to its own store included. *)
  | step_call env l ns i nd X (a : act X) x st' b :
      ns !! i = Some nd → proposes a = false → do_act env a (state nd) = Some (x, st') →
      (b = true → clean nd = true ∧ store st' = store (state nd)) →
      step (mkCluster l ns) (mkCluster l (<[i := mkNode st' (applied nd) b]> ns)).

Inductive reachable : Cluster → Prop :=
  | reach_empty : reachable (mkCluster [] ∅)
  | reach_step c c' : reachable c → step c c' → reachable c'.

(** ** The invariant *)

(** The contents the first [n] entries of a log amount to. *)
Definition committed (l : list (list ascii)) (n : nat) : Store.Abs :=
  foldl Consensus.abs_apply Store.empty (take n l).

(** A job that survives JSON. *)
Definition job_ok (j : Job) : Prop := Codec.ints_ok j ∧ Store.norm_job Utf8.Sanitize j = j.

Definition entry_ok (data : list ascii) : Prop :=
  ∃ c, Codec.Unmarshal data = Some c ∧ job_ok (Consensus.CJob c).

Definition jobs_ok (a : Store.Abs) : Prop := map_Forall (λ _, job_ok) (Store.jobs a).

Definition node_ok (l : list (list ascii)) (nd : Node) : Prop :=
  applied nd ≤ length l ∧
  ∃ a, Store.rel (store (state nd)) a ∧
       (clean nd = true → Store.jobs a = Store.jobs (committed l (applied nd))).

Definition inv (c : Cluster) : Prop :=
  Forall entry_ok (log c) ∧ map_Forall (λ _, node_ok (log c)) (nodes c).

(** The jobs after a call depend on the jobs before it only. *)
Lemma abs_exec_jobs a b o :
  Store.jobs a = Store.jobs b →
  Store.jobs (Store.abs_exec id a o).1 = Store.jobs (Store.abs_exec id b o).1.
Proof.
  intros E. destruct o as [j|j|k|k|c|k|j]; simpl; [| | | |done| |done].
  - unfold Store.abs_add. rewrite E. destruct (Store.jobs b !! ID j); [done|].
    case_decide; simpl; by rewrite ?E.
  - unfold Store.abs_update. rewrite E. destruct (Store.jobs b !! ID j); [|done].
    destruct (IsValidTransition _ _); simpl; by rewrite ?E.
  - unfold Store.abs_delete. rewrite E. destruct (Store.jobs b !! k); [|done].
    case_decide; simpl; by rewrite ?E.
  - unfold Store.abs_cancel. rewrite E. destruct (Store.jobs b !! k) as [j|]; [|done].
    destruct (is_terminal _); simpl; by rewrite ?E.
  - unfold Store.abs_deleteCron. destruct (Store.crons a !! k), (Store.crons b !! k); done.
Qed.

Lemma abs_apply_jobs a b data :
  Store.jobs a = Store.jobs b →
  Store.jobs (Consensus.abs_apply a data) = Store.jobs (Consensus.abs_apply b data).
Proof.
  intros E. unfold Consensus.abs_apply. destruct (Consensus.op_of data); [|done]. by apply abs_exec_jobs.
Qed.

Lemma committed_snoc l n data :
  l !! n = Some data → committed l (S n) = Consensus.abs_apply (committed l n) data.
Proof. intros Hl. unfold committed. by rewrite (take_S_r _ _ _ Hl), foldl_snoc. Qed.

Lemma committed_app l l' n : n ≤ length l → committed (l ++ l') n = committed l n.
Proof. intros Hn. unfold committed. by rewrite take_app_le. Qed.

Lemma norm_cancelled j :
  Store.norm_job Utf8.Sanitize j = j →
  Store.norm_job Utf8.Sanitize (with_status j Cancelled) = with_status j Cancelled.
Proof.
  assert (Hc : Utf8.Sanitize Cancelled = Cancelled) by (vm_compute; reflexivity).
  destruct j. unfold Store.norm_job, with_status. simpl. intros [= E1 _ E2 E3]. by rewrite E1, Hc, E2, E3.
Qed.

(** The jobs a log amounts to survive JSON when its entries do. *)
Lemma abs_apply_ok a data : jobs_ok a → entry_ok data → jobs_ok (Consensus.abs_apply a data).
Proof.
  intros Ha (c & Hc & Hj). unfold Consensus.abs_apply, Consensus.op_of. rewrite Hc. simpl.
  unfold Consensus.command_op. repeat case_decide; simpl; try done; unfold jobs_ok in *.
  - unfold Store.abs_add. destruct (Store.jobs a !! _); [done|].
    case_decide; simpl; rewrite MemoryStore.mem_norm_job; by apply map_Forall_insert_2.
  - unfold Store.abs_update. destruct (Store.jobs a !! _); [|done].
    destruct (IsValidTransition _ _); simpl; [|done]. rewrite MemoryStore.mem_norm_job. by apply map_Forall_insert_2.
  - unfold Store.abs_delete. destruct (Store.jobs a !! _); [|done].
    case_decide; simpl; by apply map_Forall_delete.
  - unfold Store.abs_cancel. destruct (Store.jobs a !! _) as [j|] eqn:E; [|done].
    destruct (is_terminal _); simpl; [done|]. apply map_Forall_insert_2; [|done].
    destruct (Ha _ _ E) as [Hi Hn]. split; [exact Hi|]. by apply norm_cancelled.
  - unfold Store.abs_deleteCron. by destruct (Store.crons a !! _).
Qed.

Lemma committed_ok l n : Forall entry_ok l → jobs_ok (committed l n).
Proof.
  intros Hl. unfold committed. apply (Forall_take _ n) in Hl. induction (take n l) as [|d k IH] using rev_ind.
  - apply map_Forall_empty.
  - apply Forall_app in Hl as [Hk Hd]. rewrite foldl_snoc. apply abs_apply_ok; [by apply IH|].
    exact (Forall_inv Hd).
Qed.

(** Applying an entry. *)
Lemma Apply_rel (s : T) m a data :
  Store.rel s a → Store.rel (Consensus.Apply s m data).1.1 (Consensus.abs_apply a data).
Proof.
  intros Hr. rewrite Consensus.Apply_state. unfold Consensus.abs_apply.
  destruct (Consensus.op_of data) as [o|]; [|done]. by apply Store.exec_strict.
Qed.

Lemma apply_log_strict (s : T) a l :
  Store.rel s a → Store.rel (Consensus.apply_log s l) (foldl Consensus.abs_apply a l).
Proof. revert s a. induction l as [|d l IH]; intros s a Hr; [done|]. by apply IH, Apply_rel. Qed.

Lemma foldl_apply_jobs a b l :
  Store.jobs a = Store.jobs b →
  Store.jobs (foldl Consensus.abs_apply a l) = Store.jobs (foldl Consensus.abs_apply b l).
Proof. revert a b. induction l as [|d l IH]; intros a b E; [done|]. by apply IH, abs_apply_jobs. Qed.

Lemma applyEntry_ok l nd data :
  node_ok l nd → l !! applied nd = Some data → node_ok l (applyEntry nd data).
Proof.
  intros (Hle & a & Hr & Ha) Hl. unfold applyEntry.
  pose proof (Apply_rel _ (metrics (state nd)) a data Hr) as Hr'.
  destruct (Consensus.Apply _ _ data) as [[s m] e]. split; [by apply lookup_lt_Some in Hl|].
  exists (Consensus.abs_apply a data). split; [done|]. simpl. intros Hc.
  rewrite (committed_snoc _ _ _ Hl). by apply abs_apply_jobs, Ha.
Qed.

(** A proposal is an entry that survives the log. *)
Lemma marshalled_ok off c data :
  Codec.zones_ok off → Consensus.command_ok c → Codec.Marshal off c = Some data → entry_ok data.
Proof.
  intros Hz Hok Hd. assert (Hin : Codec.in_range c) by exact Hok.
  exists (Consensus.clean_command c). split; [exact (Codec.Unmarshal_Marshal off c data Hz Hin Hd)|].
  destruct Hok as (Hi & _). split; [exact Hi|].
  unfold Store.norm_job. simpl. unfold Store.norm_job. simpl. by rewrite !Utf8.Sanitize_idemp.
Qed.

(** Its proposer applies it. *)
Lemma propose_entry env nd c e st' data :
  leader env = true → Codec.Marshal (located env) c = Some data → raft_apply env data = None →
  propose env (state nd) c = (e, st') →
  mkNode st' (S (applied nd)) (clean nd) = applyEntry nd data.
Proof.
  intros Hl Hd Hap Hp. unfold propose in Hp. rewrite Hl, Hd, Hap in Hp. cbn [negb] in Hp. unfold applyEntry.
  destruct (Consensus.Apply _ _ data) as [[s m] e']. by simplify_eq.
Qed.

Lemma node_ok_app l l' nd : node_ok l nd → node_ok (l ++ l') nd.
Proof.
  intros (Hle & a & Hr & Ha). split; [rewrite length_app; lia|]. exists a.
  by rewrite committed_app.
Qed.

(** Every call leaves a store with some contents. *)
Lemma call_rel env {X} (a : act X) (st : State T) x st' :
  do_act env a st = Some (x, st') → proposes a = false →
  (∃ b, Store.rel (store st) b) → ∃ b, Store.rel (store st') b.
Proof.
  intros Hd Hp [b Hb]. assert (Hw : ∀ o, ∃ b', Store.rel (Store.exec (store st) o).1 b').
  { intros o. exists (Store.abs_exec id b o).1. by apply Store.exec_strict. }
  assert (Hq : ∀ w q m, store (set_queue st w q m) = store st) by (by intros []).
  destruct a; try done; cbn [do_act] in Hd; unfold with_manager in Hd;
    try (repeat case_match; simplify_eq; exists b; by rewrite ?Hq).
  - specialize (Hw (Store.OAdd j)). cbn [Store.exec] in Hw. destruct (Store.Add _ _). by simplify_eq.
  - specialize (Hw (Store.OUpdate j)). cbn [Store.exec] in Hw. destruct (Store.Update _ _). by simplify_eq.
  - specialize (Hw (Store.ODelete id)). cbn [Store.exec] in Hw. destruct (Store.Delete _ _). by simplify_eq.
  - specialize (Hw (Store.OCancel id)). cbn [Store.exec] in Hw. destruct (Store.Cancel _ _). by simplify_eq.
  - specialize (Hw (Store.OAddCron c)). cbn [Store.exec] in Hw. destruct (Store.AddCron _ _). by simplify_eq.
  - specialize (Hw (Store.ODeleteCron id)). cbn [Store.exec] in Hw. destruct (Store.DeleteCron _ _). by simplify_eq.
  - specialize (Hw (Store.OAddDLQ j)). cbn [Store.exec] in Hw. destruct (Store.AddDLQ _ _). by simplify_eq.
Qed.

Lemma addAll_rel (s : T) a js : Store.rel s a → ∃ a', Store.rel (Consensus.addAll s js) a'.
Proof.
  revert s a. induction js as [|j js IH]; intros s a Hr; [by exists a|].
  destruct (Store.exec_strict s a (Store.OAdd j) Hr) as [_ Hr']. cbn [Store.exec] in Hr'.
  destruct (Store.Add s j) as [s1 e] eqn:E. cbn [Consensus.addAll foldl]. rewrite E. by eapply IH.
Qed.

(** An empty node that is given the snapshot of a clean one is clean. *)
Lemma install_clean l (nd ndk : Node) off isnil data s' e :
  Forall entry_ok l → node_ok l ndk → clean ndk = true → Store.rel (store (state nd)) Store.empty →
  Codec.zones_ok off →
  Consensus.Persist off isnil (Consensus.Snapshot (store (state ndk))) = Some data →
  Consensus.Restore (store (state nd)) data = (s', e) →
  ∃ a, Store.rel s' a ∧ Store.jobs a = Store.jobs (committed l (applied ndk)).
Proof.
  intros He (_ & a & Hr & Ha) Hc Hr0 Hz Hd Hres. specialize (Ha Hc).
  pose proof (committed_ok l (applied ndk) He) as Hok. unfold jobs_ok in Hok. rewrite <-Ha in Hok.
  destruct (Consensus.restore_snapshot _ a _ off isnil data Hr Hr0 Hz
    (λ id j Hj, proj1 (Hok id j Hj)) Hd) as (s'' & a' & Hres' & Hr' & _ & _ & Hj).
  rewrite Hres in Hres'. injection Hres' as <- _. exists a'. split; [done|].
  rewrite <-Ha. apply map_eq. intros id. rewrite Hj.
  destruct (Store.jobs a !! id) as [j|] eqn:E; [|done]. simpl. f_equal. apply (Hok id j E).
Qed.

Lemma step_inv c c' : inv c → step c c' → inv c'.
Proof.
  intros (He & Hn) Hs. destruct Hs as
    [env l ns i nd c e st' data Hi Hl Hlead Hz Hok Hd Hap Hp|off l ns c data Hz Hok Hd|l ns i nd data Hi Hl
    |l ns i k nd ndk off isnil data s' e b Hi Hk Hle Hz Hd Hres Hb|l ns i st Hi Hr0|l ns i
    |env l ns i nd X a x st' b Hi Hp Ha Hb]; cbn [log nodes] in *.
  - rewrite (propose_entry env nd c e st' data Hlead Hd Hap Hp).
    pose proof (marshalled_ok _ c data Hz Hok Hd). split; [by apply Forall_app; split; [|constructor]|]. apply map_Forall_insert_2.
    + apply applyEntry_ok; [by apply node_ok_app, (Hn i)|]. rewrite Hl. by apply list_lookup_middle.
    + eapply map_Forall_impl; [exact Hn|]. intros ? y. apply node_ok_app.
  - pose proof (marshalled_ok _ c data Hz Hok Hd). split; [by apply Forall_app; split; [|constructor]|].
    eapply map_Forall_impl; [exact Hn|]. intros ? y. apply node_ok_app.
  - split; [done|]. apply map_Forall_insert_2; [|done]. by apply applyEntry_ok; [apply (Hn i)|].
  - split; [done|]. apply map_Forall_insert_2; [|done]. split; [apply (Hn _ _ Hk)|]. destruct b.
    + destruct (Hb eq_refl) as [Hc Hr0].
      destruct (install_clean l nd ndk off isnil data s' e He (Hn _ _ Hk) Hc Hr0 Hz Hd Hres) as (a & Hr & Ha).
      by exists a.
    + destruct (Hn _ _ Hi) as (_ & a & Hr & _). unfold Consensus.Restore in Hres.
      destruct (Codec.DecodeList data) as [js|]; injection Hres as <- _; [|by exists a].
      destruct (addAll_rel _ a js Hr) as [a' Hr']. by exists a'.
  - split; [done|]. apply map_Forall_insert_2; [|done]. split; [simpl; lia|]. by exists Store.empty.
  - split; [done|]. by apply map_Forall_delete.
  - split; [done|]. apply map_Forall_insert_2; [|done]. destruct (Hn _ _ Hi) as (Hle & a' & Hr & Ha').
    split; [done|]. destruct b.
    + destruct (Hb eq_refl) as [Hc Hst]. exists a'. simpl. rewrite Hst. auto.
    + destruct (call_rel env a (state nd) x st' Ha Hp) as [b Hr']; [eauto|]. by exists b.
Qed.

Lemma reachable_inv c : reachable c → inv c.
Proof.
  induction 1 as [|c c' _ IH Hs]; [|by eapply step_inv]. split; [constructor|apply map_Forall_empty].
Qed.

(** C9. Clean nodes agree: in every reachable cluster over stores that answer
    every call and refuse an id in use, as the in-memory one does, whatever
    joins, leaves, snapshots and local writes happened and whatever ids were
    reused, a node whose store only log entries and a snapshot of a clean node
    given to it while empty have written answers, once it has applied the entries it is behind another such
    node, every lookup as that one does, and lists the same jobs under every
    status; at the same point of the log they agree as they stand. *)
Theorem cluster_agreement c i k ni nk :
  reachable c → nodes c !! i = Some ni → nodes c !! k = Some nk → applied ni ≤ applied nk →
  clean ni = true → clean nk = true →
  let s := Consensus.apply_log (store (state ni))
             (take (applied nk - applied ni) (drop (applied ni) (log c))) in
  (∀ id, Store.Get s id = Store.Get (store (state nk)) id) ∧
  (∀ x, known_status x = true →
     (Store.ListByStatus s x).1 ≡ₚ (Store.ListByStatus (store (state nk)) x).1).
Proof.
  intros Hc Hi Hk Hle Hci Hck. destruct (reachable_inv c Hc) as (He & Hn).
  destruct (Hn _ _ Hi) as (Hli & a & Hr & Ha). destruct (Hn _ _ Hk) as (Hlk & b & Hr' & Hb).
  set (seg := take _ _). assert (Hseg : take (applied nk) (log c) = take (applied ni) (log c) ++ seg).
  { unfold seg. rewrite <-(take_drop (applied ni) (take (applied nk) (log c))), take_take, Nat.min_l by lia.
    by rewrite skipn_firstn_comm. }
  pose proof (apply_log_strict (store (state ni)) a seg Hr) as Hra. intros s. fold s in Hra.
  assert (Hjobs : Store.jobs (foldl Consensus.abs_apply a seg) = Store.jobs b).
  { rewrite (Hb Hck), (foldl_apply_jobs _ _ _ (Ha Hci)). unfold committed. by rewrite Hseg, foldl_app. }
  split.
  - intros id. by rewrite (Store.Get_spec _ _ id Hra), (Store.Get_spec _ _ id Hr'), Hjobs.
  - intros x Hx. destruct (System.byStatus_list _ _ x Hra Hx) as (l1 & -> & H1').
    destruct (System.byStatus_list _ b x Hr' Hx) as (l2 & -> & H2'). simpl. rewrite H1', H2'.
    unfold Store.abs_byStatus. by rewrite Hjobs.
Qed.
(** ** Leadership changes *)

(** A node that takes over queues the jobs of its store. *)
Lemma run_takeover env nodeID (st : State T) a :
  Store.rel (store st) a →
  ∃ st', run env (Engine.watchLeadership nodeID true) st = (Returned true, st') ∧
    Queue.items (pq st') ≡ₚ (ID <$> Store.abs_byStatus a Pending) ++ Queue.items (pq st) ∧
    Queue.items (dq st') ≡ₚ (ID <$> Store.abs_byStatus a Scheduled) ++ Queue.items (dq st).
Proof.
  intros Hr. destruct (System.byStatus_list (store st) a Pending Hr eq_refl) as (lp & Elp & Hlp).
  destruct (System.byStatus_list (store st) a Scheduled Hr eq_refl) as (ls & Els & Hls).
  unfold Engine.watchLeadership. rewrite run_act. cbn [do_act]. rewrite run_bind. set (st0 := set_bus st _).
  destruct (SchedulerSpec.run_rebuild env st0 lp ls Elp Els) as (st1 & -> & _ & _ & Hp & Hd).
  run_simpl. eexists. split; [reflexivity|]. cbn [pq dq set_bus].
  split; [by rewrite Hp, Hlp|by rewrite Hd, Hls].
Qed.

(** C13. Failover, over the same stores: a clean node that has applied the whole log takes over by
    putting each job the log leaves pending once into its priority queue and
    each job it leaves scheduled once into its delay queue, on top of what was
    queued there before (what [Restore] queued when the process started). *)
Theorem failover_rebuilds env nodeID c k nk :
  reachable c → nodes c !! k = Some nk → clean nk = true → applied nk = length (log c) →
  let a := foldl Consensus.abs_apply Store.empty (log c) in
  ∃ st' ps ss, run env (Engine.watchLeadership nodeID true) (state nk) = (Returned true, st') ∧
    NoDup ps ∧ (∀ id, id ∈ ps ↔ ∃ j, Store.jobs a !! id = Some j ∧ JStatus j = Pending) ∧
    NoDup ss ∧ (∀ id, id ∈ ss ↔ ∃ j, Store.jobs a !! id = Some j ∧ JStatus j = Scheduled) ∧
    Queue.items (pq st') ≡ₚ ps ++ Queue.items (pq (state nk)) ∧
    Queue.items (dq st') ≡ₚ ss ++ Queue.items (dq (state nk)).
Proof.
  intros Hc Hk Hcl Hl a. destruct (reachable_inv c Hc) as (_ & Hn).
  destruct (Hn _ _ Hk) as (_ & b & Hr & Hb). specialize (Hb Hcl).
  unfold committed in Hb. rewrite Hl, firstn_all in Hb. fold a in Hb.
  destruct (run_takeover env nodeID (state nk) b Hr) as (st' & Hrun & Hpq & Hdq).
  assert (Hids : ∀ x id, id ∈ (ID <$> Store.abs_byStatus b x) ↔
    ∃ j, Store.jobs a !! id = Some j ∧ JStatus j = x).
  { intros x id. rewrite (System.byStatus_ids _ b x id Hr).
    rewrite (Store.Get_spec _ _ id Hr), Hb. done. }
  exists st', (ID <$> Store.abs_byStatus b Pending), (ID <$> Store.abs_byStatus b Scheduled).
  split_and!; [done| |apply Hids| |apply Hids|done|done]; by eapply System.byStatus_NoDup.
Qed.

(** C39. Completions are not replicated, over the same stores: the scheduler writes the outcome of a
    job to the leader's store only, so after the job completed there any other
    clean node that takes over queues it again. *)
Theorem failover_repeats_jobs env nodeID c i k ni nk j r :
  reachable c → nodes c !! i = Some ni → nodes c !! k = Some nk → applied ni = applied nk →
  clean ni = true → clean nk = true →
  Store.Get (store (state ni)) (RJobID r) = Some j → JStatus j = Pending → RSuccess r = true →
  Scheduler.stale r (Lease.Get (leases (state ni)) (RJobID r)) = false →
  ∃ sti stk, run env (Scheduler.handleResult r) (state ni) = (Returned tt, sti) ∧
    Store.Get (store sti) (RJobID r) = Some (with_status j Completed) ∧
    run env (Engine.watchLeadership nodeID true) (state nk) = (Returned true, stk) ∧
    RJobID r ∈ Queue.items (pq stk).
Proof.
  intros Hc Hi Hk He Hci Hck Hg Hp Hok Hs. destruct (reachable_inv c Hc) as (_ & Hn).
  destruct (Hn _ _ Hi) as (_ & a & Hra & Ha). destruct (Hn _ _ Hk) as (_ & b & Hrb & Hb).
  rewrite (Store.Get_spec _ _ _ Hra) in Hg.
  destruct (SchedulerSpec.result_success env (state ni) a r j Hra Hg Hs Hok Hp) as (sti & Hrun & Hr' & _).
  destruct (run_takeover env nodeID (state nk) b Hrb) as (stk & Hrunk & Hpq & _).
  exists sti, stk. split_and!; [done| |done|].
  - rewrite (Store.Get_spec _ _ _ Hr'). apply lookup_insert_eq.
  - rewrite Hpq, elem_of_app. left. apply (System.byStatus_ids _ b Pending _ Hrb). exists j.
    rewrite (Store.Get_spec _ _ _ Hrb), (Hb Hck), <-He, <-(Ha Hci). done.
Qed.
End Replicas.
Arguments mkNode {T} _ _.
Arguments state {T} _.
Arguments applied {T} _.
Arguments mkCluster {T} _ _.
Arguments log {T} _.
Arguments nodes {T} _.

(** ** Two nodes *)
Section Witnesses.
#[local] Existing Instance canonical_range.

(** Node 1 submits a job, which node 2 has not been given yet. *)
Definition submission : Consensus.Command := Consensus.ProposeAddJob (NewJob 1 "email" 5).

Definition entry : list ascii := default [] (Codec.Marshal (located EngineSpec.leading) submission).

Lemma entry_marshal : Codec.Marshal (located EngineSpec.leading) submission = Some entry.
Proof. vm_compute. reflexivity. Qed.

Definition led : State MemoryStore.MemoryStore :=
  (propose EngineSpec.leading EngineSpec.raft_boot submission).2.

Definition leader_node : Node (T := MemoryStore.MemoryStore) := mkNode led 1 true.

Definition two_nodes : Cluster (T := MemoryStore.MemoryStore) :=
  mkCluster [entry]
    (<[1%Z := leader_node]> (<[2%Z := mkNode EngineSpec.raft_boot 0 true]>
       (<[1%Z := mkNode EngineSpec.raft_boot 0 true]> ∅))).

Definition follower : Node (T := MemoryStore.MemoryStore) :=
  applyEntry (mkNode EngineSpec.raft_boot 0 true) entry.

Definition caught_up : Cluster (T := MemoryStore.MemoryStore) :=
  mkCluster [entry] (<[2%Z := follower]> (nodes two_nodes)).

Lemma submission_ok : Consensus.command_ok submission.
Proof. split_and!; done || by vm_compute. Qed.

Lemma two_nodes_reachable : reachable two_nodes.
Proof.
  assert (Hr : Store.rel (store EngineSpec.raft_boot) Store.empty).
  { assert (store EngineSpec.raft_boot = MemoryStore.NewMemoryStore) as -> by (vm_compute; reflexivity).
    split; [apply MemoryStore.inv_new|reflexivity]. }
  eapply reach_step; [eapply reach_step; [eapply reach_step; [apply reach_empty|]|]|].
  - by apply (step_join [] ∅ 1%Z EngineSpec.raft_boot).
  - by apply (step_join [] _ 2%Z EngineSpec.raft_boot).
  - apply (step_propose EngineSpec.leading [] _ 1%Z (mkNode EngineSpec.raft_boot 0 true) submission
      (propose EngineSpec.leading EngineSpec.raft_boot submission).1 led entry);
      [done..|intros t; done|exact submission_ok|exact entry_marshal|done|].
    apply surjective_pairing.
Qed.

Lemma caught_up_reachable : reachable caught_up.
Proof.
  eapply reach_step; [exact two_nodes_reachable|].
  by apply (step_apply [entry] _ 2%Z (mkNode EngineSpec.raft_boot 0 true) entry).
Qed.

Lemma cluster_agreement_witness :
  Store.Get (Consensus.apply_log (store EngineSpec.raft_boot) [entry]) 1 = Some (NewJob 1 "email" 5).
Proof.
  destruct (cluster_agreement two_nodes 2 1 (mkNode EngineSpec.raft_boot 0 true) leader_node
    two_nodes_reachable eq_refl eq_refl (Nat.le_0_l 1) eq_refl eq_refl) as [Hg _].
  etransitivity; [exact (Hg 1%Z)|]. vm_compute. reflexivity.
Defined.

Lemma failover_rebuilds_witness :
  ∃ st', run EngineSpec.leading (Engine.watchLeadership "node2" true) (state follower)
           = (Returned true, st') ∧ 1%Z ∈ Queue.items (pq st').
Proof.
  destruct (failover_rebuilds EngineSpec.leading "node2" caught_up 2 follower caught_up_reachable)
    as (st' & ps & ss & Hrun & _ & Hp & _ & _ & Hq & _);
    [vm_compute; reflexivity|vm_compute; reflexivity|vm_compute; reflexivity|].
  exists st'. split; [exact Hrun|]. rewrite Hq. apply elem_of_app. left. apply Hp. exists (NewJob 1 "email" 5). split; vm_compute; reflexivity.
Defined.

Definition success : Result := mkResult 1 true None 0.

Lemma failover_repeats_jobs_witness :
  ∃ sti stk, run EngineSpec.leading (Scheduler.handleResult success) (state leader_node) = (Returned tt, sti) ∧
    Store.Get (store sti) (RJobID success) = Some (with_status (NewJob 1 "email" 5) Completed) ∧
    run EngineSpec.leading (Engine.watchLeadership "node2" true) (state follower) = (Returned true, stk) ∧
    RJobID success ∈ Queue.items (pq stk).
Proof.
  assert (Hg : Store.Get (store (state leader_node)) (RJobID success) = Some (NewJob 1 "email" 5))
    by (vm_compute; reflexivity).
  assert (Hs : Scheduler.stale success (Lease.Get (leases (state leader_node)) (RJobID success)) = false)
    by (vm_compute; reflexivity).
  assert (He : applied leader_node = applied follower) by (vm_compute; reflexivity).
  assert (Hi : nodes caught_up !! 1%Z = Some leader_node) by reflexivity.
  assert (Hk : nodes caught_up !! 2%Z = Some follower) by reflexivity.
  exact (failover_repeats_jobs EngineSpec.leading "node2" caught_up 1 2 leader_node follower
    (NewJob 1 "email" 5) success caught_up_reachable Hi Hk He eq_refl eq_refl Hg eq_refl eq_refl Hs).
Defined.

(** Job ids are drawn from a counter of the process that applying the log does
    not move: the first job a new leader submits takes the id of the first job of
    the old one, and is refused, or overwrites it in a bbolt store. *)
Example failover_reuses_ids :
  (run EngineSpec.leading (Engine.SubmitJobWithContext "sms" 9) (state follower)).1 =
    Returned (zeroJob, Some (ErrJobExists 1)).
Proof. vm_compute. reflexivity. Qed.

(** A snapshot installed on a node that is behind does not replace what it has:
    a cancellation the node missed stays missed, as its job is already there. *)
Example stale_restore_diverges :
  let behind := store (state follower) in
  let ahead := (Store.Cancel behind 1).1 in
  let data := default [] (Consensus.Persist (located EngineSpec.leading) false (Consensus.Snapshot ahead)) in
  let '(s, e) := Consensus.Restore behind data in
  e = None ∧ JStatus <$> Store.Get ahead 1 = Some Cancelled ∧ JStatus <$> Store.Get s 1 = Some Pending.
Proof. vm_compute. split_and!; reflexivity. Qed.
End Witnesses.
End Cluster.
