(* ===== verification/Link.v ===== *)
(** * Worker processes and the control node: [internal/rpc/client/client.go],
    [internal/rpc/proxy/worker_proxy.go], [internal/rpc/server/], with
    [internal/workermanager/manager.go]

    Both ends of a worker's connection: the client a worker process registers
    and sends heartbeats with, the client and the proxy the control node submits
    jobs with, and what the heartbeats and the monitor make of a worker over
    time. *)

From S2P Require Import Prelude Job Store GoStrings Metrics Broker Config Manager Machine Rpc.
Import Machine.
Local Open Scope Z_scope.

Module Link.

(** ** The client *)

Record Client := mkClient {
  cid : Z;
  workerAddr : string;
  topics : list string
}.

(** [New] and [NewOutbound]; [dialled] is the answer of [grpc.NewClient]. *)
Definition New (id : Z) (workerAddr : string) (topics : list string) (dialled : option string)
  : Client + string :=
  match dialled with
  | Some e => inr e
  | None => inl (mkClient id workerAddr topics)
  end.

Definition NewOutbound (id : Z) (workerAddr : string) (dialled : option string) : Client + string :=
  match dialled with
  | Some e => inr e
  | None => inl (mkClient id workerAddr [])
  end.

Inductive request :=
  | RegisterWorkerRequest (workerId : Z) (address : string) (topics : list string)
  | HeartbeatRequest (workerId : Z).

(** What wakes the loop of [Start]. *)
Inductive wake := CtxDone | TickerC.

(** The loop of [Start]: the requests it sends; their answers are logged. *)
Fixpoint heartbeats (c : Client) (ws : list wake) : list request :=
  match ws with
  | [] | CtxDone :: _ => []
  | TickerC :: ws => HeartbeatRequest (wrap32 (cid c)) :: heartbeats c ws
  end.

(** [Start]; [answer] is the error of the registration call, which is nil also
    when the control node answers that it could not dial the worker. *)
Definition Start (c : Client) (answer : option string) (ws : list wake) : list request :=
  RegisterWorkerRequest (wrap32 (cid c)) (workerAddr c) (topics c) ::
  match answer with
  | Some _ => []
  | None => heartbeats c ws
  end.

(** [Submit], over the call of the worker's service. *)
Definition Submit (SubmitJob : Rpc.SubmitJobRequest → (bool * string) + string) (c : Client) (j : Job)
  : option string :=
  match SubmitJob (Rpc.submitRequest (cid c) j) with
  | inr e => Some e
  | inl (accepted, msg) => if negb accepted then Some msg else None
  end.

(** [Close], with the library's answer. *)
Definition Close (c : Client) (closing : option string) : option string := closing.

(** The two services behind that call: the worker's own, and the control
    node's, where it is a routing error. *)
Definition ExecutionAccepts (req : Rpc.SubmitJobRequest) : (bool * string) + string := inl (true, "").

Definition WorkerServerSubmitJob (req : Rpc.SubmitJobRequest) : (bool * string) + string :=
  inr "SubmitJob must not be called on the control node WorkerServer".

(** ** The proxy *)

Record RemoteWorker := mkRemote {
  rid : Z;
  rclient : Client
}.

Definition NewRemoteWorker (id : Z) (c : Client) : RemoteWorker := mkRemote id c.
Definition RemoteID (r : RemoteWorker) : Z := rid r.
Definition RemoteStart (r : RemoteWorker) : prog unit := mret tt.
Definition RemoteSubmit (SubmitJob : Rpc.SubmitJobRequest → (bool * string) + string) (r : RemoteWorker)
    (j : Job) : option string :=
  Submit SubmitJob (rclient r) j.

(** The proxy [RegisterWorker] builds for a request. *)
Definition dialBack (workerId : Z) (address : string) (dialled : option string) : RemoteWorker + string :=
  match NewOutbound workerId address dialled with
  | inr e => inr e
  | inl c => inl (NewRemoteWorker workerId c)
  end.

(** ** The control node's side *)

Definition serve (r : request) : prog bool :=
  match r with
  | RegisterWorkerRequest id address ts => Rpc.RegisterWorker id address ts
  | HeartbeatRequest id => Rpc.Heartbeat id
  end.

Fixpoint serve_all (rs : list request) : prog unit :=
  match rs with
  | [] => mret tt
  | r :: rs => _ ← serve r; serve_all rs
  end.

(** ** Heartbeats against the monitor *)

Section Timing.
Context `{GoRange}.
#[local] Existing Instance Manager.timed_out_dec.
Implicit Types (m : Manager.Manager) (mt : Metrics.Metrics) (cs : list Manager.call).

(** When a call of the manager happens. *)
Definition at_time (now : Time) (c : Manager.call) : Time :=
  match c with
  | Manager.CRegister _ _ _ t | Manager.CHeartbeat _ t | Manager.CTick _ t => t
  | Manager.CRemove _ => now
  end.

(** A history whose clock does not run backwards, from [now] to [stop]. *)
Fixpoint timed (now : Time) cs (stop : Time) : Prop :=
  match cs with
  | [] => now ≤ stop
  | c :: cs => now ≤ at_time now c ∧ timed (at_time now c) cs stop
  end.

(** The heartbeats of worker [w]. *)
Definition beat (w : Z) (c : Manager.call) : option Time :=
  match c with
  | Manager.CHeartbeat id t => if decide (id = w) then Some t else None
  | _ => None
  end.

(** Consecutive times at most [d] apart. *)
Fixpoint spaced (d : Duration) (last : Time) (ts : list Time) : Prop :=
  match ts with
  | [] => True
  | t :: ts => t - last ≤ d ∧ spaced d t ts
  end.

(** Calls that concern other workers, heartbeats and monitor ticks. *)
Definition foreign (w : Z) (c : Manager.call) : Prop :=
  match c with
  | Manager.CRegister wc _ _ _ => WID wc ≠ w
  | Manager.CRemove id => id ≠ w
  | _ => True
  end.

Definition ticks_with (timeout : Duration) (c : Manager.call) : Prop :=
  match c with Manager.CTick d _ => d = timeout | _ => True end.

(** Every entry of the manager is filed under its worker's id. *)
Definition filed m : Prop := ∀ id info, Manager.workers m !! id = Some info → WID (Manager.Client info) = id.

Lemma filed_call mm c : filed mm.1 → filed (Manager.do_call mm c).1.
Proof.
  destruct mm as [m mt]. intros Hf id info. destruct c as [wc a ts t|k|k t|d t]; cbn [Manager.do_call fst snd].
  - cbn. rewrite lookup_insert_Some. intros [[<- <-]|[_ Hl]]; [done|by apply Hf].
  - unfold Manager.Remove. destruct (Manager.workers m !! k); cbn; [|apply Hf].
    rewrite lookup_delete_Some. intros [_ Hl]. by apply Hf.
  - unfold Manager.Heartbeat. destruct (Manager.workers m !! k) as [i|] eqn:E; cbn; [|apply Hf].
    rewrite lookup_insert_Some. intros [[<- <-]|[_ Hl]]; [exact (Hf _ _ E)|by apply Hf].
  - pose proof (Manager.monitorTick_exact m mt d t) as Ht. destruct (Manager.monitorTick m mt d t) as [m' mt'].
    destruct Ht as [Hw _]. cbn. rewrite Hw. intros (i & Hi & ->)%fmap_Some.
    case_decide; by apply (Hf id) in Hi.
Qed.

(** What a call makes of the entry of a worker it does not register or remove. *)
Lemma call_entry mm c w info :
  foreign w c → Manager.workers mm.1 !! w = Some info →
  Manager.workers (Manager.do_call mm c).1 !! w =
    Some (match c with
          | Manager.CHeartbeat id t =>
              if decide (id = w)
              then Manager.mkInfo (Manager.Client info) t true (Manager.Topics info) (Manager.Address info)
              else info
          | Manager.CTick d t => if decide (Manager.timed_out d t info) then Manager.kill info else info
          | _ => info
          end).
Proof.
  destruct mm as [m mt]. intros Hfo Hl. destruct c as [wc a ts t|k|k t|d t]; cbn [Manager.do_call fst snd] in *.
  - cbn. by rewrite lookup_insert_ne.
  - unfold Manager.Remove. destruct (Manager.workers m !! k); cbn; [|done]. by rewrite lookup_delete_ne.
  - unfold Manager.Heartbeat. destruct (decide (k = w)) as [->|Hne].
    + rewrite Hl. cbn. apply lookup_insert_eq.
    + destruct (Manager.workers m !! k); cbn; [|done]. by rewrite lookup_insert_ne.
  - pose proof (Manager.monitorTick_exact m mt d t) as Ht. destruct (Manager.monitorTick m mt d t) as [m' mt'].
    destruct Ht as [Hw _]. cbn. by rewrite Hw, Hl.
Qed.
Lemma send_elem {A B} (f : B → A) l c x :
  x ∈ buf (foldl (λ c e, (try_send c (f e)).1) c l) → x ∈ buf c ∨ ∃ e, e ∈ l ∧ x = f e.
Proof.
  revert c. induction l as [|e l IH]; intros c Hx; [by left|]. cbn [foldl] in Hx.
  apply IH in Hx as [Hx|(e' & ? & ?)]; [|right; exists e'; set_solver].
  unfold try_send in Hx. case_decide; simpl in Hx; [|by left].
  apply elem_of_app in Hx as [?|Hx]; [by left|]. right. exists e. set_solver.
Qed.

(** A worker is signalled dead only when a tick finds it timed out. *)
Lemma call_signals mm c w :
  filed mm.1 → w ∈ buf (Manager.DeadWorkers (Manager.do_call mm c).1) →
  w ∈ buf (Manager.DeadWorkers mm.1) ∨
  ∃ d t info, c = Manager.CTick d t ∧ Manager.workers mm.1 !! w = Some info ∧ Manager.timed_out d t info.
Proof.
  destruct mm as [m mt]. intros Hf. destruct c as [wc a ts t|k|k t|d t]; cbn [Manager.do_call fst snd].
  - by left.
  - unfold Manager.Remove. destruct (Manager.workers m !! k); by left.
  - unfold Manager.Heartbeat. destruct (Manager.workers m !! k); by left.
  - unfold Manager.monitorTick. rewrite Manager.monitorLoop_spec. cbn.
    intros [?|([k info] & Hin & ->)]%send_elem; [by left|right].
    apply list_elem_of_filter in Hin as [Ht Hin]. apply elem_of_go_range in Hin. cbn in *.
    exists d, t, info. by rewrite (Hf _ _ Hin).
Qed.

(** A tick that finds a worker timed out. *)
Lemma tick_kills timeout now mm w info :
  filed mm.1 → Manager.workers mm.1 !! w = Some info → Manager.timed_out timeout now info →
  let m2 := (Manager.do_call mm (Manager.CTick timeout now)).1 in
  Manager.workers m2 !! w = Some (Manager.kill info) ∧
  ((length (buf (Manager.DeadWorkers mm.1)) + size (Manager.workers mm.1) ≤ cap (Manager.DeadWorkers mm.1))%nat →
     w ∈ buf (Manager.DeadWorkers m2)).
Proof.
  destruct mm as [m mt]. cbn. intros Hf Hi Ht. pose proof (Manager.monitorTick_exact m mt timeout now) as Hm.
  destruct (Manager.monitorTick m mt timeout now) as [m' mt']. destruct Hm as (Hw & ids & Hids & _ & Hsig).
  cbn. split; [by rewrite Hw, Hi; cbn; rewrite decide_True|]. intros Hroom.
  rewrite Hsig, elem_of_app.
  - right. rewrite Hids. apply list_elem_of_fmap. exists (w, info). split; [by rewrite <-(Hf _ _ Hi) at 1|].
    apply list_elem_of_filter. by rewrite elem_of_map_to_list.
  - rewrite Hids, length_fmap. pose proof (length_filter (λ e, Manager.timed_out timeout now e.2)
      (map_to_list (Manager.workers m))). rewrite length_map_to_list in *. lia.
Qed.

(** ** Live workers *)

Definition alive_since (last : Time) m (w : Z) : Prop :=
  ∃ info, Manager.workers m !! w = Some info ∧ Manager.Alive info = true ∧ Manager.LastHeartbeat info = last.

(** The next heartbeat, or the end of the history, is not in the past. *)
Lemma next_beat now cs stop w d last :
  timed now cs stop → spaced d last (omap (beat w) cs ++ [stop]) → now - last ≤ d.
Proof.
  revert now. induction cs as [|c cs IH]; intros now Ht Hs; [simpl in *; lia|].
  destruct Ht as [Hle Ht]. cbn [omap list_omap] in Hs. destruct (beat w c) as [t|] eqn:E.
  - destruct c as [| |k t'|]; simplify_eq/=. case_decide; simplify_eq. destruct Hs. lia.
  - specialize (IH _ Ht Hs). lia.
Qed.

Lemma live_history mm cs now stop w timeout last :
  filed mm.1 → alive_since last mm.1 w → timed now cs stop →
  Forall (foreign w) cs → Forall (ticks_with timeout) cs →
  spaced timeout last (omap (beat w) cs ++ [stop]) → w ∉ buf (Manager.DeadWorkers mm.1) →
  let m' := (foldl Manager.do_call mm cs).1 in
  (∃ last', alive_since last' m' w) ∧ w ∉ buf (Manager.DeadWorkers m').
Proof.
  revert mm now last. induction cs as [|c cs IH]; intros mm now last Hf Ha Ht Hfo Htk Hs Hd.
  { split; [by exists last|done]. }
  apply Forall_cons in Hfo as [Hfc Hfo]. apply Forall_cons in Htk as [Htc Htk].
  pose proof Ht as [Hle Ht']. destruct Ha as (info & Hi & Hal & Hlast).
  pose proof (call_entry mm c w info Hfc Hi) as Hi'.
  assert (Hok : match c with Manager.CTick d t => ¬ Manager.timed_out d t info | _ => True end).
  { destruct c as [| | |d t]; try done. simpl in Htc. subst d. cbn [omap list_omap beat] in Hs.
    pose proof (next_beat t cs stop w timeout last Ht' Hs). unfold Manager.timed_out. lia. }
  assert (Hd' : w ∉ buf (Manager.DeadWorkers (Manager.do_call mm c).1)).
  { intros [?|(d & t & i & -> & Hi2 & Hto)]%call_signals; [done| |done]. by simplify_eq. }
  pose proof (filed_call mm c Hf) as Hf'. cbn [foldl]. destruct (beat w c) as [t|] eqn:E.
  - destruct c as [| |k t'|]; simplify_eq/=. case_decide; simplify_eq.
    destruct Hs as [_ Hs]. eapply IH; [exact Hf'| |exact Ht'|done..].
    eexists. split; [exact Hi'|]. done.
  - eapply (IH _ _ last); [exact Hf'| |exact Ht'|done|done| |done].
    + eexists. split; [exact Hi'|]. destruct c as [| |k t'|d t']; try done; simpl in E; by case_decide.
    + cbn [omap list_omap] in Hs. by rewrite E in Hs.
Qed.
(** The timeout of the default configuration. *)
Definition heartbeatTimeout : Duration := Config.HeartbeatTimeout (Config.Default (λ _, "")).

(** When the [k]-th tick of the client's one-second ticker is delivered. *)
Definition delivered (t0 : Time) (delay : nat → Duration) (k : nat) : Time :=
  t0 + (Z.of_nat k + 1) * Second + delay k.

Lemma delivered_spaced t0 delay last k n stop :
  (∀ i, 0 ≤ delay i ≤ 4 * Second) → t0 + Z.of_nat k * Second ≤ last →
  stop ≤ t0 + Z.of_nat (k + n) * Second + heartbeatTimeout →
  spaced heartbeatTimeout last ((delivered t0 delay <$> seq k n) ++ [stop]).
Proof.
  intros Hd. assert (Ht : heartbeatTimeout = 5 * Second) by reflexivity. rewrite Ht. clear Ht.
  assert (HS : 0 < Second) by (by vm_compute).
  assert (Hdl : ∀ i, delivered t0 delay i = t0 + (Z.of_nat i + 1) * Second + delay i) by done.
  set (sec := Second) in *. clearbody sec.
  revert k last. induction n as [|n IH]; intros k last Hlast Hstop.
  - rewrite Nat.add_0_r in Hstop. simpl. lia.
  - cbn [seq fmap list_fmap app spaced]. pose proof (Hd k). rewrite Hdl. split; [lia|].
    apply IH; [|replace (S k + n)%nat with (k + S n)%nat by lia]; lia.
Qed.

(** C14. A live worker is never given up: a worker that registered and whose
    heartbeats, one per second, reach the control node within four seconds each
    stays alive, and is not signalled dead, through any history of ticks of the
    monitor and calls for other workers. *)
Theorem live_worker_stays_alive mm wc addr ts t0 delay n cs stop :
  filed mm.1 → WID wc ∉ buf (Manager.DeadWorkers mm.1) →
  (∀ k, 0 ≤ delay k ≤ 4 * Second) →
  omap (beat (WID wc)) cs = delivered t0 delay <$> seq 0 n →
  timed t0 cs stop → stop ≤ t0 + Z.of_nat n * Second + heartbeatTimeout →
  Forall (foreign (WID wc)) cs → Forall (ticks_with heartbeatTimeout) cs →
  let m' := (foldl Manager.do_call (Manager.Register mm.1 mm.2 wc addr ts t0) cs).1 in
  (∃ info, Manager.workers m' !! WID wc = Some info ∧ Manager.Alive info = true) ∧
  WID wc ∉ buf (Manager.DeadWorkers m').
Proof.
  intros Hf Hd Hdel Hb Ht Hstop Hfo Htk m'.
  assert (Hf' : filed (Manager.Register mm.1 mm.2 wc addr ts t0).1)
    by exact (filed_call mm (Manager.CRegister wc addr ts t0) Hf).
  destruct (live_history (Manager.Register mm.1 mm.2 wc addr ts t0) cs t0 stop (WID wc) heartbeatTimeout t0)
    as [(last & info & Hi & Ha & _) Hd']; [done| |done..| |done|].
  - eexists. split; [apply lookup_insert_eq|done].
  - rewrite Hb. apply delivered_spaced; [done|simpl; lia|done].
  - split; [by exists info|done].
Qed.

(** ** Dead workers *)

Definition ticked (c : Manager.call) : option Time :=
  match c with Manager.CTick _ t => Some t | _ => None end.

(** Ticks that are never more than [gap] apart find out a silent worker. *)
Lemma silent_history timeout gap prev mm w info cs :
  let last := Manager.LastHeartbeat info in
  prev ≤ last + timeout → filed mm.1 → Manager.workers mm.1 !! w = Some info → Forall (foreign w) cs →
  omap (beat w) cs = [] → Forall (ticks_with timeout) cs → spaced gap prev (omap ticked cs) →
  Exists (λ t, last + timeout < t) (omap ticked cs) →
  ∃ cs1 now cs2, cs = cs1 ++ Manager.CTick timeout now :: cs2 ∧
    last + timeout < now ≤ last + timeout + gap ∧
    let mm1 := foldl Manager.do_call mm cs1 in
    Manager.workers mm1.1 !! w = Some info ∧ filed mm1.1.
Proof.
  intros last. revert prev mm. induction cs as [|c cs IH]; intros prev mm Hp Hf Hi Hfo Hb Htk Hs He;
    [by apply Exists_nil in He|].
  apply Forall_cons in Hfo as [Hfc Hfo]. apply Forall_cons in Htk as [Htc Htk].
  cbn [omap list_omap] in Hb, Hs, He. destruct (beat w c) as [b|] eqn:Eb; [done|].
  pose proof (call_entry mm c w info Hfc Hi) as Hi'. pose proof (filed_call mm c Hf) as Hf'.
  destruct (ticked c) as [t|] eqn:Et.
  - destruct c as [| | |d t']; simplify_eq/=. destruct Hs as [Hle Hs].
    destruct (decide (last + timeout < t)) as [Hlt|Hge].
    + exists [], t, cs. split_and!; [done|lia|lia|done|done].
    + rewrite decide_False in Hi' by (unfold Manager.timed_out; lia).
      destruct (IH t (Manager.monitorTick mm.1 mm.2 timeout t)) as (cs1 & now & cs2 & -> & Hr); [lia|done..| |].
      { by apply Exists_cons in He as [?|?]. }
      by exists (Manager.CTick timeout t :: cs1), now, cs2.
  - assert (Hsame : Manager.workers (Manager.do_call mm c).1 !! w = Some info).
    { rewrite Hi'. destruct c as [| |k t'|]; try done. simpl in Eb. by case_decide. }
    destruct (IH prev (Manager.do_call mm c)) as (cs1 & now & cs2 & -> & Hr); [done..|].
    by exists (c :: cs1), now, cs2.
Qed.

Lemma monitorInterval_max timeout :
  Manager.monitorInterval timeout = Z.max (timeout / 2) (100 * Millisecond).
Proof. unfold Manager.monitorInterval. destruct (Z.ltb_spec (timeout / 2) (100 * Millisecond)); lia. Qed.

(** The ticks of the monitor's ticker. *)
Lemma ticker_spaced t0 timeout late most prev k n :
  (∀ i, 0 ≤ late i ≤ most) → t0 + Z.of_nat k * Manager.monitorInterval timeout ≤ prev →
  spaced (Manager.monitorInterval timeout + most) prev (Manager.tickTime t0 timeout late <$> seq k n).
Proof.
  intros Hl. revert k prev. induction n as [|n IH]; intros k prev Hp; [done|].
  cbn [seq fmap list_fmap spaced]. unfold Manager.tickTime at 1. pose proof (Hl k). split; [lia|].
  apply IH. unfold Manager.tickTime. lia.
Qed.

End Timing.

(** ** Registrations that do not happen *)

(** A control node that does not know a worker, because it was restarted or
    could not dial it, ignores its heartbeats: they never register it. *)
Lemma unknown_worker_ignored {T} `{GoRange} `{Store.StoreOps T} env c ws (st : State T) :
  Manager.workers (manager st) !! wrap32 (cid c) = None →
  ∃ st', run env (serve_all (heartbeats c ws)) st = (Returned tt, st') ∧ manager st' = manager st.
Proof.
  revert st. induction ws as [|[] ws IH]; intros st Hn; [by exists st..|].
  cbn [heartbeats serve_all serve]. rewrite run_bind. unfold Rpc.Heartbeat. run_simpl.
  unfold with_manager, Manager.Heartbeat. rewrite Hn. cbn [fst snd].
  destruct (IH (set_metrics (set_manager st (manager st)) (metrics st))) as (st' & Hrun & Hm); [done|].
  exists st'. split; [exact Hrun|]. by rewrite Hm.
Qed.

(** A registration call that fails is not repeated: the client returns and the
    process never registers. *)
Example registration_not_retried :
  Start (mkClient 7 "w7:50052" ["*"]) (Some "connection refused") (repeat TickerC 60) =
    [RegisterWorkerRequest 7 "w7:50052" ["*"]].
Proof. done. Qed.

(** ** Witnesses *)
Section Witnesses.
#[local] Existing Instance canonical_range.

Definition remote7 : WorkerClient := Broker.RemoteWorker 7 "w7:50052".
Definition nobody : Manager.Manager * Metrics.Metrics := (Manager.NewManager, Metrics.init).

Lemma nobody_filed : filed nobody.1.
Proof. intros id info Hi. cbn in Hi. by rewrite lookup_empty in Hi. Qed.

(** Two heartbeats, and ticks of the monitor up to four seconds later. *)
Definition punctual : list Manager.call :=
  [Manager.CHeartbeat 7 Second; Manager.CTick heartbeatTimeout (2 * Second);
   Manager.CHeartbeat 7 (2 * Second); Manager.CTick heartbeatTimeout (6 * Second)].

Lemma live_worker_stays_alive_witness :
  7 ∉ buf (Manager.DeadWorkers
            (foldl Manager.do_call (Manager.Register nobody.1 nobody.2 remote7 "w7:50052" ["*"] 0) punctual).1).
Proof.
  destruct (live_worker_stays_alive nobody remote7 "w7:50052" ["*"] 0 (λ _, 0) 2 punctual (6 * Second))
    as [_ Hd]; [exact nobody_filed|by apply (bool_decide_unpack _)|intros k; vm_compute; split; congruence|
    vm_compute; reflexivity|vm_compute; repeat split; congruence|vm_compute; congruence|
    repeat constructor|repeat constructor|].
  exact Hd.
Defined.

Definition registered : Manager.Manager * Metrics.Metrics :=
  Manager.Register nobody.1 nobody.2 remote7 "w7:50052" ["*"] 0.

Definition silent : list Manager.call :=
  (λ k, Manager.CTick heartbeatTimeout (k * (2500 * Millisecond))) <$> [1; 2; 3; 4].

End Witnesses.

End Link.
