(* ===== verification/Boot.v ===== *)
(** * Opening, restarting and stopping a node: [engine.New] and [Engine.Stop] of
    [internal/engine/engine.go], [NewRaftNode] of [internal/consensus/raft.go]

    The choice of the storage backend, the start of the Raft node over the
    answers of the library, and what a node on a bbolt database finds after it
    was stopped and started again. *)

From S2P Require Import Prelude Job Lease Dlq Store MemoryStore Metrics Queue Broker GoStrings Events.
From S2P Require Import Codec BoltStore Consensus Config Cron Manager Machine Scheduler Engine Server.
From S2P Require Import SchedulerSpec System.
From Stdlib Require Import Ascii.
Import Machine.

Module Boot.

(** ** The Raft node *)

(** The calls of the operating system and the Raft library [NewRaftNode] makes,
    with their answers: an error, or what they return.  [LatestSnapshot] is the
    snapshot on disk the library gives to the state machine when it starts. *)
Record RaftLib := mkRaftLib {
  MkdirAll : string → option string;
  ResolveTCPAddr : string → option string;
  NewTCPTransport : string → string + string;   (** the transport's local address *)
  NewFileSnapshotStore : string → option string;
  NewRaft : string → option string;
  LatestSnapshot : string → option (list ascii);
  HasExistingState : bool + string
}.

Inductive raft_error :=
  | ErrCreateDataDir (dir msg : string)
  | ErrResolveAddr (addr msg : string)
  | ErrCreateTransport (msg : string)
  | ErrCreateSnapshotStore (msg : string)
  | ErrCreateRaft (msg : string)
  | ErrExistingState (msg : string).

(** A node, and the servers it bootstrapped its cluster with. *)
Record RaftNode := mkRaftNode {
  nodeID : string;
  bootstrapped : option (list (string * string))
}.

(** The node or an error, and the snapshot its state machine was given. *)
Definition NewRaftNode (lib : RaftLib) (nodeID raftAddr dataDir : string)
  : (RaftNode + raft_error) * option (list ascii) :=
  match MkdirAll lib dataDir with
  | Some e => (inr (ErrCreateDataDir dataDir e), None)
  | None =>
  match ResolveTCPAddr lib raftAddr with
  | Some e => (inr (ErrResolveAddr raftAddr e), None)
  | None =>
  match NewTCPTransport lib raftAddr with
  | inr e => (inr (ErrCreateTransport e), None)
  | inl localAddr =>
  match NewFileSnapshotStore lib dataDir with
  | Some e => (inr (ErrCreateSnapshotStore e), None)
  | None =>
  let given := LatestSnapshot lib dataDir in
  match NewRaft lib nodeID with
  | Some e => (inr (ErrCreateRaft e), given)
  | None =>
  match HasExistingState lib with
  | inr e => (inr (ErrExistingState e), given)
  | inl true => (inl (mkRaftNode nodeID None), given)
  | inl false => (inl (mkRaftNode nodeID (Some [(nodeID, localAddr)])), given)
  end end end end end end.

(** [Close], with the answer of the library's [Shutdown]. *)
Definition Close (rn : RaftNode) (shutdown : option string) : option string := shutdown.

(** ** The engine *)

Section Open.
Context `{GoRange} {DB : Type} `{BoltStore.Bbolt DB} `{BoltStore.Zones}.

(** A node over the backend its configuration names. *)
Inductive node :=
  | OnMemory (st : State MemoryStore.MemoryStore)
  | OnBolt (st : State (BoltStore.BoltStore DB)).

(** A failed Raft node is logged and the engine runs without one. *)
Definition startRaft (lib : RaftLib) (cfg : Config.Config) : option RaftNode * option (list ascii) :=
  if Config.RaftEnabled cfg then
    match NewRaftNode lib (Config.RaftNodeID cfg) (Config.RaftAddr cfg) (Config.RaftDataDir cfg) with
    | (inl rn, given) => (Some rn, given)
    | (inr _, given) => (None, given)
    end
  else (None, None).

(** The store after the library gave its snapshot to the state machine. *)
Definition restored {T} `{Store.StoreOps T} (s : T) (given : option (list ascii)) : T :=
  match given with
  | Some data => (Consensus.Restore s data).1
  | None => s
  end.

(** [New]; [file] is the answer of opening the database. *)
Definition New (lib : RaftLib) (cfg : Config.Config) (file : DB + string) (now : Time)
  : (node * option RaftNode) + error :=
  let '(rn, given) := startRaft lib cfg in
  let raft := bool_decide (is_Some rn) in
  if decide (Config.StorageType cfg = "bolt") then
    match BoltStore.NewBoltStore file with
    | inr e => inr e
    | inl s => inl (OnBolt (Engine.New cfg (restored s given) raft now), rn)
    end
  else inl (OnMemory (Engine.New cfg (restored MemoryStore.NewMemoryStore given) raft now), rn).

(** [Stop], after the goroutines ended: the store is closed if it can be, with
    the library's answer [closing]; the error of the Raft node is dropped. *)
Definition Stop (n : node) (rn : option RaftNode) (shutdown : option string) (closing : err) : node * err :=
  let _ := match rn with Some rn => Close rn shutdown | None => None end in
  match n with
  | OnMemory st => (OnMemory st, None)
  | OnBolt st => (OnBolt (set_store st (BoltStore.Close (store st))), closing)
  end.
End Open.

(** ** After a restart *)

Section Restart.
Context `{GoRange} {DB : Type} {BB : BoltStore.Bbolt DB} {BL : BoltStore.BboltLaws DB}.
Context {ZN : BoltStore.Zones} {ZO : BoltStore.ZonesOk}.

(** A database with the buckets of [s], opened again. *)
Lemma reopened_rel (s s' : BoltStore.BoltStore DB) a d :
  Store.rel s a → (∀ b k, BoltStore.bget d b k = BoltStore.bget (BoltStore.db s) b k) →
  BoltStore.NewBoltStore (inl d) = inl s' → Store.rel s' a.
Proof.
  intros Ha Hg Hn. destruct (BoltStore.NewBoltStore_spec d s' Hn) as [Hr Hg'].
  apply (BoltStore.holds_ext (BoltStore.db s)); [done| |exact Ha]. intros b k. by rewrite Hg', Hg.
Qed.

(** Whether a node has a Raft node is settled when it is made. *)
Lemma run_raft {T} `{Store.StoreOps T} env {A} (p : prog A) (st : State T) : raft (run env p st).2 = raft st.
Proof.
  revert st. induction p as [x| |X a k IH]; intros st; simpl; [done..|].
  destruct (do_act env a st) as [[x st']|] eqn:Hd; [|done]. rewrite IH.
  assert (Hq : ∀ w q m, raft (set_queue st w q m) = raft st) by (by intros []).
  destruct a; cbn [do_act] in Hd; unfold with_manager, propose in Hd;
    repeat case_match; simplify_eq; by rewrite ?Hq.
Qed.

(** The start of the process on a store all of whose listings succeed. *)
Lemma run_startUp {T} `{Store.StoreLaws T} env (st : State T) a lp ls :
  Store.rel (store st) a → Queue.items (pq st) = [] → Queue.items (dq st) = [] →
  Store.ListByStatus (store st) Pending = (lp, None) →
  Store.ListByStatus (store st) Scheduled = (ls, None) →
  ∃ st', run env Server.startUp st = (Returned true, st') ∧ store st' = store st ∧
    Queue.items (pq st') ≡ₚ (if raft st then [] else ID <$> lp) ++ (ID <$> lp) ∧
    Queue.items (dq st') ≡ₚ (if raft st then [] else ID <$> ls) ++ (ID <$> ls) ∧
    (∀ id, is_Some (Store.jobs a !! id) → (id ≤ nextJobID st')%Z).
Proof.
  intros Hr Hp Hd Hlp Hls. unfold Server.startUp, Engine.Restore. run_simpl. rewrite run_bind.
  set (st0 := set_nextJobID st _).
  destruct (SchedulerSpec.run_rebuild env st0 lp ls Hlp Hls) as (st1 & Hrun & Hs & Hn & Hq & Hq').
  assert (Hraft : raft st1 = raft st) by (pose proof (run_raft env Scheduler.RebuildQueuesFromStore st0) as E;
    by rewrite Hrun in E). cbn [pq dq st0 set_nextJobID] in Hq, Hq'. rewrite Hp, app_nil_r in Hq. rewrite Hd, app_nil_r in Hq'.
  assert (Hmax : ∀ id, is_Some (Store.jobs a !! id) → (id ≤ nextJobID st1)%Z).
  { intros id [j Hj]. rewrite Hn. simpl. destruct (System.maxID_from (Store.List (store st)) 0) as (_ & Hmax & _).
    rewrite <-(proj1 (Store.rel_wf _ _ Hr) _ _ Hj). apply Hmax.
    rewrite (Store.List_spec _ _ Hr). apply list_elem_of_fmap. exists (id, j). by rewrite elem_of_map_to_list. }
  rewrite Hrun. unfold Engine.Start. rewrite run_bind, run_act. cbn [do_act]. rewrite Hraft. destruct (raft st).
  - exists st1. split_and!; done.
  - destruct (SchedulerSpec.run_rebuild env st1 lp ls) as (st2 & Hrun2 & Hs2 & Hn2 & Hq2 & Hq2');
      [by rewrite Hs..|]. exists st2. rewrite run_bind, Hrun2. split_and!; [done|by rewrite Hs2, Hs| | |].
    + by rewrite Hq2, Hq.
    + by rewrite Hq2', Hq'.
    + intros id Hid. rewrite Hn2. by apply Hmax.
Qed.

(** Becoming the leader queues the listed jobs. *)
Lemma run_lead {T} `{Store.StoreLaws T} env nodeID (st : State T) lp ls :
  Store.ListByStatus (store st) Pending = (lp, None) →
  Store.ListByStatus (store st) Scheduled = (ls, None) →
  ∃ st', run env (Engine.watchLeadership nodeID true) st = (Returned true, st') ∧
    Queue.items (pq st') ≡ₚ (ID <$> lp) ++ Queue.items (pq st) ∧
    Queue.items (dq st') ≡ₚ (ID <$> ls) ++ Queue.items (dq st).
Proof.
  intros Hlp Hls. unfold Engine.watchLeadership. rewrite run_act. cbn [do_act]. rewrite run_bind. set (st0 := set_bus st _).
  destruct (SchedulerSpec.run_rebuild env st0 lp ls Hlp Hls) as (st1 & -> & _ & _ & Hp & Hd).
  run_simpl. eexists. split; [reflexivity|]. by cbn [pq dq set_bus].
Qed.

Lemma no_snapshot lib cfg : LatestSnapshot lib (Config.RaftDataDir cfg) = None → (startRaft lib cfg).2 = None.
Proof.
  intros Hs. unfold startRaft, NewRaftNode. rewrite Hs. by repeat case_match; simplify_eq.
Qed.

(** C12. A process on a database comes back with what it had: opened on the
    contents of its last store without a Raft snapshot on disk, restored and started, it has the same jobs and
    draws ids above all of them.  Its priority queue holds exactly the pending
    jobs and its delay queue exactly the scheduled ones: each once on a node
    whose Raft node came up and, since [Restore] and [Start] both rebuild the
    queues, each twice on one without; when a Raft node is then told that it
    leads, each of them is queued once more. *)
Theorem restart_recovers lib env cfg nodeID (s : BoltStore.BoltStore DB) a d s' now :
  Config.StorageType cfg = "bolt" → LatestSnapshot lib (Config.RaftDataDir cfg) = None → Store.rel s a →
  (∀ b k, BoltStore.bget d b k = BoltStore.bget (BoltStore.db s) b k) →
  BoltStore.NewBoltStore (inl d) = inl s' →
  ∃ st rn st' st'' ps ss, New lib cfg (inl d) now = inl (OnBolt st, rn) ∧
    run env Server.startUp st = (Returned true, st') ∧
    run env (Engine.watchLeadership nodeID true) st' = (Returned true, st'') ∧
    (∀ id, Store.Get (store st') id = Store.Get s id) ∧
    (∀ id, is_Some (Store.Get s id) → (id ≤ nextJobID st')%Z) ∧
    NoDup ps ∧ (∀ id, id ∈ ps ↔ ∃ j, Store.Get s id = Some j ∧ JStatus j = Pending) ∧
    NoDup ss ∧ (∀ id, id ∈ ss ↔ ∃ j, Store.Get s id = Some j ∧ JStatus j = Scheduled) ∧
    Queue.items (pq st') ≡ₚ match rn with Some _ => ps | None => ps ++ ps end ∧
    Queue.items (dq st') ≡ₚ match rn with Some _ => ss | None => ss ++ ss end ∧
    (is_Some rn → Queue.items (pq st'') ≡ₚ ps ++ ps ∧ Queue.items (dq st'') ≡ₚ ss ++ ss).
Proof.
  intros Hcfg Hsnap Ha Hg Hn. pose proof (reopened_rel s s' a d Ha Hg Hn) as Ha'.
  apply no_snapshot in Hsnap. unfold New. destruct (startRaft lib cfg) as [rn given]. simpl in Hsnap. subst given.
  rewrite decide_True, Hn by done. cbn [restored].
  set (st := Engine.New cfg s' _ now). exists st, rn.
  destruct (BoltStore.ListByStatus_ok s' a Pending Ha' eq_refl) as (lp & Elp & Hlp).
  destruct (BoltStore.ListByStatus_ok s' a Scheduled Ha' eq_refl) as (ls & Els & Hls).
  destruct (run_startUp env st a lp ls Ha' eq_refl eq_refl Elp Els) as (st' & Hrun & Hs & Hp & Hd & Hmax).
  destruct (run_lead env nodeID st' lp ls) as (st'' & Hrun' & Hp' & Hd'); [by rewrite Hs..|].
  assert (Hget : ∀ id, Store.Get s id = Store.jobs a !! id) by (intros id; by apply Store.Get_spec).
  exists st', st'', (ID <$> lp), (ID <$> ls).
  split; [done|]. split; [done|]. split; [done|]. split; [|split; [|split; [|split; [|split; [|split]]]]].
  - intros id. rewrite Hs, Hget. exact (Store.Get_spec s' a id Ha').
  - intros id. rewrite Hget. apply Hmax.
  - rewrite Hlp. exact (System.byStatus_NoDup s a _ Ha).
  - intros id. rewrite Hlp. exact (System.byStatus_ids s a _ id Ha).
  - rewrite Hls. exact (System.byStatus_NoDup s a _ Ha).
  - intros id. rewrite Hls. exact (System.byStatus_ids s a _ id Ha).
  - rewrite Hp', Hd', Hp, Hd. cbn [raft st Engine.New].
    destruct rn; cbn; (split; [done|]); (split; [done|]); [done|]. by intros [? ?].
Qed.
End Restart.

(** ** A node with one job *)
Section Witnesses.
#[local] Existing Instance canonical_range.
#[local] Existing Instance BoltStore.utc.
#[local] Existing Instance BoltStore.utc_ok.

Definition defaults : Config.Config := Config.Default (λ _, "").

(** A library that does what it is asked, and one whose port is taken. *)
Definition healthy : RaftLib :=
  mkRaftLib (λ _, None) (λ _, None) (λ addr, inl addr) (λ _, None) (λ _, None) (λ _, None) (inl false).
Definition port_taken : RaftLib :=
  mkRaftLib (λ _, None) (λ _, None) (λ _, inr "address already in use") (λ _, None) (λ _, None) (λ _, None) (inl false).

Example bootstraps_alone :
  NewRaftNode healthy "node1" "127.0.0.1:18088" "data/raft" =
    (inl (mkRaftNode "node1" (Some [("node1", "127.0.0.1:18088")])), None).
Proof. done. Qed.

(** The engine comes up without Raft when the node cannot be started. *)
Example standalone_fallback :
  match New port_taken defaults (inl BoltStore.fresh_db) 0 with
  | inl (OnBolt st, None) => raft st = false
  | _ => False
  end.
Proof. vm_compute. reflexivity. Qed.

(** A snapshot on disk is added to the store the process opens, and the database
    overwrites what it has under the ids of the snapshot. *)
Example snapshot_reverts :
  let s := (Store.Add BoltStore.opened_store (NewJob 1 "email" 5)).1 in
  let data := default [] (Consensus.Persist (λ _, 0%Z) false (Consensus.Snapshot s)) in
  let s' := (Store.Update s (with_status (NewJob 1 "email" 5) Completed)).1 in
  JStatus <$> Store.Get s' 1 = Some Completed ∧
  JStatus <$> Store.Get (restored s' (Some data)) 1 = Some Pending.
Proof. vm_compute. exact (conj eq_refl eq_refl). Qed.

Definition one_job : list Store.op := [Store.OAdd (NewJob 1 "email" 5)].
Definition stopped : BoltStore.BoltStore BoltStore.MapDB := (Store.exec_all BoltStore.opened_store one_job).1.

Lemma stopped_rel : ∃ a, Store.rel stopped a.
Proof.
  assert (He : ∀ b k, BoltStore.bget BoltStore.fresh_db b k = None) by (intros b k; apply lookup_empty).
  assert (Hr : Store.rel BoltStore.opened_store Store.empty)
    by exact (BoltStore.new_holds _ _ He BoltStore.opened_store_ok).
  assert (Had : Store.admissible_all BoltStore.opened_store one_job).
  { cbn [one_job Store.admissible_all Store.admissible]. split; [|exact I]. split.
    - vm_compute. reflexivity.
    - repeat split; vm_compute; discriminate. }
  destruct (Store.exec_all_run _ _ _ Hr Had) as (a & _ & Hr'). by exists a.
Qed.

Definition calm : Env :=
  mkEnv (λ _ _, None) (λ _, None) (λ _ _, None) false false 0 false (λ _, 0%Z) (λ _, None) "1" "".

Lemma restart_recovers_witness :
  ∃ st rn st', New port_taken defaults (inl (BoltStore.reopen stopped)) 5 = inl (OnBolt st, rn) ∧
    run calm Server.startUp st = (Returned true, st') ∧ 1%Z ∈ Queue.items (pq st').
Proof.
  destruct stopped_rel as [a Ha].
  assert (Hn : ∃ s', BoltStore.NewBoltStore (inl (BoltStore.reopen stopped)) = inl s')
    by (vm_compute; eexists; reflexivity).
  destruct Hn as [s' Hn].
  destruct (restart_recovers port_taken calm defaults "n" stopped a (BoltStore.reopen stopped) s' 5
    eq_refl eq_refl Ha (BoltStore.reopen_bget stopped) Hn)
    as (st & rn & st' & st'' & ps & ss & Hnew & Hrun & _ & _ & _ & _ & Hps & _ & _ & Hp & _).
  exists st, rn, st'. split; [exact Hnew|]. split; [exact Hrun|]. rewrite Hp.
  assert (H1 : 1%Z ∈ ps) by (apply Hps; exists (NewJob 1 "email" 5); split; vm_compute; reflexivity).
  destruct rn; [exact H1|]. apply elem_of_app. by left.
Defined.
End Witnesses.

End Boot.
