(* ===== verification/Float64.v ===== *)
(** * Go's [float64]

    The binary64 format of IEEE 754 as the Standard Library specifies it, with
    the conversions, the operations and the comparisons the benchmark uses. *)

From S2P Require Import Prelude.
From Stdlib Require Import SpecFloat.
Local Open Scope Z_scope.

Module Float64.

Definition float64 := spec_float.

Definition prec : Z := 53.
Definition emax : Z := 1024.

(** [float64(n)], rounded to nearest, and the operations, which round alike. *)
Definition of_int (n : Z) : float64 := binary_normalize prec emax n 0 false.
Definition add : float64 → float64 → float64 := SFadd prec emax.
Definition mul : float64 → float64 → float64 := SFmul prec emax.
Definition div : float64 → float64 → float64 := SFdiv prec emax.
Definition ltb : float64 → float64 → bool := SFltb.
Definition leb : float64 → float64 → bool := SFleb.
Definition eqb : float64 → float64 → bool := SFeqb.

Definition zero : float64 := of_int 0.
Definition one : float64 := of_int 1.

(** [int(math.Ceil(x))] of a finite number; what the conversion makes of the
    others depends on the machine. *)
Definition ceil (x : float64) : option Z :=
  match x with
  | S754_zero _ => Some 0
  | S754_finite s m e =>
      let n := if s then Z.neg m else Z.pos m in
      Some (if 0 <=? e then n * 2 ^ e else - ((- n) / 2 ^ (- e)))
  | _ => None
  end.

(** [Duration.Seconds]: whole seconds and nanoseconds converted apart. *)
Definition seconds (d : Duration) : float64 :=
  add (of_int (Z.quot d Second)) (div (of_int (Z.rem d Second)) (of_int 1000000000)).

Example halves : ceil (div (of_int 5) (of_int 2)) = Some 3 ∧ ceil (div (of_int (-5)) (of_int 2)) = Some (-2).
Proof. vm_compute. done. Qed.

(** Decimal fractions are not exact: 0.55 of a hundred rounds above 55. *)
Example rounded_up : ceil (mul (div (of_int 55) (of_int 100)) (of_int 100)) = Some 56.
Proof. vm_compute. done. Qed.

End Float64.
