(* ===== verification/Benchmark.v ===== *)
(** * The benchmark tool: [internal/benchmark/benchmark.go]

    Latency percentiles, the executors the load is made with, the polling loop
    that counts finished jobs with the set-up before it, and the recovery
    experiment on a bbolt database. *)

From S2P Require Import Prelude Job Lease Store MemoryStore Metrics Heap Queue GoStrings Utf8 Json Codec Crypto.
From S2P Require Import BoltStore Broker Config Cron Manager Machine Scheduler Engine Float64 Boot Invariant System.
From S2P Require Import SchedulerSpec EngineSpec.
From stdpp Require Import sorting.
From Stdlib Require Import Ascii.
Local Open Scope Z_scope.

Module Benchmark.
Import Float64.

(** ** Percentiles *)

(** The rank of the [p]-th percentile of [n] values. *)
Definition rank (n : Z) (p : float64) : option Z :=
  r ← ceil (mul (div p (of_int 100)) (of_int n));
  let r := if r <? 1 then 1 else r in
  Some (if n <? r then n else r).

(** [Percentile]; [None] where the conversion of the rank depends on the
    machine.  The sort is of integers, so any sort gives the same slice. *)
Definition Percentile (latencies : list Duration) (p : float64) : option Duration :=
  match latencies with
  | [] => Some 0
  | _ =>
      let sorted := merge_sort Z.le latencies in
      if leb p zero then sorted !! 0%nat
      else if leb (of_int 100) p then last sorted
      else r ← rank (Z.of_nat (length sorted)) p; sorted !! Z.to_nat (r - 1)
  end.

(** How many values are at most [v]. *)
Definition at_most (ls : list Duration) (v : Duration) : Z :=
  Z.of_nat (length (filter (λ x, x ≤ v) ls)).

(** The percentiles the program asks for, on up to two thousand values: the
    float computation gives the rank rounded up exactly. *)
Definition asked : list Z := [50; 95; 99].
Definition maxSamples : nat := 2000.

Definition rank_ok (n : Z) : bool :=
  forallb (λ p, bool_decide (rank n (of_int p) = Some ((p * n + 99) / 100))) asked.

Lemma ranks_checked : forallb rank_ok (Z.of_nat <$> seq 1 maxSamples) = true.
Proof. vm_compute. reflexivity. Qed.

Lemma rank_exact n p :
  0 < n ≤ Z.of_nat maxSamples → p ∈ asked → rank n (of_int p) = Some ((p * n + 99) / 100).
Proof.
  intros Hn Hp. pose proof ranks_checked as Hc. rewrite forallb_forall in Hc.
  assert (Hok : rank_ok n = true).
  { apply Hc, list_elem_of_In, list_elem_of_fmap. exists (Z.to_nat n). rewrite elem_of_seq. lia. }
  unfold rank_ok in Hok. rewrite forallb_forall in Hok. eapply bool_decide_eq_true_1, Hok, list_elem_of_In, Hp.
Qed.

(** *** Sorted lists *)

Lemma sorted_le (l : list Z) i k x y :
  Sorted Z.le l → l !! i = Some x → l !! k = Some y → (i ≤ k)%nat → x ≤ y.
Proof.
  intros Hs Hi Hk Hle. destruct (decide (i = k)) as [->|]; [simplify_eq; lia|].
  apply (Sorted_StronglySorted _) in Hs.
  apply (StronglySorted_app_1_elem_of Z.le (take k l) (drop k l) x y).
  - by rewrite take_drop.
  - apply list_elem_of_lookup_2 with i. rewrite lookup_take_lt by lia. done.
  - apply list_elem_of_lookup_2 with 0%nat. by rewrite lookup_drop, Nat.add_0_r.
Qed.

Lemma filter_all (P : Z → Prop) `{!∀ x, Decision (P x)} (l : list Z) : (∀ x, x ∈ l → P x) → filter P l = l.
Proof.
  induction l as [|x l IH]; intros Hl; [done|]. rewrite filter_cons_True by (apply Hl; by left).
  f_equal. apply IH. intros y Hy. apply Hl. by right.
Qed.

Lemma filter_none (P : Z → Prop) `{!∀ x, Decision (P x)} (l : list Z) : (∀ x, x ∈ l → ¬ P x) → filter P l = [].
Proof.
  induction l as [|x l IH]; intros Hl; [done|]. rewrite filter_cons_False by (apply Hl; by left).
  apply IH. intros y Hy. apply Hl. by right.
Qed.

Lemma at_most_perm l l' v : l ≡ₚ l' → at_most l v = at_most l' v.
Proof. intros Hp. unfold at_most. by rewrite Hp. Qed.

(** In a sorted list the values at most that of position [i] include the first
    [i + 1], and those below it are among the first [i]. *)
Lemma at_most_ge l i v : Sorted Z.le l → l !! i = Some v → Z.of_nat (S i) ≤ at_most l v.
Proof.
  intros Hs Hi. unfold at_most. rewrite <-(take_drop (S i) l), filter_app, length_app.
  assert (Hall : filter (λ x, x ≤ v) (take (S i) l) = take (S i) l).
  { apply filter_all. intros x (k & Hk)%list_elem_of_lookup.
    apply lookup_take_Some in Hk as [Hk Hlt]. apply (sorted_le l k i x v); [done..|lia]. }
  rewrite Hall, length_take. apply lookup_lt_Some in Hi. lia.
Qed.

Lemma at_most_lt l i v w : Sorted Z.le l → l !! i = Some v → w < v → at_most l w ≤ Z.of_nat i.
Proof.
  intros Hs Hi Hw. unfold at_most. rewrite <-(take_drop i l), filter_app, length_app.
  assert (Hnone : filter (λ x, x ≤ w) (drop i l) = []).
  { apply filter_none. intros x (k & Hk)%list_elem_of_lookup Hle. rewrite lookup_drop in Hk.
    assert (v ≤ x) by (apply (sorted_le l i (i + k) v x); [done..|lia]). lia. }
  rewrite Hnone. pose proof (length_filter (λ x, x ≤ w) (take i l)). rewrite length_take in *. simpl. lia.
Qed.

(** C37. The reported percentiles are the nearest-rank ones, for all their
    rounding in binary: for the median, the 95th and the 99th percentile of up to
    two thousand latencies the result is one of the latencies, at least that
    share of them is not longer, and no shorter bound has that property. *)
Theorem percentile_nearest_rank ls p :
  ls ≠ [] → (length ls ≤ maxSamples)%nat → p ∈ asked →
  ∃ v, Percentile ls (of_int p) = Some v ∧ v ∈ ls ∧
    p * Z.of_nat (length ls) ≤ 100 * at_most ls v ∧
    ∀ w, w < v → 100 * at_most ls w < p * Z.of_nat (length ls).
Proof.
  intros Hne Hlen Hp. assert (Hbounds : 1 ≤ p ≤ 99 ∧ leb (of_int p) zero = false ∧ leb (of_int 100) (of_int p) = false).
  { unfold asked in Hp. repeat (apply elem_of_cons in Hp as [->|Hp]; [by vm_compute|]). by apply elem_of_nil in Hp. }
  destruct Hbounds as (Hb & H0 & H1). set (n := Z.of_nat (length ls)).
  assert (Hn : 0 < n ≤ Z.of_nat maxSamples) by (unfold n; destruct ls; simpl in *; [done|lia]).
  pose proof (merge_sort_Permutation Z.le ls) as Hperm. pose proof (Sorted_merge_sort Z.le ls) as Hs.
  set (sorted := merge_sort Z.le ls) in *. set (r := (p * n + 99) / 100).
  assert (Hr : 100 * (r - 1) < p * n ≤ 100 * r).
  { unfold r. pose proof (Z.div_mod (p * n + 99) 100). pose proof (Z.mod_pos_bound (p * n + 99) 100). lia. }
  assert (Hlk : is_Some (sorted !! Z.to_nat (r - 1))).
  { apply lookup_lt_is_Some. rewrite Hperm. nia. }
  destruct Hlk as [v Hv]. exists v.
  assert (Hcount : ∀ w, at_most ls w = at_most sorted w) by (intros w; symmetry; by apply at_most_perm).
  assert (Hidx : Z.of_nat (Z.to_nat (r - 1)) = r - 1) by nia.
  split_and!.
  - assert (Hl : Z.of_nat (length sorted) = n) by (unfold n; by rewrite Hperm).
    clearbody n. unfold Percentile. destruct ls as [|x ls]; [done|]. fold sorted.
    rewrite H0, H1, Hl, rank_exact by done. exact Hv.
  - rewrite <-Hperm. by eapply list_elem_of_lookup_2.
  - rewrite Hcount. pose proof (at_most_ge sorted _ v Hs Hv). lia.
  - intros w Hw. rewrite Hcount. pose proof (at_most_lt sorted _ v w Hs Hv Hw). lia.
Qed.

(** ** Executors *)

Record RealisticWorkloadExecutor := mkWorkload {
  payloadSize : Z;
  iterations : Z
}.

Definition NewRealisticWorkloadExecutor (payload iters : Z) : RealisticWorkloadExecutor :=
  mkWorkload (if payload <=? 0 then 1024 else payload) (if iters <=? 0 then 10 else iters).

(** The JSON form of [make([]byte, n)]: base64 with padding. *)
Definition zeroes (n : nat) : list ascii :=
  Crypto.EncodeToString (repeat (GoStrings.byte 0) n) ++ repeat "="%char (Nat.modulo (3 - Nat.modulo n 3) 3).

(** The payload as [json.Marshal] writes a map, its keys sorted. *)
Definition workload (e : RealisticWorkloadExecutor) (j : Job) (unixNano : Z) : list ascii :=
  Json.print (Json.JObj
    [(Json.str "job_id", Codec.jint (ID j)); (Json.str "job_type", Codec.jstring (JType j));
     (Json.str "payload", Json.JStr (zeroes (Z.to_nat (payloadSize e))));
     (Json.str "timestamp", Codec.jint unixNano)]).

(** The hashing loop: the first byte of each digest goes into the payload. *)
Fixpoint hashRounds (n : nat) (raw : list ascii) : list ascii :=
  match n with
  | 0%nat => raw
  | S n =>
      match Crypto.sha256 raw, raw with
      | h :: _, _ :: rest => hashRounds n (h :: rest)
      | _, _ => raw
      end
  end.

(** [Execute]: the bytes that were hashed and the error. *)
Definition WorkloadExecute (e : RealisticWorkloadExecutor) (cancelled : bool) (j : Job) (unixNano : Z)
  : list ascii * option exec_error :=
  if cancelled then ([], Some ExecCanceled)
  else (hashRounds (Z.to_nat (iterations e)) (workload e j unixNano), None).

Record FaultInjectingExecutor := mkFault {
  failureRate : float64;
  callCount : Z
}.

Definition NewFaultInjectingExecutor (rate : float64) : FaultInjectingExecutor := mkFault rate 0.

Definition FaultExecute (e : FaultInjectingExecutor) (cancelled : bool) (j : Job)
  : FaultInjectingExecutor * option exec_error :=
  if cancelled then (e, Some ExecCanceled)
  else
    let count := wrap64 (callCount e + 1) in
    (mkFault (failureRate e) count,
     if ltb (div (of_int (Z.rem count 100)) (of_int 100)) (failureRate e)
     then Some (ExecFailed ("transient upstream dependency failure (attempt " +:+ pretty (RetryCount j) +:+ ")"))
     else None).

(** A rate of [k] percent. *)
Definition percent (k : Z) : float64 := div (of_int k) (of_int 100).

Definition percents : list (Z * float64) := (λ n, (Z.of_nat n, percent (Z.of_nat n))) <$> seq 0 101.

Lemma percents_checked :
  (let ps := percents in
   forallb (λ x, forallb (λ y, bool_decide (ltb x.2 y.2 = (x.1 <? y.1))) ps) ps) = true.
Proof. vm_compute. reflexivity. Qed.

Lemma elem_of_percents i : 0 ≤ i ≤ 100 → In (i, percent i) percents.
Proof.
  intros Hi. apply list_elem_of_In, list_elem_of_fmap. exists (Z.to_nat i).
  rewrite elem_of_seq, Z2Nat.id by lia. split; [done|lia].
Qed.

Lemma percent_lt i k : 0 ≤ i ≤ 100 → 0 ≤ k ≤ 100 → ltb (percent i) (percent k) = (i <? k).
Proof.
  intros Hi Hk. pose proof percents_checked as Hc. cbv zeta in Hc. rewrite forallb_forall in Hc.
  specialize (Hc _ (elem_of_percents i Hi)). rewrite forallb_forall in Hc.
  specialize (Hc _ (elem_of_percents k Hk)). by apply bool_decide_eq_true_1 in Hc.
Qed.

(** The failures of consecutive calls. *)
Fixpoint failures (e : FaultInjectingExecutor) (js : list Job) : Z :=
  match js with
  | [] => 0
  | j :: js =>
      let '(e, r) := FaultExecute e false j in
      (match r with Some _ => 1 | None => 0 end) + failures e js
  end.

(** The numbers among [c + 1], ..., [c + n] whose remainder is below [k]. *)
Fixpoint hits (c : Z) (n : nat) (k : Z) : Z :=
  match n with
  | 0%nat => 0
  | S n => (if (c + 1) mod 100 <? k then 1 else 0) + hits (c + 1) n k
  end.

Lemma hits_snoc c n k :
  hits c (S n) k = hits c n k + (if (c + Z.of_nat n + 1) mod 100 <? k then 1 else 0).
Proof.
  revert c. induction n as [|n IH]; intros c.
  { cbn [hits]. change (Z.of_nat 0) with 0. rewrite (Z.add_0_r c). lia. }
  change (hits c (S (S n)) k) with ((if (c + 1) mod 100 <? k then 1 else 0) + hits (c + 1) (S n) k).
  rewrite IH. cbn [hits]. replace (c + 1 + Z.of_nat n + 1) with (c + Z.of_nat (S n) + 1) by lia. lia.
Qed.

Lemma hits_period c k : hits (c + 1) 100 k = hits c 100 k.
Proof.
  pose proof (hits_snoc c 100 k) as Hs. change (hits c 101 k) with
    ((if (c + 1) mod 100 <? k then 1 else 0) + hits (c + 1) 100 k) in Hs.
  replace (c + Z.of_nat 100 + 1) with (c + 1 + 1 * 100) in Hs by lia. rewrite Z_mod_plus_full in Hs. lia.
Qed.

Lemma hits_base : forallb (λ k, hits 0 100 k =? k) (Z.of_nat <$> seq 0 101) = true.
Proof. vm_compute. reflexivity. Qed.

Lemma hits_exact c k : 0 ≤ c → 0 ≤ k ≤ 100 → hits c 100 k = k.
Proof.
  intros Hc Hk. rewrite <-(Z2Nat.id c) by done. induction (Z.to_nat c) as [|i IH].
  - pose proof hits_base as Hb. rewrite forallb_forall in Hb. apply Z.eqb_eq, Hb.
    apply list_elem_of_In, list_elem_of_fmap. exists (Z.to_nat k). rewrite elem_of_seq. lia.
  - rewrite Nat2Z.inj_succ, <-Z.add_1_r, hits_period. exact IH.
Qed.

Lemma failures_hits k c js :
  0 ≤ k ≤ 100 → 0 ≤ c → c + Z.of_nat (length js) ≤ maxInt64 →
  failures (mkFault (percent k) c) js = hits c (length js) k.
Proof.
  intros Hk. revert c. induction js as [|j js IH]; intros c Hc Hm; [done|].
  cbn [failures FaultExecute callCount failureRate length hits] in *.
  rewrite wrap64_id by (unfold in_int64, minInt64; lia). rewrite IH by lia. f_equal.
  change (div (of_int ?x) (of_int 100)) with (percent x). rewrite Z.rem_mod_nonneg by lia.
  pose proof (Z.mod_pos_bound (c + 1) 100). rewrite percent_lt by lia. by destruct (_ <? _).
Qed.

(** The injected failure rate is exact: at a rate of [k] percent every
    hundred consecutive calls have exactly [k] failures, wherever they start. *)
Theorem fault_rate_exact k c js :
  0 ≤ k ≤ 100 → 0 ≤ c → length js = 100%nat → c + 100 ≤ maxInt64 →
  failures (mkFault (percent k) c) js = k.
Proof.
  intros Hk Hc Hl Hm. rewrite failures_hits by (rewrite ?Hl; lia). rewrite Hl. by apply hits_exact.
Qed.

(** ** The worker-pool experiment *)

Record BenchmarkResult := mkBenchmark {
  NumJobs : Z;
  NumWorkers : Z;
  TotalDuration : Duration;
  ThroughputJobsPerSec : float64;
  P50Latency : option Duration;
  P95Latency : option Duration;
  P99Latency : option Duration;
  SuccessCount : Z;
  FailureCount : Z
}.

(** The variables of the polling loop of [runWorkerPoolTest]. *)
Record tally := mkTally {
  seenTerminal : gset Z;
  latencies : list Duration;
  successCount : Z;
  failureCount : Z
}.

Definition startTally : tally := mkTally ∅ [] 0 0.

(** [now.Sub(t)], which stops at the bounds of a duration. *)
Definition elapsed (now t : Time) : Duration := minInt64 `max` (maxInt64 `min` (now - t)).

(** One job of a listing, looked at at time [now]; an id without a submission
    time counts from the zero time. *)
Definition pollJob (submitTimes : gmap Z Time) (t : tally) (jn : Job * Time) : tally :=
  let '(j, now) := jn in
  if decide (ID j ∈ seenTerminal t) then t
  else if decide (JStatus j = Completed ∨ JStatus j = Failed) then
    mkTally ({[ID j]} ∪ seenTerminal t)
      (latencies t ++ [elapsed now (default time_zero (submitTimes !! ID j))])
      (if decide (JStatus j = Completed) then successCount t + 1 else successCount t)
      (if decide (JStatus j = Completed) then failureCount t else failureCount t + 1)
  else t.

(** How the loop ends; [Waiting] while its next tick has not come. *)
Inductive poll_outcome :=
  | Finished (t : tally)
  | TimedOut (terminal : nat)
  | Waiting (t : tally).

(** A turn of the loop per element: the time of the deadline check and the
    listing after the tick. *)
Fixpoint pollLoop (numJobs : Z) (deadline : Time) (submitTimes : gmap Z Time)
    (turns : list (Time * list (Job * Time))) (t : tally) : poll_outcome :=
  if Z.of_nat (size (seenTerminal t)) <? numJobs then
    match turns with
    | [] => Waiting t
    | (now, listing) :: turns =>
        if deadline <? now then TimedOut (size (seenTerminal t))
        else pollLoop numJobs deadline submitTimes turns (foldl (pollJob submitTimes) t listing)
    end
  else Finished t.

(** What is returned for a finished loop. *)
Definition report (numJobs numWorkers : Z) (total : Duration) (t : tally) : BenchmarkResult :=
  mkBenchmark numJobs numWorkers total (div (of_int (successCount t)) (seconds total))
    (Percentile (latencies t) (of_int 50)) (Percentile (latencies t) (of_int 95))
    (Percentile (latencies t) (of_int 99)) (successCount t) (failureCount t).

Definition balanced (submitted : gset Z) (t : tally) : Prop :=
  seenTerminal t ⊆ submitted ∧ length (latencies t) = size (seenTerminal t) ∧
  successCount t + failureCount t = Z.of_nat (size (seenTerminal t)).

Lemma pollJob_balanced ts (submitted : gset Z) t jn :
  ID jn.1 ∈ submitted → balanced submitted t → balanced submitted (pollJob ts t jn).
Proof.
  destruct jn as [j now]. unfold balanced. cbn [pollJob fst]. intros Hj (Hs & Hl & Hc).
  case_decide as Hin; [done|]. case_decide as Hst; [|done]. cbn [seenTerminal latencies successCount failureCount].
  rewrite size_union by set_solver. rewrite size_singleton, length_app. simpl.
  split_and!; [set_solver|lia|]. case_decide; lia.
Qed.

Lemma poll_balanced ts (submitted : gset Z) listing t :
  Forall (λ jn, ID jn.1 ∈ submitted) listing → balanced submitted t →
  balanced submitted (foldl (pollJob ts) t listing).
Proof.
  revert t. induction listing as [|jn l IH]; intros t Hf Ht; [done|].
  apply Forall_cons in Hf as [Hj Hf]. apply IH; [done|]. by apply pollJob_balanced.
Qed.

(** The benchmark counts every job once: when the loop ends and the
    listings show the submitted jobs only, successes and failures add up to the
    number of jobs, with one latency for each. *)
Theorem benchmark_counts numJobs deadline ts turns t :
  Z.of_nat (size ts) = numJobs →
  Forall (λ turn, Forall (λ jn, is_Some (ts !! ID jn.1)) turn.2) turns →
  pollLoop numJobs deadline ts turns startTally = Finished t →
  successCount t + failureCount t = numJobs ∧ Z.of_nat (length (latencies t)) = numJobs.
Proof.
  intros Hn Hf. assert (Hb : balanced (dom ts) startTally) by done. revert Hb Hf. generalize startTally.
  induction turns as [|[now l] turns IH]; intros t0 Hb Hf; cbn [pollLoop];
    destruct (Z.ltb_spec (Z.of_nat (size (seenTerminal t0))) numJobs) as [Hlt|Hge]; try done.
  - intros [= <-]. destruct Hb as (Hs & Hl & Hc). apply subseteq_size in Hs. rewrite size_dom in Hs. lia.
  - destruct (deadline <? now); [done|]. apply Forall_cons in Hf as [Hl Hf]. apply IH; [|done].
    apply poll_balanced; [|done]. eapply Forall_impl; [exact Hl|]. intros jn. by rewrite elem_of_dom.
  - intros [= <-]. destruct Hb as (Hs & Hl & Hc). apply subseteq_size in Hs. rewrite size_dom in Hs. lia.
Qed.

(** *** The set-up of the experiment *)

Import Machine.

(** The overrides of the default configuration. *)
Definition poolConfig (c : Config.Config) (numJobs : Z) : Config.Config :=
  Config.mkConfig 0 (Config.WorkerID c) Cron.Hour (Config.MaxRetries c) (Config.MaxBackoff c)
    (wrap64 (numJobs + 100)) (Config.WorkerExecutionTimeout c) (Config.DelayQueuePollInterval c)
    (Config.RateLimit c) (Config.RateBurst c) (Config.BreakerFailureThreshold c) (Config.BreakerResetTimeout c)
    (Config.ControllerGRPCPort c) (Config.WorkerGRPCPort c) "memory" (Config.StoragePath c) false
    (Config.RaftNodeID c) (Config.RaftAddr c) (Config.RaftDataDir c) (Config.JWTSecret c) (Config.AuthEnabled c).

Definition registerPool (numWorkers : nat) : prog unit :=
  for_each (Z.of_nat <$> seq 1 numWorkers)
    (λ i, call (ARegister (LocalWorker i) ("localhost:bench-" +:+ GoStrings.Itoa i) ["compute"])).

(** The submission loop; an error ends it. *)
Fixpoint submitPool (numJobs : nat) (submitTimes : gmap Z Time) : prog (gmap Z Time + error) :=
  match numJobs with
  | 0%nat => mret (inl submitTimes)
  | S numJobs =>
      r ← Engine.SubmitJobWithContext "compute" 1;
      match r.2 with
      | Some e => mret (inr e)
      | None =>
          now ← call ANow;
          submitPool numJobs (<[ID r.1 := now]> submitTimes)
      end
  end.

Definition poolSetup (numJobs numWorkers : nat) : prog (gmap Z Time + error) :=
  _ ← registerPool numWorkers;
  _ ← Engine.Start;
  submitPool numJobs ∅.

Section Pool.
Context `{GoRange} {T : Type} `{Store.ReliableStore T}.
Implicit Types (st : State T) (a : Store.Abs).

Lemma run_registerPool env n st :
  ∃ st', run env (registerPool n) st = (Returned tt, st') ∧ store st' = store st ∧
    nextJobID st' = nextJobID st ∧ raft st' = raft st.
Proof.
  unfold registerPool. generalize (Z.of_nat <$> seq 1 n) as l. intros l. revert st.
  induction l as [|i l IH]; intros st; [by exists st|]. cbn [for_each]. run_simpl.
  unfold with_manager. destruct (Manager.Register _ _ _ _ _ _) as [m mt]. run_simpl.
  edestruct IH as (st' & -> & Hs & Hn & Hr). exists st'. by rewrite Hs, Hn, Hr.
Qed.

(** A submission on a standalone node. *)
Lemma run_submit env st a ty p :
  raft st = false → Store.rel (store st) a → in_int64 (nextJobID st + 1) →
  Store.jobs a !! (nextJobID st + 1) = None →
  ∃ st', run env (Engine.SubmitJobWithContext ty p) st =
      (Returned (NewJob (nextJobID st + 1) ty p, None), st') ∧
    Store.rel (store st') (Store.abs_add Store.norm a (NewJob (nextJobID st + 1) ty p)).1 ∧
    raft st' = false ∧ nextJobID st' = nextJobID st + 1.
Proof.
  intros Hraft Hr Hn Hf. unfold Engine.SubmitJobWithContext. run_simpl. rewrite wrap64_id by done. rewrite !run_bind.
  set (stl := set_nextJobID st (nextJobID st + 1)).
  destruct (EngineSpec.run_addJob env stl a (NewJob (nextJobID st + 1) ty p) PQ Hraft Hr Hf)
    as (s' & q & m & -> & Hr' & _).
  run_simpl. eexists. split; [reflexivity|]. done.
Qed.

Lemma run_submitPool env n st a ts :
  raft st = false → Store.rel (store st) a → 0 ≤ nextJobID st → nextJobID st + Z.of_nat n ≤ maxInt64 →
  (∀ id, nextJobID st < id → Store.jobs a !! id = None) →
  ∃ st' ts', run env (submitPool n ts) st = (Returned (inl ts'), st') ∧
    (∀ id, is_Some (ts' !! id) ↔ is_Some (ts !! id) ∨ nextJobID st < id ≤ nextJobID st + Z.of_nat n).
Proof.
  revert st a ts. induction n as [|n IH]; intros st a ts Hraft Hr Hpos Hmax Hf.
  { exists st, ts. split; [done|]. intros id. split; [by left|]. intros [?|?]; [done|lia]. }
  cbn [submitPool]. destruct (run_submit env st a "compute" 1 Hraft Hr) as (st1 & Hrun & Hr1 & Hraft1 & Hn1).
  { unfold in_int64, minInt64. lia. } { apply Hf. lia. }
  rewrite run_bind, Hrun. run_simpl. cbn [fst ID NewJob].
  destruct (IH st1 _ (<[nextJobID st + 1 := clock st1]> ts) Hraft1 Hr1) as (st' & ts' & Hrun' & Hts); rewrite ?Hn1; [lia|lia| |].
  { intros id Hid. rewrite EngineSpec.jobs_added by (apply Hf; simpl; lia). simpl.
    rewrite lookup_insert_ne by lia. apply Hf. lia. }
  exists st', ts'. split; [exact Hrun'|]. intros id. rewrite Hts, Hn1.
  destruct (decide (id = nextJobID st + 1)) as [->|Hne].
  - rewrite lookup_insert_eq. split; intros _; [right; lia|left; eauto].
  - rewrite lookup_insert_ne by done. split; intros [?|?]; auto; right; lia.
Qed.

(** Starting the engine on an empty store. *)
Lemma run_Start_empty env st a :
  raft st = false → Store.rel (store st) a → Store.jobs a = ∅ →
  ∃ st', run env Engine.Start st = (Returned true, st') ∧ store st' = store st ∧
    nextJobID st' = nextJobID st ∧ raft st' = false.
Proof.
  intros Hraft Hr He. assert (Hl : ∀ x, known_status x = true → Store.ListByStatus (store st) x = ([], None)).
  { intros x Hx. pose proof (Store.ListByStatus_total _ _ x Hr) as Ht.
    destruct (Store.ListByStatus (store st) x) as [l e] eqn:El. simpl in Ht. subst e.
    apply (Store.ListByStatus_spec _ _ _ _ Hr Hx) in El. unfold Store.abs_byStatus in El.
    rewrite He, map_to_list_empty in El. by apply Permutation_nil_r in El as ->. }
  unfold Engine.Start, Scheduler.RebuildQueuesFromStore. run_simpl. rewrite Hraft. run_simpl. rewrite run_bind.
  run_simpl. rewrite Hl by done. cbn [for_each]. run_simpl. rewrite Hl by done. cbn [for_each]. run_simpl.
  by eexists.
Qed.

Lemma seq_keys (ts : gmap Z Time) (n : nat) :
  (∀ id, is_Some (ts !! id) ↔ 0 < id ≤ Z.of_nat n) → size ts = n.
Proof.
  intros Hts. rewrite <-size_dom. replace (dom ts) with (list_to_set (Z.of_nat <$> seq 1 n) : gset Z).
  - rewrite size_list_to_set; [by rewrite length_fmap, length_seq|]. apply (NoDup_fmap_2 Z.of_nat), NoDup_seq.
  - apply set_eq. intros id. rewrite elem_of_list_to_set, elem_of_dom, Hts, list_elem_of_fmap.
    split; [intros (k & -> & Hk%elem_of_seq); lia|]. intros Hid. exists (Z.to_nat id).
    rewrite elem_of_seq. lia.
Qed.

(** The experiment on an empty store submits exactly the jobs it then waits for:
    the set-up ends with a submission time for each of the ids 1 to [n], and a
    polling loop over listings of these jobs that ends has counted each of them
    once. *)
Theorem pool_counts env cfg (n nw : nat) s a now :
  Store.rel s a → Store.jobs a = ∅ → Z.of_nat n ≤ maxInt64 →
  ∃ st ts, run env (poolSetup n nw) (Engine.New (poolConfig cfg (Z.of_nat n)) s false now) =
      (Returned (inl ts), st) ∧
    (∀ id, is_Some (ts !! id) ↔ 0 < id ≤ Z.of_nat n) ∧
    ∀ deadline turns t,
      Forall (λ turn, Forall (λ jn, 0 < ID jn.1 ≤ Z.of_nat n) turn.2) turns →
      pollLoop (Z.of_nat n) deadline ts turns startTally = Finished t →
      successCount t + failureCount t = Z.of_nat n ∧ length (latencies t) = n.
Proof.
  intros Hr He Hmax. set (st0 := Engine.New _ _ _ _).
  destruct (run_registerPool env nw st0) as (st1 & Hrun1 & Hs1 & Hn1 & Hraft1).
  destruct (run_Start_empty env st1 a) as (st2 & Hrun2 & Hs2 & Hn2 & Hraft2); [done|by rewrite Hs1|done|].
  assert (Hn : nextJobID st2 = 0) by (by rewrite Hn2, Hn1).
  destruct (run_submitPool env n st2 a ∅) as (st & ts & Hrun & Hts);
    [done|by rewrite Hs2, Hs1|lia|lia|intros; by rewrite He, lookup_empty|].
  assert (Hids : ∀ id, is_Some (ts !! id) ↔ 0 < id ≤ Z.of_nat n).
  { intros id. rewrite Hts, Hn, lookup_empty. split; [intros [[? ?]|?]; [done|lia]|right; lia]. }
  exists st, ts. split; [unfold poolSetup; by rewrite run_bind, Hrun1, run_bind, Hrun2|]. split; [done|].
  intros deadline turns t Hf Hp. destruct (benchmark_counts (Z.of_nat n) deadline ts turns t) as [Hc Hl];
    [by rewrite (seq_keys ts n)| |done|lia].
  eapply Forall_impl; [exact Hf|]. intros turn Ht. eapply Forall_impl; [exact Ht|]. intros jn Hj. by apply Hids.
Qed.
End Pool.

Record ScalabilityResult := mkScalability {
  WorkerCount : Z;
  Throughput : float64;
  SP50 : option Duration;
  SP95 : option Duration;
  SP99 : option Duration;
  Speedup : float64
}.

(** [RunScalabilityBenchmark] over the single runs. *)
Fixpoint scalability (runTest : Z → BenchmarkResult + string) (base : float64) (workerCounts : list Z)
  : list ScalabilityResult + string :=
  match workerCounts with
  | [] => inl []
  | numWorkers :: workerCounts =>
      match runTest numWorkers with
      | inr e => inr e
      | inl res =>
          let base := if eqb base zero then ThroughputJobsPerSec res else base in
          let speedup := if ltb zero base then div (ThroughputJobsPerSec res) base else one in
          match scalability runTest base workerCounts with
          | inr e => inr e
          | inl results =>
              inl (mkScalability numWorkers (ThroughputJobsPerSec res) (P50Latency res) (P95Latency res)
                     (P99Latency res) speedup :: results)
          end
      end
  end.

Definition RunScalabilityBenchmark (runTest : Z → BenchmarkResult + string) (workerCounts : list Z) :=
  scalability runTest zero workerCounts.

(** ** The recovery experiment *)

Record RecoveryResult := mkRecovery {
  JobCount : Z;
  StorageType : string;
  SaveDuration : Duration;
  RecoveryDuration : Duration;
  JobsPerSecond : float64
}.

Inductive recovery_error :=
  | ErrCreateStore (e : error)
  | ErrSeed (i : Z) (e : error)
  | ErrReopen (e : error)
  | ErrListPending (e : error)
  | ErrExpected (want got : Z).

Section Recovery.
Context {DB : Type} {BB : BoltStore.Bbolt DB} {ZN : BoltStore.Zones}.

Definition seedJob (i : Z) : Job := with_status (NewJob i "email" (Z.rem i 10)) Pending.

Fixpoint seed (s : BoltStore.BoltStore DB) (ids : list Z) : BoltStore.BoltStore DB + recovery_error :=
  match ids with
  | [] => inl s
  | i :: ids =>
      match BoltStore.Add s (seedJob i) with
      | (s, None) => seed s ids
      | (_, Some e) => inr (ErrSeed i e)
      end
  end.

(** [RunRecoveryBenchmark], with the rebuilt queue.  [file] and [again] are the
    answers of the two openings of the database, the second on what the first
    left; the durations are measured. *)
Definition RunRecoveryBenchmark (numJobs : Z) (storageType : string) (file : DB + string)
    (again : DB → DB + string) (saveDuration recoveryDuration : Duration)
  : (Queue.JobQueue * RecoveryResult) + recovery_error :=
  match BoltStore.NewBoltStore file with
  | inr e => inr (ErrCreateStore e)
  | inl st =>
  match seed st (seqZ 1 numJobs) with
  | inr e => inr e
  | inl st =>
  match BoltStore.NewBoltStore (again (BoltStore.db (BoltStore.Close st))) with
  | inr e => inr (ErrReopen e)
  | inl newStore =>
  match BoltStore.ListByStatus newStore Pending with
  | (_, Some e) => inr (ErrListPending e)
  | (pendingJobs, None) =>
      let pq := Queue.fill (Queue.PriorityComparator newStore) (ID <$> pendingJobs) in
      let got := Z.of_nat (length pendingJobs) in
      if negb (got =? numJobs) then inr (ErrExpected numJobs got)
      else inl (pq, mkRecovery numJobs storageType saveDuration recoveryDuration
                      (div (of_int numJobs) (seconds recoveryDuration)))
  end end end end.

Context {BL : BoltStore.BboltLaws DB} {ZO : BoltStore.ZonesOk}.

Lemma seedJob_clean i : Store.norm_job Utf8.Sanitize (seedJob i) = seedJob i.
Proof. reflexivity. Qed.

Lemma seedJob_ints i : in_int64 i → Codec.ints_ok (seedJob i).
Proof.
  intros Hi. assert (Hr : in_int64 (Z.rem i 10)).
  { pose proof (Z.rem_bound_abs i 10). unfold in_int64, minInt64, maxInt64. lia. }
  split_and!; simpl; done || (split; vm_compute; discriminate) || idtac.
Qed.

Lemma seed_spec ids (s : BoltStore.BoltStore DB) a :
  BoltStore.holds (BoltStore.db s) a → NoDup ids → Forall in_int64 ids → (∀ i, i ∈ ids → Store.jobs a !! i = None) →
  match seed s ids with
  | inl s' => ∃ a', BoltStore.holds (BoltStore.db s') a' ∧
      ∀ i, Store.jobs a' !! i = if decide (i ∈ ids) then Some (seedJob i) else Store.jobs a !! i
  | inr e => ∃ i m, e = ErrSeed i (ErrStorage m)
  end.
Proof.
  revert s a. induction ids as [|i ids IH]; intros s a Ha Hnd Hin Hfresh; cbn [seed].
  { exists a. split; [done|]. intros i. by rewrite decide_False by apply not_elem_of_nil. }
  apply NoDup_cons in Hnd as [Hi Hnd]. apply Forall_cons in Hin as [Hr Hin].
  assert (Hn : Store.jobs a !! i = None) by (apply Hfresh; by left).
  destruct (BoltStore.Add_ok s a (seedJob i) Ha (seedJob_ints i Hr) Hn) as [[He Ha']|[[m He] _]];
    destruct (BoltStore.Add s (seedJob i)) as [s1 e]; simpl in He; subst e; [|by exists i, m].
  assert (Hj : Store.jobs (Store.abs_add Utf8.Sanitize a (seedJob i)).1 = <[i := seedJob i]> (Store.jobs a)).
  { unfold Store.abs_add. cbn [ID seedJob with_status NewJob]. by rewrite Hn. }
  specialize (IH s1 _ Ha' Hnd Hin). rewrite Hj in IH.
  assert (Hf : ∀ k, k ∈ ids → <[i := seedJob i]> (Store.jobs a) !! k = None).
  { intros k Hk. rewrite lookup_insert_ne by set_solver. apply Hfresh. by right. }
  specialize (IH Hf). destruct (seed s1 ids) as [s'|e]; [|done]. destruct IH as (a' & Ha2 & Hl).
  exists a'. split; [done|]. intros k. rewrite Hl. destruct (decide (k = i)) as [->|Hne].
  - by rewrite decide_False, decide_True, lookup_insert_eq by set_solver.
  - rewrite lookup_insert_ne by done. by apply decide_ext; set_solver.
Qed.

(** The recovery experiment measures a full recovery: on a new database,
    reopened with what was committed, it fails only when the storage does, and
    otherwise the rebuilt queue holds each seeded job exactly once. *)
Theorem recovery_complete numJobs kind (d : DB) again sd rd :
  0 ≤ numJobs ≤ maxInt64 → (∀ b k, BoltStore.bget d b k = None) →
  (∀ d0 d1, again (BoltStore.close d0) = inl d1 → ∀ b k, BoltStore.bget d1 b k = BoltStore.bget d0 b k) →
  match RunRecoveryBenchmark numJobs kind (inl d) again sd rd with
  | inl (pq, r) => Queue.items pq ≡ₚ seqZ 1 numJobs ∧ JobCount r = numJobs
  | inr (ErrCreateStore _) | inr (ErrSeed _ (ErrStorage _)) | inr (ErrReopen _) => True
  | inr _ => False
  end.
Proof.
  intros Hn He Hagain. unfold RunRecoveryBenchmark.
  destruct (BoltStore.NewBoltStore (inl d)) as [s|e] eqn:Hnew; [|done].
  pose proof (BoltStore.new_holds d s He Hnew) as Hs.
  pose proof (seed_spec (seqZ 1 numJobs) s Store.empty Hs (NoDup_seqZ _ _)) as Hseed.
  destruct (seed s (seqZ 1 numJobs)) as [s1|e].
  2:{ destruct Hseed as (i & m & ->); [|intros; apply lookup_empty|done]. apply Forall_forall.
      intros i Hi%elem_of_seqZ. unfold in_int64, minInt64. lia. }
  destruct Hseed as (a & Ha & Hl); [|intros; apply lookup_empty|].
  { apply Forall_forall. intros i Hi%elem_of_seqZ. unfold in_int64, minInt64. lia. }
  cbn [BoltStore.Close BoltStore.db]. specialize (Hagain (BoltStore.db s1)).
  destruct (again _) as [d1|m]; [|done].
  destruct (BoltStore.NewBoltStore (inl d1)) as [s2|e] eqn:Hnew2; [|done].
  assert (Ha2 : Store.rel s2 a) by exact (Boot.reopened_rel s1 s2 a d1 Ha (Hagain d1 eq_refl) Hnew2).
  destruct (BoltStore.ListByStatus_ok s2 a Pending Ha2 eq_refl) as (l & -> & Hp).
  assert (Hids : ID <$> l ≡ₚ seqZ 1 numJobs).
  { apply NoDup_Permutation; [rewrite Hp; by eapply System.byStatus_NoDup|apply NoDup_seqZ|].
    intros i. rewrite Hp, (System.byStatus_ids s2 a _ i Ha2), (Store.Get_spec _ _ _ Ha2), Hl.
    case_decide; split; [done|eauto| |done]. intros (j & Hj & _).
    unfold Store.empty in Hj. cbn [Store.jobs] in Hj. by rewrite lookup_empty in Hj. }
  assert (Hlen : Z.of_nat (length l) = numJobs).
  { apply Permutation_length in Hids. rewrite length_fmap, length_seqZ in Hids. lia. }
  rewrite Hlen, Z.eqb_refl. simpl. split; [|done]. unfold Queue.fill. by rewrite Queue.fill_perm, app_nil_r.
Qed.
End Recovery.

(** ** The election experiment *)

Record FailoverResult := mkFailover {
  ClusterSize : Z;
  OriginalLeader : string;
  NewLeader : string;
  ElectionDuration : Duration
}.

Inductive failover_error :=
  | ErrTempDir (msg : string)
  | ErrListen (msg : string)
  | ErrCreateRaftNode (e : Boot.raft_error)
  | ErrElectionTimeout.

(** What the election brings within three seconds: word on the leader channel,
    or nothing, and then whether the node is the leader. *)
Inductive election := Announced | Silent (isLeader : bool).

(** [RunRaftFailoverBenchmark]: [tempDir] and [addr] are the answers of the
    operating system for a directory and a free port. *)
Definition RunRaftFailoverBenchmark (lib : Boot.RaftLib) (tempDir addr : string + string)
    (elected : election) (electionDuration : Duration) : FailoverResult + failover_error :=
  match tempDir with
  | inr m => inr (ErrTempDir m)
  | inl dir =>
  match addr with
  | inr m => inr (ErrListen m)
  | inl addr =>
  match (Boot.NewRaftNode lib "node1" addr (dir +:+ "/raft")).1 with
  | inr e => inr (ErrCreateRaftNode e)
  | inl _ =>
  match elected with
  | Silent false => inr ErrElectionTimeout
  | _ => inl (mkFailover 1 "none" "node1" electionDuration)
  end end end end.

(** The experiment reports a cluster of one, never of the three nodes its
    heading names, and no leader is ever stopped. *)
Lemma failover_single_node lib dir addr el dt r :
  RunRaftFailoverBenchmark lib dir addr el dt = inl r → ClusterSize r = 1 ∧ OriginalLeader r = "none".
Proof.
  unfold RunRaftFailoverBenchmark. destruct dir; [|done]. destruct addr; [|done].
  destruct (Boot.NewRaftNode _ _ _ _).1; [|done]. by destruct el as [|[]]; intros [= <-].
Qed.

(** ** Concrete runs *)
Section Witnesses.
#[local] Existing Instance BoltStore.utc.
#[local] Existing Instance BoltStore.utc_ok.
#[local] Existing Instance canonical_range.

Lemma percentile_nearest_rank_witness :
  ∃ v, Percentile [30; 10; 20; 50; 40] (of_int 95) = Some v ∧ v ∈ [30; 10; 20; 50; 40] ∧
    95 * 5 ≤ 100 * at_most [30; 10; 20; 50; 40] v ∧
    ∀ w, w < v → 100 * at_most [30; 10; 20; 50; 40] w < 95 * 5.
Proof.
  apply (percentile_nearest_rank [30; 10; 20; 50; 40] 95).
  - done.
  - apply (bool_decide_unpack _). vm_compute. exact I.
  - right. left.
Defined.

Lemma fault_rate_exact_witness :
  failures (mkFault (percent 30) 7) (repeat (NewJob 1 "email" 5) 100) = 30.
Proof. apply (fault_rate_exact 30 7); [lia|lia|apply repeat_length|unfold maxInt64; lia]. Defined.

(** Two jobs; the first poll finds one done, the second one failed too. *)
Definition two_submitted : gmap Z Time := {[1 := 0; 2 := 5]}.
Definition two_polls : list (Time * list (Job * Time)) :=
  [(10, [(with_status (NewJob 1 "compute" 1) Completed, 12); (NewJob 2 "compute" 1, 13)]);
   (20, [(with_status (NewJob 1 "compute" 1) Completed, 22); (with_status (NewJob 2 "compute" 1) Failed, 23)])].

Lemma benchmark_counts_witness :
  ∃ t, pollLoop 2 1000 two_submitted two_polls startTally = Finished t ∧
    latencies t = [12; 18] ∧ successCount t + failureCount t = 2.
Proof.
  eexists. assert (Hrun : pollLoop 2 1000 two_submitted two_polls startTally =
    Finished (mkTally {[1; 2]} [12; 18] 1 1)) by (vm_compute; reflexivity).
  split; [exact Hrun|]. split; [reflexivity|].
  apply (benchmark_counts 2 1000 two_submitted two_polls); [reflexivity| |exact Hrun].
  unfold two_polls. repeat constructor; vm_compute; eauto.
Defined.

Lemma pool_counts_witness :
  ∃ st ts, run System.quiet (poolSetup 2 3) (Engine.New (poolConfig (Config.Default (λ _, "")) 2)
      MemoryStore.NewMemoryStore false 1000) = (Returned (inl ts), st) ∧ is_Some (ts !! 2).
Proof.
  destruct (pool_counts System.quiet (Config.Default (λ _, "")) 2 3 MemoryStore.NewMemoryStore
    (MemoryStore.abs MemoryStore.NewMemoryStore) 1000) as (st & ts & Hrun & Hts & _).
  - split; [apply MemoryStore.inv_new|reflexivity].
  - reflexivity.
  - unfold maxInt64. lia.
  - exists st, ts. split; [exact Hrun|]. apply Hts. lia.
Defined.

Lemma recovery_complete_witness :
  ∃ pq r, RunRecoveryBenchmark 3 "bolt" (inl BoltStore.fresh_db)
      (λ d, inl (BoltStore.mkMapDB true (BoltStore.tree d))) 5 7 = inl (pq, r) ∧
    Queue.items pq ≡ₚ [1; 2; 3].
Proof.
  pose proof (recovery_complete 3 "bolt" BoltStore.fresh_db
    (λ d, inl (BoltStore.mkMapDB true (BoltStore.tree d))) 5 7) as Hrec.
  assert (Hrun : ∃ pq r, RunRecoveryBenchmark 3 "bolt" (inl BoltStore.fresh_db)
      (λ d, inl (BoltStore.mkMapDB true (BoltStore.tree d))) 5 7 = inl (pq, r))
    by (vm_compute; eauto).
  destruct Hrun as (pq & r & Hrun). rewrite Hrun in Hrec. exists pq, r. split; [exact Hrun|].
  apply Hrec; [unfold maxInt64; lia|intros; apply lookup_empty|by intros d0 d1 [= <-]].
Defined.
End Witnesses.

End Benchmark.
