(* ===== verification/FileLock.v ===== *)
(** * The lock of the tracing tests: [internal/oteltest/oteltest.go]

    Tests of several binaries swap the tracer provider of their process under a
    lock file.  Each test is a sequence of atomic actions on the shared file and
    its process's provider; a run interleaves the tests with the clock, and a
    test may also die.  The lock excludes as long as the longest hold and the
    longest check for staleness take no more than a minute together, and one
    stale lock is enough to break it. *)

From S2P Require Import Prelude Job.
From stdpp Require Import functions.
Local Open Scope Z_scope.

Module FileLock.

Definition second : Duration := 1000000000.
Definition maxWait : Duration := 30 * second.
Definition staleAfter : Duration := 60 * second.
Definition retryDelay : Duration := 20 * 1000000.

(** A tracer provider: that of the process, or the recorder of a test. *)
Inductive Provider := Original | Recorder (test : nat).

(** Where a test is.  [Opening] is before the exclusive creation, [Checking]
    before the [os.Stat], [Measuring] between it and the [time.Since] of the
    modification time it got, [Removing] before the removal of a stale file,
    [Waiting] before the deadline check, [Loaded] between getting the old
    provider and setting the new one; the times are the deadline of
    [acquireFileLock], the time of the [os.Stat] and the time the lock was
    taken. *)
Inductive place :=
  | Idle
  | Opening (deadline : Time)
  | Checking (deadline : Time)
  | Measuring (deadline modTime looked : Time)
  | Removing (deadline : Time)
  | Waiting (deadline : Time)
  | Sleeping (deadline until : Time)
  | Locked (since : Time)
  | Loaded (since : Time) (old : Provider)
  | Installed (since : Time) (old : Provider)
  | Restored (since : Time)
  | Fatal
  | Dead.

(** The clock, the modification time of the lock file if there is one, the
    provider of each process and the place of each test. *)
Record world := mkWorld {
  clock : Time;
  file : option Time;
  provider : nat → Provider;
  tests : nat → place
}.

Section Lock.
(** The process a test runs in. *)
Context (process : nat → nat).

Definition at_place (w : world) (t : nat) (p : place) : world :=
  mkWorld (clock w) (file w) (provider w) (<[t := p]> (tests w)).
Definition set_file (w : world) (f : option Time) : world :=
  mkWorld (clock w) f (provider w) (tests w).
Definition SetTracerProvider (w : world) (t : nat) (p : Provider) : world :=
  mkWorld (clock w) (file w) (<[process t := p]> (provider w)) (tests w).

(** The [os.OpenFile] of [acquireFileLock] when the system does not refuse it. *)
Definition openFile (w : world) (t : nat) (deadline : Time) : world :=
  match file w with
  | None => at_place (set_file w (Some (clock w))) t (Locked (clock w))
  | Some _ => at_place w t (Checking deadline)
  end.

(** The next action of a test of [InstallSpanRecorder]: of [acquireFileLock],
    of its own body, then of the cleanup with [releaseFileLock]. *)
Definition act (w : world) (t : nat) : world :=
  match tests w t with
  | Idle => at_place w t (Opening (clock w + maxWait))
  | Opening d => openFile w t d
  | Checking d =>
      match file w with
      | Some m => at_place w t (Measuring d m (clock w))
      | None => at_place w t (Waiting d)
      end
  | Measuring d m _ =>
      if staleAfter <? clock w - m then at_place w t (Removing d) else at_place w t (Waiting d)
  | Removing d => at_place (set_file w None) t (Opening d)
  | Waiting d => if d <? clock w then at_place w t Fatal else at_place w t (Sleeping d (clock w + retryDelay))
  | Sleeping d u => if u <=? clock w then at_place w t (Opening d) else w
  | Locked s => at_place w t (Loaded s (provider w (process t)))
  | Loaded s old => at_place (SetTracerProvider w t (Recorder t)) t (Installed s old)
  | Installed s old => at_place (SetTracerProvider w t old) t (Restored s)
  | Restored _ => at_place (set_file w None) t Idle
  | Fatal | Dead => w
  end.

Inductive event :=
  | Act (t : nat)
  | Refuse (t : nat)         (** the creation fails for another reason *)
  | Elapse (d : Duration)
  | Crash (t : nat).

Definition step (w : world) (e : event) : world :=
  match e with
  | Act t => act w t
  | Refuse t => match tests w t with Opening d => at_place w t (Checking d) | _ => w end
  | Elapse d => mkWorld (clock w + Z.max 0 d) (file w) (provider w) (tests w)
  | Crash t => at_place w t Dead
  end.

Definition start (now : Time) : world := mkWorld now None (λ _, Original) (λ _, Idle).

Definition run (w : world) (es : list event) : world := foldl step w es.

(** When a test took the lock it holds. *)
Definition holding (p : place) : option Time :=
  match p with Locked s | Loaded s _ | Installed s _ | Restored s => Some s | _ => None end.

Definition holds (w : world) (t : nat) : Prop := is_Some (holding (tests w t)).

(** Nobody has held the lock for longer than [hold], and nobody has been between
    the [os.Stat] and the [time.Since] for longer than [look]. *)
Context (hold look : Duration).

Definition prompt (w : world) : Prop :=
  (∀ t s, holding (tests w t) = Some s → clock w - s ≤ hold) ∧
  (∀ t d m u, tests w t = Measuring d m u → clock w - u ≤ look).

Definition crashes (e : event) : Prop := match e with Crash _ => True | _ => False end.

(** A run with no crash in which this is always so. *)
Fixpoint prompt_run (w : world) (es : list event) : Prop :=
  match es with
  | [] => True
  | e :: es => ¬ crashes e ∧ prompt (step w e) ∧ prompt_run (step w e) es
  end.

(** ** The invariant *)

Definition held_by (o : option (nat * Time)) (t : nat) : option Time :=
  match o with Some (t', s) => if decide (t' = t) then Some s else None | None => None end.

(** What the process [p] shows: the recorder of the holder between its two
    swaps, and otherwise the provider it began with. *)
Definition shown (w : world) (o : option (nat * Time)) (p : nat) : Provider :=
  match o with
  | Some (t, _) =>
      match tests w t with
      | Installed _ _ => if decide (process t = p) then Recorder t else Original
      | _ => Original
      end
  | None => Original
  end.

(** [o] is the test that holds the lock, with the time it took it. *)
Record owned (w : world) (o : option (nat * Time)) : Prop := {
  o_file : file w = snd <$> o;
  o_holding t : holding (tests w t) = held_by o t;
  o_fresh t d : tests w t ≠ Removing d;
  o_looked t d m u : tests w t = Measuring d m u → u - m ≤ hold;
  o_old t s old : tests w t = Loaded s old ∨ tests w t = Installed s old → old = Original;
  o_provider p : provider w p = shown w o p
}.

(** Splits on whether the test in question is the one that moved. *)
Ltac by_test t t' := destruct (decide (t = t')) as [->|];
  [rewrite ?fn_lookup_insert in *|rewrite ?fn_lookup_insert_ne in * by done].

(** A test that neither has nor gets the lock moves. *)
Lemma owned_move w o t p :
  owned w o → holding (tests w t) = None → holding p = None → (∀ d, p ≠ Removing d) →
  (∀ d m u, p = Measuring d m u → u - m ≤ hold) → owned (at_place w t p) o.
Proof.
  intros [Hf Hh Hr Hl Ho Hp] Ht Hn Hd Hm. unfold at_place. split; cbn [file tests provider].
  - done.
  - intros t'. by_test t t'; [congruence|done].
  - intros t' d. by_test t t'; done.
  - intros t' d m u. by_test t t'; [apply Hm|apply Hl].
  - intros t' s old. by_test t t'; [by intros [->| ->]|apply Ho].
  - intros q. rewrite Hp. unfold shown. cbn [tests]. destruct o as [[t' s]|]; [|done].
    by_test t t'; [|done]. rewrite Hh in Ht. simpl in Ht. by rewrite decide_True in Ht.
Qed.

Lemma owned_free w t : owned w None → holding (tests w t) = None.
Proof. intros Hw. by rewrite (o_holding _ _ Hw). Qed.

(** A test that holds the lock is its owner. *)
Lemma owned_holder w o t s : owned w o → holding (tests w t) = Some s → o = Some (t, s).
Proof.
  intros Hw Ht. rewrite (o_holding _ _ Hw) in Ht. destruct o as [[t' s']|]; [|done]. simpl in Ht.
  case_decide; [by simplify_eq|done].
Qed.

(** The holder moves on with the lock and leaves the provider as its new place
    says. *)
Lemma owned_holder_move w t s p v :
  owned w (Some (t, s)) → holding p = Some s →
  (∀ s' old, p = Loaded s' old ∨ p = Installed s' old → old = Original) →
  v = match p with Installed _ _ => Recorder t | _ => Original end →
  owned (at_place (SetTracerProvider w t v) t p) (Some (t, s)).
Proof.
  intros [Hf Hh Hr Hl Ho Hp] Hn Hold ->. unfold at_place, SetTracerProvider. split; cbn [file tests provider clock].
  - done.
  - intros t'. by_test t t'; [by simpl; rewrite decide_True|done].
  - intros t' d. by_test t t'; [by intros ->|done].
  - intros t' d m u. by_test t t'; [by intros ->|apply Hl].
  - intros t' s' old. by_test t t'; [apply Hold|apply Ho].
  - intros q. unfold shown. cbn [tests]. rewrite fn_lookup_insert.
    destruct (decide (process t = q)) as [<-|Hq]; rewrite ?fn_lookup_insert, ?fn_lookup_insert_ne by done.
    + by destruct p.
    + rewrite Hp. unfold shown. by destruct (tests w t), p; rewrite ?decide_False by done.
Qed.

Lemma owned_take w t :
  owned w None → owned (at_place (set_file w (Some (clock w))) t (Locked (clock w))) (Some (t, clock w)).
Proof.
  intros [Hf Hh Hr Hl Ho Hp]. unfold at_place, set_file. split; cbn [file tests provider clock].
  - done.
  - intros t'. simpl. by_test t t'; [done|by rewrite Hh].
  - intros t' d. by_test t t'; done.
  - intros t' d m u. by_test t t'; [done|apply Hl].
  - intros t' s' old. by_test t t'; [by intros []|apply Ho].
  - intros q. rewrite Hp. unfold shown. cbn [tests]. by rewrite fn_lookup_insert.
Qed.

Lemma owned_release w t s :
  owned w (Some (t, s)) → tests w t = Restored s → owned (at_place (set_file w None) t Idle) None.
Proof.
  intros [Hf Hh Hr Hl Ho Hp] Ht. unfold at_place, set_file. split; cbn [file tests provider clock].
  - done.
  - intros t'. by_test t t'; [done|]. rewrite Hh. simpl. by rewrite decide_False.
  - intros t' d. by_test t t'; done.
  - intros t' d m u. by_test t t'; [done|apply Hl].
  - intros t' s' old. by_test t t'; [by intros []|apply Ho].
  - intros q. rewrite Hp. unfold shown. by rewrite Ht.
Qed.

Lemma owned_load w t s :
  owned w (Some (t, s)) → tests w t = Locked s →
  owned (at_place w t (Loaded s (provider w (process t)))) (Some (t, s)).
Proof.
  intros Hw Ht. assert (Hpr : provider w (process t) = Original) by (rewrite (o_provider _ _ Hw); unfold shown; by rewrite Ht).
  rewrite Hpr. destruct Hw as [Hf Hh Hr Hl Ho Hp]. unfold at_place. split; cbn [file tests provider clock].
  - done.
  - intros t'. by_test t t'; [by simpl; rewrite decide_True|done].
  - intros t' d. by_test t t'; done.
  - intros t' d m u. by_test t t'; [done|apply Hl].
  - intros t' s' old. by_test t t'; [by intros [[= _ <-]|]|apply Ho].
  - intros q. rewrite Hp. unfold shown. cbn [tests]. by rewrite fn_lookup_insert, Ht.
Qed.

Lemma owned_act w o t : hold + look ≤ staleAfter → owned w o → prompt w → ∃ o', owned (act w t) o'.
Proof.
  intros Hmin Hw [Hp Hq]. unfold act. destruct (tests w t) eqn:Ht;
    try (by exists o; apply owned_move; rewrite ?Ht).
  - unfold openFile. pose proof (o_file _ _ Hw) as Hf. destruct o as [[t' s]|]; rewrite Hf; simpl.
    + eexists. apply owned_move; [exact Hw|by rewrite Ht|done..].
    + eexists. by apply owned_take.
  - exists o. pose proof (o_file _ _ Hw) as Hf. destruct o as [[t' s]|]; rewrite Hf; simpl;
      [|by apply owned_move; rewrite ?Ht].
    apply owned_move; [done|by rewrite Ht|done|done|]. intros d m u [= _ <- <-].
    apply (Hp t'). rewrite (o_holding _ _ Hw). simpl. by rewrite decide_True.
  - exists o. pose proof (o_looked _ _ Hw _ _ _ _ Ht). pose proof (Hq _ _ _ _ Ht).
    rewrite (proj2 (Z.ltb_ge _ _)) by lia. by apply owned_move; rewrite ?Ht.
  - by destruct (o_fresh _ _ Hw t deadline).
  - exists o. destruct (_ <? _); by apply owned_move; rewrite ?Ht.
  - exists o. destruct (_ <=? _); [by apply owned_move; rewrite ?Ht|done].
  - rewrite (owned_holder w o t since Hw) in Hw by (by rewrite Ht). eexists. by apply owned_load.
  - rewrite (owned_holder w o t since Hw) in Hw by (by rewrite Ht). eexists. apply owned_holder_move; [exact Hw|done| |done].
    intros s' old' [?|[= _ <-]]; [done|]. apply (o_old _ _ Hw t since). by left.
  - rewrite (owned_holder w o t since Hw) in Hw by (by rewrite Ht). eexists. apply owned_holder_move; [exact Hw|done| |].
    + by intros s' old' [].
    + apply (o_old _ _ Hw t since). by right.
  - rewrite (owned_holder w o t since Hw) in Hw by (by rewrite Ht). eexists. by eapply owned_release.
  - by exists o.
  - by exists o.
Qed.

Lemma owned_step w o e :
  hold + look ≤ staleAfter → owned w o → prompt w → ¬ crashes e → ∃ o', owned (step w e) o'.
Proof.
  intros Hmin Hw Hp He. destruct e as [t|t|d|t]; cbn [step]; [by eapply owned_act| | |by destruct He].
  - exists o. destruct (tests w t) eqn:Ht; try done. apply owned_move; [done|by rewrite Ht|done..].
  - exists o. destruct Hw as [Hf Hh Hr Hl Ho Hpr]. by split.
Qed.

Lemma owned_run w o es :
  hold + look ≤ staleAfter → owned w o → prompt w → prompt_run w es → ∃ o', owned (run w es) o'.
Proof.
  intros Hmin. revert w o. induction es as [|e es IH]; intros w o Hw Hp; [eauto|]. intros (He & Hp' & Hes).
  destruct (owned_step w o e Hmin Hw Hp He) as [o' Hw']. exact (IH _ _ Hw' Hp' Hes).
Qed.

Lemma owned_start now : owned (start now) None.
Proof. split; try done. by intros t s old []. Qed.

(** *** Runs that are short enough *)

Fixpoint total (es : list event) : Duration :=
  match es with
  | [] => 0
  | Elapse d :: es => Z.max 0 d + total es
  | _ :: es => total es
  end.

Lemma total_nonneg es : 0 ≤ total es.
Proof. induction es as [|[] es IH]; simpl; lia. Qed.

(** The times of taking the lock and of the [os.Stat] are the clock's, and
    stay. *)
Definition stamped (p : place) : option Time :=
  match p with Measuring _ _ u => Some u | _ => holding p end.

Lemma stamped_step w e t s :
  stamped (tests (step w e) t) = Some s → stamped (tests w t) = Some s ∨ s = clock w.
Proof.
  assert (Hput : ∀ w' t' p, tests w' = tests w → (∀ s, stamped p = Some s → stamped (tests w t') = Some s ∨ s = clock w) →
    stamped (tests (at_place w' t' p) t) = Some s → stamped (tests w t) = Some s ∨ s = clock w).
  { intros w' t' p Hw Hp. unfold at_place. cbn [tests]. rewrite Hw.
    destruct (decide (t' = t)) as [->|]; [rewrite fn_lookup_insert; apply Hp|rewrite fn_lookup_insert_ne by done; by left]. }
  destruct e as [t'|t'|d|t']; cbn [step].
  - unfold act, openFile. destruct (tests w t') eqn:Ht; repeat case_match; try (by left);
      apply Hput; try done; cbn [stamped holding]; rewrite ?Ht; naive_solver.
  - destruct (tests w t') eqn:Ht; try (by left). by apply Hput.
  - by left.
  - by apply Hput.
Qed.

(** A short run is prompt. *)
Lemma short_run_prompt w es lo :
  (∀ t s, stamped (tests w t) = Some s → lo ≤ s) → lo ≤ clock w → clock w + total es ≤ lo + Z.min hold look →
  Forall (λ e, ¬ crashes e) es → prompt_run w es.
Proof.
  revert w. induction es as [|e es IH]; intros w Hs Hlo Ht Hc; [done|]. apply Forall_cons_1 in Hc as [He Hc].
  assert (Hstep : ∀ t s, stamped (tests (step w e) t) = Some s → lo ≤ s).
  { intros t s Ht'. destruct (stamped_step w e t s Ht') as [Ho| ->]; [exact (Hs t s Ho)|done]. }
  assert (Hclock : lo ≤ clock (step w e) ∧ clock (step w e) + total es = clock w + total (e :: es)).
  { destruct e as [t|t|d|t]; cbn [step total]; try (cbn [clock at_place]; lia).
    - unfold act, openFile. repeat case_match; cbn [clock at_place set_file SetTracerProvider]; lia.
    - repeat case_match; cbn [clock at_place]; lia. }
  split; [done|]. pose proof (total_nonneg es). split; [split|by apply IH; [done|lia|lia|done]].
  - intros t s Ho. assert (lo ≤ s); [|lia]. apply (Hstep t). by destruct (tests (step w e) t).
  - intros t d m u Ho. assert (lo ≤ u); [|lia]. apply (Hstep t). by rewrite Ho.
Qed.

(** C36. The lock excludes: in every interleaving of the tests in which nobody
    dies, nobody holds the lock for longer than [hold] and nobody takes longer
    than [look] from reading the file's time to comparing it with the clock,
    where the two come to at most a minute, at most one test holds the lock, and
    every process shows its own provider unless the holder runs there, between
    its two swaps. *)
Theorem lock_excludes now es :
  hold + look ≤ staleAfter → prompt_run (start now) es →
  let w := run (start now) es in
  (∀ t t', holds w t → holds w t' → t = t') ∧
  (∀ p, provider w p ≠ Original → ∃ t s, process t = p ∧ tests w t = Installed s Original ∧ provider w p = Recorder t).
Proof.
  intros Hmin Hrun. destruct (owned_run _ None es Hmin (owned_start now)) as [o Hw]; [done|done|]. simpl. split.
  - intros t t' [s Hs] [s' Hs']. pose proof (owned_holder _ _ _ _ Hw Hs) as E.
    pose proof (owned_holder _ _ _ _ Hw Hs') as E'. congruence.
  - intros p Hp. rewrite (o_provider _ _ Hw) in Hp |- *. unfold shown in *. destruct o as [[t s]|]; [|done].
    destruct (tests _ t) eqn:Ht; try done. case_decide; [|done]. exists t, since.
    by rewrite (o_old _ _ Hw t since old (or_intror Ht)) in Ht.
Qed.
End Lock.

(** ** Concrete runs *)

(** Two tests of two processes: the second waits for the first. *)
Definition polite : list event :=
  [Act 0; Act 1; Act 0; Act 1; Act 1; Act 1; Act 0; Act 0; Act 1; Elapse retryDelay; Act 0; Act 0; Act 1; Act 1].

Lemma lock_excludes_witness :
  let w := run id (start 0) polite in
  tests w 1%nat = Locked retryDelay ∧ ∀ t t', holds w t → holds w t' → t = t'.
Proof.
  split; [vm_compute; reflexivity|].
  refine (proj1 (lock_excludes id (50 * second) (10 * second) 0 polite _ _)); [by vm_compute|].
  apply (short_run_prompt id _ _ _ _ 0); [by intros t s|done|vm_compute; discriminate|].
  unfold polite. repeat constructor; by intros [].
Defined.

(** A crashed test's file is old; two others find it stale, the first removes it
    and takes the lock, the second then removes the first one's fresh file and
    takes the lock as well. *)
Definition race : list event :=
  [Act 0; Act 0; Crash 0; Elapse (staleAfter + 1);
   Act 1; Act 1; Act 1; Act 1; Act 2; Act 2; Act 2; Act 2;
   Act 1; Act 1; Act 2; Act 2].

Example stale_removal_race :
  let w := run id (start 0) race in holds w 1 ∧ holds w 2.
Proof. vm_compute. split; eexists; reflexivity. Qed.

(** Nobody dies and nobody holds the lock for a minute: a test that is held up
    between the [os.Stat] of one holder's file and the comparison of its time
    removes the file of the next holder. *)
Definition held_up : list event :=
  [Act 0; Act 0; Act 0; Act 0; Elapse (59 * second); Act 1; Act 1; Act 1; Act 0; Act 0;
   Act 2; Act 2; Elapse (2 * second); Act 1; Act 1; Act 1].

Example slow_check_race :
  let w := run id (start 0) held_up in holds w 1 ∧ holds w 2.
Proof. vm_compute. split; eexists; reflexivity. Qed.

(** A test that starts within thirty seconds of a crash gives up before the
    file counts as stale. *)
Example gives_up_on_a_crash :
  tests (run id (start 0) [Act 0; Act 0; Crash 0; Elapse (29 * second); Act 1; Act 1; Elapse (30 * second + 1); Act 1; Act 1; Act 1]) 1%nat
    = Fatal.
Proof. vm_compute. reflexivity. Qed.

End FileLock.
