(* ===== verification/RequestContext.v ===== *)
(** * Values of a request's context: the keys of [internal/middleware/auth.go] and
    [requestid.go]

    The middleware hands the request id and the claims of a token down in the
    context of the request, under keys of two distinct Go types.  The role check
    as it is written, through the context, is shown to be the decision of
    [Auth], and the accessors to return what the middleware put in. *)

From S2P Require Import Prelude Job GoStrings Auth.

Module RequestContext.

(** A key is compared with its type: two string types with one text differ. *)
Record key := mkKey { keyType : string; keyName : string }.

#[global] Instance key_eq_dec : EqDecision key.
Proof. solve_decision. Defined.

Definition UserClaimsKey : key := mkKey "middleware.userContextKey" "user_claims".
Definition RequestIDKey : key := mkKey "middleware.contextKey" "request_id".

Inductive value := VClaims (c : Auth.Claims) | VString (s : string).

(** A context: the innermost value first. *)
Definition context := list (key * value).

Definition WithValue (ctx : context) (k : key) (v : value) : context := (k, v) :: ctx.

Fixpoint Value (ctx : context) (k : key) : option value :=
  match ctx with
  | [] => None
  | (k', v) :: ctx => if decide (k' = k) then Some v else Value ctx k
  end.

Definition UserFromContext (ctx : context) : option Auth.Claims :=
  match Value ctx UserClaimsKey with Some (VClaims c) => Some c | _ => None end.

Definition UserIDFromContext (ctx : context) : string :=
  match UserFromContext ctx with Some c => Auth.UserID c | None => "" end.

Definition RoleFromContext (ctx : context) : string :=
  match UserFromContext ctx with Some c => Auth.Role c | None => "" end.

Definition RequestIDFromContext (ctx : context) : string :=
  match Value ctx RequestIDKey with Some (VString id) => id | _ => "" end.

(** ** The middleware, as far as it concerns the context *)

Section Middleware.
Context {R : Type} (writeAuthError : Z → string → R).

(** [RequestID]; [drawn] is the random id. *)
Definition RequestID (drawn header : string) (next : context → R) (ctx : context) : string * R :=
  let id := if decide (header = "") then drawn else header in
  (id, next (WithValue ctx RequestIDKey (VString id))).

(** [Authenticate] around a handler. *)
Definition authenticate (secret authHeader : string) (now : Time) (next : context → R) (ctx : context) : R :=
  match Auth.Authenticate secret authHeader now with
  | Auth.Reject st msg => writeAuthError st msg
  | Auth.Pass claims => next (WithValue ctx UserClaimsKey (VClaims claims))
  end.

(** [RequireRoles]: the role is read back from the context. *)
Definition requireRoles (secret : string) (allowedRoles : list string) (authHeader : string) (now : Time)
    (next : context → R) : context → R :=
  authenticate secret authHeader now (λ ctx,
    match UserFromContext ctx with
    | Some claims =>
        if negb (Auth.RoleSatisfies (Auth.Role claims) allowedRoles)
        then writeAuthError Auth.StatusForbidden "insufficient permissions for this resource"
        else next ctx
    | None => writeAuthError Auth.StatusForbidden "insufficient permissions for this resource"
    end).

(** The check through the context is the decision of [Auth]. *)
Lemma requireRoles_decides secret roles hdr now next ctx :
  requireRoles secret roles hdr now next ctx =
    match Auth.RequireRoles secret roles hdr now with
    | Auth.Reject st msg => writeAuthError st msg
    | Auth.Pass claims => next (WithValue ctx UserClaimsKey (VClaims claims))
    end.
Proof.
  unfold requireRoles, authenticate, Auth.RequireRoles. destruct (Auth.Authenticate _ _ _) as [st msg|claims]; [done|].
  cbv beta iota. change (UserFromContext (WithValue ctx UserClaimsKey (VClaims claims))) with (Some claims).
  cbv beta iota.
  by destruct (Auth.RoleSatisfies _ _).
Qed.

(** A handler behind the middleware sees the id the response carries and
    the claims of the verified token: it runs exactly when the role check passes,
    and then the accessors return the request id, the user and the role, neither
    value hiding the other. *)
Theorem context_carries drawn header secret roles hdr now (handler : string → string → string → R) ctx :
  RequestID drawn header (requireRoles secret roles hdr now (λ ctx,
    handler (RequestIDFromContext ctx) (UserIDFromContext ctx) (RoleFromContext ctx))) ctx =
  (let id := if decide (header = "") then drawn else header in
   (id, match Auth.RequireRoles secret roles hdr now with
        | Auth.Reject st msg => writeAuthError st msg
        | Auth.Pass claims => handler id (Auth.UserID claims) (Auth.Role claims)
        end)).
Proof.
  unfold RequestID. rewrite requireRoles_decides. destruct (Auth.RequireRoles _ _ _ _) as [st msg|claims]; [done|].
  by case_decide.
Qed.
End Middleware.

End RequestContext.
