(* ===== verification/Telemetry.v ===== *)
(** * Spans, log lines and the metrics registry: [internal/tracing/tracing.go],
    the spans of [internal/runner/runner.go] and [internal/worker/worker.go],
    [internal/middleware/logging.go] and [tracing.go], the registration in
    [internal/metrics/metrics.go]

    The tracing library is only called: a span is the list of the calls made on
    it.  The development shows that the spans and log lines of the program tell
    what happened, and where they do not. *)

From S2P Require Import Prelude Job Store Metrics MemoryStore Machine Runner Handlers Server SchedulerSpec.
From Stdlib Require Import Ascii.
Import Machine Handlers.
Local Open Scope Z_scope.

Module Telemetry.

(** ** The set-up *)

(** The two calls of the library that can fail, by their arguments. *)
Record Otel := mkOtel {
  NewExporter : string → option string;              (** the endpoint *)
  NewResource : string → string → option string      (** the service and the host name *)
}.

Record TracerProvider := mkProvider { Endpoint : string; ServiceName : string; HostName : string }.

(** The library's globals; [None] is the tracer that does nothing. *)
Record globals := mkGlobals {
  tracerProvider : option TracerProvider;
  traceContext : bool       (** whether the propagator of trace contexts is set *)
}.

Inductive init_error := ErrExporter (msg : string) | ErrResource (msg : string).

Definition Init (lib : Otel) (getenv : string → string) (serviceName : string) (g : globals)
  : globals * option init_error :=
  let endpoint := getenv "OTEL_EXPORTER_OTLP_ENDPOINT" in
  let endpoint := if decide (endpoint = "") then "localhost:4317" else endpoint in
  match NewExporter lib endpoint with
  | Some e => (g, Some (ErrExporter e))
  | None =>
      match NewResource lib serviceName (getenv "HOSTNAME") with
      | Some e => (g, Some (ErrResource e))
      | None => (mkGlobals (Some (mkProvider endpoint serviceName (getenv "HOSTNAME"))) true, None)
      end
  end.

(** A failed set-up leaves the fallback tracer in place. *)
Lemma Init_failed lib getenv name g g' e : Init lib getenv name g = (g', Some e) → g' = g.
Proof. unfold Init. destruct (NewExporter _ _); [congruence|]. destruct (NewResource _ _ _); congruence. Qed.

(** ** Spans *)

Inductive attribute := Int (n : Z) | Str (s : string).

Inductive code := Ok | Error.

(** The calls on a span. *)
Inductive span_call :=
  | SetAttributes (attrs : list (string * attribute))
  | RecordError (msg : string)
  | SetStatus (c : code) (description : string)
  | End.

Record Span := mkSpan { SpanName : string; Calls : list span_call }.

(** The last status set on a span. *)
Fixpoint status (calls : list span_call) : option (code * string) :=
  match calls with
  | [] => None
  | SetStatus c d :: calls => match status calls with Some s => Some s | None => Some (c, d) end
  | _ :: calls => status calls
  end.

(** [End] is called exactly once, as the last call. *)
Definition closed (s : Span) : Prop := ∃ calls, Calls s = calls ++ [End] ∧ End ∉ calls.

Definition Milliseconds (d : Duration) : Z := Z.quot d 1000000.

(** [End] is not among explicit calls. *)
Ltac not_ended := repeat (apply not_elem_of_cons; split; [done|]); apply not_elem_of_nil.

(** *** The span of [Runner.Execute], by the error of the executor *)

Definition failure (msg : string) : list span_call := [RecordError msg; SetStatus Error msg].

Definition runnerSpan (j : Job) (e : option exec_error) (elapsed : Duration) : Span :=
  mkSpan "runner.execute"
    (SetAttributes [("job.id", Int (ID j)); ("job.type", Str (JType j))] ::
     match e with Some e => failure (exec_text e) | None => [SetStatus Ok ""] end ++
     [SetAttributes [("execution.duration_ms", Int (Milliseconds elapsed))]; End]).

(** *** The spans of a turn of [Worker.Start] *)

Definition job_attributes (w : Z) (j : Job) : span_call :=
  SetAttributes [("worker.id", Int w); ("job.id", Int (ID j)); ("job.type", Str (JType j))].

(** What the job in the store says about the execution. *)
Definition verdict (stored : option Job) : list span_call :=
  match stored with
  | Some s =>
      if decide (JStatus s = Completed) then [SetStatus Ok ""]
      else if decide (JStatus s = Cancelled) then failure (exec_text ExecCanceled)
      else failure (if decide (LastError s = "") then "job execution failed" else LastError s)
  | None => [SetStatus Ok ""]
  end.

(** The turn of a local worker that received [j]. *)
Definition workerTurn (w : Z) (j : Job) : prog (list Span) :=
  execStart ← call ANow;
  _ ← Runner.Execute true w j;
  now ← call ANow;
  stored ← call (AGet (ID j));
  mret [mkSpan "worker.receive_job" [job_attributes w j; SetStatus Ok ""; End];
        mkSpan "worker.execute_job"
          (job_attributes w j :: SetAttributes [("execution.duration_ms", Int (Milliseconds (now - execStart)))] ::
           verdict stored ++ [End]);
        mkSpan "worker.complete_job" (job_attributes w j :: verdict stored ++ [End])].

Lemma failure_app msg l : status (failure msg ++ l) = Some (default (Error, msg) (status l)).
Proof. simpl. by destruct (status l). Qed.

Lemma verdict_closed n l stored : End ∉ l → closed (mkSpan n (l ++ verdict stored ++ [End])).
Proof.
  intros Hl. exists (l ++ verdict stored). cbn [Calls]. split; [by rewrite app_assoc|].
  rewrite not_elem_of_app. split; [done|]. unfold verdict, failure. repeat case_match; set_solver.
Qed.

(** How an execution ends, as a span shows it. *)
Definition outcome (e : option exec_error) : code * string :=
  match e with Some e => (Error, exec_text e) | None => (Ok, "") end.

Lemma runnerSpan_outcome j e d : status (Calls (runnerSpan j e d)) = Some (outcome e) ∧ closed (runnerSpan j e d).
Proof.
  split; [by destruct e|]. exists (removelast (Calls (runnerSpan j e d))).
  unfold runnerSpan, failure. destruct e; simpl; split; done || set_solver.
Qed.

Section Worker.
Context `{GoRange} {T : Type} `{Store.ReliableStore T}.

(** The spans of a worker tell how the execution ended: in a turn nobody
    interferes with, the execution's and the completion's span carry the status
    and the error text of the executor, as the runner's span does, and every
    span is ended exactly once. *)
Theorem spans_tell_outcome env (st : State T) a w j :
  Store.rel (store st) a → Store.jobs a !! ID j = Some j → JStatus j = Pending →
  (∀ e, execute env j = Some e → exec_text e ≠ "") →
  ∃ st' received executed completed,
    run env (workerTurn w j) st = (Returned [received; executed; completed], st') ∧
    status (Calls executed) = Some (outcome (execute env j)) ∧
    status (Calls completed) = Some (outcome (execute env j)) ∧
    (∀ d, status (Calls (runnerSpan j (execute env j) d)) = Some (outcome (execute env j))) ∧
    closed received ∧ closed executed ∧ closed completed.
Proof.
  intros Hr Hj Hp Htext.
  destruct (SchedulerSpec.local_execute env st a w j Hr Hj Hp) as (st1 & Hrun & Hr1 & _).
  unfold workerTurn. run_simpl. rewrite run_bind, Hrun. run_simpl.
  rewrite (Store.Get_spec _ _ _ Hr1). cbn [Store.set_jobs Store.jobs]. rewrite lookup_insert_eq.
  do 4 eexists. split; [reflexivity|].
  assert (Hv : ∀ l, (∀ c d, SetStatus c d ∉ l) →
    status (l ++ verdict (Some (SchedulerSpec.finished j (execute env j))) ++ [End]) = Some (outcome (execute env j))).
  { intros l Hl. induction l as [|c l IH]; cbn [app].
    - destruct (execute env j) as [e|]; [|done]. specialize (Htext e eq_refl).
      destruct e; unfold verdict; cbn [SchedulerSpec.finished JStatus with_status with_lastError LastError];
        rewrite ?decide_False by (done || vm_compute; discriminate); done.
    - destruct c; cbn [status]; [apply IH; set_solver..|by destruct (Hl c description); left|apply IH; set_solver]. }
  split_and!.
  - apply (Hv [_; _]). set_solver.
  - apply (Hv [_]). set_solver.
  - intros d. apply runnerSpan_outcome.
  - exists [job_attributes w j; SetStatus Ok ""]. split; [done|set_solver].
  - apply (verdict_closed _ [_; _]). set_solver.
  - apply (verdict_closed _ [_]). set_solver.
Qed.
End Worker.

#[local] Existing Instance canonical_range.

Lemma spans_tell_outcome_witness :
  ∃ st' received executed completed,
    run SchedulerSpec.failing (workerTurn 1 (NewJob 2 "sms" 9)) SchedulerSpec.leased
      = (Returned [received; executed; completed], st') ∧
    status (Calls executed) = Some (Error, "boom").
Proof.
  destruct (spans_tell_outcome SchedulerSpec.failing SchedulerSpec.leased _ 1 (NewJob 2 "sms" 9)
    SchedulerSpec.leased_rel) as (st' & r & e & c & Hrun & He & _);
    [vm_compute; reflexivity|reflexivity|by intros e [= <-]|].
  exists st', r, e, c. split; [exact Hrun|exact He].
Defined.

(** A job deleted while it ran counts as a success, whatever came of it. *)
Example deleted_counts_as_ok : status (verdict None) = Some (Ok, "").
Proof. done. Qed.

(** ** The middleware *)

(** What a handler does to its response writer. *)
Inductive write := WriteHeader (statusCode : Z) | Write (data : list ascii).

(** The writer of a connection: the status line is sent once, with the first
    header or the first byte. *)
Record connection := mkConnection { sent : option Z; sentBody : list ascii }.

Definition onConnection (c : connection) (o : write) : connection :=
  match o, sent c with
  | WriteHeader code, None => mkConnection (Some code) (sentBody c)
  | WriteHeader _, Some _ => c
  | Write data, None => mkConnection (Some StatusOK) (sentBody c ++ data)
  | Write data, Some _ => mkConnection (sent c) (sentBody c ++ data)
  end.

(** [responseWriter] notes the code of every [WriteHeader] and passes it on;
    [Write] is that of the writer it embeds. *)
Record responseWriter (W : Type) := mkWriter { inner : W; statusCode : Z }.
Arguments mkWriter {W} _ _.
Arguments inner {W} _.
Arguments statusCode {W} _.

Definition onWriter {W} (onInner : W → write → W) (rw : responseWriter W) (o : write) : responseWriter W :=
  match o with
  | WriteHeader code => mkWriter (onInner (inner rw) o) code
  | Write _ => mkWriter (onInner (inner rw) o) (statusCode rw)
  end.

Definition wrap {W} (w : W) : responseWriter W := mkWriter w StatusOK.

(** The status the client gets: an empty response is a 200. *)
Definition received (c : connection) : Z := default StatusOK (sent c).

(** The header is written first and once, or not at all. *)
Definition header_first (ops : list write) : Prop :=
  ∀ code, WriteHeader code ∉ tail ops.

Lemma writes_only {W} (onInner : W → write → W) rw ops :
  (∀ code, WriteHeader code ∉ ops) →
  foldl (onWriter onInner) rw ops = mkWriter (foldl onInner (inner rw) ops) (statusCode rw).
Proof.
  revert rw. induction ops as [|[code|data] ops IH]; intros rw Hops; [by destruct rw|..].
  - destruct (Hops code). by left.
  - cbn [foldl onWriter]. rewrite IH; [done|]. set_solver.
Qed.

Lemma connection_writes c ops :
  (∀ code, WriteHeader code ∉ ops) → received (foldl onConnection c ops) = received c.
Proof.
  revert c. induction ops as [|[code|data] ops IH]; intros c Hops; [done|..].
  - destruct (Hops code). by left.
  - cbn [foldl]. rewrite IH by set_solver. unfold onConnection, received. by destruct (sent c).
Qed.

(** The middleware sees the status the client gets: for a handler that
    writes its header first and at most once, what [Logging] and, around it,
    [Tracing] note is the status sent, and the connection receives exactly what
    the handler wrote. *)
Theorem status_observed ops :
  header_first ops →
  let rw := foldl (onWriter (onWriter onConnection)) (wrap (wrap (mkConnection None []))) ops in
  inner (inner rw) = foldl onConnection (mkConnection None []) ops ∧
  statusCode rw = received (inner (inner rw)) ∧ statusCode (inner rw) = received (inner (inner rw)).
Proof.
  intros Hf. destruct ops as [|o ops]; [done|]. unfold header_first in Hf. cbn [tail] in Hf.
  cbn [foldl]. rewrite writes_only, writes_only by done. cbn [inner statusCode].
  rewrite connection_writes by done. by destruct o.
Qed.

Lemma status_observed_witness :
  statusCode (foldl (onWriter (onWriter onConnection)) (wrap (wrap (mkConnection None [])))
    [WriteHeader 404; Write []]) = 404.
Proof.
  refine (proj1 (proj2 (status_observed [WriteHeader 404; Write []] _))).
  intros code. unfold tail. intros [Hx|Hx]%elem_of_cons; [done|by apply elem_of_nil in Hx].
Defined.

(** With a second header the two disagree: the client got the first. *)
Example second_header_logged :
  let rw := foldl (onWriter onConnection) (wrap (mkConnection None [])) [WriteHeader 200; WriteHeader 500] in
  statusCode rw = 500 ∧ received (inner rw) = 200.
Proof. done. Qed.

(** *** What is logged and traced of a request *)

Inductive field := FStr (s : string) | FInt (n : Z) | FDur (d : Duration).

(** The ids of a valid span context. *)
Record SpanContext := mkSpanContext { TraceID : string; SpanID : string }.

Definition TraceFields (sc : option SpanContext) : list (string * field) :=
  match sc with
  | Some sc => [("trace_id", FStr (TraceID sc)); ("span_id", FStr (SpanID sc))]
  | None => []
  end.

(** The arguments of the log line; [requestID] comes from the context. *)
Definition logLine (r : Request) (status : Z) (elapsed : Duration) (requestID : string) (sc : option SpanContext)
  : list (string * field) :=
  [("method", FStr (Method r)); ("path", FStr (Path r)); ("status", FInt status);
   ("duration", FDur elapsed); ("request_id", FStr requestID)] ++ TraceFields sc.

(** The calls on the span of a request: those before the handler and the
    deferred ones, which run after a panic too. *)
Definition requestSpan (r : Request) (pattern userAgent requestID : string) (status : Z) : Span :=
  mkSpan "http.request"
    ([SetAttributes [("http.method", Str (Method r)); ("http.path", Str (Path r));
        ("http.route", Str (if decide (pattern = "") then Path r else pattern));
        ("http.user_agent", Str userAgent)]] ++
     (if decide (requestID = "") then [] else [SetAttributes [("request.id", Str requestID)]]) ++
     [SetAttributes [("http.status_code", Int status)]] ++
     (if 500 <=? status then [SetStatus Error "server_error"] else []) ++ [End]).

Lemma requestSpan_status r p ua id st :
  closed (requestSpan r p ua id st) ∧
  (status (Calls (requestSpan r p ua id st)) = Some (Error, "server_error") ↔ 500 ≤ st).
Proof.
  split.
  - exists (removelast (Calls (requestSpan r p ua id st))). unfold requestSpan.
    repeat case_decide; destruct (500 <=? st); simpl; (split; [done|not_ended]).
  - unfold requestSpan. repeat case_decide; destruct (Z.leb_spec 500 st); simpl; split; done || lia.
Qed.

(** ** The metrics registry *)

(** The collectors of [metrics.go] in the order [init] registers them. *)
Definition collectors : list string :=
  ["quorum_jobs_submitted_total"; "quorum_jobs_completed_total"; "quorum_jobs_failed_total";
   "quorum_jobs_cancelled_total"; "quorum_queue_depth"; "quorum_active_workers";
   "quorum_job_execution_duration_seconds"].

(** [prometheus.MustRegister] panics on a name that is taken. *)
Fixpoint MustRegister (registry : gset string) (names : list string) : option (gset string) :=
  match names with
  | [] => Some registry
  | n :: names => if decide (n ∈ registry) then None else MustRegister ({[n]} ∪ registry) names
  end.

Lemma MustRegister_fresh registry names :
  NoDup names → (∀ n, n ∈ names → n ∉ registry) → is_Some (MustRegister registry names).
Proof.
  revert registry. induction names as [|n names IH]; intros registry Hnd Hf; [done|].
  apply NoDup_cons in Hnd as [Hn Hnd]. cbn [MustRegister]. rewrite decide_False by (apply Hf; by left).
  apply IH; [done|]. set_solver.
Qed.

(** The process gets past its initialization: the names are distinct, so the
    registration succeeds on a registry that has none of them yet. *)
Lemma init_registers registry : (∀ n, n ∈ collectors → n ∉ registry) → is_Some (MustRegister registry collectors).
Proof. apply MustRegister_fresh. apply (bool_decide_unpack _). vm_compute. exact I. Qed.

End Telemetry.
