(* ===== verification/Process.v ===== *)
(** * The two processes: [main] of [cmd/server/server.go] and of
    [cmd/worker/main.go], [StartGRPCServer] of [internal/rpc/server/grpc.go]

    What each process does up to its last statement, as the sequence of its
    visible steps over the answers of the operating system and the libraries.
    [log.Fatal] ends the process without running deferred calls. *)

From S2P Require Import Prelude Job Lease Dlq Store MemoryStore Metrics Queue Broker GoStrings Events.
From S2P Require Import Codec BoltStore Consensus Config Cron Manager Machine Scheduler Engine Executor Rpc Server.
From S2P Require Import WorkerMain Link Boot Telemetry.
Import Machine.
Local Open Scope Z_scope.

Module Process.

Inductive event :=
  | TracingOn
  | TracingFallback
  | EngineOpened
  | EngineStarted
  | EngineStopped
  | TracingShutdown
  | ListenGRPC (address : string)
  | ListenHTTP (address : string)
  | StartClient (c : Link.Client)
  | Forwarding
  | Blocked                  (** at [select {}] *)
  | Exit (status : Z).

(** [StartGRPCServer]: the error it returns; [listen] is the answer of
    [net.Listen], [serve] that of [Serve], which returns only with an error. *)
Definition StartGRPCServer (port : Z) (listen : string → option string) (serve : string) : string * string :=
  let address := ":" +:+ pretty port in
  (address, match listen address with Some e => e | None => serve end).

(** What [ListenAndServe] returns. *)
Inductive served := ServedNil | ErrServerClosed | ServeError (msg : string).

Definition tracing (e : option Telemetry.init_error) : event :=
  match e with None => TracingOn | Some _ => TracingFallback end.

(** The deferred call of the tracer. *)
Definition deferred (e : option Telemetry.init_error) : list event :=
  match e with None => [TracingShutdown] | Some _ => [] end.

(** ** The control node *)

Section Server.
Context `{GoRange} {DB : Type} `{BoltStore.Bbolt DB} `{BoltStore.Zones}.

(** [Restore] and [Start] on the backend in use. *)
Definition startUp (env : Env) (n : Boot.node (DB := DB)) : option (Boot.node (DB := DB)) :=
  match n with
  | Boot.OnMemory st =>
      match run env Server.startUp st with (Returned true, st) => Some (Boot.OnMemory st) | _ => None end
  | Boot.OnBolt st =>
      match run env Server.startUp st with (Returned true, st) => Some (Boot.OnBolt st) | _ => None end
  end.

(** The end of [main]: a serving error is fatal, and only a closed server lets
    the deferred calls run. *)
Definition serveHTTP (tracingErr : option Telemetry.init_error) (http : served) : list event :=
  ListenHTTP ":8080" ::
  match http with
  | ServeError _ => [Exit 1]
  | ServedNil | ErrServerClosed => EngineStopped :: deferred tracingErr ++ [Exit 0]
  end.

(** The main goroutine; the node it leaves, if it got one. *)
Definition serverMain (otel : Telemetry.Otel) (lib : Boot.RaftLib) (getenv : string → string) (file : DB + string)
    (now : Time) (env : Env) (http : served) : list event * option (Boot.node (DB := DB)) :=
  let tracingErr := (Telemetry.Init otel getenv "quorum-server" (Telemetry.mkGlobals None false)).2 in
  let cfg := Config.Default getenv in
  match Boot.New lib cfg file now with
  | inr _ => ([tracing tracingErr; Exit 1], None)
  | inl (n, _) =>
      match startUp env n with
      | None => ([tracing tracingErr; EngineOpened; Exit 1], Some n)
      | Some n =>
          ([tracing tracingErr; EngineOpened; EngineStarted;
            ListenGRPC (":" +:+ pretty (Config.ControllerGRPCPort cfg))] ++ serveHTTP tracingErr http, Some n)
      end
  end.

(** Before the listeners are open the engine has been restored and started, and
    a node that cannot be opened or restored serves nothing. *)
Lemma serves_after_start otel lib getenv file now env http es n addr :
  serverMain otel lib getenv file now env http = (es, n) → ListenHTTP addr ∈ es →
  ∃ t rest, es = t :: EngineOpened :: EngineStarted :: rest ∧ addr = ":8080" ∧
    ∃ n0 rn n1, Boot.New lib (Config.Default getenv) file now = inl (n0, rn) ∧ startUp env n0 = Some n1 ∧ n = Some n1.
Proof.
  unfold serverMain. set (t := tracing _). assert (Ht : ListenHTTP addr ≠ t) by (unfold t, tracing; by case_match).
  destruct (Boot.New _ _ _ _) as [[n0 rn]|e] eqn:Hn.
  2:{ intros [= <- <-] Hin. set_solver. }
  destruct (startUp env n0) as [n1|] eqn:Hs.
  2:{ intros [= <- <-] Hin. set_solver. }
  intros [= <- <-] Hin. eexists t, _. split; [reflexivity|]. split; [|by exists n0, rn, n1].
  unfold serveHTTP, deferred in Hin. repeat case_match; set_solver.
Qed.

(** The control node never stops its engine: the deferred [Stop] runs only
    when [ListenAndServe] reports a closed server, which takes a call of
    [Shutdown] or [Close] that [main] does not make, and every other return is
    fatal.  The database is never closed and the spans in flight are not
    flushed. *)
Theorem stop_never_runs otel lib getenv file now env http :
  http ≠ ServedNil → http ≠ ErrServerClosed →
  EngineStopped ∉ (serverMain otel lib getenv file now env http).1 ∧
  TracingShutdown ∉ (serverMain otel lib getenv file now env http).1.
Proof.
  intros Hnil Hclosed. unfold serverMain, tracing, serveHTTP.
  destruct (Boot.New _ _ _ _) as [[n0 rn]|e]; [destruct (startUp env n0)|];
    destruct (Telemetry.Init _ _ _ _) as [g [te|]]; destruct http; try done; set_solver.
Qed.
End Server.

(** ** The worker *)

(** The end of [main]: the client of the control node, its goroutine and the one
    that forwards the results. *)
Definition connect (workerID : Z) (workerAddr : string) (topics : list string) (dialled : option string) : list event :=
  match Link.New workerID workerAddr topics dialled with
  | inr _ => [Exit 1]
  | inl controller => [StartClient controller; Forwarding; Blocked]
  end.

Definition workerMain (otel : Telemetry.Otel) (getenv : string → string) (dialled : option string) : list event :=
  let cfg := Config.Default getenv in
  match WorkerMain.workerID (getenv "QUORUM_WORKER_ID") cfg with
  | None => [Exit 1]
  | Some workerID =>
      let tracingErr :=
        (Telemetry.Init otel getenv ("quorum-worker-" +:+ pretty workerID) (Telemetry.mkGlobals None false)).2 in
      let metrics := ListenHTTP (":" +:+ pretty (WorkerMain.metricsPort (getenv "QUORUM_METRICS_PORT"))) in
      match WorkerMain.workerPort (getenv "QUORUM_WORKER_PORT") cfg with
      | None => [tracing tracingErr; metrics; Exit 1]
      | Some workerPort =>
          [tracing tracingErr; metrics; ListenGRPC (":" +:+ pretty workerPort)] ++
          connect workerID (WorkerMain.workerAddr (getenv "QUORUM_WORKER_ADDR") workerPort)
            (WorkerMain.topics (getenv "QUORUM_WORKER_TOPICS")) dialled
      end
  end.

(** The client a worker registers itself with is that of its settings, and a
    worker whose settings do not parse never gets that far. *)
Lemma worker_registers otel getenv dialled c :
  StartClient c ∈ workerMain otel getenv dialled ↔
    dialled = None ∧ ∃ s, WorkerMain.load getenv (Config.Default getenv) = Some s ∧
      c = Link.mkClient (WorkerMain.WorkerID s) (WorkerMain.WorkerAddr s) (WorkerMain.Topics s).
Proof.
  unfold workerMain, connect, WorkerMain.load, tracing.
  destruct (WorkerMain.workerID _ _) as [id|]; [|simpl; set_solver]. cbn [option_bind mbind].
  destruct (Telemetry.Init _ _ _ _) as [g [te|]];
    (destruct (WorkerMain.workerPort _ _) as [port|]; [|simpl; set_solver]);
    destruct dialled; simpl; set_solver.
Qed.

End Process.
