(* ===== verification/Lifecycle.v ===== *)
(** * The goroutines of an engine: [Engine.Start], [watchLeadership] and [Stop] of
    [internal/engine/engine.go], [Scheduler.Start] and the loops of
    [internal/scheduler/scheduler.go], [Worker.Start], [Manager.Monitor] and
    [cron.Scheduler.Start]

    Which goroutines run, under which context, where each of them can notice that
    its context is done, and which of them [Stop] waits for.  What the loops do in
    a turn is modelled in [Scheduler] and [System]; here a turn is a stay at
    [Busy].  A run interleaves the goroutines with leadership notices and a call
    of [Stop]. *)

From S2P Require Import Prelude Job.

Module Lifecycle.

(** [Sched] is [Scheduler.Start] before it has started its four loops, and
    [SchedWait] the same call waiting for its context. *)
Inductive kind := Worker (id : Z) | Monitor | Watch | Sched | SchedWait | Cron | Dispatch | Results | Delay | Recovery.

#[global] Instance kind_eq_dec : EqDecision kind.
Proof. solve_decision. Defined.

(** ** The loops *)

(** Where a goroutine is: at the head of its loop, in its second select, or in a
    turn. *)
Inductive place := Top | Announced | Asleep | Busy.

#[global] Instance place_eq_dec : EqDecision place.
Proof. solve_decision. Defined.

(** What it can do there: return when its context is done, or go on. *)
Inductive case := CtxDone | Goto (p : place).

#[global] Instance case_eq_dec : EqDecision case.
Proof. solve_decision. Defined.

(** [Worker.Start] announces itself and waits for a job; the execution it then
    starts does not look at the context. *)
Definition workerFlow (p : place) : list case :=
  match p with
  | Top => [CtxDone; Goto Announced]
  | Announced => [CtxDone; Goto Busy]
  | Busy => [Goto Top]
  | Asleep => []
  end.

(** A select of the context and a channel, and the turn for what it received:
    [Monitor], [cron.Scheduler.Start], [resultLoop], [recoveryLoop]. *)
Definition monitorFlow (p : place) : list case :=
  match p with
  | Top => [CtxDone; Goto Busy]
  | Busy => [Goto Top]
  | _ => []
  end.

Definition cronFlow (p : place) : list case :=
  match p with
  | Top => [CtxDone; Goto Busy]
  | Busy => [Goto Top]
  | _ => []
  end.

Definition resultFlow (p : place) : list case :=
  match p with
  | Top => [CtxDone; Goto Busy]
  | Busy => [Goto Top]
  | _ => []
  end.

Definition recoveryFlow (p : place) : list case :=
  match p with
  | Top => [CtxDone; Goto Busy]
  | Busy => [Goto Top]
  | _ => []
  end.

(** The inner loop of [dispatchLoop] ends with the queue, or when a dispatch
    failed and the context is done. *)
Definition dispatchFlow (p : place) : list case :=
  match p with
  | Top => [CtxDone; Goto Busy]
  | Busy => [CtxDone; Goto Busy; Goto Top]
  | _ => []
  end.

(** [delayLoop] looks at its queue before it selects. *)
Definition delayFlow (p : place) : list case :=
  match p with
  | Top => [Goto Asleep; Goto Busy; Goto Top]
  | Asleep => [CtxDone; Goto Top; Goto Busy]
  | Busy => [Goto Top]
  | Announced => []
  end.

(** The notices [watchLeadership] receives and the start of the loops are events
    of their own. *)
Definition flow (k : kind) : place → list case :=
  match k with
  | Worker _ => workerFlow
  | Monitor => monitorFlow
  | Cron => cronFlow
  | Results => resultFlow
  | Recovery => recoveryFlow
  | Dispatch => dispatchFlow
  | Delay => delayFlow
  | Watch | SchedWait => λ p, match p with Top => [CtxDone] | _ => [] end
  | Sched => λ _, []
  end.

(** ** The engine *)

(** A goroutine, its context, whether it ends with [wg.Done], and where it is.
    Context 0 is that of the engine, the others are its children. *)
Record goroutine := go { what : kind; ctx : nat; counted : bool; place_of : place }.

Inductive phase := Up | Stopping | Closed.

Record life := mkLife {
  cancelled : gset nat;
  fresh : nat;                     (** the next context *)
  schedCancel : option nat;        (** the context [watchLeadership] can cancel *)
  running : list goroutine;
  wg : nat;                        (** the counter of the wait group *)
  state : phase
}.

(** A context is done when it or its parent was cancelled. *)
Definition done (l : life) (c : nat) : bool := bool_decide (0 ∈ cancelled l ∨ c ∈ cancelled l).

(** [e.wg.Add(1)] and a goroutine under the engine's context that defers
    [e.wg.Done()]. *)
Definition launch (l : life) (k : kind) : life :=
  mkLife (cancelled l) (fresh l) (schedCancel l) (running l ++ [go k 0 true Top]) (S (wg l)) (state l).

(** [Start] with the workers of the manager. *)
Definition Start (raft : bool) (workers : list Z) : life :=
  let l := foldl (λ l w, launch l (Worker w)) (mkLife ∅ 1 None [] 0 Up) workers in
  let l := launch l Monitor in
  if raft then launch l Watch else launch (launch l Sched) Cron.

Definition cancel (l : life) (o : option nat) : gset nat :=
  match o with Some c => {[c]} ∪ cancelled l | None => cancelled l end.

(** A notice of [LeaderCh], handled by [watchLeadership]. *)
Definition notice (l : life) (isLeader : bool) : life :=
  if isLeader then
    mkLife (cancelled l) (S (fresh l)) (Some (fresh l))
      (running l ++ [go Sched (fresh l) false Top; go Cron (fresh l) false Top]) (wg l) (state l)
  else mkLife (cancel l (schedCancel l)) (fresh l) None (running l) (wg l) (state l).

(** [Scheduler.Start] starts its loops. *)
Definition loops (c : nat) : list goroutine :=
  [go Dispatch c false Top; go Results c false Top; go Delay c false Top; go Recovery c false Top].

Definition begin (l : life) (i : nat) : life :=
  match running l !! i with
  | Some (go Sched c n _) =>
      mkLife (cancelled l) (fresh l) (schedCancel l) (<[i := go SchedWait c n Top]> (running l) ++ loops c)
        (wg l) (state l)
  | _ => l
  end.

(** A goroutine goes on. *)
Definition move (l : life) (i : nat) (p : place) : life :=
  match running l !! i with
  | Some g =>
      if decide (Goto p ∈ flow (what g) (place_of g)) then
        mkLife (cancelled l) (fresh l) (schedCancel l) (<[i := go (what g) (ctx g) (counted g) p]> (running l))
          (wg l) (state l)
      else l
  | None => l
  end.

(** A goroutine that looks at its context returns when it is done, with its
    deferred [wg.Done]; [watchLeadership] cancels the scheduler's context. *)
Definition exit (l : life) (i : nat) : life :=
  match running l !! i with
  | Some g =>
      if bool_decide (CtxDone ∈ flow (what g) (place_of g)) && done l (ctx g) then
        mkLife (if decide (what g = Watch) then cancel l (schedCancel l) else cancelled l) (fresh l) (schedCancel l)
          (delete i (running l)) (if counted g then pred (wg l) else wg l) (state l)
      else l
  | None => l
  end.

Inductive event := Notice (isLeader : bool) | Begin (i : nat) | Move (i : nat) (p : place) | Exit (i : nat) | Stop | Wait.

(** [Stop] cancels the engine's context, waits for the counter and closes the
    Raft node and the store. *)
Definition step (l : life) (e : event) : life :=
  match e with
  | Notice b => if existsb (λ g, bool_decide (what g = Watch)) (running l) then notice l b else l
  | Begin i => begin l i
  | Move i p => move l i p
  | Exit i => exit l i
  | Stop =>
      match state l with
      | Up => mkLife ({[0]} ∪ cancelled l) (fresh l) (schedCancel l) (running l) (wg l) Stopping
      | _ => l
      end
  | Wait =>
      match state l with
      | Stopping =>
          if decide (wg l = 0) then mkLife (cancelled l) (fresh l) (schedCancel l) (running l) (wg l) Closed
          else l
      | _ => l
      end
  end.

Definition run (l : life) (es : list event) : life := foldl step l es.

(** The notices of a run alternate, [next] being the first. *)
Fixpoint alternating (next : bool) (es : list event) : Prop :=
  match es with
  | [] => True
  | Notice b :: es => b = next ∧ alternating (negb next) es
  | _ :: es => alternating next es
  end.

(** ** One dispatcher *)

(** A dispatcher, or the call that will start one. *)
Definition token (g : goroutine) : Prop := what g = Sched ∨ what g = Dispatch.

#[global] Instance token_dec g : Decision (token g).
Proof. unfold token. apply _. Defined.

Definition tokens (l : list goroutine) : list nat := ctx <$> filter token l.

Lemma tokens_app l1 l2 : tokens (l1 ++ l2) = tokens l1 ++ tokens l2.
Proof. unfold tokens. by rewrite filter_app, fmap_app. Qed.

Lemma elem_of_tokens c l : c ∈ tokens l ↔ ∃ g, g ∈ l ∧ token g ∧ ctx g = c.
Proof. unfold tokens. rewrite list_elem_of_fmap. setoid_rewrite list_elem_of_filter. naive_solver. Qed.

Lemma filter_sublist (l1 l2 : list goroutine) : l1 `sublist_of` l2 → filter token l1 `sublist_of` filter token l2.
Proof.
  induction 1 as [|g l1 l2 _ IH|g l1 l2 _ IH]; [done|..]; rewrite !filter_cons.
  - case_decide; [by apply sublist_skip|done].
  - case_decide; [by apply sublist_cons|done].
Qed.

(** Two positions with a token of the same context are one. *)
Lemma tokens_unique l i k g g' :
  NoDup (tokens l) → l !! i = Some g → l !! k = Some g' → token g → token g' → ctx g = ctx g' → i = k.
Proof.
  revert i k. induction l as [|x l IH]; intros i k Hnd Hi Hk Hg Hg' He; [done|].
  assert (Hin : ∀ n y, l !! n = Some y → token y → ctx y ∈ tokens l).
  { intros n y Hy Ht. apply elem_of_tokens. exists y. split; [by eapply list_elem_of_lookup_2|done]. }
  unfold tokens in Hnd. rewrite filter_cons in Hnd.
  destruct i as [|i], k as [|k]; simpl in Hi, Hk; simplify_eq; [done|..].
  - rewrite decide_True in Hnd by done. apply NoDup_cons in Hnd as [[] _]. rewrite He. by eapply Hin.
  - rewrite decide_True in Hnd by done. apply NoDup_cons in Hnd as [[] _]. rewrite <-He. by eapply Hin.
  - f_equal. apply IH; try done. case_decide; [by apply NoDup_cons in Hnd as [_ ?]|done].
Qed.

(** [next] is the notice that comes next. *)
Record ok (raft next : bool) (l : life) : Prop := {
  ok_tokens : NoDup (tokens (running l));
  ok_fresh g : g ∈ running l → ctx g < fresh l;
  ok_live g : g ∈ running l → token g →
    if raft then done l (ctx g) = true ∨ schedCancel l = Some (ctx g) else ctx g = 0;
  ok_watch g : g ∈ running l → what g = Watch → raft = true ∧ (next = true → schedCancel l = None)
}.

(** What [Start] has started. *)
Lemma start_running raft workers :
  running (Start raft workers) =
    ((λ w, go (Worker w) 0 true Top) <$> workers) ++ [go Monitor 0 true Top] ++
    (if raft then [go Watch 0 true Top] else [go Sched 0 true Top; go Cron 0 true Top]).
Proof.
  assert (Hws : ∀ l, running (foldl (λ l w, launch l (Worker w)) l workers) =
    running l ++ ((λ w, go (Worker w) 0 true Top) <$> workers)).
  { induction workers as [|w ws IH]; intros l; [by rewrite app_nil_r|]. cbn [foldl fmap list_fmap].
    rewrite IH. cbn [launch running]. by rewrite <-app_assoc. }
  unfold Start. destruct raft; cbn [launch running]; rewrite Hws; cbn [running app]; by rewrite <-!app_assoc.
Qed.

Lemma start_rest raft workers :
  let l := Start raft workers in
  cancelled l = ∅ ∧ fresh l = 1 ∧ schedCancel l = None ∧ state l = Up ∧ wg l = length (running l).
Proof.
  intros l. enough (Hws : ∀ ws l, cancelled l = ∅ ∧ fresh l = 1 ∧ schedCancel l = None ∧ state l = Up ∧
    wg l = length (running l) →
    let l' := foldl (λ l w, launch l (Worker w)) l ws in
    cancelled l' = ∅ ∧ fresh l' = 1 ∧ schedCancel l' = None ∧ state l' = Up ∧ wg l' = length (running l')).
  { specialize (Hws workers (mkLife ∅ 1 None [] 0 Up) ltac:(done)). cbv zeta in Hws.
    destruct Hws as (E1 & E2 & E3 & E4 & E5). unfold l, Start.
    destruct raft; cbn [launch cancelled fresh schedCancel state running wg];
      rewrite E1, E2, E3, E4, E5, !length_app; simpl; split_and!; try done; lia. }
  intros ws. induction ws as [|w ws IH]; intros l0 H0; [exact H0|]. apply IH.
  destruct H0 as (E1 & E2 & E3 & E4 & E5). cbn [launch cancelled fresh schedCancel state running wg].
  rewrite length_app. simpl. split_and!; try done. lia.
Qed.

Lemma ok_start raft workers : ok raft true (Start raft workers).
Proof.
  assert (Hw : tokens ((λ w, go (Worker w) 0 true Top) <$> workers) = []).
  { induction workers as [|w ws IH]; [done|]. unfold tokens in *. cbn [fmap list_fmap]. rewrite filter_cons.
    rewrite decide_False; [done|]. by intros [|]. }
  destruct (start_rest raft workers) as (_ & Ef & Es & _).
  split; rewrite ?start_running, ?Ef, ?Es.
  - rewrite tokens_app, Hw. destruct raft; vm_compute; repeat constructor; set_solver.
  - intros g Hg. destruct raft; set_solver by lia.
  - intros g Hg Ht. rewrite elem_of_app in Hg. destruct Hg as [Hg|Hg].
    + exfalso. apply (not_elem_of_nil (ctx g)). rewrite <-Hw. apply elem_of_tokens. eauto.
    + destruct Ht, raft; set_solver.
  - intros g Hg Hwt. destruct raft; [done|]. exfalso. set_solver.
Qed.

Lemma done_mono l l' c : cancelled l ⊆ cancelled l' → done l c = true → done l' c = true.
Proof. unfold done. rewrite !bool_decide_eq_true. set_solver. Qed.

Lemma cancel_subset l o : cancelled l ⊆ cancel l o.
Proof. destruct o; set_solver. Qed.

(** Fewer goroutines and more cancelled contexts. *)
Lemma ok_less raft next l cs rs n ph :
  ok raft next l → cancelled l ⊆ cs → rs `sublist_of` running l → ok raft next (mkLife cs (fresh l) (schedCancel l) rs n ph).
Proof.
  intros [Ht Hf Hl Hw] Hcs Hrs.
  assert (Hin : ∀ g, g ∈ rs → g ∈ running l) by (intros g Hg; by eapply elem_of_sublist).
  split; cbn [running fresh schedCancel].
  - eapply sublist_NoDup; [exact Ht|]. by apply fmap_sublist, filter_sublist.
  - eauto.
  - intros g Hg Hg'. specialize (Hl g (Hin g Hg) Hg'). destruct raft; [|done].
    destruct Hl; [left|by right]. by eapply done_mono.
  - eauto.
Qed.

Lemma tokens_begin l1 l2 c n p :
  tokens ((l1 ++ go SchedWait c n Top :: l2) ++ loops c) ≡ₚ tokens (l1 ++ go Sched c n p :: l2).
Proof.
  rewrite !tokens_app, <-app_assoc. apply Permutation_app; [done|].
  change (go Sched c n p :: l2) with ([go Sched c n p] ++ l2).
  change (go SchedWait c n Top :: l2) with ([go SchedWait c n Top] ++ l2).
  rewrite !tokens_app. apply Permutation_app_comm.
Qed.

Lemma ok_begin raft next l i : ok raft next l → ok raft next (begin l i).
Proof.
  intros Hok. unfold begin. destruct (running l !! i) as [[[] c n p]|] eqn:Hi; try done.
  destruct Hok as [Ht Hf Hl Hw]. assert (Hg : go Sched c n p ∈ running l) by (by eapply list_elem_of_lookup_2).
  pose proof (take_drop_middle _ _ _ Hi) as Hsplit.
  assert (Hrs : <[i := go SchedWait c n Top]> (running l) =
    take i (running l) ++ go SchedWait c n Top :: drop (S i) (running l)).
  { rewrite insert_take_drop by (by eapply lookup_lt_Some). done. }
  assert (Hin : ∀ g, g ∈ <[i := go SchedWait c n Top]> (running l) ++ loops c →
    g ∈ running l ∨ ctx g = c ∧ what g ≠ Watch).
  { intros g [Hin|Hin]%elem_of_app; [|right; set_solver].
    rewrite Hrs in Hin. rewrite <-Hsplit. set_solver. }
  split; cbn [running fresh schedCancel].
  - rewrite Hrs, tokens_begin, Hsplit. exact Ht.
  - intros g [Hin'|[-> _]]%Hin; [by apply Hf|by apply (Hf _ Hg)].
  - intros g [Hin'|[Hc _]]%Hin Htk; [by apply Hl|].
    specialize (Hl _ Hg (or_introl eq_refl)). rewrite Hc. exact Hl.
  - intros g [Hin'|[_ Hnw]]%Hin Hwt; [by apply (Hw g)|done].
Qed.

(** Moving a goroutine changes neither its kind nor its context. *)
Lemma move_elem l i p g :
  g ∈ running (move l i p) → ∃ g', g' ∈ running l ∧ what g' = what g ∧ ctx g' = ctx g ∧ counted g' = counted g.
Proof.
  unfold move. destruct (running l !! i) as [x|] eqn:Hi; [|eauto]. case_decide; [|eauto]. cbn [running].
  intros [k Hk]%list_elem_of_lookup. apply list_lookup_insert_Some in Hk as [(_ & <- & _)|[_ Hk]].
  - exists x. split; [by eapply list_elem_of_lookup_2|done].
  - exists g. split; [by eapply list_elem_of_lookup_2|done].
Qed.

Lemma tokens_move l i p : tokens (running (move l i p)) = tokens (running l).
Proof.
  unfold move. destruct (running l !! i) as [g|] eqn:Hi; [|done]. case_decide; [|done]. cbn [running].
  rewrite insert_take_drop by (by eapply lookup_lt_Some). rewrite <-(take_drop_middle _ _ _ Hi) at 3.
  rewrite !tokens_app. f_equal. unfold tokens. rewrite !filter_cons. unfold token. cbn [what ctx].
  by destruct (decide (what g = Sched ∨ what g = Dispatch)).
Qed.

Lemma ok_move raft next l i p : ok raft next l → ok raft next (move l i p).
Proof.
  intros [Ht Hf Hl Hw].
  assert (Hsame : fresh (move l i p) = fresh l ∧ schedCancel (move l i p) = schedCancel l ∧
    cancelled (move l i p) = cancelled l) by (unfold move; repeat case_match; done).
  destruct Hsame as (Ef & Es & Ec). split; rewrite ?tokens_move, ?Ef, ?Es; [done|..]; unfold done; rewrite ?Ec.
  - intros g (g' & Hg & _ & <- & _)%move_elem. by apply Hf.
  - intros g (g' & Hg & Ek & <- & _)%move_elem Htk. apply Hl; [done|]. unfold token in *. by rewrite Ek.
  - intros g (g' & Hg & <- & _)%move_elem Hgw. by apply (Hw g').
Qed.

Lemma ok_exit raft next l i : ok raft next l → ok raft next (exit l i).
Proof.
  intros Hok. unfold exit. destruct (running l !! i) as [g|]; [|done]. destruct (_ && _); [|done].
  apply ok_less; [done| |apply sublist_delete]. case_decide; [apply cancel_subset|done].
Qed.

Lemma ok_notice raft next l :
  ok raft next l → existsb (λ g, bool_decide (what g = Watch)) (running l) = true → ok raft (negb next) (notice l next).
Proof.
  intros [Ht Hf Hl Hw] Hwatch. apply existsb_exists in Hwatch as (w & Hin & Hww%bool_decide_eq_true).
  apply list_elem_of_In in Hin. destruct (Hw w Hin Hww) as [-> Hnone]. unfold notice.
  destruct next; split; cbn [running fresh schedCancel negb].
  - rewrite tokens_app. apply NoDup_app. split_and!; [done| |vm_compute; repeat constructor; set_solver].
    intros c (g & Hg & _ & <-)%elem_of_tokens Hc. specialize (Hf g Hg).
    apply elem_of_tokens in Hc as (g' & Hg' & _ & Hc'). set_solver by lia.
  - intros g [Hg|Hg]%elem_of_app; [specialize (Hf g Hg); lia|]. set_solver by lia.
  - intros g [Hg|Hg]%elem_of_app Htk; [|right; set_solver].
    destruct (Hl g Hg Htk) as [Hd|Hs]; [by left|]. by rewrite Hnone in Hs.
  - intros g _ _. by split.
  - done.
  - done.
  - intros g Hg Htk. left. destruct (Hl g Hg Htk) as [Hd|Hs].
    + eapply done_mono; [|exact Hd]. apply cancel_subset.
    + unfold done. rewrite bool_decide_eq_true. right. rewrite Hs. set_solver.
  - by intros g _ _.
Qed.

Lemma ok_step raft next l e :
  ok raft next l → (∀ b, e = Notice b → b = next) →
  ok raft (match e with Notice _ => negb next | _ => next end) (step l e).
Proof.
  intros Hok He. destruct e as [b|i|i p|i| |]; cbn [step].
  - rewrite (He b eq_refl). destruct (existsb _ _) eqn:Hw; [by apply ok_notice|].
    destruct Hok as [Ht Hf Hl Hwt]. split; [done..|]. intros g Hg Hgw. exfalso.
    assert (Hex : existsb (λ g, bool_decide (what g = Watch)) (running l) = true); [|congruence].
    apply existsb_exists. exists g. rewrite bool_decide_eq_true. by rewrite <-list_elem_of_In.
  - by apply ok_begin.
  - by apply ok_move.
  - by apply ok_exit.
  - destruct (state l); [|done..]. apply ok_less; [done|set_solver|done].
  - destruct (state l); [done| |done]. case_decide; [|done]. by apply ok_less.
Qed.

Lemma ok_run raft next l es :
  ok raft next l → alternating next es → ∃ next', ok raft next' (run l es).
Proof.
  revert next l. induction es as [|e es IH]; intros next l Hok Ha; [eauto|].
  assert (He : ∀ b, e = Notice b → b = next) by (intros b ->; apply Ha).
  apply (IH _ _ (ok_step _ _ _ _ Hok He)). destruct e; apply Ha.
Qed.

(** C10. At most one dispatcher is active: in every interleaving of the
    goroutines with [Stop] and with leadership notices that alternate, all
    scheduler loops whose context is not done belong to one call of
    [Scheduler.Start], so no two goroutines dispatch at a time. *)
Theorem one_dispatcher raft workers es i k g g' :
  alternating true es →
  let l := run (Start raft workers) es in
  running l !! i = Some g → running l !! k = Some g' →
  what g = Dispatch → what g' = Dispatch → done l (ctx g) = false → done l (ctx g') = false → i = k.
Proof.
  intros Ha l Hi Hk Hg Hg' Hd Hd'. destruct (ok_run raft true _ es (ok_start raft workers) Ha) as (next & Hok).
  fold l in Hok. apply (tokens_unique (running l) i k g g'); [apply Hok|done|done|by right|by right|].
  pose proof (ok_live _ _ _ Hok g (list_elem_of_lookup_2 _ _ _ Hi) (or_intror Hg)) as H1.
  pose proof (ok_live _ _ _ Hok g' (list_elem_of_lookup_2 _ _ _ Hk) (or_intror Hg')) as H2.
  destruct raft; [|congruence]. destruct H1, H2; congruence.
Qed.

(** ** Stopping *)

(** The goroutines [Stop] is to wait for: those [Start] has started, with the
    loops of a standalone node among them. *)
Definition kept (raft : bool) (k : kind) : bool :=
  match k with
  | Worker _ | Monitor | Watch => true
  | Sched | SchedWait | Cron => negb raft
  | _ => false
  end.

(** How many moves a goroutine is away from its return, once its context is
    done; zero where it never is.  [Sched] leaves its four loops behind. *)
Definition rank (k : kind) (p : place) : nat :=
  match k, p with
  | Sched, _ => 7
  | (Watch | SchedWait | Worker _ | Monitor | Cron | Results | Recovery | Dispatch), Top => 1
  | Worker _, Announced | Dispatch, Busy | Delay, Asleep => 1
  | (Worker _ | Monitor | Cron | Results | Recovery), Busy | Delay, Top => 2
  | Delay, Busy => 3
  | _, _ => 0
  end.

Lemma flow_rank k p q : Goto q ∈ flow k p → 0 < rank k q.
Proof. destruct k, p; cbn; rewrite ?elem_of_cons, ?elem_of_nil; intros; destruct q; cbn; try lia; naive_solver. Qed.

(** Every loop comes to a place where it looks at its context. *)
Lemma flow_returns k p :
  k ≠ Sched → 0 < rank k p → CtxDone ∈ flow k p ∨ ∃ q, Goto q ∈ flow k p ∧ rank k q < rank k p.
Proof.
  intros Hk Hr. destruct k, p; cbn in *; try lia; try done;
    first [left; left | right; exists Asleep; split; [left|cbn; lia] | right; exists Top; split; [left|cbn; lia]].
Qed.

Definition tally (l : list goroutine) : nat := length (filter (λ g, counted g = true) l).

Lemma tally_app l1 l2 : tally (l1 ++ l2) = tally l1 + tally l2.
Proof. unfold tally. by rewrite filter_app, length_app. Qed.

Lemma tally_cons g l : tally (g :: l) = (if counted g then 1 else 0) + tally l.
Proof. unfold tally. rewrite filter_cons. destruct (counted g); by case_decide. Qed.

Lemma tally_insert l i g g' :
  l !! i = Some g → counted g' = counted g → tally (<[i := g']> l) = tally l.
Proof.
  intros Hi Hc. rewrite insert_take_drop by (by eapply lookup_lt_Some).
  rewrite <-(take_drop_middle _ _ _ Hi) at 3. by rewrite !tally_app, !tally_cons, Hc.
Qed.

Lemma tally_delete l i g :
  l !! i = Some g → tally l = (if counted g then 1 else 0) + tally (delete i l).
Proof.
  intros Hi. rewrite delete_take_drop. rewrite <-(take_drop_middle _ _ _ Hi) at 1.
  rewrite !tally_app, tally_cons. lia.
Qed.

Lemma tally_all l : (∀ g, g ∈ l → counted g = true) → tally l = length l.
Proof.
  induction l as [|g l IH]; intros Hl; [done|]. rewrite tally_cons, IH, (Hl g); [done|by left|].
  intros x Hx. apply Hl. by right.
Qed.

Lemma tally_zero l g : tally l = 0 → g ∈ l → counted g = false.
Proof.
  intros Ht Hg. apply length_zero_iff_nil in Ht. destruct (counted g) eqn:E; [|done].
  assert (Hin : g ∈ filter (λ g, counted g = true) l) by (by apply list_elem_of_filter).
  rewrite Ht in Hin. by apply elem_of_nil in Hin.
Qed.

(** After [Stop] the engine's context stays done; the counter is the number of
    the goroutines that will decrease it, and these are the ones to wait for. *)
Record stopped (raft : bool) (l : life) : Prop := {
  st_root : state l ≠ Up → 0 ∈ cancelled l;
  st_wg : wg l = tally (running l);
  st_closed : state l = Closed → wg l = 0;
  st_kept g : g ∈ running l → kept raft (what g) = true → counted g = true;
  st_watch g : g ∈ running l → what g = Watch → raft = true;
  st_rank g : g ∈ running l → 0 < rank (what g) (place_of g)
}.

Lemma stopped_start raft workers : stopped raft (Start raft workers).
Proof.
  destruct (start_rest raft workers) as (_ & _ & _ & Es & Ew).
  assert (Hall : ∀ g, g ∈ running (Start raft workers) →
    counted g = true ∧ 0 < rank (what g) (place_of g) ∧ (what g = Watch → raft = true)).
  { intros g. rewrite start_running. destruct raft; set_solver by lia. }
  split; rewrite ?Es; try done; try (intros g Hg; destruct (Hall g Hg) as (? & ? & ?); by auto).
  rewrite Ew. symmetry. apply tally_all. intros g Hg. by apply Hall.
Qed.

Lemma stopped_notice raft l b :
  stopped raft l → existsb (λ g, bool_decide (what g = Watch)) (running l) = true → stopped raft (notice l b).
Proof.
  intros [Hr Hg Hc Hk Hw Hs] He. apply existsb_exists in He as (w & Hin & Hww%bool_decide_eq_true).
  apply list_elem_of_In in Hin. pose proof (Hw w Hin Hww) as ->. unfold notice.
  destruct b; split; cbn [state cancelled running wg]; try done.
  - rewrite tally_app, !tally_cons. change (tally []) with 0. cbn [counted]. lia.
  - intros g [Hx|Hx]%elem_of_app; [by apply Hk|]. set_solver.
  - intros g [Hx|Hx]%elem_of_app; [by apply Hs|]. set_solver by lia.
  - intros Hx. specialize (Hr Hx). destruct (schedCancel l); set_solver.
Qed.

Lemma stopped_begin raft l i : stopped raft l → stopped raft (begin l i).
Proof.
  intros Hst. unfold begin. destruct (running l !! i) as [[[] c n p]|] eqn:Hi; try done.
  destruct Hst as [Hr Hg Hc Hk Hw Hs].
  assert (Hold : ∀ g, g ∈ <[i := go SchedWait c n Top]> (running l) ++ loops c →
    g ∈ running l ∨ g = go SchedWait c n Top ∨ g ∈ loops c).
  { intros g [Hx|Hx]%elem_of_app; [|by right; right].
    apply list_elem_of_lookup in Hx as [k Hx]. apply list_lookup_insert_Some in Hx as [(_ & <- & _)|[_ Hx]].
    - by right; left.
    - left. by eapply list_elem_of_lookup_2. }
  pose proof (list_elem_of_lookup_2 _ _ _ Hi) as Hsched.
  split; cbn [state cancelled running wg]; [done| |done|..].
  - rewrite tally_app, (tally_insert _ _ _ _ Hi) by done. unfold loops. rewrite !tally_cons.
    change (tally []) with 0. cbn [counted]. lia.
  - intros g [Hx|[->|Hx]]%Hold; [by apply Hk|exact (Hk _ Hsched)|set_solver].
  - intros g [Hx|[->|Hx]]%Hold; [by apply Hw|done|set_solver].
  - intros g [Hx|[->|Hx]]%Hold; [by apply Hs|cbn; lia|set_solver by lia].
Qed.

Lemma stopped_move raft l i p : stopped raft l → stopped raft (move l i p).
Proof.
  intros Hst. unfold move. destruct (running l !! i) as [x|] eqn:Hi; [|done]. case_decide as Hp; [|done].
  destruct Hst as [Hr Hg Hc Hk Hw Hs]. pose proof (list_elem_of_lookup_2 _ _ _ Hi) as Hx.
  assert (Hold : ∀ g, g ∈ <[i := go (what x) (ctx x) (counted x) p]> (running l) →
    g ∈ running l ∨ g = go (what x) (ctx x) (counted x) p).
  { intros g (k & Hk')%list_elem_of_lookup. apply list_lookup_insert_Some in Hk' as [(_ & <- & _)|[_ Hk']]; [by right|].
    left. by eapply list_elem_of_lookup_2. }
  split; cbn [state cancelled running wg]; [done| |done|..].
  - by rewrite (tally_insert _ _ _ _ Hi).
  - intros g [Hy| ->]%Hold; [by apply Hk|by apply (Hk x)].
  - intros g [Hy| ->]%Hold; [by apply Hw|by apply (Hw x)].
  - intros g [Hy| ->]%Hold; [by apply Hs|by eapply flow_rank].
Qed.

Lemma stopped_exit raft l i : stopped raft l → stopped raft (exit l i).
Proof.
  intros Hst. unfold exit. destruct (running l !! i) as [g|] eqn:Hi; [|done]. destruct (_ && _); [|done].
  destruct Hst as [Hr Hg Hc Hk Hw Hs].
  assert (Hin : ∀ x, x ∈ delete i (running l) → x ∈ running l)
    by (intros x Hx; eapply elem_of_sublist; [exact Hx|apply sublist_delete]).
  rewrite (tally_delete _ _ _ Hi) in Hg.
  split; cbn [state cancelled running wg]; [|destruct (counted g); lia| |by eauto..].
  - intros Hx. specialize (Hr Hx). case_decide; [by apply cancel_subset|done].
  - intros Hx. specialize (Hc Hx). destruct (counted g); lia.
Qed.

Lemma stopped_step raft l e : stopped raft l → stopped raft (step l e).
Proof.
  intros Hst. destruct e as [b|i|i p|i| |]; cbn [step].
  - destruct (existsb _ _) eqn:He; [by apply stopped_notice|done].
  - by apply stopped_begin.
  - by apply stopped_move.
  - by apply stopped_exit.
  - destruct (state l) eqn:Es; [|done..]. destruct Hst. split; cbn [state cancelled running wg]; try done. set_solver.
  - destruct (state l) eqn:Es; [done| |done]. case_decide; [|done]. destruct Hst as [Hr ? ? ? ? ?].
    split; cbn [state cancelled running wg]; try done. intros _. apply Hr. by rewrite Es.
Qed.

Lemma stopped_run raft l es : stopped raft l → stopped raft (run l es).
Proof. revert l. induction es as [|e es IH]; intros l Hl; [done|]. by apply IH, stopped_step. Qed.

(** How much is left to do before every goroutine has returned. *)
Definition remaining (l : list goroutine) : nat := sum_list_with (λ g, rank (what g) (place_of g)) l.

Lemma drain_step raft l g rs :
  running l = g :: rs → stopped raft l → 0 ∈ cancelled l →
  ∃ e, 0 ∈ cancelled (step l e) ∧ state (step l e) = state l ∧
    remaining (running (step l e)) < remaining (running l).
Proof.
  intros Hrun Hst Hroot. assert (Hg : 0 < rank (what g) (place_of g)) by (apply (st_rank _ _ Hst); rewrite Hrun; by left).
  destruct (decide (what g = Sched)) as [Hs|Hs].
  - exists (Begin 0). cbn [step]. unfold begin. rewrite Hrun. destruct g as [k c n p]. simpl in Hs. subst k. cbn.
    split_and!; [done|done|]. unfold remaining. rewrite sum_list_with_app. cbn. lia.
  - destruct (flow_returns _ _ Hs Hg) as [Hd|(q & Hq & Hlt)].
    + exists (Exit 0). cbn [step]. unfold exit. rewrite Hrun. cbn [lookup list_lookup].
      assert (Hdone : done l (ctx g) = true) by (unfold done; apply bool_decide_eq_true; by left).
      rewrite Hdone, bool_decide_eq_true_2 by done. cbn [andb cancelled state running delete list_delete].
      split_and!; [case_decide; [by apply cancel_subset|done]|done|]. unfold remaining. cbn. lia.
    + exists (Move 0 q). cbn [step]. unfold move. rewrite Hrun. cbn [lookup list_lookup]. rewrite decide_True by done.
      cbn. split_and!; [done|done|]. unfold remaining. cbn. lia.
Qed.

Lemma drain raft l :
  stopped raft l → 0 ∈ cancelled l → ∃ es, running (run l es) = [] ∧ state (run l es) = state l.
Proof.
  remember (remaining (running l)) as n eqn:Hn. revert l Hn.
  induction n as [n IH] using lt_wf_ind. intros l -> Hst Hroot.
  destruct (running l) as [|g rs] eqn:Hrun; [by exists []|].
  destruct (drain_step raft l g rs Hrun Hst Hroot) as (e & Hroot' & Hs & Hlt). rewrite Hrun in Hlt.
  destruct (IH _ Hlt _ eq_refl (stopped_step _ _ e Hst) Hroot') as (es & Hes & Hs'). exists (e :: es).
  split; [exact Hes|]. etrans; [exact Hs'|exact Hs].
Qed.

(** C21. [Stop] waits for its goroutines and can always return: when it has
    returned, no worker, monitor or leadership watcher is left, nor, on a
    standalone node, the call of [Scheduler.Start] or the cron loop; and from
    every state in which it waits the goroutines can go on, each to a place where
    it notices that its context is done, until all have returned and [Stop]
    does. *)
Theorem stop_waits raft workers es :
  let l := run (Start raft workers) es in
  (state l = Closed → ∀ g, g ∈ running l → kept raft (what g) = false) ∧
  (state l = Stopping → ∃ es', state (run l (es' ++ [Wait])) = Closed ∧ running (run l es') = []).
Proof.
  intros l. pose proof (stopped_run raft _ es (stopped_start raft workers)) as Hst. fold l in Hst. split.
  - intros Hc g Hg. assert (Ht : tally (running l) = 0) by (rewrite <-(st_wg _ _ Hst); by apply Hst).
    pose proof (tally_zero _ g Ht Hg). destruct (kept raft (what g)) eqn:Hk; [|done].
    by rewrite (st_kept _ _ Hst g Hg Hk) in *.
  - intros Hs. destruct (drain raft l Hst) as (es' & Hr & Hs'); [apply Hst; by rewrite Hs|].
    exists es'. split; [|done]. pose proof (stopped_run raft l es' Hst) as [_ Hw _ _ _ _]. rewrite Hr in Hw.
    unfold run in *. rewrite foldl_app. cbn [foldl step]. by rewrite Hs', Hs, Hw.
Qed.

(** ** Concrete runs *)

(** Leadership won, lost and won again: the old loops are on their way out. *)
Definition terms : list event := [Notice true; Begin 3; Notice false; Notice true; Begin 9].

Definition dispatchers (l : life) : list nat := ctx <$> filter (λ g, what g = Dispatch ∧ done l (ctx g) = false) (running l).

Lemma one_dispatcher_witness :
  alternating true terms ∧
  ∀ i k g g', running (run (Start true [1%Z]) terms) !! i = Some g → running (run (Start true [1%Z]) terms) !! k = Some g' →
    what g = Dispatch → what g' = Dispatch → done (run (Start true [1%Z]) terms) (ctx g) = false →
    done (run (Start true [1%Z]) terms) (ctx g') = false → i = k.
Proof.
  assert (Ha : alternating true terms) by (vm_compute; tauto). split; [exact Ha|].
  intros i k g g'. exact (one_dispatcher true [1%Z] terms i k g g' Ha).
Defined.

Example terms_dispatchers : dispatchers (run (Start true [1%Z]) terms) = [2].
Proof. vm_compute. reflexivity. Qed.

(** The Raft library delivers only the latest notice to a receiver that was not
    ready: leadership lost and regained during the one-second pause arrives as a
    second [true].  The first context can then no longer be cancelled and two
    dispatchers run, also after the node steps down. *)
Example missed_step_down :
  let l := run (Start true []) [Notice true; Begin 2; Notice true; Begin 8] in
  dispatchers l = [1; 2] ∧ dispatchers (step l (Notice false)) = [1].
Proof. vm_compute. done. Qed.

(** [Stop] is called while the worker executes a job and the node leads. *)
Definition halt : list event :=
  [Notice true; Begin 3; Move 0 Announced; Move 0 Busy; Stop; Wait].

Lemma stop_waits_witness :
  let l := run (Start true [1%Z]) halt in
  state l = Stopping ∧ wg l = 3 ∧ ∃ es', state (run l (es' ++ [Wait])) = Closed ∧ running (run l es') = [].
Proof.
  assert (Hs : state (run (Start true [1%Z]) halt) = Stopping) by (vm_compute; reflexivity).
  assert (Hw : wg (run (Start true [1%Z]) halt) = 3) by (vm_compute; reflexivity).
  split; [exact Hs|]. split; [exact Hw|]. exact (proj2 (stop_waits true [1%Z] halt) Hs).
Defined.

(** The scheduler's loops are not counted: they can outlive [Stop], which has
    closed the store by then. *)
Example loops_outlive_stop :
  let l := run (Start false []) [Begin 1; Stop; Exit 0; Exit 0; Exit 0; Wait] in
  state l = Closed ∧ running l = loops 0.
Proof. vm_compute. done. Qed.

End Lifecycle.
