(* ===== verification/EndToEnd.v ===== *)
(** * The life of a job from submission to its end

    The handlers of the scheduler, of a worker process and of the reporting call
    chained the way the loops run them for one job that is alone on its node: a
    job whose every execution fails is sent out once more than its retries, with
    growing pauses, and ends as a dead letter; a job whose execution succeeds is
    what a client reads as completed. *)

From S2P Require Import Prelude Job Lease Retry Dlq Store Heap Metrics Queue Broker Events GoStrings Json Codec.
From S2P Require Import Config Manager Machine Scheduler Runner Rpc Engine Handlers Server Invariant MemoryStore.
From S2P Require Import System SchedulerSpec EngineSpec ServerSpec.
Import Machine SchedulerSpec.
Local Open Scope Z_scope.

Module EndToEnd.

Section Life.
Context `{GoRange} {T : Type} `{Store.ReliableStore T}.
Implicit Types (st stw : State T) (a : Store.Abs) (w : WorkerClient).

(** ** One execution *)

(** A turn of the dispatch loop, the execution of what it sent in the worker
    process, the report of what the process takes from its result channel, and
    the turn of the result loop for what the control node takes from its own.
    The two states are those of the control node and of the worker process. *)
Definition execution (env : Env) (s : State T * State T) : option (State T * State T) :=
  let '(st, stw) := s in
  match run env Scheduler.dispatchTurn st with
  | (Returned Scheduler.Continue, st1) =>
  match drop (length (sent st)) (sent st1) with
  | [(RemoteWorker id _, j)] =>
  match run env (Rpc.ExecutionSubmitJob (Rpc.submitRequest id j)) stw with
  | (Returned tt, stw1) =>
  match try_recv (results stw1) with
  | Some (r, c) =>
  match run env (Rpc.ReportResult (Rpc.reportRequest id r)) st1 with
  | (Returned true, st2) =>
  match try_recv (results st2) with
  | Some (r', c') =>
  match run env (Scheduler.handleResult r') (set_results st2 c') with
  | (Returned tt, st3) => Some (st3, set_results stw1 c)
  | _ => None
  end | None => None end | _ => None end | None => None end | _ => None end | _ => None end | _ => None end.

(** The delay loop sets its timer, the timer fires, and what is due is
    promoted. *)
Definition promotion (env : Env) st : option (State T) :=
  match run env Scheduler.delayLook st with
  | (Returned (Scheduler.Sleep (Some d)), st1) =>
      match run env (Scheduler.ProcessDelayedJobs (S (length (Queue.items (dq st1)))))
              (set_clock st1 (clock st1 + d)) with
      | (Returned tt, st2) => Some st2
      | _ => None
      end
  | _ => None
  end.

(** An execution in each of the environments, with a promotion between two. *)
Fixpoint life (envs : list Env) (s : State T * State T) : option (State T * State T) :=
  match envs with
  | [] => Some s
  | [env] => execution env s
  | env :: envs =>
      s ← execution env s;
      st ← promotion env s.1;
      life envs (st, s.2)
  end.

(** ** What they need *)

(** The worker process [w] is the one idle worker that can run jobs of the type, it is registered,
    and the result channels have room. *)
Record manned w (ty : string) st stw : Prop := mkManned {
  mn_remote : ∃ id addr, w = RemoteWorker id addr;
  mn_broker : useBroker st = true;
  mn_idle : ∃ pre post k, Manager.Available (manager st) = Chan (pre ++ w :: post) k ∧
    (length (pre ++ w :: post) ≤ k)%nat ∧
    Forall (λ w', Broker.CanHandle (Manager.Broker (manager st)) (WID w') ty = false) (pre ++ post);
  mn_can : Broker.CanHandle (Manager.Broker (manager st)) (WID w) ty = true;
  mn_known : Manager.Get (manager st) (wrap32 (WID w)) = Some w;
  mn_room : buf (results st) = [] ∧ (0 < cap (results st))%nat;
  mn_room' : buf (results stw) = [] ∧ (0 < cap (results stw))%nat
}.

(** The worker takes the job, executes it with outcome [e] and can report. *)
Definition outcome w (j : Job) (env : Env) (e : option exec_error) : Prop :=
  ctx_err env = false ∧ (∀ j', ID j' = ID j → submit env w j' = None) ∧ req_done env = false ∧
  execute env (Rpc.receivedJob (Rpc.submitRequest (WID w) j)) = e.

(** The job is pending and the only one in a queue. *)
Definition alone st (j : Job) : Prop :=
  Store.Get (store st) (ID j) = Some j ∧ JStatus j = Pending ∧
  Queue.items (pq st) = [ID j] ∧ Queue.items (dq st) = [].

Lemma same_workers_trans st1 st2 st3 : same_workers st1 st2 → same_workers st2 st3 → same_workers st1 st3.
Proof. unfold same_workers. intuition congruence. Qed.

Lemma manned_same w ty st stw st' stw' :
  same_workers st st' → results stw' = results stw → manned w ty st stw → manned w ty st' stw'.
Proof. intros (Em & Eb & Er & _) Ew []. constructor; rewrite ?Em, ?Eb, ?Er, ?Ew; done. Qed.

Lemma try_recv_one {A} (c : chan A) x : buf c = [x] → try_recv c = Some (x, Chan [] (cap c)).
Proof. destruct c as [l k]. simpl. by intros ->. Qed.

Lemma Dequeue_one cmp q m id :
  Queue.items q = [id] → ∃ q' m', Queue.Dequeue cmp q m = (Some id, (q', m')) ∧ Queue.items q' = [].
Proof.
  intros E. destruct (Queue.Dequeue_cons cmp q m id [] E) as (r & -> & Hr & _).
  apply Permutation_nil_r in Hr as ->. by eexists _, _.
Qed.

Lemma Enqueue_one env st x id :
  Queue.items (queue st x) = [] →
  ∃ q m, run env (Scheduler.enqueueJob id x) st = (Returned tt, set_queue st x q m) ∧ Queue.items q = [id].
Proof.
  intros E. destruct (run_enqueueJob env id x st) as (q & m & Hrun & Hq). exists q, m. split; [done|].
  rewrite E in Hq. by apply Permutation_singleton_r.
Qed.

(** The dispatch loop sends the job to the worker. *)
Lemma dispatch_sends env w st stw j e :
  manned w (JType j) st stw → alone st j → outcome w j env e →
  ∃ st1 pre post k, run env Scheduler.dispatchTurn st = (Returned Scheduler.Continue, st1) ∧
    sent st1 = sent st ++ [(w, j)] ∧ store st1 = store st ∧ Queue.items (pq st1) = [] ∧ dq st1 = dq st ∧
    clock st1 = clock st ∧ dead st1 = dead st ∧ useBroker st1 = useBroker st ∧ results st1 = results st ∧
    manager st1 = Manager.set_Available (manager st) (Chan (post ++ pre) k) ∧
    (length (pre ++ w :: post) ≤ k)%nat ∧
    Forall (λ w', Broker.CanHandle (Manager.Broker (manager st)) (WID w') (JType j) = false) (pre ++ post).
Proof.
  intros [_ Hb (pre & post & k & Hav & Hlen & Hother) Hcan _ _ _] (Hj & Hp & Hq & _) (Hctx & Hsub & _ & _).
  unfold Scheduler.dispatchTurn. rewrite run_act. cbn [do_act].
  destruct (Dequeue_one (comparator st PQ) (queue st PQ) (metrics st) (ID j) Hq) as (q & m & -> & Hq').
  run_simpl. cbn [store set_queue]. rewrite Hj, Hp. cbn [is_terminal]. change (is_terminal Pending) with false.
  cbv iota. rewrite run_bind. unfold Scheduler.Dispatch. run_simpl. rewrite Hctx. run_simpl.
  unfold selectWorker. cbn [useBroker manager set_queue]. rewrite Hb, Hav.
  apply Forall_app in Hother as Hpre. rewrite Broker.SelectWorker_found by tauto.
  run_simpl. rewrite Hsub by done. run_simpl.
  eexists _, pre, post, k. split; [reflexivity|]. split_and!; done.
Qed.

(** Up to the result loop an execution only moves the job to the worker and the
    outcome back. *)
Lemma execution_runs env w st stw j e :
  manned w (JType j) st stw → alone st j → outcome w j env e →
  ∃ st2 stw', execution env (st, stw) =
      match run env (Scheduler.handleResult (EngineSpec.outcome_of env
              (Rpc.receivedJob (Rpc.submitRequest (WID w) j)))) st2 with
      | (Returned tt, st3) => Some (st3, stw')
      | _ => None
      end ∧
    manned w (JType j) st2 stw' ∧ store st2 = store st ∧ Queue.items (pq st2) = [] ∧ dq st2 = dq st ∧
    clock st2 = clock st ∧ dead st2 = dead st ∧ sent st2 = sent st ++ [(w, j)].
Proof.
  intros Hm Ha He.
  destruct (dispatch_sends env w st stw j e Hm Ha He)
    as (st1 & pre & post & k & Hrun & Hsent & Es & Eq & Ed & Ec & Edead & Eb & Er & Em & Hlen & Hother).
  destruct Hm as [(wid & addr & ->) Hb _ Hcan Hknown [Hr0 Hrc] [Hw0 Hwc]]. destruct He as (_ & _ & Hdone & _).
  unfold execution. rewrite Hrun, Hsent, drop_app_length.
  destruct (EngineSpec.worker_executes env stw (Rpc.submitRequest wid j)) as (stw1 & -> & Hres & _);
    [by rewrite Hw0|]. rewrite Hw0 in Hres. cbn [app] in Hres.
  set (r := EngineSpec.outcome_of env _) in *.
  rewrite (try_recv_one _ r) by (by rewrite Hres). unfold Rpc.ReportResult. run_simpl. rewrite Hdone.
  assert (Hcarry : Rpc.reportedResult (Rpc.reportRequest wid r) = r) by apply EngineSpec.report_carries.
  rewrite Hcarry, Er. rewrite try_send_room by (by rewrite Hr0). run_simpl. cbn [manager set_results].
  change (Rpc.PWorkerId _) with (wrap32 wid). rewrite Em.
  change (Manager.Get (Manager.set_Available _ _) _) with (Manager.Get (manager st) (wrap32 wid)). cbn [WID] in Hknown.
  rewrite Hknown. run_simpl. cbn [results set_results set_manager]. rewrite Hr0. cbn [app].
  rewrite (try_recv_one _ r) by done. eexists _, _. split; [reflexivity|]. split; [|split_and!; done].
  rewrite length_app in Hlen. simpl in Hlen.
  constructor; cbn [useBroker manager results set_results set_manager]; unfold Manager.MakeAvailable; rewrite ?Em, ?Hres; simpl; auto.
  - by eexists _, _.
  - by rewrite Eb.
  - exists (post ++ pre), [], k.
    rewrite try_send_room by (simpl; rewrite length_app; lia). simpl.
    rewrite !length_app, app_nil_r. simpl. split_and!; [done|lia|by rewrite Permutation_app_comm].
Qed.

(** ** A failed execution with retries left *)

Definition pause (k : Z) : Duration := Z.min Minute (2 ^ k * Second).

(** The timer of the only delayed job fires. *)
Lemma promotion_runs env st a j :
  Store.rel (store st) a → Store.jobs a !! ID j = Some j → JStatus j = Scheduled →
  Queue.items (pq st) = [] → Queue.items (dq st) = [ID j] →
  clock st < NextRunAt j → NextRunAt j - clock st ≤ maxInt64 →
  ∃ st' a', promotion env st = Some st' ∧ Store.rel (store st') a' ∧
    alone st' (with_status j Pending) ∧ clock st' = NextRunAt j ∧ same_workers st st'.
Proof.
  intros Hr Hj Hs Hp Hd Hlt Hle. unfold promotion, Scheduler.delayLook. rewrite run_act. cbn [do_act].
  unfold Queue.Peek, queue. rewrite Hd. cbn [head]. run_simpl. rewrite (Store.Get_spec _ _ _ Hr), Hj. run_simpl.
  rewrite Z.min_l by lia. destruct (Z.leb_spec (NextRunAt j - clock st) 0); [lia|]. run_simpl.
  replace (clock st + (NextRunAt j - clock st)) with (NextRunAt j) by lia. rewrite Hd. cbn [length].
  set (st0 := set_clock st (NextRunAt j)). cbn [Scheduler.ProcessDelayedJobs]. rewrite run_bind.
  unfold Scheduler.delayedTurn at 1. rewrite run_act. cbn [do_act]. unfold Queue.Peek, queue.
  change (Queue.items (dq st0)) with (Queue.items (dq st)). rewrite Hd. cbn [head]. run_simpl.
  change (store st0) with (store st). rewrite (Store.Get_spec _ _ _ Hr), Hj. run_simpl.
  change (clock st0) with (NextRunAt j). rewrite Z.ltb_irrefl. run_simpl.
  destruct (Dequeue_one (comparator st0 DQ) (queue st0 DQ) (metrics st0) (ID j) Hd) as (q & m & -> & Hq).
  run_simpl. change (store (set_queue st0 DQ q m)) with (store st).
  destruct (update_valid (store st) a (with_status j Pending) j Hr Hj) as (s' & -> & Hr'); [by rewrite Hs|].
  rewrite run_bind. set (st1 := set_store (set_queue st0 DQ q m) s').
  destruct (Enqueue_one env st1 PQ (ID j) Hp) as (q' & m' & -> & Hq'). run_simpl.
  rewrite run_bind. unfold Scheduler.delayedTurn. rewrite run_act. cbn [do_act]. unfold Queue.Peek.
  cbn [queue dq set_queue st1 set_store]. rewrite Hq. run_simpl.
  eexists _, _. split; [reflexivity|]. split; [exact Hr'|]. split; [|done].
  split_and!; [|done|done|done]. rewrite (Store.Get_spec _ _ _ Hr'). simpl. apply lookup_insert_eq.
Qed.

(** The failure is handled, its pause passes, and the job is queued again. *)
Lemma failing_round env w st stw a j e :
  manned w (JType j) st stw → alone st j → outcome w j env (Some e) → Store.rel (store st) a →
  0 ≤ RetryCount j < MaxRetries j → RetryCount j ≤ 32 →
  let j' := with_status (retried j (exec_text e) (clock st)) Pending in
  ∃ st1 stw' st' a', execution env (st, stw) = Some (st1, stw') ∧ promotion env st1 = Some st' ∧
    manned w (JType j) st' stw' ∧ alone st' j' ∧ Store.rel (store st') a' ∧
    clock st' = clock st + pause (RetryCount j + 1) ∧ sent st' = sent st ++ [(w, j)].
Proof.
  intros Hm Ha He Hr Hrc Hle j'. destruct (execution_runs env w st stw j (Some e) Hm Ha He)
    as (st2 & stw' & -> & Hm2 & Es & Ep & Ed & Ec & _ & Esent).
  destruct Ha as (Hj & Hp & _ & Hd). destruct He as (_ & _ & _ & He).
  set (r := EngineSpec.outcome_of env _). assert (Hres : r = mkResult (ID j) false (Some (exec_text e)) 0)
    by (unfold r, EngineSpec.outcome_of; by rewrite He). rewrite <-Es in Hr, Hj.
  rewrite (Store.Get_spec _ _ _ Hr) in Hj. rewrite Hres.
  destruct (run_retry env st2 a (mkResult (ID j) false (Some (exec_text e)) 0) j (exec_text e) Hr Hj
    ltac:(by destruct (Lease.Get _ _)) eq_refl eq_refl Hp Hrc Hle)
    as (st3 & -> & Hr3 & Hq3 & _ & _ & (Hw3 & _ & _ & Hp3) & Hc3 & _).
  cbn [RJobID] in *. rewrite Ed, Hd, Ec in *. apply Permutation_singleton_r in Hq3.
  assert (Hpos : 0 < 2 ^ (RetryCount j + 1)) by (apply Z.pow_pos_nonneg; lia).
  destruct (promotion_runs env st3 _ (retried j (exec_text e) (clock st)) Hr3)
    as (st' & a' & Hprom & Hr' & Ha' & Hc' & Hw'); [| | | | | |].
  - simpl. apply lookup_insert_eq.
  - done.
  - by rewrite Hp3.
  - done.
  - rewrite Hc3. simpl. unfold Minute, Second. lia.
  - rewrite Hc3. simpl. unfold Minute, maxInt64, Second. lia.
  - exists st3, stw', st', a'. split; [done|]. split; [done|]. split; [|split; [done|split; [done|split]]].
    + eapply (manned_same w (JType j) st2 stw'); [by eapply same_workers_trans|done|done].
    + by rewrite Hc'.
    + destruct Hw3 as (_ & _ & _ & E3), Hw' as (_ & _ & _ & E'). by rewrite E', E3.
Qed.

(** ** All executions *)

(** The pauses before the next [n] executions after [k] failures. *)
Fixpoint total (k : Z) (n : nat) : Duration :=
  match n with
  | 0%nat => 0
  | S n => pause (k + 1) + total (k + 1) n
  end.

(** The job after its last failure, which came at the end of [js]: what was sent
    out before. *)
Definition ended st st' w (j : Job) (n : nat) (msg : string) : Prop :=
  ∃ js d,
    length js = S n ∧ sent st' = sent st ++ ((λ j', (w, j')) <$> js) ∧
    (∀ k j', js !! k = Some j' → ID j' = ID j ∧ RetryCount j' = RetryCount j + Z.of_nat k) ∧
    Store.Get (store st') (ID j) = Some d ∧ ID d = ID j ∧ JStatus d = Failed ∧
    RetryCount d = RetryCount j + Z.of_nat n ∧ LastError d = msg ∧
    (∀ l, Store.ListDLQ (store st') = (l, None) → d ∈ l) ∧ Dlq.Get (dead st') (ID j) = Some d ∧
    Queue.items (pq st') = [] ∧ Queue.items (dq st') = [] ∧ Lease.Get (leases st') (ID j) = None.

(** The last execution. *)
Lemma last_failure env w st stw a j e :
  manned w (JType j) st stw → alone st j → outcome w j env (Some e) → Store.rel (store st) a →
  MaxRetries j ≤ RetryCount j →
  ∃ st' stw', execution env (st, stw) = Some (st', stw') ∧ manned w (JType j) st' stw' ∧
    clock st' = clock st ∧ ended st st' w j 0 (exec_text e).
Proof.
  intros Hm Ha He Hr Hrc. destruct (execution_runs env w st stw j (Some e) Hm Ha He)
    as (st2 & stw' & -> & Hm2 & Es & Ep & Ed & Ec & _ & Esent).
  destruct Ha as (Hj & Hp & _ & Hd). destruct He as (_ & _ & _ & He).
  set (r := EngineSpec.outcome_of env _). assert (Hres : r = mkResult (ID j) false (Some (exec_text e)) 0)
    by (unfold r, EngineSpec.outcome_of; by rewrite He). rewrite <-Es in Hr, Hj.
  rewrite (Store.Get_spec _ _ _ Hr) in Hj. rewrite Hres.
  destruct (run_exhausted env st2 a (mkResult (ID j) false (Some (exec_text e)) 0) j (exec_text e) Hr Hj
    ltac:(by destruct (Lease.Get _ _)) eq_refl eq_refl Hp Hrc)
    as (st3 & -> & Hg & Hl & Hdlq & Hlease & Hdq & (Hw3 & Hc3 & _ & Hp3)). cbn [RJobID] in *.
  exists st3, stw'. split; [done|]. split; [by eapply manned_same|]. split; [congruence|].
  exists [j]. eexists. split; [done|]. split; [destruct Hw3 as (_ & _ & _ & ->); exact Esent|]. split.
  { intros [|k] j' E; simplify_eq/=. split; [done|lia]. }
  split; [exact Hg|]. simpl. split_and!; try done; [lia|by rewrite Hp3|by rewrite Hdq, Ed].
Qed.

Lemma ended_step st st1 st' w j j' n msg :
  sent st1 = sent st ++ [(w, j)] → ID j' = ID j → RetryCount j' = RetryCount j + 1 →
  ended st1 st' w j' n msg → ended st st' w j (S n) msg.
Proof.
  intros Hs HID Hrc (js & d & Hlen & Hsent & Hjs & Hd). exists (j :: js), d. rewrite HID, Hrc in *.
  split; [simpl; lia|]. split; [rewrite Hsent, Hs, <-app_assoc; done|]. split.
  { intros [|k] x E; simplify_eq/=; [split; [done|lia]|]. destruct (Hjs k x E). split; [done|lia]. }
  destruct Hd as (? & ? & ? & ? & ?). split; [done|]. split; [done|]. split; [done|]. split; [lia|done].
Qed.

Lemma life_run w envs es st stw a j :
  Forall2 (λ env e, outcome w j env (Some e)) envs es →
  manned w (JType j) st stw → alone st j → Store.rel (store st) a → 0 ≤ RetryCount j →
  RetryCount j + Z.of_nat (length es) = MaxRetries j + 1 → MaxRetries j ≤ 33 → es ≠ [] →
  ∃ st' stw' n e, life envs (st, stw) = Some (st', stw') ∧ length es = S n ∧ last es = Some e ∧
    manned w (JType j) st' stw' ∧ clock st' = clock st + total (RetryCount j) n ∧
    ended st st' w j n (exec_text e).
Proof.
  intros Hes. revert st stw a j Hes. revert es. induction envs as [|env envs IH];
    intros es st stw a j Hes Hm Ha Hr Hrc Hlen Hmax Hne; [by inversion Hes; subst|].
  inversion Hes as [|? e ? es' He Hes']; subst. clear Hes Hne. destruct envs as [|env' envs].
  - inversion Hes'; subst. simpl in Hlen.
    destruct (last_failure env w st stw a j e Hm Ha He Hr) as (st' & stw' & Hx & Hm' & Hc & Hend); [lia|].
    exists st', stw', 0%nat, e. split_and!; [done|done|done|done|simpl; lia|done].
  - assert (Hes0 : es' ≠ []) by (by inversion Hes'). simpl in Hlen.
    assert (Hl : (0 < length es')%nat) by (destruct es'; [done|simpl; lia]).
    destruct (failing_round env w st stw a j e Hm Ha He Hr)
      as (st1 & stw1 & st2 & a2 & Hx & Hpr & Hm2 & Ha2 & Hr2 & Hc2 & Hs2); [lia..|].
    destruct (IH es' st2 stw1 a2 (with_status (retried j (exec_text e) (clock st)) Pending))
      as (st' & stw' & n & e' & Hlife & Hn & Hlast & Hm' & Hc' & Hend); try done; [simpl; lia..|].
    exists st', stw', (S n), e'. split.
    { cbn [life]. rewrite Hx. cbn [mbind option_bind fst snd]. rewrite Hpr. exact Hlife. }
    split; [simpl; lia|]. split; [destruct es'; [done|exact Hlast]|]. split; [done|]. split.
    + rewrite Hc', Hc2. simpl. lia.
    + exact (ended_step st st2 st' w j (with_status (retried j (exec_text e) (clock st)) Pending) n _ Hs2 eq_refl eq_refl Hend).
Qed.

End Life.

(** A job with the default of three retries is given up 14 seconds after its
    first failure, when no time passes elsewhere. *)
Example default_pauses : total 0 3 = 14 * Second.
Proof. reflexivity. Qed.

(** ** From a submission to the answer that the job is done *)

Section Success.
Context `{GoRange} {T : Type} `{Store.ReliableStore T}.
Context (located : Time → Z) (nilJobs : bool) (ui_file : string → Handlers.Response)
  (metrics_page : Handlers.Response) (mux_redirect : Z).
Import Handlers Server ServerSpec.

#[local] Abbreviation serve := (Server.serve located nilJobs ui_file metrics_page mux_redirect).

(** C28. A submitted job that succeeds is read as completed: on a standalone node
    whose store works, whose next id is free and whose queues are empty, a POST
    without [run_at] and with a new key or none is answered 201; the dispatch loop sends the
    job to the idle worker process that can run it, whose execution succeeds;
    once its report is handled, the job is in no queue and not leased, and a GET
    for the id is answered 200 with the job that was submitted, completed. *)
Theorem completed_job_life env cfg n drawn drawn' r r' req w (st stw : State T) a :
  Codec.zones_ok located → raft st = false → submitMu st = false → Store.rel (store st) a →
  immediate r req → admitted cfg submitters (clock st) r = true →
  ReqKey req = "" ∨ Store.idem a !! ReqKey req = None → in_int64 (ReqPriority req) →
  0 ≤ nextJobID st → in_int64 (nextJobID st + 1) → Store.jobs a !! (nextJobID st + 1) = None →
  Method r' = MethodGet → Path r' = "/jobs/" +:+ GoStrings.Itoa (nextJobID st + 1) →
  admitted cfg viewers (clock st) r' = true →
  Queue.items (pq st) = [] → Queue.items (dq st) = [] → manned w (ReqType req) st stw →
  let j := with_key (NewJob (nextJobID st + 1) (ReqType req) (ReqPriority req)) (ReqKey req) in
  outcome w j env None →
  ∃ st1 st2 stw' body,
    run env (serve cfg n drawn r) st =
      (Returned (response_id drawn r, respond StatusCreated (Some (submittedResponse j))), st1) ∧
    execution env (st1, stw) = Some (st2, stw') ∧ sent st2 = sent st ++ [(w, j)] ∧
    Queue.items (pq st2) = [] ∧ Queue.items (dq st2) = [] ∧ Lease.Get (leases st2) (ID j) = None ∧
    run env (serve cfg n drawn' r') st2 =
      (Returned (response_id drawn' r', mkResponse StatusOK "application/json" "" body), st2) ∧
    Codec.Decode body = Some (Codec.clean (with_status j Completed)).
Proof.
  intros Hz Hraft Hmu Hr Hi Ha Hk Hp Hpos Hn Hf Hm Hpath Ha' Hpq Hdq Hman j He.
  destruct (EngineSpec.submit_new env st a (ReqKey req) (ReqType req) (ReqPriority req) Hraft Hmu Hr
    Hk Hn Hf) as (st1 & Hrun & Hr1 & Hq1 & Hd1 & _ & Hc1 & _ & Hw1). fold j in Hrun, Hr1, Hq1.
  pose proof (EngineSpec.get_added _ a j Hf Hr1) as Hget. rewrite Store.norm_job_id in Hget.
  rewrite Hpq in Hq1. apply Permutation_singleton_r in Hq1.
  destruct (execution_runs env w st1 stw j None) as (st2 & stw' & Hx & _ & Es & Ep & Ed & Ec & _ & Esent).
  { by eapply (manned_same w (ReqType req) st stw). }
  { split_and!; [exact Hget|done|done|by rewrite Hd1]. }
  { done. }
  destruct He as (_ & _ & _ & Hex).
  assert (Hok : EngineSpec.outcome_of env (Rpc.receivedJob (Rpc.submitRequest (WID w) j)) = mkResult (ID j) true None 0)
    by (unfold EngineSpec.outcome_of; by rewrite Hex). rewrite Hok in Hx.
  rewrite <-Es in Hr1, Hget.
  destruct (result_success env st2 _ (mkResult (ID j) true None 0) j Hr1)
    as (st3 & Hrun3 & Hr3 & Hl3 & Hd3 & _ & Hc3 & (Hw3 & _ & _ & Hp3));
    [rewrite <-(Store.Get_spec _ _ _ Hr1); exact Hget|by destruct (Lease.Get _ _)|done|done|].
  rewrite Hrun3 in Hx.
  assert (Hg3 : Store.Get (store st3) (ID (with_status j Completed)) = Some (with_status j Completed))
    by (rewrite (Store.Get_spec _ _ _ Hr3); apply lookup_insert_eq).
  assert (Hints : Codec.ints_ok (with_status j Completed)) by (split_and!; [done|done|by vm_compute..]).
  assert (Hpos' : 0 ≤ ID (with_status j Completed)) by (change (0 ≤ nextJobID st + 1); lia).
  rewrite <-Hc1, <-Ec, <-Hc3 in Ha'.
  destruct (run_get located nilJobs ui_file metrics_page mux_redirect env cfg n drawn' r' st3
    (with_status j Completed) Hz Hints Hpos' eq_refl Hg3 Hm Hpath Ha') as (body & Hbody & Hdec).
  exists st1, st3, stw', body. split_and!; [|exact Hx| | | |exact Hl3|exact Hbody|exact Hdec].
  - by apply (run_immediate located nilJobs ui_file metrics_page mux_redirect env cfg n drawn r req st j false).
  - destruct Hw3 as (_ & _ & _ & ->), Hw1 as (_ & _ & _ & <-). exact Esent.
  - by rewrite Hp3.
  - by rewrite Hd3, Ed, Hd1.
Qed.
End Success.

(** ** On a node with the in-memory store *)
Section Witnesses.
Import System.
#[local] Existing Instance canonical_range.

(** A control node without workers of its own at which worker process 7 has
    registered, and the state of that process. *)
Definition bare : State MemoryStore.MemoryStore :=
  set_manager boot Manager.NewManager.
Definition remote : WorkerClient := RemoteWorker 7 "w:1".
Definition hired : State MemoryStore.MemoryStore :=
  (run quiet (Rpc.RegisterWorker 7 "w:1" ["*"]) bare).2.
Definition asked : State MemoryStore.MemoryStore :=
  (run quiet (Engine.SubmitJobWithContext "email" 5) hired).2.

Definition broken (msg : string) : Env :=
  mkEnv (λ _ _, None) (λ _, Some (ExecFailed msg)) (λ _ _, None) false false 0 false (λ _, 0) (λ _, None) "1" "".

Lemma hired_manned ty st :
  manager st = manager hired → useBroker st = true → results st = results hired → manned remote ty st boot.
Proof.
  intros Em Eb Er. constructor; rewrite ?Em, ?Er; [by eexists _, _|done| |vm_compute; reflexivity|vm_compute; reflexivity| |].
  - exists [], [], 100%nat. split; [vm_compute; reflexivity|]. split; [simpl; lia|constructor].
  - split; [vm_compute; reflexivity|vm_compute; lia].
  - split; [vm_compute; reflexivity|vm_compute; lia].
Qed.

Lemma asked_rel : Store.rel (store asked) (MemoryStore.abs (store asked)).
Proof.
  assert (E : store asked = (Store.Add MemoryStore.NewMemoryStore (NewJob 1 "email" 5)).1)
    by (vm_compute; reflexivity).
  rewrite E. destruct (Store.exec_strict MemoryStore.NewMemoryStore Store.empty
    (Store.OAdd (NewJob 1 "email" 5))) as [_ [Hi _]].
  - split; [apply MemoryStore.inv_new|reflexivity].
  - split; [exact Hi|reflexivity].
Qed.


Import Handlers ServerSpec.

Lemma completed_job_life_witness :
  ∃ st2 body, run quiet (Server.serve utc false (λ _, Server.page) Server.page 301 open_cfg 0 "b"
      (mkRequest "GET" "/jobs/1" "" "" "" [])) st2 =
    (Returned ("b", mkResponse 200 "application/json" "" body), st2) ∧
    (JStatus <$> Codec.Decode body) = Some Completed.
Proof.
  destruct (completed_job_life utc false (λ _, Server.page) Server.page 301 quiet open_cfg 0 "a" "b"
    (keyed "email" 5) (mkRequest "GET" "/jobs/1" "" "" "" []) (mkSubmit "email" 5 "" "k9") remote hired boot
    Store.empty)
    as (st1 & st2 & stw' & body & _ & _ & _ & _ & _ & _ & Hget & Hdec);
    [intros t; done|vm_compute; reflexivity|vm_compute; reflexivity| | |vm_compute; reflexivity|
     right; vm_compute; reflexivity|vm_compute; split; congruence|vm_compute; congruence|vm_compute; split; congruence|
     vm_compute; reflexivity|reflexivity|vm_compute; reflexivity|vm_compute; reflexivity|
     vm_compute; reflexivity|vm_compute; reflexivity| |done|].
  - assert (store hired = MemoryStore.NewMemoryStore) as -> by (vm_compute; reflexivity).
    split; [apply MemoryStore.inv_new|reflexivity].
  - apply keyed_immediate; [vm_compute; reflexivity|done|lia].
  - apply hired_manned; vm_compute; reflexivity.
  - exists st2, body. split; [exact Hget|]. rewrite Hdec. reflexivity.
Defined.
End Witnesses.

End EndToEnd.
