(* ===== verification/Js.v ===== *)
(** * The JavaScript the dashboard uses

    Values as [JSON.parse] makes them, the coercions of templates and of [||],
    property access and the methods of arrays, strings and objects that
    [cmd/server/web/app.js] calls.  [None] is a thrown [TypeError].  Strings are
    their UTF-8 bytes; how an engine prints a number that is not a safe integer,
    lowers letters and shows a time in the user's locale is a parameter. *)

From S2P Require Import Prelude GoStrings Utf8 Json GoTime Codec.
From stdpp Require Import sorting.
From Stdlib Require Import Ascii.
Local Open Scope Z_scope.

Module Js.

Inductive value :=
  | Undefined
  | Null
  | Bool (b : bool)
  | Number (lit : list ascii)
  | Str (s : string)
  | Array (l : list value)
  | Object (l : list (string * value)).

(** What depends on the engine and the locale: the text of a number literal that
    is not a safe integer and whether it is zero, [toLowerCase], and
    [new Date(x).toLocaleTimeString()]. *)
Class Engine := {
  number_text : list ascii → string;
  number_zero : list ascii → bool;
  toLowerCase : string → string;
  localeTime : value → string
}.

(** ** Reading JSON *)

(** [JSON.parse] on a parsed text: an escaped string becomes its characters. *)
Fixpoint of_json (j : Json.json) : option value :=
  match j with
  | Json.JNull => Some Null
  | Json.JBool b => Some (Bool b)
  | Json.JNum lit => Some (Number lit)
  | Json.JStr raw => s ← Json.unquote raw; Some (Str (GoStrings.of_bytes s))
  | Json.JArr l =>
      vs ← (fix go l := match l with
                        | [] => Some []
                        | j :: l => v ← of_json j; vs ← go l; Some (v :: vs)
                        end) l;
      Some (Array vs)
  | Json.JObj l =>
      vs ← (fix go l := match l with
                        | [] => Some []
                        | (k, j) :: l =>
                            k ← Json.unquote k; v ← of_json j; vs ← go l; Some ((GoStrings.of_bytes k, v) :: vs)
                        end) l;
      Some (Object vs)
  end.

(** [Response.json()]: [None] rejects the promise. *)
Definition json (body : list ascii) : option value := j ← Json.parse body; of_json j.

(** ** Coercions *)

Definition maxSafeInteger : Z := 9007199254740991.

Definition safe (lit : list ascii) : option Z :=
  z ← GoStrings.Atoi (GoStrings.of_bytes lit);
  if decide (Z.abs z ≤ maxSafeInteger) then Some z else None.

Section Coerce.
Context `{Engine}.

Definition truthy (v : value) : bool :=
  match v with
  | Undefined | Null => false
  | Bool b => b
  | Number lit => match safe lit with Some z => negb (z =? 0) | None => negb (number_zero lit) end
  | Str s => bool_decide (s ≠ "")
  | Array _ | Object _ => true
  end.

(** [a || b] of two values. *)
Definition or (a b : value) : value := if truthy a then a else b.

(** The bindings of an object: a repeated name keeps its place and takes the
    last value. *)
Fixpoint lookup (l : list (string * value)) (k : string) : option value :=
  match l with
  | [] => None
  | (k', v) :: l => match lookup l k with Some w => Some w | None => if decide (k' = k) then Some v else None end
  end.

(** [String(v)]; an object converts through its own [toString], which a parsed
    one can only hide. *)
Fixpoint toString (v : value) : option string :=
  match v with
  | Undefined => Some "undefined"
  | Null => Some "null"
  | Bool b => Some (if b then "true" else "false")
  | Number lit => Some (match safe lit with Some z => GoStrings.Itoa z | None => number_text lit end)
  | Str s => Some s
  | Array l =>
      (fix go l := match l with
                   | [] => Some ""
                   | v :: l =>
                       s ← match v with Undefined | Null => Some "" | _ => toString v end;
                       r ← go l;
                       Some (match l with [] => s | _ => s +:+ "," +:+ r end)
                   end) l
  | Object l => match lookup l "toString" with Some _ => None | None => Some "[object Object]" end
  end.

(** [new Date(v).toLocaleTimeString()]; a composite value is converted first. *)
Definition dateText (v : value) : option string :=
  match v with
  | Array _ | Object _ => s ← toString v; Some (localeTime (Str s))
  | _ => Some (localeTime v)
  end.

(** ** Properties and methods *)

Definition get (v : value) (k : string) : option value :=
  match v with
  | Undefined | Null => None
  | Object l => Some (default Undefined (lookup l k))
  | _ => Some Undefined
  end.

(** The array behind [forEach], [filter] and [join]. *)
Definition elements (v : value) : option (list value) := match v with Array l => Some l | _ => None end.

(** [v.length === 0]. *)
Definition is_empty (v : value) : option bool :=
  match v with
  | Undefined | Null => None
  | Array l => Some (bool_decide (l = []))
  | Str s => Some (bool_decide (s = ""))
  | Object l =>
      Some (match lookup l "length" with
            | Some (Number lit) => match safe lit with Some z => z =? 0 | None => number_zero lit end
            | _ => false
            end)
  | _ => Some false
  end.

(** The names of an object in the order of [Object.keys]: array indices
    ascending, then the others as they came. *)
Definition index_key (k : string) : option Z :=
  z ← GoStrings.Atoi k;
  if decide (0 ≤ z < 4294967295 ∧ GoStrings.Itoa z = k) then Some z else None.

Definition keys (l : list (string * value)) : list string :=
  let names := rev (remove_dups (rev l.*1)) in
  (GoStrings.Itoa <$> merge_sort Z.le (omap index_key names)) ++ filter (λ k, index_key k = None) names.

(** The UTF-16 units of a string. *)
Definition units (s : string) : Z :=
  foldr Z.add 0 ((λ c, match c with Some r => if r <? 65536 then 1 else 2 | None => 1 end)
                 <$> Utf8.chunks (GoStrings.to_bytes s)).

(** [Object.keys] of a value that is neither undefined nor null. *)
Definition ownKeys (v : value) : list string :=
  match v with
  | Object l => keys l
  | Array l => GoStrings.Itoa <$> seqZ 0 (Z.of_nat (length l))
  | Str s => GoStrings.Itoa <$> seqZ 0 (units s)
  | _ => []
  end.

(** [v[k]] for one of its keys; the characters of a string have no properties
    the page reads. *)
Definition item (v : value) (k : string) : value :=
  match v with
  | Object l => default Undefined (lookup l k)
  | Array l => default Undefined (z ← GoStrings.Atoi k; l !! Z.to_nat z)
  | Str _ => Str ""
  | _ => Undefined
  end.

(** [Array.prototype.join]. *)
Fixpoint join (sep : string) (l : list value) : option string :=
  match l with
  | [] => Some ""
  | v :: l =>
      s ← match v with Undefined | Null => Some "" | _ => toString v end;
      r ← join sep l;
      Some (match l with [] => s | _ => s +:+ sep +:+ r end)
  end.
End Coerce.

(** [String.prototype.includes]. *)
Definition includes (hay needle : string) : bool :=
  let fix go (l : list ascii) : bool :=
    bool_decide (GoStrings.to_bytes needle `prefix_of` l) ||
    match l with [] => false | _ :: l => go l end in
  go (GoStrings.to_bytes hay).

(** ** What the server's encoder writes, read by the script *)

Lemma of_json_arr l : of_json (Json.JArr l) = Array <$> mapM of_json l.
Proof.
  cbn [of_json]. match goal with |- (?f l ≫= _) = _ => assert (Hf : f l = mapM of_json l) end.
  { induction l as [|j l IH]; [done|]. rewrite IH. done. }
  rewrite Hf. by destruct (mapM of_json l).
Qed.

Definition member (f : list ascii * Json.json) : option (string * value) :=
  k ← Json.unquote f.1; v ← of_json f.2; Some (GoStrings.of_bytes k, v).

Lemma of_json_obj l : of_json (Json.JObj l) = Object <$> mapM member l.
Proof.
  cbn [of_json]. match goal with |- (?f l ≫= _) = _ => assert (Hf : f l = mapM member l) end.
  { induction l as [|[k j] l IH]; [done|]. rewrite IH. cbn [mapM].
    change (member (k, j)) with (k ← Json.unquote k; v ← of_json j; Some (GoStrings.of_bytes k, v)).
    destruct (Json.unquote k) as [k'|]; [|done]. cbn [mbind option_bind].
    by destruct (of_json j) as [v|]. }
  rewrite Hf. by destruct (mapM member l).
Qed.

Lemma of_json_fields l vs :
  Forall2 (λ f x, Json.unquote f.1 = Some f.1 ∧ GoStrings.of_bytes f.1 = x.1 ∧ of_json f.2 = Some x.2) l vs →
  of_json (Json.JObj l) = Some (Object vs).
Proof.
  intros Hl. rewrite of_json_obj. apply fmap_Some. exists vs. split; [|done]. apply mapM_Some.
  eapply Forall2_impl; [exact Hl|]. intros [k j] [x v] (H1 & H2 & H3). cbn [fst snd] in *.
  unfold member. cbn [fst snd]. rewrite H1. cbn [mbind option_bind]. rewrite H3. cbn [mbind option_bind]. by rewrite H2.
Qed.

Lemma of_json_jint z : of_json (Codec.jint z) = Some (Number (GoStrings.to_bytes (GoStrings.Itoa z))).
Proof. done. Qed.

Lemma of_json_jstring s : of_json (Codec.jstring s) = Some (Str (Utf8.Sanitize s)).
Proof. unfold Codec.jstring. cbn [of_json]. by rewrite Json.unquote_quote. Qed.

Lemma of_json_jtime off t v : Codec.jtime off t = Some v → ∃ s, of_json v = Some (Str s).
Proof.
  intros (l & Hl & ->)%fmap_Some. destruct (GoTime.plain_unquotes l) as [s Hs].
  { by eapply GoTime.marshal_plain. }
  exists (GoStrings.of_bytes s). cbn [of_json]. by rewrite Hs.
Qed.

(** Reading a property of an object with distinct names. *)
Lemma get_here k v l : lookup l k = None → get (Object ((k, v) :: l)) k = Some v.
Proof. intros Hl. cbn [get lookup]. by rewrite Hl, decide_True. Qed.

Lemma get_next k k' v l : k' ≠ k → get (Object ((k', v) :: l)) k = get (Object l) k.
Proof. intros Hk. cbn [get lookup]. destruct (lookup l k); [done|]. by rewrite decide_False. Qed.

(** The text of an integer the server wrote. *)
Definition digits `{Engine} (z : Z) : string :=
  match safe (GoStrings.to_bytes (GoStrings.Itoa z)) with
  | Some z => GoStrings.Itoa z
  | None => number_text (GoStrings.to_bytes (GoStrings.Itoa z))
  end.

Lemma safe_Itoa z : Z.abs z ≤ maxSafeInteger → safe (GoStrings.to_bytes (GoStrings.Itoa z)) = Some z.
Proof.
  unfold maxSafeInteger. intros Hz. unfold safe. rewrite Codec.of_bytes_str, GoStrings.Atoi_Itoa.
  - cbn [mbind option_bind]. by rewrite decide_True.
  - unfold in_int64, minInt64, maxInt64. lia.
Qed.

Lemma digits_safe `{Engine} z : Z.abs z ≤ maxSafeInteger → digits z = GoStrings.Itoa z.
Proof. intros Hz. unfold digits. by rewrite safe_Itoa. Qed.

End Js.
