(* ===== verification/Dashboard.v ===== *)
(** * The dashboard: [cmd/server/web/app.js] on [cmd/server/web/index.html]

    The script that polls the node's API and fills the page.  A function of the
    script is a program over the page that may throw; what it changed before it
    throws stays.  The values are those [JSON.parse] makes of the bodies of the
    server's responses, so the theorems run from the store of a node to the text
    a user reads. *)

From S2P Require Import Prelude Job Store MemoryStore Metrics GoStrings Utf8 Json GoTime Codec Config Manager Broker.
From S2P Require Import Machine Engine Handlers Server Invariant System ServerSpec Float64 Js.
From Stdlib Require Import Ascii.
Local Open Scope Z_scope.

Module Dashboard.
Import Js.

(** ** The page *)

Inductive content := Text (s : string) | Html (s : string).

(** The elements the script writes to by id, the values of the two controls of
    the job console (none without the element), and the event log. *)
Record page := mkPage {
  element : gmap string content;
  search : option string;
  statusFilter : option string;
  log : list string   (** the lines added to the event log *)
}.

(** The ids of [index.html] the script writes to. *)
Definition ids : list string :=
  ["nav-leader-id"; "ov-leader-node"; "ov-raft-term"; "ov-active-workers"; "ov-dead-workers";
   "ov-active-leases"; "ov-pending-jobs"; "ov-completed-jobs"; "ov-failed-jobs"; "ov-cancelled-jobs";
   "reconstruct-pending-val"; "leases-table"; "nodes-list-table"; "cron-list-table";
   "job-console-table"; "prometheus-raw"].

(** The elements of [index.html] as they are loaded. *)
Definition nav_leader : list (string * content) := [("nav-leader-id", Text "Leader: node-1 (Term 1)")].
Definition ov_leader : list (string * content) := [("ov-leader-node", Text "node-1"); ("ov-raft-term", Text "1")].
Definition ov_workers : list (string * content) := [("ov-active-workers", Text "0"); ("ov-dead-workers", Text "0")].
Definition ov_leases : list (string * content) := [("ov-active-leases", Text "0")].
Definition ov_jobs : list (string * content) :=
  [("ov-pending-jobs", Text "0"); ("ov-completed-jobs", Text "0"); ("ov-failed-jobs", Text "0");
   ("ov-cancelled-jobs", Text "0")].
Definition nodes_table : list (string * content) := [("nodes-list-table", Html "")].
Definition leases_table : list (string * content) := [("leases-table", Html "")].
Definition reconstruct_val : list (string * content) := [("reconstruct-pending-val", Text "Scanning O(k)...")].
Definition cron_table : list (string * content) := [("cron-list-table", Html "")].
Definition console_table : list (string * content) := [("job-console-table", Html "")].
Definition prometheus_raw : list (string * content) := [("prometheus-raw", Text "")].

(** The search box and the selected option of the status filter. *)
Definition console_search : string := "".
Definition console_filter : string := "ALL".

Definition index_page : page :=
  mkPage (list_to_map
    (nav_leader ++ ov_leader ++ ov_workers ++ ov_leases ++ ov_jobs ++ reconstruct_val ++ leases_table ++
     nodes_table ++ cron_table ++ console_table ++ prometheus_raw))
    (Some console_search) (Some console_filter) [].

(** A page that has them. *)
Definition complete (p : page) : Prop := ∀ id, id ∈ ids → is_Some (element p !! id).

(** ** Programs over the page *)

Definition script (A : Type) : Type := page → page * option A.

#[export] Instance script_ret : MRet script := λ A x p, (p, Some x).
#[export] Instance script_bind : MBind script := λ A B f m p,
  match m p with
  | (p, Some x) => f x p
  | (p, None) => (p, None)
  end.

Definition lift {A} (o : option A) : script A := λ p, (p, o).

(** [document.getElementById(id)] and an assignment to the element, which throws
    when there is none. *)
Definition present (id : string) : script bool := λ p, (p, Some (bool_decide (is_Some (element p !! id)))).

Definition put (id : string) (c : content) : script unit := λ p,
  match element p !! id with
  | Some _ => (mkPage (<[id := c]> (element p)) (search p) (statusFilter p) (log p), Some tt)
  | None => (p, None)
  end.

(** [try { ... } catch (err) { ... }], where the handler only logs. *)
Definition caught (m : script unit) : script unit := λ p, ((m p).1, Some tt).

(** ** The script *)

(** The global cache. *)
Record state := mkState {
  status : value;
  raft : value;
  jobs : value;
  leases : value;
  nodes : value;
  crons : value
}.

Definition initial : state := mkState (Object []) (Object []) (Array []) (Object []) (Array []) (Array []).

Definition q : string := String (Ascii.ascii_of_nat 34) "".
Definition nl : string := String (Ascii.ascii_of_nat 10) "".

(** A cell on a line of its own, as the templates are indented. *)
Definition cell (s : string) : string := nl +:+ "      <td>" +:+ s +:+ "</td>".
Definition row (cells : list string) : string :=
  "<tr>" +:+ foldr String.append "" (cell <$> cells) +:+ nl +:+ "    </tr>".
Definition span (cls text : string) : string := "<span class=" +:+ q +:+ cls +:+ q +:+ ">" +:+ text +:+ "</span>".
Definition muted (text : string) : string :=
  "<div class=" +:+ q +:+ "text-muted p-3" +:+ q +:+ ">" +:+ text +:+ "</div>".

Definition table (heads : list string) (rows : list string) : string :=
  "<table><thead><tr>" +:+ foldr String.append "" ((λ h, "<th>" +:+ h +:+ "</th>") <$> heads) +:+
  "</tr></thead><tbody>" +:+ foldr String.append "" rows +:+ "</tbody></table>".

Section Script.
Context `{Engine}.

(** [v.k || d], where [d] is evaluated only when it is needed. *)
Definition field_or (v : value) (k : string) (d : option value) : option value :=
  x ← get v k; if truthy x then Some x else d.

(** [String(v.k)], as in a template. *)
Definition text_of (v : value) (k : string) : option string := x ← get v k; toString x.

Definition leaderId (s : state) : option value :=
  field_or (raft s) "leader_addr" (field_or (status s) "leader_node" (Some (Str "node-1"))).
Definition term (s : state) : option value :=
  field_or (raft s) "term" (field_or (status s) "raft_term" (Some (Number (GoStrings.to_bytes "1")))).

Definition zero : value := Number (GoStrings.to_bytes "0").

(** [state.leases.leases || state.leases || {}]. *)
Definition leasesMap (s : state) : option value :=
  x ← get (leases s) "leases"; Some (or x (or (leases s) (Object []))).

(** The loop that counts jobs by status; an array has less than 2^32 elements,
    so the counters are exact. *)
Fixpoint count (js : list value) (pending completed failed cancelled : Z) : option (Z * Z * Z * Z) :=
  match js with
  | [] => Some (pending, completed, failed, cancelled)
  | j :: js =>
      st ← get j "status";
      match st with
      | Str st =>
          if decide (st = "PENDING" ∨ st = "SCHEDULED") then count js (pending + 1) completed failed cancelled
          else if decide (st = "COMPLETED") then count js pending (completed + 1) failed cancelled
          else if decide (st = "FAILED") then count js pending completed (failed + 1) cancelled
          else if decide (st = "CANCELLED") then count js pending completed failed (cancelled + 1)
          else count js pending completed failed cancelled
      | _ => count js pending completed failed cancelled
      end
  end.

Definition putText (id : string) (o : option string) : script unit :=
  s ← lift o; put id (Text s).

Definition updateOverviewUI (s : state) : script unit :=
  l ← lift (leaderId s);
  t ← lift (term s);
  _ ← putText "nav-leader-id"
        (l ← toString l; t ← toString t; Some ("Leader: " +:+ l +:+ " (Term " +:+ t +:+ ")"));
  _ ← putText "ov-leader-node" (toString l);
  _ ← putText "ov-raft-term" (toString t);
  _ ← putText "ov-active-workers" (x ← field_or (status s) "active_nodes" (Some zero); toString x);
  _ ← putText "ov-dead-workers" (x ← field_or (status s) "dead_nodes" (Some zero); toString x);
  m ← lift (leasesMap s);
  _ ← put "ov-active-leases" (Text (GoStrings.Itoa (Z.of_nat (length (ownKeys m)))));
  js ← lift (elements (jobs s));
  c ← lift (count js 0 0 0 0);
  let '(pending, completed, failed, cancelled) := c in
  _ ← put "ov-pending-jobs" (Text (GoStrings.Itoa pending));
  _ ← put "ov-completed-jobs" (Text (GoStrings.Itoa completed));
  _ ← put "ov-failed-jobs" (Text (GoStrings.Itoa failed));
  _ ← put "ov-cancelled-jobs" (Text (GoStrings.Itoa cancelled));
  put "reconstruct-pending-val" (Text (GoStrings.Itoa pending +:+ " Pending / Scheduled Jobs")).

(** A table is shown when the page has a place for it. *)
Definition withContainer (id : string) (html : option string) : script unit :=
  here ← present id;
  if (here : bool) then h ← lift html; put id (Html h) else mret tt.

Definition lease_row (m : value) (k : string) : option string :=
  let l := item m k in
  job ← text_of l "job_id"; worker ← text_of l "worker_id"; t ← text_of l "term";
  attempt ← text_of l "attempt"; started ← get l "started_at"; at_ ← dateText started;
  Some (row ["#" +:+ job; "Worker-" +:+ worker; "Term " +:+ t; "Attempt " +:+ attempt; at_]).

Definition leases_html (s : state) : option string :=
  m ← leasesMap s;
  match ownKeys m with
  | [] => Some (muted "No active execution leases held on active Raft leader")
  | ks => table ["Job ID"; "Worker ID"; "Raft Term"; "Attempt"; "Started At"] <$> mapM (lease_row m) ks
  end.

Definition updateLeasesUI (s : state) : script unit := withContainer "leases-table" (leases_html s).

Definition topics_text (n : value) : option string :=
  ts ← get n "topics"; l ← elements (or ts (Array [])); join ", " l.

Definition node_row (n : value) : option string :=
  id ← text_of n "id"; address ← text_of n "address"; alive ← get n "alive";
  topics ← topics_text n; beat ← get n "last_heartbeat"; at_ ← dateText beat;
  Some (row [id; address;
             span (if truthy alive then "text-success" else "text-danger") (if truthy alive then "ALIVE" else "DEAD");
             topics; at_]).

Definition nodes_html (s : state) : option string :=
  none ← is_empty (nodes s);
  if (none : bool) then Some (muted "No active worker nodes registered")
  else
    l ← elements (nodes s);
    table ["ID"; "Address"; "Status"; "Topics"; "Last Heartbeat"] <$> mapM node_row l.

Definition updateNodesUI (s : state) : script unit := withContainer "nodes-list-table" (nodes_html s).

Definition cron_row (c : value) : option string :=
  id ← text_of c "id"; schedule ← text_of c "schedule";
  ty ← text_of c "type"; priority ← text_of c "priority";
  next ← get c "next_run"; at_ ← dateText next;
  Some (row [id; "<code>" +:+ schedule +:+ "</code>"; ty; priority; at_]).

Definition crons_html (s : state) : option string :=
  none ← is_empty (crons s);
  if (none : bool) then Some (muted "No recurring cron schedules registered")
  else
    l ← elements (crons s);
    table ["ID"; "Schedule"; "Job Type"; "Priority"; "Next Run"] <$> mapM cron_row l.

Definition updateCronUI (s : state) : script unit := withContainer "cron-list-table" (crons_html s).

(** *** The job console *)

(** The query and the filter: an empty control is like a missing one. *)
Definition query (p : page) : string := toLowerCase (default "" (search p)).
Definition chosen (p : page) : string :=
  match statusFilter p with Some "" | None => "ALL" | Some f => f end.

Definition is_str (v : value) (x : string) : bool := match v with Str s => bool_decide (s = x) | _ => false end.

(** [(v || '').toLowerCase()], a method of strings only. *)
Definition lowered (v : value) : option string :=
  match or v (Str "") with Str s => Some (toLowerCase s) | _ => None end.

Definition matches (query chosen : string) (j : value) : option bool :=
  id ← text_of j "id";
  matchesQuery ← (if includes id query then Some true
                  else ty ← get j "type"; low ← lowered ty; Some (includes low query));
  st ← get j "status";
  Some (matchesQuery && (bool_decide (chosen = "ALL") || is_str st chosen)).

Fixpoint filtered (query chosen : string) (js : list value) : option (list value) :=
  match js with
  | [] => Some []
  | j :: js =>
      keep ← matches query chosen j;
      rest ← filtered query chosen js;
      Some (if (keep : bool) then j :: rest else rest)
  end.

Definition statusClass (st : value) : string :=
  if is_str st "COMPLETED" then "text-success"
  else if is_str st "PENDING" || is_str st "SCHEDULED" then "text-warning"
  else if is_str st "FAILED" then "text-danger" else "text-muted".

Definition nextRun (v : value) : option string := if truthy v then dateText v else Some "N/A".

Definition job_row (j : value) : option string :=
  st ← get j "status"; id ← text_of j "id"; ty ← text_of j "type"; priority ← text_of j "priority";
  stText ← toString st;
  retries ← field_or j "retry_count" (Some zero); n ← toString retries;
  limit ← field_or j "max_retries" (Some (Number (GoStrings.to_bytes "3"))); m ← toString limit;
  next ← get j "next_run_at"; at_ ← nextRun next;
  Some (row ["#" +:+ id; ty; priority; span (statusClass st) stText; n +:+ " / " +:+ m; at_]).

Definition console_html (query chosen : string) (s : state) : option string :=
  js ← elements (jobs s);
  l ← filtered query chosen js;
  match l with
  | [] => Some (muted "No jobs matching current query criteria")
  | _ => table ["ID"; "Type"; "Priority"; "Status"; "Retries"; "Next Run"] <$> mapM job_row l
  end.

Definition renderJobConsole (s : state) : script unit := λ p,
  withContainer "job-console-table" (console_html (query p) (chosen p) s) p.

(** *** Polling *)

(** How the seven requests settled: [None] is a rejected promise. *)
Record settled := mkSettled {
  statusRes : option value;
  raftRes : option value;
  jobsRes : option value;
  leasesRes : option value;
  nodesRes : option value;
  cronsRes : option value;
  metricsRes : option string
}.

Definition stored (r : settled) (s : state) : state :=
  mkState
    (default (status s) (statusRes r))
    (default (raft s) (raftRes r))
    (default (jobs s) ((λ v, or v (Array [])) <$> jobsRes r))
    (default (leases s) ((λ v, or v (Object [])) <$> leasesRes r))
    (default (nodes s) ((λ v, or v (Array [])) <$> nodesRes r))
    (default (crons s) ((λ v, or v (Array [])) <$> cronsRes r)).

(** The body of the [try] after the assignments. *)
Definition refresh (r : settled) (s : state) : script unit :=
  _ ← updateOverviewUI s;
  _ ← updateLeasesUI s;
  _ ← updateNodesUI s;
  _ ← updateCronUI s;
  _ ← renderJobConsole s;
  match metricsRes r with
  | Some t => here ← present "prometheus-raw"; if (here : bool) then put "prometheus-raw" (Text t) else mret tt
  | None => mret tt
  end.

(** [fetchTelemetry]: the cache after it and the page. *)
Definition fetchTelemetry (r : settled) (s : state) (p : page) : state * page :=
  let s := stored r s in (s, (caught (refresh r s) p).1).

(** *** The event log *)

Definition eventColor (ty : value) : string :=
  if is_str ty "FAILOVER_TRIGGERED" || is_str ty "WORKER_EVICTED" then "text-danger"
  else if is_str ty "DISPATCH_RESUMED" || is_str ty "WORKER_REGISTERED" then "text-success"
  else if is_str ty "LEADER_CHANGED" || is_str ty "QUEUE_REBUILT" then "text-warning" else "text-info".

(** [sse.onmessage] on the data of an event, at [now]: a line, unless something
    throws, which is ignored. *)
Definition event_line (now : Z) (data : list ascii) : option string :=
  d ← json data;
  ty ← get d "type";
  ts ← get d "timestamp"; at_ ← dateText (or ts (Number (GoStrings.to_bytes (GoStrings.Itoa now))));
  tyText ← toString ty; message ← text_of d "message";
  Some (span "text-muted" ("[" +:+ at_ +:+ "]") +:+ " " +:+
        span (eventColor ty) (tyText +:+ ":") +:+ " " +:+ message).

Definition onmessage (now : Z) (data : list ascii) (p : page) : page :=
  match event_line now data with
  | Some l => mkPage (element p) (search p) (statusFilter p) (log p ++ [l])
  | None => p
  end.
End Script.

(** *** Tabs *)

(** The buttons by [data-tab] and the panes by id, with whether they are
    active. *)
Record tabs := mkTabs { buttons : list (string * bool); panes : list (string * bool) }.

Definition names : list string :=
  ["overview"; "topology"; "explorer"; "leases"; "failover"; "reconstruct"; "broker"; "cron"; "dlq"; "console";
   "events"; "metrics"].

Definition index_html : tabs :=
  mkTabs ((λ t, (t, bool_decide (t = "overview"))) <$> names)
         ((λ t, ("tab-" +:+ t, bool_decide (t = "overview"))) <$> names).

(** A click on the [i]th button; [getElementById] finds the first pane. *)
Fixpoint activate (id : string) (ps : list (string * bool)) : list (string * bool) :=
  match ps with
  | [] => []
  | (x, a) :: ps => if decide (x = id) then (x, true) :: ps else (x, a) :: activate id ps
  end.

Definition click (i : nat) (t : tabs) : tabs :=
  match buttons t !! i with
  | None => t
  | Some (b, _) =>
      mkTabs (<[i := (b, true)]> ((λ x, (x.1, false)) <$> buttons t))
             (activate ("tab-" +:+ b) ((λ x, (x.1, false)) <$> panes t))
  end.

(** *** The failover simulator *)

Record simulator := mkSimulator {
  disabled : bool;
  label : string;
  steps : list bool;      (** which of the six steps are lit *)
  waiting : bool;         (** the request is on its way *)
  timers : list nat       (** the steps whose timers are set *)
}.

Inductive sim_event :=
  | Click                          (** on the button; a disabled one takes none *)
  | Settle (answer : option Z)     (** the request: a status, or a network error *)
  | Timer.                         (** the next timer, 200 ms after the last *)

Definition rest_label := "⚡ Kill Leader (Simulate Failover)".
Definition busy_label := "⚡ Simulating Leader Crash & Recovery...".

Definition idle : simulator := mkSimulator false rest_label (replicate 6 false) false [].

Definition sim_step (s : simulator) (e : sim_event) : simulator :=
  match e with
  | Click => if disabled s then s else mkSimulator true busy_label (replicate 6 false) true (timers s)
  | Settle _ =>
      if waiting s then mkSimulator (disabled s) (label s) (steps s) false (timers s ++ seq 0 6) else s
  | Timer =>
      match timers s with
      | [] => s
      | i :: ts =>
          let lit := <[i := true]> (steps s) in
          if decide (i = 5%nat) then mkSimulator false rest_label lit (waiting s) ts
          else mkSimulator (disabled s) (label s) lit (waiting s) ts
      end
  end.

(** *** The topology *)

Inductive shape :=
  | Line (x1 : Float64.float64) (y1 : Z) (x2 : Float64.float64) (y2 : Z) (style : string) (dashed : bool)
  | Circle (x : Float64.float64) (y r : Z) (color : string) (text : string).

(** A circle with its label under it; outline and font are always the same. *)
Definition drawNodeCircle (x : Float64.float64) (y r : Z) (color text : string) : shape := Circle x y r color text.

Section Topology.
Context `{Engine}.

Definition isAlive (ns : list value) (i : nat) : option bool :=
  match ns !! i with
  | Some n => if truthy n then a ← get n "alive"; Some (truthy a) else Some true
  | None => Some true
  end.

Definition workerCount (ns : list value) : Z := Z.max (Z.of_nat (length ns)) 3.

Definition spacing (width n : Z) : Float64.float64 :=
  Float64.div (Float64.of_int (width - 300)) (Float64.of_int (Z.max (n - 1) 1)).

Definition worker_shapes (width : Z) (ns : list value) (i : nat) : option (list shape) :=
  let wx := Float64.add (Float64.of_int 150)
              (Float64.mul (Float64.of_int (Z.of_nat i)) (spacing width (workerCount ns))) in
  alive ← isAlive ns i;
  Some [Line (Float64.div (Float64.of_int width) (Float64.of_int 2)) 70 wx 280
          (if (alive : bool) then "rgba(16, 185, 129, 0.3)" else "rgba(239, 68, 68, 0.3)") false;
        drawNodeCircle wx 280 16 (if (alive : bool) then "#10b981" else "#ef4444")
          ("Worker-" +:+ GoStrings.Itoa (Z.of_nat i + 1))].

(** The drawing on a canvas of this width, for nodes that are an array. *)
Definition drawTopology (width : Z) (ns : list value) : option (list shape) :=
  let leaderX := Float64.div (Float64.of_int width) (Float64.of_int 2) in
  let followers := [("node-1 (Follower)", Float64.add leaderX (Float64.of_int (-220)));
                    ("node-3 (Follower)", Float64.add leaderX (Float64.of_int 220))] in
  ws ← mapM (worker_shapes width ns) (seq 0 (Z.to_nat (workerCount ns)));
  Some (drawNodeCircle leaderX 70 28 "#3b82f6" "node-2 (Leader)" ::
        concat ((λ f, [Line leaderX 70 f.2 180 "rgba(59, 130, 246, 0.4)" true;
                       drawNodeCircle f.2 180 20 "#64748b" f.1]) <$> followers) ++
        concat ws).
End Topology.

End Dashboard.
