(* ===== verification/DashboardSpec.v ===== *)
(** * What the dashboard shows

    The script of [Dashboard] fed by the server of a standalone node: a poll
    ends without an exception and shows the counters, the console and the tables
    of what the store and the manager hold; with authorization enabled no poll
    gets past the job counters.  The tabs, the simulator and the drawing are
    proved on their own. *)

From S2P Require Import Prelude Job Lease Store MemoryStore GoStrings Utf8 Json GoTime Codec Auth.
From S2P Require Import Metrics Queue Broker Events Config Consensus Cron Manager Machine Scheduler.
From S2P Require Import Engine Handlers Server BoltStore Invariant HandlerProofs System ServerSpec Js Dashboard.
From Stdlib Require Import Ascii.
Import Dashboard Machine Handlers Server Invariant System ServerSpec Js.
Local Open Scope Z_scope.

Module DashboardSpec.

(** ** The values the script reads *)

Abbreviation number z := (Number (str (GoStrings.Itoa z))).

Ltac json_fields :=
  apply of_json_fields;
  repeat (constructor; [split_and!; [reflexivity|reflexivity|first [reflexivity | apply of_json_jstring]]|]);
  try constructor.

Definition status_value (s : ClusterStatus) : value :=
  Object
    [("total_nodes", number (TotalNodes s)); ("active_nodes", number (ActiveNodes s));
     ("dead_nodes", number (DeadNodes s)); ("total_jobs", number (TotalJobs s));
     ("pending_jobs", number (PendingJobs s)); ("completed_jobs", number (CompletedJobs s));
     ("failed_jobs", number (FailedJobs s)); ("cancelled_jobs", number (CancelledJobs s));
     ("leader_node", Str (Utf8.Sanitize (LeaderNode s))); ("raft_term", number (RaftTerm s))].

Lemma of_json_status s : of_json (status_json s) = Some (status_value s).
Proof. unfold status_json, status_value. json_fields. Qed.

Section Values.
Context (located : Time → Z).

(** A time as the script gets it. *)
Definition time_value (t : Time) : value := default Undefined (Codec.jtime located t ≫= of_json).

Lemma of_json_time t v : Codec.jtime located t = Some v → of_json v = Some (time_value t).
Proof.
  intros Hv. unfold time_value. rewrite Hv. cbn [mbind option_bind].
  destruct (of_json_jtime _ _ _ Hv) as [s ->]. done.
Qed.

Definition job_value (j : Job) : value :=
  Object
    [("id", number (ID j)); ("type", Str (Utf8.Sanitize (JType j)));
     ("priority", number (Priority j)); ("status", Str (Utf8.Sanitize (JStatus j)));
     ("retry_count", number (RetryCount j)); ("max_retries", number (MaxRetries j));
     ("next_run_at", time_value (NextRunAt j)); ("last_error", Str (Utf8.Sanitize (LastError j)));
     ("idempotency_key", Str (Utf8.Sanitize (IdempotencyKey j)))].

Ltac json_record :=
  intros (t & Ht%of_json_time & [= <-])%bind_Some; apply of_json_fields;
  repeat (constructor;
    [split_and!; [reflexivity|reflexivity|first [reflexivity | apply of_json_jstring | exact Ht]]|]);
  try constructor.

Lemma of_json_job j v : Codec.encode located j = Some v → of_json v = Some (job_value j).
Proof. json_record. Qed.

Definition cron_value (c : CronJob) : value :=
  Object
    [("id", Str (Utf8.Sanitize (CronID c))); ("schedule", Str (Utf8.Sanitize (Schedule c)));
     ("type", Str (Utf8.Sanitize (CronType c))); ("priority", number (CronPriority c));
     ("next_run", time_value (NextRun c))].

Lemma of_json_cron c v : Codec.encode located c = Some v → of_json v = Some (cron_value c).
Proof. json_record. Qed.

Definition node_value (n : Manager.NodeSnapshot) : value :=
  Object
    [("id", number (Manager.NodeID n)); ("address", Str (Utf8.Sanitize (Manager.NodeAddress n)));
     ("alive", Bool (Manager.NodeAlive n)); ("last_heartbeat", time_value (Manager.NodeLastHeartbeat n));
     ("topics", match Manager.NodeTopics n with
                | [] => Null
                | ts => Array ((λ t, Str (Utf8.Sanitize t)) <$> ts)
                end)].

Lemma of_json_strings ss : mapM of_json (Codec.jstring <$> ss) = Some ((λ t, Str (Utf8.Sanitize t)) <$> ss).
Proof.
  apply mapM_Some, Forall2_fmap_2, Forall_Forall2_diag, Forall_forall. intros s _. apply of_json_jstring.
Qed.

Lemma of_json_node n v : node_json located n = Some v → of_json v = Some (node_value n).
Proof.
  intros (t & Ht%of_json_time & [= <-])%bind_Some. apply of_json_fields.
  repeat (constructor;
    [split_and!; [reflexivity|reflexivity|first [reflexivity | apply of_json_jstring | exact Ht | idtac]]|]);
  try constructor.
  cbn [fst snd]. destruct (Manager.NodeTopics n) as [|x ts]; [done|].
  rewrite of_json_arr. exact (f_equal (fmap Array) (of_json_strings (x :: ts))).
Qed.

(** Lists, with [null] for a nil slice. *)
Lemma of_json_list {A} (enc : A → option Json.json) (val : A → value) l vs :
  (∀ x v, enc x = Some v → of_json v = Some (val x)) →
  mapM enc l = Some vs → of_json (Json.JArr vs) = Some (Array (val <$> l)).
Proof.
  intros Hx Hl. rewrite of_json_arr. apply fmap_Some. eexists. split; [|done].
  apply mapM_Some in Hl. apply mapM_Some. induction Hl; simpl; constructor; auto.
Qed.
End Values.

(** ** What is shown *)

(** The page with the contents of some elements replaced. *)
Definition set (p : Dashboard.page) (x : string * content) : Dashboard.page :=
  mkPage (<[x.1 := x.2]> (element p)) (search p) (statusFilter p) (log p).
Definition written (l : list (string * content)) (p : Dashboard.page) : Dashboard.page := foldl set p l.

Lemma complete_set p x : complete p → complete (set p x).
Proof.
  intros Hp id Hid. unfold set. cbn [element]. destruct (decide (id = x.1)) as [->|Hne].
  - rewrite lookup_insert_eq. by eexists.
  - rewrite lookup_insert_ne by done. by apply Hp.
Qed.

Lemma complete_written l p : complete p → complete (written l p).
Proof. revert p. induction l as [|x l IH]; intros p Hp; [done|]. by apply IH, complete_set. Qed.

Lemma written_app l k p : written k (written l p) = written (l ++ k) p.
Proof. unfold written. by rewrite foldl_app. Qed.

Lemma written_controls l p : search (written l p) = search p ∧ statusFilter (written l p) = statusFilter p.
Proof. revert p. induction l as [|x l IH]; intros p; [done|]. apply (IH (set p x)). Qed.

Lemma written_other l p id : id ∉ l.*1 → element (written l p) !! id = element p !! id.
Proof.
  revert p. induction l as [|x l IH]; intros p Hid; [done|]. rewrite fmap_cons, not_elem_of_cons in Hid.
  change (written (x :: l) p) with (written l (set p x)). rewrite IH by tauto. apply lookup_insert_ne. naive_solver.
Qed.

Lemma put_complete p id c : complete p → id ∈ ids → put id c p = (set p (id, c), Some tt).
Proof. intros Hp Hid. unfold put. by destruct (Hp id Hid) as [x ->]. Qed.

Lemma present_put p id c : complete p → id ∈ ids →
  (here ← present id; if (here : bool) then put id c else mret tt) p = (set p (id, c), Some tt).
Proof.
  intros Hp Hid. assert (Hb : bool_decide (is_Some (element p !! id)) = true)
    by (by apply bool_decide_eq_true, Hp).
  unfold present, mbind, script_bind. cbv beta iota. rewrite Hb. by apply put_complete.
Qed.

Lemma withContainer_complete p id h : complete p → id ∈ ids →
  withContainer id (Some h) p = (set p (id, Html h), Some tt).
Proof.
  intros Hp Hid. by apply (present_put p id (Html h)).
Qed.

Lemma lift_bind {A B} (x : A) (f : A → script B) p : (lift (Some x) ≫= f) p = f x p.
Proof. done. Qed.

Lemma put_bind {B} p id c (f : unit → script B) : complete p → id ∈ ids →
  (put id c ≫= f) p = f tt (set p (id, c)).
Proof. intros Hp Hid. unfold mbind, script_bind. by rewrite put_complete. Qed.

Lemma putText_bind {B} p id x (f : unit → script B) : complete p → id ∈ ids →
  (putText id (Some x) ≫= f) p = f tt (set p (id, Text x)).
Proof. exact (put_bind p id (Text x) f). Qed.

Lemma done_bind {A B} (m : script A) (f : A → script B) p p' x : m p = (p', Some x) → (m ≫= f) p = f x p'.
Proof. intros Hm. unfold mbind, script_bind. by rewrite Hm. Qed.

(** Membership in [ids], and completeness of what was written. *)
Ltac listed := apply (bool_decide_unpack _); vm_compute; exact I.
Ltac whole := repeat apply complete_set; done.

Ltac writes :=
  repeat first [rewrite putText_bind by (whole || listed) | rewrite lift_bind
               | rewrite put_bind by (whole || listed)].

Ltac binds := cbn [mbind option_bind].
Ltac reading := repeat first [rewrite get_here by reflexivity | rewrite get_next by done | progress binds].

(** The page as loaded has all elements the script writes to. *)
Lemma index_complete : complete index_page.
Proof.
  assert (Hall : Forall (λ id, is_Some (element index_page !! id)) ids)
    by (unfold ids; repeat (constructor; [by vm_compute; eexists|]); constructor).
  intros id Hid. by apply (proj1 (Forall_forall _ _) Hall).
Qed.

Section Shown.
Context `{Js.Engine} (located : Time → Z).

Definition clock_text (t : Time) : string := localeTime (time_value located t).

Lemma time_cases t : (∃ x, time_value located t = Str x) ∨ time_value located t = Undefined.
Proof.
  unfold time_value. destruct (Codec.jtime located t) as [v|] eqn:Hv; [|by right].
  destruct (of_json_jtime _ _ _ Hv) as [x Hx]. left. exists x. cbn [mbind option_bind]. by rewrite Hx.
Qed.

Lemma dateText_time t : dateText (time_value located t) = Some (clock_text t).
Proof. unfold clock_text. destruct (time_cases t) as [[x ->]| ->]; done. Qed.

(** A worker's row. *)
Definition comma_list (ts : list string) : string := String.concat ", " (Utf8.Sanitize <$> ts).

Definition node_line (n : Manager.NodeSnapshot) : string :=
  row [digits (Manager.NodeID n); Utf8.Sanitize (Manager.NodeAddress n);
       (if Manager.NodeAlive n then span "text-success" "ALIVE" else span "text-danger" "DEAD");
       comma_list (Manager.NodeTopics n); clock_text (Manager.NodeLastHeartbeat n)].

Lemma toString_number z : toString (number z) = Some (digits z).
Proof. done. Qed.

Lemma join_strings ts : join ", " ((λ t, Str (Utf8.Sanitize t)) <$> ts) = Some (comma_list ts).
Proof.
  unfold comma_list. induction ts as [|t ts IH]; [done|]. rewrite !fmap_cons. cbn [join]. rewrite IH.
  cbn [mbind option_bind toString]. by destruct ts.
Qed.

Lemma node_row_shown n : node_row (node_value located n) = Some (node_line n).
Proof.
  unfold node_row, text_of, topics_text, node_value. reading. rewrite !toString_number, dateText_time. binds.
  destruct (Manager.NodeTopics n) as [|t ts] eqn:Et; cbn [or truthy elements]; binds.
  - unfold node_line. rewrite Et. by destruct (Manager.NodeAlive n).
  - change (Array _) with (Array ((λ t, Str (Utf8.Sanitize t)) <$> t :: ts)). cbn [elements]. binds.
    rewrite join_strings. binds. unfold node_line. rewrite Et. by destruct (Manager.NodeAlive n).
Qed.

Definition cron_line (c : CronJob) : string :=
  row [Utf8.Sanitize (CronID c); "<code>" +:+ Utf8.Sanitize (Schedule c) +:+ "</code>";
       Utf8.Sanitize (CronType c); digits (CronPriority c); clock_text (NextRun c)].

Lemma cron_row_shown c : cron_row (cron_value located c) = Some (cron_line c).
Proof.
  unfold cron_row, text_of, cron_value. reading. rewrite toString_number, dateText_time. binds.
  cbn [toString]. binds. done.
Qed.

(** A job's row: a count of zero is replaced by its default. *)
Definition or_default (z d : Z) : string := if truthy (number z) then digits z else GoStrings.Itoa d.

Definition status_class (st : string) : string :=
  if decide (st = Completed) then "text-success"
  else if decide (st = Pending ∨ st = Scheduled) then "text-warning"
  else if decide (st = Failed) then "text-danger" else "text-muted".

Definition job_line (j : Job) : string :=
  row ["#" +:+ digits (ID j); Utf8.Sanitize (JType j); digits (Priority j);
       span (status_class (JStatus j)) (JStatus j);
       or_default (RetryCount j) 0 +:+ " / " +:+ or_default (MaxRetries j) 3;
       if truthy (time_value located (NextRunAt j)) then clock_text (NextRunAt j) else "N/A"].

Lemma status_shown st : known_status st = true → Utf8.Sanitize st = st.
Proof. intros Hk. by apply BoltStore.sanitize_known. Qed.

Lemma class_shown st : statusClass (Str st) = status_class st.
Proof.
  unfold statusClass, status_class, is_str, Completed, Pending, Scheduled, Failed.
  repeat case_decide; destruct_or?; subst; try done;
    repeat (rewrite bool_decide_false by tauto); done.
Qed.

Lemma or_default_shown z d : safe (str (GoStrings.Itoa d)) = Some d →
  (x ← (if truthy (number z) then Some (number z) else Some (number d)); toString x) = Some (or_default z d).
Proof.
  intros Hd. unfold or_default. destruct (truthy (number z)); binds; [done|]. cbn [toString]. by rewrite Hd.
Qed.

Lemma job_row_shown j : known_status (JStatus j) = true → job_row (job_value located j) = Some (job_line j).
Proof.
  intros Hk. unfold job_row, text_of, field_or, job_value. rewrite (status_shown _ Hk). reading.
  rewrite !toString_number. cbn [toString]. binds.
  pose proof (or_default_shown (RetryCount j) 0 eq_refl) as H0'.
  pose proof (or_default_shown (MaxRetries j) 3 eq_refl) as H3'.
  apply bind_Some in H0' as (x0 & Hx0 & Hx0'), H3' as (x3 & Hx3 & Hx3').
  unfold zero. change (str "0") with (str (GoStrings.Itoa 0)). change (str "3") with (str (GoStrings.Itoa 3)).
  rewrite Hx0. binds. rewrite Hx0'. binds. rewrite Hx3. binds. rewrite Hx3'. binds.
  rewrite class_shown. unfold nextRun, job_line.
  destruct (truthy (time_value _ _)); [rewrite dateText_time|]; done.
Qed.

(** The jobs the console selects. *)
Definition selected (query chosen : string) (j : Job) : bool :=
  (includes (digits (ID j)) query || includes (toLowerCase (Utf8.Sanitize (JType j))) query) &&
  (bool_decide (chosen = "ALL") || bool_decide (JStatus j = chosen)).

Lemma lowered_string x : lowered (Str x) = Some (toLowerCase x).
Proof. unfold lowered, or. cbn [truthy]. case_bool_decide; [done|]. by replace x with "" by (symmetry; tauto). Qed.

Lemma matches_shown query chosen j : known_status (JStatus j) = true →
  matches query chosen (job_value located j) = Some (selected query chosen j).
Proof.
  intros Hk. unfold matches, text_of, job_value, selected. rewrite (status_shown _ Hk). reading.
  rewrite toString_number. binds. rewrite lowered_string. binds.
  by destruct (includes (digits (ID j)) query).
Qed.

Lemma filtered_shown query chosen js : Forall (λ j, known_status (JStatus j) = true) js →
  filtered query chosen (job_value located <$> js) =
    Some (job_value located <$> filter (λ j, selected query chosen j = true) js).
Proof.
  induction 1 as [|j js Hj _ IH]; [done|]. rewrite fmap_cons. cbn [filtered].
  rewrite matches_shown, IH by done. binds. rewrite filter_cons.
  by destruct (selected query chosen j).
Qed.

Lemma rows_shown {A} (val : A → value) (line : A → string) (rowf : value → option string) l :
  Forall (λ x, rowf (val x) = Some (line x)) l → mapM rowf (val <$> l) = Some (line <$> l).
Proof. intros Hl. apply mapM_Some, Forall2_fmap_l, Forall2_fmap_r, Forall_Forall2_diag, Hl. Qed.

(** A table, or the text for none. *)
Definition listing (none : string) (heads rows : list string) : string :=
  match rows with [] => muted none | _ => table heads rows end.

Definition console (query chosen : string) (js : list Job) : string :=
  listing "No jobs matching current query criteria" ["ID"; "Type"; "Priority"; "Status"; "Retries"; "Next Run"]
    (job_line <$> filter (λ j, selected query chosen j = true) js).

Lemma console_shown query chosen s js : Forall (λ j, known_status (JStatus j) = true) js →
  Dashboard.jobs s = Array (job_value located <$> js) →
  console_html query chosen s = Some (console query chosen js).
Proof.
  intros Hk Hs. unfold console_html. rewrite Hs. cbn [elements]. binds. rewrite filtered_shown by done. binds.
  unfold console. assert (Hl := rows_shown (job_value located) job_line job_row
    (filter (λ j, selected query chosen j = true) js)).
  rewrite Hl.
  2: { apply Forall_forall. intros j [_ Hj]%list_elem_of_filter.
       by apply job_row_shown, (proj1 (Forall_forall _ _) Hk). }
  by destruct (filter _ js).
Qed.

(** The counters. *)
Lemma count_shown js a b c d : Forall (λ j, known_status (JStatus j) = true) js →
  count (job_value located <$> js) a b c d = Some (countJobs js a b c d).
Proof.
  intros Hk. revert a b c d. induction Hk as [|j js Hj _ IH]; intros a b c d; [done|].
  rewrite fmap_cons. cbn [count countJobs]. 
  change (get (job_value located j) "status") with (Some (Str (Utf8.Sanitize (JStatus j)))). binds.
  rewrite (status_shown _ Hj).
  unfold Pending, Scheduled, Completed, Failed, Cancelled. repeat (case_decide; try tauto); apply IH.
Qed.
End Shown.

(** ** A poll of a node *)

Ltac wf_object :=
  cbn [Json.wf foldr fst snd]; split_and!;
  first [ done | apply Codec.wf_jint | apply Codec.wf_jstring | unfold Json.maxNestingDepth; lia ].

(** The handler behind a route, still guarded. *)
Ltac to_route R :=
  unfold dispatch;
  match goal with |- context [matchRoute (Method ?r) (Path ?r)] =>
    change (matchRoute (Method r) (Path r)) with R end;
  cbv beta iota; try (rewrite decide_False by done; rewrite decide_True by done).

Section Poll.
Context `{Js.Engine} `{GoRange} {T : Type} `{Store.ReliableStore T}.
Context (located : Time → Z) (nilJobs : bool) (ui_file : string → Response) (metrics_page : Response)
  (mux_redirect : Z).
Context (env : Env) (cfg : Config.Config) (n : nat) (drawn : string).
Implicit Types (st : State T) (r : Request) (p : Dashboard.page) (s : Dashboard.state).

#[local] Abbreviation serve := (serve located nilJobs ui_file metrics_page mux_redirect cfg n drawn).

(** [fetch(path)] as the browser sends it: no [Authorization] header. *)
Definition request (path : string) : Request := mkRequest "GET" path "" "" "" [].

Definition fetch st (path : string) : option (list ascii) :=
  match (run env (serve (request path)) st).1 with
  | Returned (_, resp) => Some (Content resp)
  | _ => None
  end.

(** The seven requests of a poll, answered in one state. *)
Definition settle st : settled :=
  mkSettled (fetch st "/cluster/status" ≫= json) (fetch st "/cluster/raft" ≫= json)
    (fetch st "/jobs" ≫= json) (fetch st "/jobs/leases" ≫= json) (fetch st "/cluster/nodes" ≫= json)
    (fetch st "/cron" ≫= json) (GoStrings.of_bytes <$> fetch st "/metrics").

Lemma fetch_respond st path code v w st' :
  run env (dispatch located nilJobs ui_file metrics_page mux_redirect cfg n (Wrapped (Wrapped Conn)) (request path))
    st = (Returned (respond code (Some v)), st') →
  Json.wf Json.maxNestingDepth v → of_json v = Some w →
  fetch st path ≫= json = Some w.
Proof.
  intros Hrun Hv Hw. unfold fetch. rewrite (run_serve _ _ _ _ _ _ _ _ _ _ _ _ _ _ eq_refl Hrun).
  cbn [fst mbind option_bind Content respond]. unfold json. by rewrite parse_line.
Qed.

(** What the list of schedules answers with. *)
Definition schedules st : list CronJob :=
  match Store.ListCrons (store st) with
  | ([], _) | (_, Some _) => Cron.List (crons st)
  | (cs, None) => cs
  end.

Lemma run_ListCronJobs st : run env Engine.ListCronJobs st = (Returned (schedules st), st).
Proof.
  unfold Engine.ListCronJobs, schedules. run_simpl.
  destruct (Store.ListCrons (store st)) as [[|c cs] [e|]]; run_simpl; done.
Qed.

(** The times of a node can be written. *)
Definition encodable st : Prop :=
  is_Some (Codec.list_json located nilJobs (Store.List (store st))) ∧
  is_Some (nodes_json located (Manager.Nodes (manager st))) ∧
  is_Some (Codec.list_json located false (schedules st)).

(** The event stream of the page stays empty: the server's handler panics before
    it has written anything (see [Server.event_stream_panics]). *)
Lemma events_never_arrive st : fetch st "/events" = None.
Proof.
  unfold fetch, Server.serve, RequestID, Tracing, Logging. rewrite run_bind.
  change (Server.dispatch located nilJobs ui_file metrics_page mux_redirect cfg n (Wrapped (Wrapped Conn))
    (request "/events")) with (HTTPHandler located n (Wrapped (Wrapped Conn)) (request "/events")).
  destruct (run_events located env n (request "/events") st) as (b & -> & _). done.
Qed.

Section Open.
Context (Hopen : Config.AuthEnabled cfg = false).

Lemma open_viewer next r st : run env (requireViewer cfg next r) st = run env (next r) st.
Proof. unfold requireViewer, requireRoles. by rewrite Hopen. Qed.

(** A view of the node behind its route. *)
Ltac view R := eapply fetch_respond; [to_route R; rewrite open_viewer| |].

Lemma fetch_leases st : fetch st "/jobs/leases" ≫= json = Some (Object []).
Proof. view RLeases; [reflexivity|done|done]. Qed.

Definition raft_value : value :=
  Object [("is_leader", Bool true); ("leader_addr", Str "127.0.0.1:18088");
          ("node_id", Str (Utf8.Sanitize (Config.RaftNodeID cfg))); ("term", number 1)].

Lemma fetch_raft st : raft st = false → fetch st "/cluster/raft" ≫= json = Some raft_value.
Proof.
  intros Hr. view RRaft; [unfold RaftStatus; run_simpl; rewrite Hr; run_simpl; reflexivity|wf_object|].
  unfold raft_value. json_fields.
Qed.

Lemma fetch_status st : raft st = false →
  let ns := Manager.Nodes (manager st) in
  ∃ cs, fetch st "/cluster/status" ≫= json = Some (status_value cs) ∧
    ActiveNodes cs = (countNodes ns 0 0).1 ∧ DeadNodes cs = (countNodes ns 0 0).2.
Proof.
  intros Hr ns. eexists (mkStatus _ _ _ _ _ _ _ _ _ _). split.
  - view RClusterStatus; [| |apply of_json_status].
    + unfold Status. rewrite decide_False by (by intros []). unfold clusterStatus, leaderInfo, Engine.Jobs.
      rewrite run_bind. run_simpl. fold ns. rewrite (surjective_pairing (countNodes ns 0 0)). run_simpl.
      rewrite (countJobs_having located mux_redirect). run_simpl. rewrite Hr. run_simpl. reflexivity.
    + unfold status_json. wf_object.
  - done.
Qed.

Lemma fetch_jobs st vs :
  Codec.list_json located nilJobs (Store.List (store st)) = Some vs →
  (λ v, or v (Array [])) <$> (fetch st "/jobs" ≫= json) =
    Some (Array (job_value located <$> Store.List (store st))).
Proof.
  intros Hv. assert (Hj : ∃ w, fetch st "/jobs" ≫= json = Some w ∧
    or w (Array []) = Array (job_value located <$> Store.List (store st))).
  { pose proof Hv as Hw. unfold Codec.list_json in Hv. destruct (nilJobs && _) eqn:En.
    - injection Hv as <-. exists Null. split.
      + view RJobs; [|exact (Codec.list_json_wf _ _ _ _ Hw)|done].
        unfold ListJobsHandler. rewrite decide_False by (by intros []). unfold Engine.Jobs. run_simpl.
        by rewrite Hw.
      + apply andb_prop in En as [_ En%bool_decide_eq_true%nil_length_inv]. by rewrite En.
    - apply fmap_Some in Hv as (l & Hl & ->). eexists. split.
      + view RJobs; [|exact (Codec.list_json_wf _ _ _ _ Hw)|by eapply of_json_list, Hl; apply of_json_job].
        unfold ListJobsHandler. rewrite decide_False by (by intros []). unfold Engine.Jobs. run_simpl.
        by rewrite Hw.
      + done. }
  destruct Hj as (w & -> & <-). done.
Qed.

Lemma fetch_nodes st vs :
  nodes_json located (Manager.Nodes (manager st)) = Some vs →
  fetch st "/cluster/nodes" ≫= json = Some (Array (node_value located <$> Manager.Nodes (manager st))).
Proof.
  intros Hv. pose proof Hv as (l & Hl & ->)%fmap_Some.
  view RClusterNodes; [|by eapply nodes_wf|by eapply of_json_list, Hl; apply of_json_node].
  unfold Nodes. rewrite decide_False by (by intros []). run_simpl. by rewrite Hv.
Qed.

Lemma fetch_crons st vs :
  Codec.list_json located false (schedules st) = Some vs →
  fetch st "/cron" ≫= json = Some (Array (cron_value located <$> schedules st)).
Proof.
  intros Hv. pose proof Hv as (l & Hl & ->)%fmap_Some.
  view RCron; [|exact (Codec.list_json_wf _ _ _ _ Hv)|by eapply of_json_list, Hl; apply of_json_cron].
  unfold ListCronJobsHandler. rewrite run_bind, run_ListCronJobs. run_simpl. by rewrite Hv.
Qed.

(** The workers alive. *)
Definition live (ns : list Manager.NodeSnapshot) : Z :=
  Z.of_nat (length (filter (λ nd, Manager.NodeAlive nd = true) ns)).

Lemma countNodes_live ns x y :
  countNodes ns x y = (x + live ns, y + (Z.of_nat (length ns) - live ns)).
Proof.
  revert x y. induction ns as [|nd ns IH]; intros x y; [by rewrite !Z.add_0_r|].
  unfold live in *. cbn [countNodes length]. rewrite filter_cons.
  destruct (Manager.NodeAlive nd); cbn [length]; rewrite IH; simpl; f_equal; lia.
Qed.

(** The first part of the page. *)
Definition overview st : list (string * content) :=
  let js := Store.List (store st) in
  let ns := Manager.Nodes (manager st) in
  let waiting := GoStrings.Itoa (having Pending js + having Scheduled js) in
  [("nav-leader-id", Text "Leader: 127.0.0.1:18088 (Term 1)"); ("ov-leader-node", Text "127.0.0.1:18088");
   ("ov-raft-term", Text "1"); ("ov-active-workers", Text (GoStrings.Itoa (live ns)));
   ("ov-dead-workers", Text (GoStrings.Itoa (Z.of_nat (length ns) - live ns)));
   ("ov-active-leases", Text "0"); ("ov-pending-jobs", Text waiting);
   ("ov-completed-jobs", Text (GoStrings.Itoa (having Completed js)));
   ("ov-failed-jobs", Text (GoStrings.Itoa (having Failed js)));
   ("ov-cancelled-jobs", Text (GoStrings.Itoa (having Cancelled js)));
   ("reconstruct-pending-val", Text (waiting +:+ " Pending / Scheduled Jobs"))].

Lemma counter_shown z : 0 ≤ z ≤ maxSafeInteger →
  (x ← (if truthy (number z) then Some (number z) else Some zero); toString x) = Some (GoStrings.Itoa z).
Proof.
  intros Hz. assert (Hs : safe (str (GoStrings.Itoa z)) = Some z) by (apply safe_Itoa; lia).
  cbn [truthy]. rewrite Hs. destruct (Z.eqb_spec z 0) as [->|]; [done|]. cbn. by rewrite Hs.
Qed.

Lemma overview_shown st cs s p :
  let ns := Manager.Nodes (manager st) in
  let js := Store.List (store st) in
  complete p → Z.of_nat (length ns) ≤ maxSafeInteger → Forall (λ j, known_status (JStatus j) = true) js →
  Dashboard.status s = status_value cs → ActiveNodes cs = live ns →
  DeadNodes cs = Z.of_nat (length ns) - live ns → Dashboard.raft s = raft_value →
  Dashboard.leases s = Object [] → Dashboard.jobs s = Array (job_value located <$> js) →
  updateOverviewUI s p = (written (overview st) p, Some tt).
Proof.
  intros ns js Hp Hn Hk Hs Ha Hd Hr Hl Hj.
  assert (Hlive : 0 ≤ live ns ≤ Z.of_nat (length ns)).
  { unfold live. pose proof (length_filter (λ nd, Manager.NodeAlive nd = true) ns). lia. }
  assert (Hleader : leaderId s = Some (Str "127.0.0.1:18088")) by (unfold leaderId, field_or; by rewrite Hr).
  assert (Hterm : term s = Some (number 1)) by (unfold term, field_or; by rewrite Hr).
  assert (Hactive : (x ← field_or (Dashboard.status s) "active_nodes" (Some zero); toString x) =
    Some (GoStrings.Itoa (live ns))).
  { unfold field_or. rewrite Hs. unfold status_value. reading. rewrite Ha. apply counter_shown. lia. }
  assert (Hdead : (x ← field_or (Dashboard.status s) "dead_nodes" (Some zero); toString x) =
    Some (GoStrings.Itoa (Z.of_nat (length ns) - live ns))).
  { unfold field_or. rewrite Hs. unfold status_value. reading. rewrite Hd. apply counter_shown. lia. }
  assert (Hmap : leasesMap s = Some (Object [])) by (unfold leasesMap; by rewrite Hl).
  unfold updateOverviewUI. rewrite Hleader, lift_bind, Hterm, lift_bind, Hactive, Hdead, Hmap, Hj.
  cbn [elements].
  change (l ← toString (Str "127.0.0.1:18088"); t ← toString (number 1);
    Some ("Leader: " +:+ l +:+ " (Term " +:+ t +:+ ")")) with (Some "Leader: 127.0.0.1:18088 (Term 1)").
  change (toString (Str "127.0.0.1:18088")) with (Some "127.0.0.1:18088").
  change (toString (number 1)) with (Some "1").
  writes. rewrite count_shown, (countJobs_having located mux_redirect), lift_bind by done. writes.
  rewrite put_complete by (whole || listed). done.
Qed.

(** Everything a poll writes, given the controls of the console. *)
Definition display st (query chosen : string) : list (string * content) :=
  overview st ++
  [("leases-table", Html (muted "No active execution leases held on active Raft leader"));
   ("nodes-list-table", Html (listing "No active worker nodes registered"
      ["ID"; "Address"; "Status"; "Topics"; "Last Heartbeat"]
      (node_line located <$> Manager.Nodes (manager st))));
   ("cron-list-table", Html (listing "No recurring cron schedules registered"
      ["ID"; "Schedule"; "Job Type"; "Priority"; "Next Run"] (cron_line located <$> schedules st)));
   ("job-console-table", Html (console located query chosen (Store.List (store st))));
   ("prometheus-raw", Text (GoStrings.of_bytes (Content metrics_page)))].

Lemma nodes_shown s ns :
  Dashboard.nodes s = Array (node_value located <$> ns) →
  nodes_html s = Some (listing "No active worker nodes registered"
    ["ID"; "Address"; "Status"; "Topics"; "Last Heartbeat"] (node_line located <$> ns)).
Proof.
  intros Hs. unfold nodes_html. rewrite Hs. cbn [is_empty elements]. binds.
  rewrite (rows_shown _ (node_line located)) by (apply Forall_forall; intros; apply node_row_shown).
  by destruct ns.
Qed.

Lemma crons_shown s cs :
  Dashboard.crons s = Array (cron_value located <$> cs) →
  crons_html s = Some (listing "No recurring cron schedules registered"
    ["ID"; "Schedule"; "Job Type"; "Priority"; "Next Run"] (cron_line located <$> cs)).
Proof.
  intros Hs. unfold crons_html. rewrite Hs. cbn [is_empty elements]. binds.
  rewrite (rows_shown _ (cron_line located)) by (apply Forall_forall; intros; apply cron_row_shown).
  by destruct cs.
Qed.

Lemma render_shown s js p : complete p → Forall (λ j, known_status (JStatus j) = true) js →
  Dashboard.jobs s = Array (job_value located <$> js) →
  renderJobConsole s p = (set p ("job-console-table", Html (console located (query p) (chosen p) js)), Some tt).
Proof.
  intros Hp Hk Hs. unfold renderJobConsole. rewrite (console_shown located _ _ _ js) by done.
  apply withContainer_complete; [done|listed].
Qed.

Lemma fetch_metrics st : metricsRes (settle st) = Some (GoStrings.of_bytes (Content metrics_page)).
Proof. reflexivity. Qed.

(** The cache after a poll. *)
Lemma stored_shown st s : raft st = false → encodable st →
  ∃ cs, stored (settle st) s = Dashboard.mkState (status_value cs) raft_value
      (Array (job_value located <$> Store.List (store st))) (Object [])
      (Array (node_value located <$> Manager.Nodes (manager st))) (Array (cron_value located <$> schedules st)) ∧
    ActiveNodes cs = live (Manager.Nodes (manager st)) ∧
    DeadNodes cs = Z.of_nat (length (Manager.Nodes (manager st))) - live (Manager.Nodes (manager st)).
Proof.
  intros Hr ([vj Hj] & [vn Hn] & [vc Hc]). destruct (fetch_status st Hr) as (cs & Hs & Ha & Hd).
  exists cs. rewrite Ha, Hd, countNodes_live. split; [|simpl; lia].
  unfold stored, settle. cbn [statusRes raftRes jobsRes leasesRes nodesRes cronsRes].
  rewrite Hs, (fetch_raft _ Hr), (fetch_jobs _ _ Hj), fetch_leases, (fetch_nodes _ _ Hn), (fetch_crons _ _ Hc).
  done.
Qed.

(** C34. The dashboard shows the node: in every reachable configuration of a
    standalone node without authorization, a poll over the server's answers
    raises no exception and leaves on a page that has the elements, whatever it
    showed before, the number of jobs per status, the live and the dead workers,
    every worker and schedule, and of the jobs exactly those the console's
    controls select. *)
Theorem dashboard_shows_node c p s :
  reachable c → encodable (shared c) → complete p →
  Z.of_nat (length (Manager.Nodes (manager (shared c)))) ≤ maxSafeInteger →
  let r := settle (shared c) in
  refresh r (stored r s) p = (written (display (shared c) (query p) (chosen p)) p, Some tt) ∧
  (fetchTelemetry r s p).2 = written (display (shared c) (query p) (chosen p)) p.
Proof.
  intros Hc He Hp Hn r. unfold fetchTelemetry, caught. cbn [fst snd].
  enough (Hrun : refresh r (stored r s) p = (written (display (shared c) (query p) (chosen p)) p, Some tt))
    by (by rewrite Hrun). revert r. cbv zeta.
  destruct (reachable_core c Hc) as (a & h & Hcore).
  destruct (stored_shown (shared c) s (c_raft _ _ _ Hcore) He) as (cs & Hs & Ha & Hd).
  assert (Hk : Forall (λ j, known_status (JStatus j) = true) (Store.List (store (shared c)))).
  { rewrite (Store.List_spec _ _ (c_rel _ _ _ Hcore)). apply Forall_forall.
    intros j ([id j'] & -> & Hj%elem_of_map_to_list)%list_elem_of_fmap. by apply (c_good _ _ _ Hcore id). }
  rewrite Hs. set (s1 := Dashboard.mkState _ _ _ _ _ _).
  unfold refresh, updateLeasesUI, updateNodesUI, updateCronUI.
  rewrite (done_bind _ _ _ _ _ (overview_shown (shared c) cs s1 p Hp Hn Hk eq_refl Ha Hd eq_refl eq_refl eq_refl)).
  pose proof (complete_written (overview (shared c)) p Hp) as Hp1.
  destruct (written_controls (overview (shared c)) p) as [Hq Hf]. set (p1 := written _ p) in *.
  change (leases_html s1) with (Some (muted "No active execution leases held on active Raft leader")).
  rewrite (nodes_shown s1 (Manager.Nodes (manager (shared c))) eq_refl).
  rewrite (crons_shown s1 (schedules (shared c)) eq_refl).
  do 3 erewrite done_bind by (apply withContainer_complete; [whole|listed]).
  erewrite done_bind by (apply render_shown; [whole|exact Hk|reflexivity]).
  rewrite fetch_metrics, present_put by (whole || listed). unfold display. rewrite <-written_app. fold p1.
  unfold query, chosen. cbn [search statusFilter set]. by rewrite Hq, Hf.
Qed.
End Open.

(** ** With authorization enabled *)
Section Closed.
Context (Hauth : Config.AuthEnabled cfg = true).

(** What every request of the script is answered with. *)
Definition denied : value :=
  Object [("error", Str "Unauthorized"); ("message", Str "missing Authorization header")].

Lemma closed_viewer next path st :
  run env (requireViewer cfg next (request path)) st =
    (Returned (writeAuthError 401 "missing Authorization header"), st).
Proof. unfold requireViewer. by rewrite run_requireRoles. Qed.

Ltac refused R :=
  eapply fetch_respond; [to_route R; apply closed_viewer|wf_object|unfold denied; json_fields].

Lemma stored_denied st s : stored (settle st) s = Dashboard.mkState denied denied denied denied denied denied.
Proof.
  assert (Hs : fetch st "/cluster/status" ≫= json = Some denied) by (refused RClusterStatus).
  assert (Hr : fetch st "/cluster/raft" ≫= json = Some denied) by (refused RRaft).
  assert (Hj : fetch st "/jobs" ≫= json = Some denied) by (refused RJobs).
  assert (Hl : fetch st "/jobs/leases" ≫= json = Some denied) by (refused RLeases).
  assert (Hn : fetch st "/cluster/nodes" ≫= json = Some denied) by (refused RClusterNodes).
  assert (Hc : fetch st "/cron" ≫= json = Some denied) by (refused RCron).
  unfold stored, settle. cbn [statusRes raftRes jobsRes leasesRes nodesRes cronsRes].
  by rewrite Hs, Hr, Hj, Hl, Hn, Hc.
Qed.

(** What such a poll still writes. *)
Definition guesses : list (string * content) :=
  [("nav-leader-id", Text "Leader: node-1 (Term 1)"); ("ov-leader-node", Text "node-1");
   ("ov-raft-term", Text "1"); ("ov-active-workers", Text "0"); ("ov-dead-workers", Text "0");
   ("ov-active-leases", Text "2")].

Lemma overview_denied p : complete p →
  updateOverviewUI (Dashboard.mkState denied denied denied denied denied denied) p = (written guesses p, None).
Proof.
  intros Hp. set (s := Dashboard.mkState _ _ _ _ _ _).
  assert (Hl : leaderId s = Some (Str "node-1")) by done.
  assert (Ht : term s = Some (number 1)) by done.
  assert (Hm : leasesMap s = Some denied) by done.
  unfold updateOverviewUI. rewrite Hl, lift_bind, Ht, lift_bind, Hm.
  change (x ← field_or (Dashboard.status s) "active_nodes" (Some zero); toString x) with (Some "0").
  change (x ← field_or (Dashboard.status s) "dead_nodes" (Some zero); toString x) with (Some "0").
  change (l ← toString (Str "node-1"); t ← toString (number 1);
    Some ("Leader: " +:+ l +:+ " (Term " +:+ t +:+ ")")) with (Some "Leader: node-1 (Term 1)").
  change (toString (Str "node-1")) with (Some "node-1"). change (toString (number 1)) with (Some "1").
  writes. done.
Qed.

(** C38. With authorization enabled no poll succeeds: the script sends no token,
    takes the bodies of the 401 answers for data and throws where it would count
    the jobs; it has by then written a leader, no workers and two leases, none
    of which the node said, and everything else stays as it was. *)
Theorem dashboard_without_token st p s :
  complete p →
  let r := settle st in
  refresh r (stored r s) p = (written guesses p, None) ∧
  (∀ id, id ∉ guesses.*1 → element (fetchTelemetry r s p).2 !! id = element p !! id).
Proof.
  intros Hp r. unfold fetchTelemetry, caught. cbn [fst snd].
  assert (Hrun : refresh r (stored r s) p = (written guesses p, None)).
  { unfold r. rewrite stored_denied. unfold refresh.
    unfold mbind at 1, script_bind at 1. by rewrite overview_denied. }
  split; [done|]. intros id Hid. rewrite Hrun. by apply written_other.
Qed.
End Closed.
End Poll.

(** ** Tabs *)

(** The page with one tab open. *)
Definition opened (b : string) : tabs :=
  mkTabs ((λ t, (t, bool_decide (t = b))) <$> names) ((λ t, ("tab-" +:+ t, bool_decide (t = b))) <$> names).

Lemma click_opened b i : b ∈ names → click i (opened b) = opened (default b (names !! i)).
Proof.
  intros Hb. destruct (decide (i < 12)%nat) as [Hi|Hi].
  - assert (Hall : Forall (λ b', Forall (λ k, click k (opened b') = opened (default b' (names !! k))) (seq 0 12)) names)
      by (unfold names at 2; repeat constructor).
    rewrite Forall_forall in Hall. specialize (Hall b Hb). rewrite Forall_forall in Hall.
    apply Hall, elem_of_seq. lia.
  - unfold click. cbn [buttons opened]. rewrite list_lookup_fmap.
    rewrite lookup_ge_None_2 by (simpl; lia). done.
Qed.

(** Exactly one tab is open: after any clicks on the page's buttons, one of
    the twelve buttons is active, and the pane of its name is the only visible
    one. *)
Theorem tabs_exclusive clicks :
  ∃ b, b ∈ names ∧ foldl (λ t i, click i t) index_html clicks = opened b.
Proof.
  assert (Hgen : ∀ b, b ∈ names → ∃ b', b' ∈ names ∧ foldl (λ t i, click i t) (opened b) clicks = opened b').
  { induction clicks as [|i l IH]; intros b Hb; [by exists b|]. cbn [foldl]. rewrite click_opened by done.
    apply IH. destruct (names !! i) as [x|] eqn:Hx; [|done]. by eapply list_elem_of_lookup_2. }
  apply (Hgen "overview"). left.
Qed.

(** ** The failover simulator *)

(** The states of the simulator: at rest, before or after a run; waiting for the
    answer; with [k] steps lit. *)
Inductive sim_ok : simulator → Prop :=
  | sim_rest (lit : bool) : sim_ok (mkSimulator false rest_label (replicate 6 lit) false [])
  | sim_waiting : sim_ok (mkSimulator true busy_label (replicate 6 false) true [])
  | sim_running k : (k < 6)%nat →
      sim_ok (mkSimulator true busy_label (replicate k true ++ replicate (6 - k) false) false (seq k (6 - k))).

Lemma sim_step_ok s e : sim_ok s → sim_ok (sim_step s e).
Proof.
  intros [lit| |k Hk]; destruct e as [|a|]; try (constructor; done).
  - apply (sim_running 0). lia.
  - destruct k as [|[|[|[|[|[|k]]]]]]; [apply (sim_running 1); lia|apply (sim_running 2); lia|
      apply (sim_running 3); lia|apply (sim_running 4); lia|apply (sim_running 5); lia|apply (sim_rest true)|lia].
Qed.

(** The simulator reports success whatever the server answers: from every
    state it can be in, once the answer is there (a refusal and a network error
    included) six timers light every step, the last one the resumed dispatch,
    and give the button back. *)
Theorem simulator_ignores_answer events answer :
  let s := foldl sim_step idle events in
  waiting s = true →
  foldl sim_step s (Settle answer :: replicate 6 Timer) =
    mkSimulator false rest_label (replicate 6 true) false [].
Proof.
  intros s. assert (Hs : sim_ok s).
  { subst s. generalize (sim_rest false). fold idle. generalize idle as s.
    induction events as [|e es IH]; intros s Hs; [done|]. cbn [foldl]. by apply IH, sim_step_ok. }
  by destruct Hs.
Qed.

(** ** The topology *)

Section Topology.
Context `{Js.Engine} (located : Time → Z).

Definition worker_color (ns : list Manager.NodeSnapshot) (i : nat) : string :=
  match ns !! i with
  | Some nd => if Manager.NodeAlive nd then "#10b981" else "#ef4444"
  | None => "#10b981"
  end.

Lemma isAlive_shown ns i :
  isAlive (node_value located <$> ns) i = Some (match ns !! i with Some nd => Manager.NodeAlive nd | None => true end).
Proof.
  unfold isAlive. rewrite list_lookup_fmap. destruct (ns !! i) as [nd|]; [|done]. cbn. by destruct (Manager.NodeAlive nd).
Qed.

(** The drawing has one circle for each registered worker, red for a dead
    one, and green circles for workers that do not exist when there are fewer
    than three. *)
Theorem topology_shown width ns :
  ∃ shapes, drawTopology width (node_value located <$> ns) = Some shapes ∧
    omap (λ x, match x with Circle _ y _ color text => if y =? 280 then Some (text, color) else None | _ => None end)
      shapes =
    (λ i, ("Worker-" +:+ GoStrings.Itoa (Z.of_nat i + 1), worker_color ns i))
      <$> seq 0 (Nat.max (length ns) 3).
Proof.
  unfold drawTopology.
  assert (Hn : Z.to_nat (workerCount (node_value located <$> ns)) = Nat.max (length ns) 3).
  { unfold workerCount. rewrite length_fmap. lia. }
  rewrite Hn. set (f := worker_shapes width _).
  assert (Hm : ∃ ws, mapM f (seq 0 (Nat.max (length ns) 3)) = Some ws ∧
    omap (λ x, match x with Circle _ y _ color text => if y =? 280 then Some (text, color) else None | _ => None end)
      (concat ws) = (λ i, ("Worker-" +:+ GoStrings.Itoa (Z.of_nat i + 1), worker_color ns i))
      <$> seq 0 (Nat.max (length ns) 3)).
  { generalize (seq 0 (Nat.max (length ns) 3)) as l. induction l as [|i l (ws & Hw & IH)]; [by exists []|].
    cbn [mapM]. destruct (f i) as [sh|] eqn:Ef; unfold f, worker_shapes in Ef; rewrite isAlive_shown in Ef; [|done].
    injection Ef as <-. cbn [mbind option_bind]. rewrite Hw.
    eexists. split; [reflexivity|]. cbn [concat app omap list_omap]. rewrite fmap_cons, <-IH.
    unfold worker_color. by destruct (ns !! i) as [nd|]; [destruct (Manager.NodeAlive nd)|]. }
  destruct Hm as (ws & -> & Hws). eexists. split; [reflexivity|]. exact Hws.
Qed.
End Topology.

(** ** The event log *)

Section Events.
Context `{Js.Engine} (located : Time → Z).

Definition event_color (t : Events.EventType) : string :=
  match t with
  | Events.EventFailoverTriggered | Events.EventWorkerEvicted => "text-danger"
  | Events.EventDispatchResumed | Events.EventWorkerRegistered => "text-success"
  | Events.EventLeaderChanged | Events.EventQueueRebuilt => "text-warning"
  | _ => "text-info"
  end.

Definition event_value (name message : string) (t : Time) : value :=
  Object [("type", Str (Utf8.Sanitize name)); ("message", Str (Utf8.Sanitize message));
          ("timestamp", time_value located t)].

(** An event of the server becomes a line of the log: the data of a record
    the event stream writes is read back, and a line with its type, its message
    and the color of its type is added; nothing else of the page changes. *)
Theorem event_logged now ty message t v p :
  event_json located (event_name ty) message t = Some v →
  let line := span "text-muted" ("[" +:+ localeTime (or (time_value located t) (number now)) +:+ "]") +:+ " " +:+
              span (event_color ty) (event_name ty +:+ ":") +:+ " " +:+ Utf8.Sanitize message in
  onmessage now (Json.print v) p = mkPage (element p) (search p) (statusFilter p) (log p ++ [line]).
Proof.
  intros Hv line. unfold onmessage. enough (Hl : event_line now (Json.print v) = Some line) by (by rewrite Hl).
  pose proof Hv as (x & Hx & <-%(inj Some))%bind_Some.
  assert (Hd : of_json (Json.JObj [(str "type", Codec.jstring (event_name ty)); (str "message", Codec.jstring message);
    (str "timestamp", x)]) = Some (event_value (event_name ty) message t)).
  { apply of_json_fields. unfold event_value.
    repeat (constructor;
      [split_and!; [reflexivity|reflexivity|first [apply of_json_jstring | by apply of_json_time]]|]). constructor. }
  unfold event_line, json. rewrite Json.parse_print_id.
  2: { cbn [Json.wf foldr fst snd]. split_and!;
       first [done | apply Codec.wf_jstring | by eapply Codec.wf_jtime]. }
  binds. rewrite Hd. binds. unfold event_value, text_of. reading.
  assert (Ht : dateText (or (time_value located t) (number now)) =
    Some (localeTime (or (time_value located t) (number now)))).
  { destruct (time_cases located t) as [[y ->]| ->]; unfold or; simpl; try case_bool_decide; done. }
  rewrite Ht. binds. cbn [toString]. binds. subst line. by destruct ty.
Qed.
End Events.

(** ** Text in the console *)

#[local] Instance append_assoc : Assoc (=) String.append.
Proof. intros x y z. induction x as [|c x IH]; [done|]. exact (f_equal (String c) IH). Qed.

Definition inside (x y : string) : Prop := ∃ a b, y = a +:+ x +:+ b.

Lemma inside_app a b x y : inside x y → inside x (a +:+ y +:+ b).
Proof.
  intros (c & d & ->). exists (a +:+ c), (d +:+ b). by rewrite <-!(assoc_L String.append).
Qed.

Lemma inside_concat x y l : y ∈ l → inside x y → inside x (foldr String.append "" l).
Proof.
  intros Hy Hx. induction Hy as [y l|y z l Hz IH]; cbn [foldr].
  - by apply (inside_app "" (foldr String.append "" l)).
  - destruct (IH Hx) as (a & b & ->). exists (z +:+ a), b. by rewrite (assoc_L String.append).
Qed.

Lemma inside_cell x cells : x ∈ cells → inside x (row cells).
Proof.
  intros Hx. unfold row. apply inside_app. apply (inside_concat x (cell x)).
  - by apply list_elem_of_fmap_2.
  - exists (nl +:+ "      <td>"), "</td>". unfold cell. by rewrite (assoc_L String.append).
Qed.

(** The console does not escape: the type of every job it shows, any text a
    client submitted, is in the markup of the table as it stands, tags
    included. *)
Theorem console_unescaped `{Js.Engine} located query chosen js j :
  j ∈ js → selected query chosen j = true →
  inside (Utf8.Sanitize (JType j)) (console located query chosen js).
Proof.
  intros Hj Hs. unfold console, listing.
  assert (Hl : job_line located j ∈ job_line located <$> filter (λ j, selected query chosen j = true) js)
    by (apply list_elem_of_fmap_2, list_elem_of_filter; done).
  destruct (job_line located <$> _) as [|l ls] eqn:E; [by apply elem_of_nil in Hl|]. rewrite <-E in *.
  unfold table. rewrite !(assoc_L String.append), <-(assoc_L String.append _ _ "</tbody></table>").
  apply inside_app, (inside_concat _ _ _ Hl), inside_cell. right. left.
Qed.

(** ** On a node with the in-memory store *)
Section Witnesses.
#[local] Existing Instance canonical_range.

(** An engine that shows times as they are sent. *)
#[local] Instance plain_engine : Js.Engine := {|
  number_text := GoStrings.of_bytes;
  number_zero := λ _, false;
  toLowerCase := λ x, x;
  localeTime := λ v, match v with Str x => x | _ => "Invalid Date" end
|}.

#[local] Abbreviation polled cfg :=
  (settle utc false (λ _, Server.page) Server.page 301 quiet cfg 0 "a" (shared node)).

Lemma dashboard_shows_node_witness :
  let p := (fetchTelemetry (polled open_cfg) initial index_page).2 in
  element p !! "ov-pending-jobs" = Some (Text "3") ∧ element p !! "ov-active-leases" = Some (Text "0") ∧
  element p !! "ov-completed-jobs" = Some (Text "0").
Proof.
  assert (He : encodable utc false (shared node)) by (vm_compute; repeat split; by eexists).
  destruct (dashboard_shows_node utc false (λ _, Server.page) Server.page 301 quiet open_cfg 0 "a" eq_refl
    node index_page initial demo_reachable He index_complete) as [_ Hp]; [by vm_compute|].
  cbv zeta. rewrite Hp. vm_compute. exact (conj eq_refl (conj eq_refl eq_refl)).
Defined.

Lemma dashboard_without_token_witness :
  refresh (polled secured) (stored (polled secured) initial) index_page = (written guesses index_page, None).
Proof.
  exact (proj1 (dashboard_without_token utc false (λ _, Server.page) Server.page 301 quiet secured 0 "a" eq_refl
    (shared node) index_page initial index_complete)).
Defined.

Lemma simulator_ignores_answer_witness :
  foldl sim_step (foldl sim_step idle [Click]) (Settle (Some 403) :: replicate 6 Timer) =
    mkSimulator false rest_label (replicate 6 true) false [].
Proof. apply (simulator_ignores_answer [Click] (Some 403)). reflexivity. Defined.

Lemma event_logged_witness : ∃ line,
  onmessage 0 (Json.print (default Json.JNull (event_json utc (event_name Events.EventLeaderChanged) "m" time_zero)))
    index_page = mkPage (element index_page) (search index_page) (statusFilter index_page) [line].
Proof.
  assert (Hv : ∃ v, event_json utc (event_name Events.EventLeaderChanged) "m" time_zero = Some v)
    by (eexists; reflexivity).
  destruct Hv as [v Hv]. rewrite Hv. eexists.
  exact (event_logged utc 0 Events.EventLeaderChanged "m" time_zero v index_page Hv).
Defined.

(** A job that never waited is shown with a time. *)
Example zero_time_shown : nextRun (time_value utc (NextRunAt (NewJob 1 "email" 5))) = Some "0001-01-01T00:00:00Z".
Proof. vm_compute. reflexivity. Qed.

Lemma console_unescaped_witness :
  inside "<img src=x onerror=alert(1)>" (console utc "" "ALL" [NewJob 1 "<img src=x onerror=alert(1)>" 5]).
Proof.
  exact (console_unescaped utc "" "ALL" [NewJob 1 "<img src=x onerror=alert(1)>" 5]
    (NewJob 1 "<img src=x onerror=alert(1)>" 5) ltac:(left) eq_refl).
Defined.
End Witnesses.

End DashboardSpec.
